(* ===== verification/_CoqProject ===== *)
-Q . S2P
Prelude.v
GoBase.v
Sha256.v
Utf8.v
Json.v
Types.v
Scope.v
Config.v
Auth.v
Ring.v
State.v
Push.v
Inbox.v
Observe.v
Structure.v
Sweep.v
SweepSpec.v
Conversations.v
Agents.v
Wakeup.v
History.v
Send.v
SendSpec.v
Poll.v
Lifecycle.v
Queries.v
System.v
Scenario.v
RunProps.v
SendProps.v
InboxProps.v
SweepProps.v
LifecycleProps.v
AccessProps.v
PushProps.v
Manifest.v
ManifestProps.v
Persistent.v
PersistentProps.v
Text.v
Rfc3339.v
Sqlite.v
Schema.v
Delivery.v
SqliteStore.v
Ledger.v
SqliteSystem.v
SqliteProps.v
SqliteReads.v
SqliteExamples.v
Background.v
PollEnds.v
Migrate.v
MigrateSpec.v
MigrateProps.v
Nsmigrate.v
NsmigrateSpec.v
NsmigrateProps.v
Compare.v
CompareProps.v
Configutil.v
Http.v
Handlers.v
HttpStore.v
HttpSqlite.v
HttpProps.v
Responses.v
Client.v
ClientProps.v
Watch.v
WatchProps.v
Flags.v
Commands.v
CommandsProps.v
Compact.v
Tools.v
ToolsProps.v
Synthetic.v
SyntheticProps.v
Rehearsal.v
