(* ===== verification/Prelude.v ===== *)
(** * Pinakes: a model of the agent bus

    Pinakes is a message bus for agents written in Go.  Its core is the type
    [Store] of [src/pkg/bus/store.go]: a mutex-protected collection of maps with
    agents, conversations, messages, one inbox per agent, a ring of observer
    events, idempotency receipts and a bounded push queue.  Everything else in
    the repository wraps it: [sqlite.go] and [sqlite_delivery.go] persist what it
    accepts, [persistent.go] snapshots it, [migrate.go] takes a snapshot to SQLite,
    [httpapi] serves it, [busclient] and [cmd] call it.

    This development models the in-memory [Store] in full, with the parts it
    rests on: [types.go], [errors.go], [scope.go], the defaulting and validation
    of [NewStore].  Around it, it models the SQLite store of [sqlite.go] and
    [sqlite_delivery.go], which has a durable ledger of deliveries, cursors and
    receipts, the snapshot store of [persistent.go] and the migration of
    [migrate.go] from the one to the other, the HTTP layer of
    [pkg/httpapi] over any store behind [bus.API], the client of
    [pkg/busclient], the value parsers of [internal/configutil], the namespace
    migration of [internal/nsmigrate] with its comparison and its fabricated
    databases, the compaction of [compact.go], and the commands of [cmd], the bus
    process among them.

    ** How the code is represented

    - A method that takes the lock is a function from the store to the store and
      the results; a method that waits ([PollInbox], [ObserveSince]) is a
      critical section run once per wake-up, so other calls interleave between
      its iterations.  [System.step] runs any operation at a time that does not
      go back; [System.reachable] are the states such runs reach from the empty
      store.
    - [time.Time] is an integer count of nanoseconds since the zero instant, so
      [IsZero] is [t = 0]; [time.Duration] and the counters are [int64] with
      their wrap-around written out; [Sub] saturates as Go's does.
    - A Go map is a [gmap].  Go ranges over maps in an unspecified order: where
      the order can show, it is an argument that enumerates the keys
      ([Prelude.enumerates], [Sweep.Order]).
    - Strings are byte strings; [TrimSpace], [Cut], [Split], [ToLower] and the
      decimal formats are defined on bytes.  [TrimSpace] knows the white space
      of Unicode by its UTF-8 encodings; [ToLower] acts on ASCII letters, which
      is all its callers can tell.
    - Channels are numbered, and the ones closed are recorded with a flag that a
      second close raises, which is where Go would panic ([State.Channels]).
    - JSON payloads are a tree ([Json.json]); [Json.marshal_size] is the length
      of their encoding, which the byte budgets count.
    - SHA-256 is computed ([Sha256.Sum256]), with the constants derived from the
      primes as the standard defines them.
    - The SQLite tables are finite maps from primary keys to rows
      ([Sqlite.Tables]); a statement is a function on the tables with the
      constraints of the schema, a transaction restores them unless it commits.
      Every call of the engine may fail, and rows may end early, as an argument
      says ([Sqlite.Faults]).  Timestamps are the texts the columns hold,
      formatted, parsed and compared byte by byte ([Rfc3339]).
    - Code outside the repository or below the store is an argument: the commit
      barrier of the in-memory operations (any function of the acceptance or the
      message to an error or a receipt, of which the SQLite barrier is one), the
      outcome of each HTTP attempt of a
      push ([Push.Attempt]), the clock, the JSON and CSV codecs, the calls of
      the operating system that can fail ([Persistent.Faults]), the network
      between client and server.  Where a theorem needs a law of such an
      argument, the law is a hypothesis with the documented behaviour, such as
      [Persistent.reads_back], and the theorem's witness has an instance of it.

    ** The files

    - [Prelude]: notations, the [result] type, tactics, list and map lemmas.
    - [GoBase]: machine integers, time, strings and formats.  [Sha256], [Json],
      [Utf8] (and hexadecimal); [Text]: [strconv.ParseInt], query strings and
      their encoding.
    - [Types]: the records, enumerations and errors of [types.go], [errors.go].
    - [Scope]: the pure functions of [scope.go].  [Config]: [Config] and the
      checks and defaults of [NewStore].  [Auth]: the authorization methods, with
      the policy they implement, [Auth.may_access].
    - [Ring]: the eviction loop inboxes and the observer ring share, over the
      interface [Ring.Sized].
    - [State]: the record [Store] and its setters.
    - [Push]: the bounded queue, the delivery loop, the pool and its shutdown.
    - [Inbox], [Observe]: the two event buffers and their broadcast channels.
      [Inbox.represents] is the abstraction: the log of everything delivered to
      an agent, of which the inbox is a suffix.
    - [Structure]: the invariant of the maps, and how one message may evolve.
    - [Sweep]: [sweepLocked] and [pruneLocked].  [SweepSpec]: their outcome entry
      by entry, independent of the iteration order.
    - [Conversations], [Agents], [Send], [Poll], [Lifecycle], [Queries]: the
      operations.  [SendSpec]: what the two phases of a send establish, and every
      field of the store after an accepted one.
    - [Wakeup]: what a waiter may rely on.  [History]: what every operation
      guarantees relative to the state before it, [History.step_ok].
    - [System]: the operations as one transition relation, and the proof that
      every step satisfies [History.step_ok].
    - [Scenario]: a configuration and concrete runs for the examples.
    - [RunProps], [SendProps], [InboxProps], [SweepProps], [LifecycleProps],
      [AccessProps], [PushProps]: the properties.
    - [Manifest], [ManifestProps]: parsing, writing and inverting the manifest of
      the namespace migration.
    - [Persistent], [PersistentProps]: snapshots, the atomic replacement of the
      state file, loading, the wrappers that persist after each mutation.
    - [Rfc3339]: the calendar, formatting, parsing and textual order of
      timestamps.  [Sqlite]: rows, tables, the database monad, saving, loading,
      retention, secrets.  [Delivery]: [sqlite_delivery.go]: the two barriers,
      push receipts and claims, the durable inbox, the upgrade of old files.
      [SqliteStore]: the operations of the store, opening and closing it.
    - [Ledger]: the invariant of the tables, what every call keeps, and a small
      logic to prove it statement by statement.  [SqliteSystem]: every call, the
      background loops, crashes and restarts as one transition relation.
      [SqliteProps], [SqliteReads]: the properties.  [SqliteExamples]: runs that
      lose something.
    - [Schema]: the columns of an older file and their upgrade.  [Background]:
      the prune loop and the delivery loop.
    - [PollEnds]: the termination of the long polls of every store.
    - [Migrate], [MigrateSpec], [MigrateProps]: the import of a snapshot, the
      tables it writes, and what a bus finds in them.
    - [Nsmigrate]: a run of the namespace migration over the tables, its plan and
      its report.  [NsmigrateSpec]: the renaming it is to carry out, as one
      function on identities, and each statement as a part of it;
      [NsmigrateProps]: the properties.  [Compare], [CompareProps]: the logical
      comparison of two databases.
    - [Configutil]: comma-separated lists and identity digests.
    - [Http]: requests, responses, credentials, allowlists, the interface
      [Http.API] of the store and the multiplexer of [net/http] as the server
      uses it; [Handlers]: the handlers and the patterns they are registered under;
      [HttpStore], [HttpSqlite]: the in-memory, the snapshot and the SQLite store
      as instances of the interface; [HttpProps]: the properties.  [Responses]:
      the types of errors and responses.
    - [Client], [ClientProps]: the client, and the client against the server.
    - [Watch], [WatchProps]: the watcher that reloads the allowlist.
    - [Flags]: Go's command-line flags.  [Commands], [CommandsProps]: the bus
      process, from the environment to a served store and its shutdown.
      [Compact]: compaction and its command.  [Tools], [ToolsProps]: the migration
      commands.  [Synthetic], [SyntheticProps]: fabricated databases and their
      command.  [Rehearsal]: the strict-mode rehearsal.

    ** What the theorems show

    - Runs ([RunProps]): every reachable state is well-formed; a request is
      accepted at most once; messages only move forward; identifiers are not
      reused; no wake-up is lost; no channel is closed twice.
    - Sends and injections ([SendProps]): the effect of an accepted send on every
      field of the store, no effect of failure, scope isolation, the duplicate
      key, the deadline.  Three
      statements record behaviour the code does not intend: colliding duplicate
      keys, overflowing deadlines, and queued messages that are not requests
      and are never delivered.
    - Buffers ([InboxProps]): consumers that chain cursors see each event once
      and in order, but for those an append evicted before they were read; a poll
      returns exactly the next part of the log; eviction is minimal; the binary
      search of [ObserveSince] is a filter.
    - The sweep ([SweepProps]): what it delivers, that its outcome does not
      depend on map order, that nothing is overdue after it, and what retention
      removes.
    - Acknowledgements and events ([LifecycleProps]): every branch of [ack] and
      [postEvent], and the rate limit.
    - Registration, access and listings ([AccessProps]): server-assigned rights,
      guarded control-plane identities, isolated namespaces, exact and sorted
      listings, paging.
    - Push ([PushProps]): the retry loop is a search for the first decisive
      attempt; the pool is bounded and drains.
    - Manifests ([ManifestProps]): the parser accepts exactly what is written for
      manifests within a declarative contract; undo plans are involutive.
    - Snapshots ([PersistentProps]): whichever call to the file system fails and
      wherever among them the process dies, a persist leaves the earlier or the
      later snapshot and a restart re-establishes every invariant;
      an answered send survives and stays exactly-once across the restart.
    - The SQLite store ([SqliteProps], [SqliteReads]): timestamps survive
      storage and their texts are ordered as the instants but for less than a
      second; an accepted send is in each of the tables, as memory has it, before
      it is answered and a refused one leaves no trace; through engine failures, crashes and restarts
      the ledger stays well-formed, an accepted message stays due until it is
      acknowledged or expires, and a request is accepted once per window; a read
      returns the next due deliveries in order; a push is claimed by one caller
      at a time.  [SqliteExamples] records behaviour the code does not intend.
    - The migration ([MigrateProps]): a bus on the new file knows what the
      snapshot held and offers what its inboxes had still to deliver, and the
      file is there in whole or not at all.  One example loses a message of an
      agent that keeps its cursor.
    - Files and loops: the columns of an older file are added without losing a
      value, and a start that failed is taken up by the next ([Schema]); no claim
      of a push is lost by a tick, a tick without failures claims what is due when
      it is no more than 32, and the loops are runs of the store ([Background]).
    - Waiting ([PollEnds]): every long poll ends at its deadline.
    - The namespace migration ([NsmigrateProps]): a run carries out the manifest
      or changes nothing, whatever fails; its counts are exact; the inverse
      manifest undoes it on a database that it had not been applied to and that
      had no conversation across the private scopes; and the ledger stays
      well-formed.  The comparison is exact on the tables its filter leaves, when
      they hold valid UTF-8 ([CompareProps]).  Examples record plans that a second
      apply reverts, that the undo plan takes back too much of or cannot undo.
    - HTTP ([HttpProps]): every effect of a request on the store is a call the
      request is authorised for; an identity is not taken over without its
      secret.  Two examples record behaviour the code does not intend: two first
      registrations that race, and an allowlist file without entries.  Every
      response has the form of its route, is the multiplexer's own, or is an error
      whose status follows from its code, with 403 for a request that shows no
      credential ([Responses]).  The list of admitted agents is the one the watcher
      read last, whatever is served in between ([WatchProps]).
    - The client ([ClientProps]): a remote poll or send has the effect and the
      result of the call on the store.
    - The process ([CommandsProps]): through any starts that fail, are killed or
      succeed, the upgrade from the state file to the database loses nothing that
      is still to be delivered.
    - The commands ([Compact], [ToolsProps], [SyntheticProps], [Rehearsal]): what
      an exit status of zero stands for, and what each leaves behind.

    ** Bounds and fuel

    Counters are [int64]; runs are bounded by [System.headroom], which asks that
    the identifier counters have not reached [max_int64] before a step.
    [Push.attempt_loop] has as much fuel as attempts are allowed and
    [Push.attempt_loop_spec] shows that it suffices; [Observe.search_loop] has
    one more than the length it searches, [Observe.sort_Search_spec]; eviction
    is structural on the buffer.  A waiting call loops once per wake-up given in
    its list of wake-ups, so it needs no fuel.  Timestamps are exact before
    year 10000 ([Rfc3339.time_ok]), where the layout has four digits for a year.

    ** What is not modelled

    In the SQLite store the pragmas and the vacuum are calls that do not change
    rows; JSON columns hold the values they encode; the parser of timestamps is
    the strict one [time.Parse] tries first.  [SqliteSystem] lets the memory of
    the process change in any way between steps, so what it shows holds for the
    database alone.  Handlers are functions, run one at a time except where
    [HttpProps.first_registrations_race] takes one apart.  Requests are HTTP/1.1.
    Process death is modelled, the loss of what the machine had not yet written to
    its disk is not.  The opaque observe epoch is random
    text and carries no state.  Log lines, usage texts and the delivery of signals
    are left out; so are the test hooks of the SQLite store.  What SQLite does to
    the pages of a file ([Compact.Pager]), the notifications of the file system
    ([Watch.Signal]) and the renderings of [%q], of URLs and of engine errors are
    arguments.

    Left out as well: the handlers of the server interleaved section by section,
    and the durable inbox as a mailbox whose consumer misses nothing. *)

(** ** The prelude

    Notations, tactics and generic lemmas the components share. *)
From stdpp Require Import gmap strings list sorting.
From Stdlib Require Import ZArith Lia.

(** ** Notations *)

Declare Scope bus_scope.
Delimit Scope bus_scope with bus.

(** The empty Go string. *)
Notation "'ε'" := EmptyString (at level 0) : bus_scope.
#[global] Open Scope bus_scope.
#[global] Open Scope Z_scope.

(** A value or an error, as the second component of a Go return pair. *)
Inductive result (E A : Type) : Type :=
| Ok (a : A)
| Err (e : E).
Arguments Ok {E A} a.
Arguments Err {E A} e.

Definition is_ok {E A} (r : result E A) : bool :=
  match r with Ok _ => true | Err _ => false end.

(** [guard c else e ;; k] is the Go idiom [if !c { return e }] followed by [k]. *)
Notation "'guard' c 'else' e ';;' k" :=
  (if (c : bool) then k else Err e)
  (at level 100, c at level 60, e at level 60, right associativity,
   format "'[v' 'guard'  c  'else'  e  ';;' '/' k ']'") : bus_scope.

(** [let? x := r in k] propagates an error of [r]. *)
Notation "'let?' x ':=' r 'in' k" :=
  (match r with Ok x => k | Err e => Err e end)
  (at level 100, x name, r at level 100, k at level 200, right associativity) : bus_scope.

(** ** Automation *)

Create HintDb bus discriminated.

(** Splits a boolean test that blocks the goal or a hypothesis. *)
Ltac case_bool :=
  match goal with
  | |- context [if ?b then _ else _] =>
      match type of b with bool => let E := fresh "Eb" in destruct b eqn:E end
  | H : context [if ?b then _ else _] |- _ =>
      match type of b with bool => let E := fresh "Eb" in destruct b eqn:E end
  end.

(** Turns boolean comparisons in the context into propositions. *)
Ltac prop_bool :=
  repeat match goal with
  | H : andb _ _ = true |- _ => apply andb_true_iff in H; destruct H
  | H : andb _ _ = false |- _ => apply andb_false_iff in H
  | H : orb _ _ = false |- _ => apply orb_false_iff in H; destruct H
  | H : orb _ _ = true |- _ => apply orb_true_iff in H
  | H : negb _ = true |- _ => apply negb_true_iff in H
  | H : negb _ = false |- _ => apply negb_false_iff in H
  | H : (_ <? _) = true |- _ => apply Z.ltb_lt in H
  | H : (_ <? _) = false |- _ => apply Z.ltb_ge in H
  | H : (_ <=? _) = true |- _ => apply Z.leb_le in H
  | H : (_ <=? _) = false |- _ => apply Z.leb_gt in H
  | H : (_ =? _) = true |- _ => apply Z.eqb_eq in H
  | H : (_ =? _) = false |- _ => apply Z.eqb_neq in H
  | H : bool_decide _ = true |- _ => apply bool_decide_eq_true in H
  | H : bool_decide _ = false |- _ => apply bool_decide_eq_false in H
  end.

(** ** Lists *)

Section lists.
Context {A B : Type}.
Implicit Types (l : list A).

(** An invariant of the body is an invariant of the loop. *)
Lemma foldl_inv (P : B → Prop) (f : B → A → B) l b :
  P b → (∀ b a, a ∈ l → P b → P (f b a)) → P (foldl f b l).
Proof.
  revert b. induction l as [|a l IH]; intros b Hb Hf; cbn; [done|].
  apply IH; [apply Hf; [left|done]|].
  intros b' a' Ha. apply Hf. by right.
Qed.

(** A relation to the loop's entry state that the body composes with. *)
Lemma foldl_rel (R : B → B → Prop) (f : B → A → B) l b :
  (∀ x, R x x) → (∀ x y z, R x y → R y z → R x z) →
  (∀ b a, a ∈ l → R b (f b a)) → R b (foldl f b l).
Proof.
  intros Hrefl Htrans. revert b.
  induction l as [|a l IH]; intros b Hf; cbn; [done|].
  eapply Htrans; [apply Hf; left|].
  apply IH. intros b' a' Ha. apply Hf. by right.
Qed.

Lemma last_app_snoc l x : last (l ++ [x]) = Some x.
Proof. by rewrite last_snoc. Qed.

Lemma drop_app_snoc n l x : (n ≤ length l)%nat → drop n (l ++ [x]) = drop n l ++ [x].
Proof. intros Hn. by rewrite drop_app_le. Qed.

Lemma StronglySorted_drop (R : relation A) n l :
  StronglySorted R l → StronglySorted R (drop n l).
Proof.
  revert n. induction l as [|x l IH]; intros [|n] Hs; cbn; auto.
  inv Hs. by apply IH.
Qed.

Lemma StronglySorted_snoc (R : relation A) l x :
  StronglySorted R l → Forall (λ y, R y x) l → StronglySorted R (l ++ [x]).
Proof.
  intros Hs. induction Hs as [|y l Hs IH Hy]; intros Hall; cbn.
  - by repeat constructor.
  - inv Hall. constructor; [by apply IH|].
    apply Forall_app; split; [done|]. by constructor.
Qed.

Lemma Forall_drop (P : A → Prop) n l : Forall P l → Forall P (drop n l).
Proof. intros H. by apply Forall_drop. Qed.
End lists.

(** Sums of integers attached to the elements of a list. *)
Definition zsum {A} (f : A → Z) (l : list A) : Z := foldr (λ a s, f a + s) 0 l.

Section zsum.
Context {A : Type} (f : A → Z).
Implicit Types (l : list A).

Lemma zsum_cons a l : zsum f (a :: l) = f a + zsum f l.
Proof. done. Qed.

Lemma zsum_app l1 l2 : zsum f (l1 ++ l2) = zsum f l1 + zsum f l2.
Proof.
  induction l1 as [|a l1 IH]; cbn; [done|].
  change (foldr _ 0 (l1 ++ l2)) with (zsum f (l1 ++ l2)).
  change (foldr _ 0 l1) with (zsum f l1). lia.
Qed.

Lemma zsum_take_drop n l : zsum f (take n l) + zsum f (drop n l) = zsum f l.
Proof. rewrite <-zsum_app. by rewrite take_drop. Qed.

Lemma zsum_nonneg l : (∀ a, 0 ≤ f a) → 0 ≤ zsum f l.
Proof.
  intros Hf. induction l as [|a l IH]; cbn; [done|].
  change (foldr _ 0 l) with (zsum f l). specialize (Hf a). lia.
Qed.
End zsum.

(** ** Finite maps *)

Section maps.
Context `{Countable K} {V : Type}.
Implicit Types (m : gmap K V).

(** A list visits every key of [m] exactly once: the contract of a Go
    [range] over a map, whose order is otherwise unspecified. *)
Definition enumerates (o : list K) m : Prop := NoDup o ∧ ∀ k, k ∈ o ↔ is_Some (m !! k).

#[global] Instance enumerates_dec o m : Decision (enumerates o m).
Proof.
  destruct (decide (NoDup o)) as [Hnd|]; [|right; intros [? _]; done].
  destruct (decide (list_to_set o = dom m)) as [Hd|Hd]; [left|right].
  - split; [done|]. intros k. rewrite <-elem_of_dom, <-Hd. set_solver.
  - intros [_ Hk]. destruct Hd. apply set_eq. intros k.
    rewrite elem_of_list_to_set, elem_of_dom. apply Hk.
Defined.

Lemma enumerates_elements m : enumerates (elements (dom m)) m.
Proof.
  split; [apply NoDup_elements|]. intros k. by rewrite elem_of_elements, elem_of_dom.
Qed.

Lemma enumerates_length o m : enumerates o m → length o = size m.
Proof.
  intros [Hnd Hk]. rewrite <-size_dom, <-(size_list_to_set (C:=gset K) o) by done.
  f_equal. apply set_eq. intros k. by rewrite elem_of_list_to_set, elem_of_dom.
Qed.

Lemma enumerates_dom o m m' : dom m = dom m' → enumerates o m → enumerates o m'.
Proof.
  intros Hd [Hnd Hk]. split; [done|]. intros k.
  by rewrite Hk, <-!elem_of_dom, Hd.
Qed.
End maps.

#[export] Hint Resolve enumerates_elements : bus.
