(* ===== verification/GoBase.v ===== *)
(** * The Go run time the bus relies on

    Fixed-width integers, [time.Time] and [time.Duration], the functions of
    package [strings] the bus calls, and the [fmt] verbs it formats
    identifiers with.  Go strings are byte strings: [string] here. *)
From stdpp Require Import gmap strings list sorting.
From Stdlib Require Import ZArith Lia Ascii SpecFloat.
From S2P Require Import Prelude.

(** ** Integers *)

Definition max_int64 : Z := 2 ^ 63 - 1.
Definition min_int64 : Z := - 2 ^ 63.

(** Two's-complement wrap-around of [int64] arithmetic. *)
Definition wrap64 (z : Z) : Z := (z + 2 ^ 63) mod 2 ^ 64 - 2 ^ 63.

Definition int64_range (z : Z) : Prop := min_int64 ≤ z ≤ max_int64.

Lemma wrap64_id z : int64_range z → wrap64 z = z.
Proof. unfold int64_range, wrap64, min_int64, max_int64. intros. rewrite Z.mod_small; lia. Qed.

Lemma wrap64_range z : int64_range (wrap64 z).
Proof.
  unfold int64_range, wrap64, min_int64, max_int64.
  pose proof (Z.mod_pos_bound (z + 2 ^ 63) (2 ^ 64)). lia.
Qed.

(** [x++] on an [int64]. *)
Definition inc64 (z : Z) : Z := wrap64 (z + 1).

Lemma inc64_lt z : 0 ≤ z < max_int64 → inc64 z = z + 1.
Proof. intros. apply wrap64_id. unfold int64_range, min_int64, max_int64 in *. lia. Qed.

(** ** Time *)

(** Nanoseconds since the zero [time.Time] (January 1, year 1, UTC). *)
Abbreviation Time := Z (only parsing).
Abbreviation Duration := Z (only parsing).

Definition Second : Duration := 10 ^ 9.
Definition Millisecond : Duration := 10 ^ 6.
Definition Hour : Duration := 3600 * Second.

Definition IsZero (t : Time) : bool := t =? 0.
Definition After (t u : Time) : bool := u <? t.
Definition Before (t u : Time) : bool := t <? u.
Definition Add (t : Time) (d : Duration) : Time := t + d.

(** [t.Sub(u)] saturates at the extreme durations. *)
Definition Sub (t u : Time) : Duration := Z.max min_int64 (Z.min max_int64 (t - u)).

(** Seconds from the zero instant to the Unix epoch. *)
Definition unix_epoch : Z := 62135596800.

(** [t.UnixNano()] wraps around. *)
Definition UnixNano (t : Time) : Z := wrap64 (t - unix_epoch * Second).

(** [time.Duration(n) * time.Second] wraps around. *)
Definition seconds (n : Z) : Duration := wrap64 (n * Second).

Lemma Sub_exact t u : int64_range (t - u) → Sub t u = t - u.
Proof. unfold int64_range, Sub. lia. Qed.

Lemma Sub_le t u d : min_int64 ≤ d < max_int64 → Sub t u ≤ d ↔ t - u ≤ d.
Proof. unfold Sub, min_int64, max_int64. lia. Qed.

Lemma Sub_gt t u d : min_int64 ≤ d < max_int64 → d < Sub t u ↔ d < t - u.
Proof. unfold Sub, min_int64, max_int64. lia. Qed.

Lemma seconds_exact n : 0 ≤ n ≤ 9223372036 → seconds n = n * Second.
Proof. intros. apply wrap64_id. unfold int64_range, min_int64, max_int64, Second. lia. Qed.

(** [int(d.Seconds())]: [Duration.Seconds] adds the float64 of the whole
    seconds and the float64 quotient of the remaining nanoseconds by 1e9;
    the conversion to [int] truncates. *)
Definition f64_of_Z (z : Z) : spec_float := binary_normalize 53 1024 z 0 false.

Definition int_of_f64 (f : spec_float) : Z :=
  match f with
  | S754_finite s m e =>
      let v := if e <? 0 then Z.shiftr (Zpos m) (- e) else Z.shiftl (Zpos m) e in
      if s then - v else v
  | _ => 0
  end.

Definition Duration_Seconds (d : Duration) : spec_float :=
  SFadd 53 1024 (f64_of_Z (Z.quot d Second))
    (SFdiv 53 1024 (f64_of_Z (Z.rem d Second)) (f64_of_Z (10 ^ 9))).

Definition int_seconds (d : Duration) : Z := int_of_f64 (Duration_Seconds d).

Example int_seconds_600 : int_seconds (600 * Second) = 600.
Proof. vm_compute. reflexivity. Qed.
Example int_seconds_half : int_seconds (1500 * Millisecond) = 1.
Proof. vm_compute. reflexivity. Qed.

(** ** Strings *)

Definition bytes (s : string) : list ascii := String.list_ascii_of_string s.
Definition of_bytes (l : list ascii) : string := String.string_of_list_ascii l.

Lemma of_bytes_bytes s : of_bytes (bytes s) = s.
Proof. apply String.string_of_list_ascii_of_string. Qed.

Lemma bytes_of_bytes l : bytes (of_bytes l) = l.
Proof. apply String.list_ascii_of_string_of_list_ascii. Qed.

Lemma bytes_inj s1 s2 : bytes s1 = bytes s2 → s1 = s2.
Proof. intros H. by rewrite <-(of_bytes_bytes s1), H, of_bytes_bytes. Qed.

Lemma bytes_app s1 s2 : bytes (s1 +:+ s2) = bytes s1 ++ bytes s2.
Proof.
  induction s1 as [|c s1 IH]; [done|].
  change (String c s1 +:+ s2) with (String c (s1 +:+ s2)). cbn. by f_equal.
Qed.

(** [len(s)] *)
Definition len (s : string) : Z := Z.of_nat (String.length s).

Lemma len_nonneg s : 0 ≤ len s.
Proof. unfold len. lia. Qed.

Definition is_empty (s : string) : bool := bool_decide (s = ε).

Definition byte (c : ascii) : Z := Z.of_N (N_of_ascii c).

(** *** strings.TrimSpace

    [unicode.IsSpace] accepts six one-byte runes, two two-byte runes
    (U+0085, U+00A0) and the three-byte runes U+1680, U+2000 to U+200A,
    U+2028, U+2029, U+202F, U+205F and U+3000; the tests below are on their
    UTF-8 encodings.  A white-space rune is recognised from the left by its
    leading bytes and from the right by its trailing bytes. *)
Definition ascii_space (c : ascii) : bool :=
  let b := byte c in ((9 <=? b) && (b <=? 13)) || (b =? 32).

Definition space2 (c1 c2 : ascii) : bool :=
  (byte c1 =? 0xC2) && ((byte c2 =? 0x85) || (byte c2 =? 0xA0)).

Definition space3 (c1 c2 c3 : ascii) : bool :=
  let b1 := byte c1 in let b2 := byte c2 in let b3 := byte c3 in
  ((b1 =? 0xE1) && (b2 =? 0x9A) && (b3 =? 0x80))
  || ((b1 =? 0xE2) && (b2 =? 0x80)
      && (((0x80 <=? b3) && (b3 <=? 0x8A)) || (b3 =? 0xA8) || (b3 =? 0xA9) || (b3 =? 0xAF)))
  || ((b1 =? 0xE2) && (b2 =? 0x81) && (b3 =? 0x9F))
  || ((b1 =? 0xE3) && (b2 =? 0x80) && (b3 =? 0x80)).

Section trim.
Context (s2 : ascii → ascii → bool) (s3 : ascii → ascii → ascii → bool).

Definition lead_space (l : list ascii) : bool :=
  match l with
  | [] => false
  | c1 :: l1 =>
      ascii_space c1
      || match l1 with
         | [] => false
         | c2 :: l2 =>
             s2 c1 c2 || match l2 with [] => false | c3 :: _ => s3 c1 c2 c3 end
         end
  end.

Fixpoint trim_by (l : list ascii) : list ascii :=
  match l with
  | [] => []
  | c1 :: l1 =>
      if ascii_space c1 then trim_by l1 else
      match l1 with
      | [] => l
      | c2 :: l2 =>
          if s2 c1 c2 then trim_by l2 else
          match l2 with
          | [] => l
          | c3 :: l3 => if s3 c1 c2 c3 then trim_by l3 else l
          end
      end
  end.

Lemma trim_by_ind (P : list ascii → Prop) :
  (∀ l, (∀ l', (length l' < length l)%nat → P l') → P l) → ∀ l, P l.
Proof. intros H l. induction l using (well_founded_induction (well_founded_ltof _ length)). by apply H. Qed.

Lemma lead_space_trim_by l : lead_space (trim_by l) = false.
Proof.
  induction l as [l IH] using trim_by_ind.
  destruct l as [|c1 [|c2 [|c3 l]]]; cbn; [done|..].
  - destruct (ascii_space c1) eqn:E; cbn; [done|]. by rewrite E.
  - destruct (ascii_space c1) eqn:E.
    { apply (IH [c2]). cbn; lia. }
    destruct (s2 c1 c2) eqn:E2; cbn; [done|]. by rewrite E, E2.
  - destruct (ascii_space c1) eqn:E. { apply (IH (c2 :: c3 :: l)). cbn; lia. }
    destruct (s2 c1 c2) eqn:E2. { apply (IH (c3 :: l)). cbn; lia. }
    destruct (s3 c1 c2 c3) eqn:E3. { apply (IH l). cbn; lia. }
    cbn. by rewrite E, E2, E3.
Qed.

Lemma trim_by_id l : lead_space l = false → trim_by l = l.
Proof.
  destruct l as [|c1 [|c2 [|c3 l]]]; cbn; [done|..]; intros H;
    repeat (apply orb_false_iff in H as [? H]);
    repeat match goal with E : _ = false |- _ => rewrite E; clear E end; done.
Qed.

Lemma trim_by_suffix l : trim_by l `suffix_of` l.
Proof.
  induction l as [l IH] using trim_by_ind.
  assert (∀ c l', (length l' < length l)%nat → trim_by l' `suffix_of` c ++ l') as Hs.
  { intros c l' Hl. apply suffix_app_r. by apply IH. }
  destruct l as [|c1 [|c2 [|c3 l]]]; cbn; [done|..];
    (destruct (ascii_space c1);
      [first [apply (Hs [c1] (c2 :: c3 :: l)) | apply (Hs [c1] [c2]) | apply (Hs [c1] [])]; cbn; lia|]);
    try done;
    (destruct (s2 c1 c2);
      [first [apply (Hs [c1; c2] (c3 :: l)) | apply (Hs [c1; c2] [])]; cbn; lia|]);
    try done.
  destruct (s3 c1 c2 c3); [|done]. apply (Hs [c1; c2; c3] l); cbn; lia.
Qed.

(** Absence of a leading space only depends on the first bytes. *)
Lemma lead_space_prefix l l' :
  l `prefix_of` l' → lead_space l' = false → lead_space l = false.
Proof.
  intros [k ->]. destruct l as [|c1 [|c2 [|c3 l]]]; cbn; [done|..]; try done;
    intros H; repeat (apply orb_false_iff in H as [? H]);
    repeat match goal with E : ?x = false |- _ => first [rewrite E | fail 1]; clear E end; done.
Qed.
End trim.

Definition trim_left : list ascii → list ascii := trim_by space2 space3.
Definition trim_right (l : list ascii) : list ascii :=
  rev (trim_by (λ c1 c2, space2 c2 c1) (λ c1 c2 c3, space3 c3 c2 c1) (rev l)).

Definition TrimSpace (s : string) : string := of_bytes (trim_right (trim_left (bytes s))).

Lemma trim_right_prefix l : trim_right l `prefix_of` l.
Proof.
  unfold trim_right.
  destruct (trim_by_suffix (λ c1 c2, space2 c2 c1) (λ c1 c2 c3, space3 c3 c2 c1) (rev l)) as [k Hk].
  exists (rev k). rewrite <-rev_app_distr, <-Hk. by rewrite rev_involutive.
Qed.

Lemma TrimSpace_idemp s : TrimSpace (TrimSpace s) = TrimSpace s.
Proof.
  unfold TrimSpace. rewrite bytes_of_bytes. f_equal.
  set (l := trim_left (bytes s)).
  assert (trim_left (trim_right l) = trim_right l) as ->.
  { apply trim_by_id. eapply lead_space_prefix; [apply trim_right_prefix|].
    apply lead_space_trim_by. }
  unfold trim_right. f_equal. rewrite rev_involutive.
  apply trim_by_id, lead_space_trim_by.
Qed.

(** A string with no surrounding white space. *)
Definition trimmed (s : string) : Prop := TrimSpace s = s.

Lemma TrimSpace_trimmed s : trimmed (TrimSpace s).
Proof. apply TrimSpace_idemp. Qed.
#[export] Hint Resolve TrimSpace_trimmed : bus.

(** *** strings.ToLower

    On ASCII letters.  Lower-casing a non-ASCII rune never yields one of the
    letters of the constants the bus compares the result with (only U+0130
    and U+212A lower to ASCII letters, [i] and [k]), so leaving other bytes
    unchanged decides the same comparisons. *)
Definition lower_byte (c : ascii) : ascii :=
  if (65 <=? byte c) && (byte c <=? 90) then ascii_of_N (N_of_ascii c + 32) else c.

Definition ToLower (s : string) : string := of_bytes (map lower_byte (bytes s)).

(** *** strings.Cut, strings.Contains and strings.Split at a one-byte separator *)
Fixpoint cut_bytes (sep : ascii) (l : list ascii) : list ascii * list ascii * bool :=
  match l with
  | [] => ([], [], false)
  | c :: l =>
      if bool_decide (c = sep) then ([], l, true)
      else let '(before, after, found) := cut_bytes sep l in (c :: before, after, found)
  end.

Definition Cut (s : string) (sep : ascii) : string * string * bool :=
  let '(before, after, found) := cut_bytes sep (bytes s) in
  (of_bytes before, of_bytes after, found).

Definition Contains (s : string) (sep : ascii) : bool := bool_decide (sep ∈ bytes s).

Fixpoint split_bytes (sep : ascii) (l : list ascii) : list (list ascii) :=
  match l with
  | [] => [[]]
  | c :: l =>
      if bool_decide (c = sep) then [] :: split_bytes sep l
      else match split_bytes sep l with
           | [] => [[c]]
           | w :: ws => (c :: w) :: ws
           end
  end.

Definition Split (s : string) (sep : ascii) : list string :=
  map of_bytes (split_bytes sep (bytes s)).

Lemma cut_bytes_spec sep l before after found :
  cut_bytes sep l = (before, after, found) →
  sep ∉ before ∧
  (if found then l = before ++ sep :: after else l = before ∧ after = []).
Proof.
  revert before after found.
  induction l as [|c l IH]; intros before after found; cbn.
  - intros [= <- <- <-]. split; [apply not_elem_of_nil | done].
  - case_bool_decide as Hc.
    + intros [= <- <- <-]. split; [apply not_elem_of_nil | by subst].
    + destruct (cut_bytes sep l) as [[b a] f] eqn:E. intros [= <- <- <-].
      destruct (IH _ _ _ eq_refl) as [Hn Hf]. split.
      { apply not_elem_of_cons. naive_solver. }
      destruct f; [by rewrite Hf | naive_solver].
Qed.

Lemma cut_bytes_app sep b a :
  sep ∉ b → cut_bytes sep (b ++ sep :: a) = (b, a, true).
Proof.
  induction b as [|c b IH]; intros Hb; cbn.
  - by case_bool_decide.
  - apply not_elem_of_cons in Hb as [? Hb].
    rewrite bool_decide_eq_false_2 by done. by rewrite IH.
Qed.

Lemma cut_bytes_none sep l : sep ∉ l → cut_bytes sep l = (l, [], false).
Proof.
  induction l as [|c l IH]; intros Hl; cbn; [done|].
  apply not_elem_of_cons in Hl as [? Hl].
  rewrite bool_decide_eq_false_2 by done. by rewrite IH.
Qed.

Lemma Cut_not_Contains s sep : Contains s sep = false → Cut s sep = (s, ε, false).
Proof.
  unfold Contains, Cut. intros H. apply bool_decide_eq_false in H.
  rewrite cut_bytes_none by done. by rewrite of_bytes_bytes.
Qed.

(** *** fmt.Sprintf with the verbs [%d] and [%06d] *)
Definition digit (n : Z) : ascii := ascii_of_N (Z.to_N (48 + n)).
Definition digit_value (c : ascii) : Z := byte c - 48.

Fixpoint dec_digits (fuel : nat) (n : Z) (acc : list ascii) : list ascii :=
  match fuel with
  | O => acc
  | S fuel =>
      let acc := digit (n mod 10) :: acc in
      if n <? 10 then acc else dec_digits fuel (n / 10) acc
  end.

(** The digits of a natural number; [log2 n + 1] rounds are enough. *)
Definition decimal (n : Z) : list ascii := dec_digits (S (Z.to_nat (Z.log2 n))) n [].

Definition FormatInt (n : Z) : string :=
  of_bytes (if n <? 0 then "-"%char :: decimal (- n) else decimal n).

Definition zero_pad (width : nat) (l : list ascii) : list ascii :=
  replicate (width - length l) "0"%char ++ l.

Definition Sprintf_06d (n : Z) : string :=
  of_bytes (if n <? 0 then "-"%char :: zero_pad 5 (decimal (- n)) else zero_pad 6 (decimal n)).

Definition decimal_value (v : Z) (l : list ascii) : Z :=
  foldl (λ v c, 10 * v + digit_value c) v l.

Lemma digit_value_digit n : 0 ≤ n < 10 → digit_value (digit n) = n.
Proof.
  intros H. unfold digit_value, digit, byte.
  rewrite N_ascii_embedding by (apply N2Z.inj_lt; rewrite Z2N.id; lia).
  rewrite Z2N.id; lia.
Qed.

Lemma dec_digits_value fuel n acc :
  0 ≤ n < 10 ^ Z.of_nat fuel →
  decimal_value 0 (dec_digits fuel n acc) = decimal_value n acc.
Proof.
  revert n acc. induction fuel as [|fuel IH]; intros n acc Hn.
  - replace n with 0 by lia. done.
  - cbn [dec_digits]. assert (decimal_value (n / 10) (digit (n mod 10) :: acc) = decimal_value n acc) as Hs.
    { unfold decimal_value; cbn [foldl]. rewrite digit_value_digit by (apply Z.mod_pos_bound; lia).
      f_equal. pose proof (Z.div_mod n 10). lia. }
    rewrite Nat2Z.inj_succ, Z.pow_succ_r in Hn by lia.
    destruct (n <? 10) eqn:E; prop_bool.
    + by replace (n / 10) with 0 in Hs by (symmetry; apply Z.div_small; lia).
    + rewrite IH; [done|]. split; [apply Z.div_pos; lia|]. apply Z.div_lt_upper_bound; lia.
Qed.

Lemma decimal_value_decimal n : 0 ≤ n → decimal_value 0 (decimal n) = n.
Proof.
  intros Hn. unfold decimal. rewrite dec_digits_value; [done|].
  split; [done|]. rewrite Nat2Z.inj_succ, Z2Nat.id by apply Z.log2_nonneg.
  destruct (decide (n = 0)) as [->|Hn0]; [by cbn|].
  assert (n < 2 ^ Z.succ (Z.log2 n)) by (apply Z.log2_spec; lia).
  assert (2 ^ Z.succ (Z.log2 n) ≤ 10 ^ Z.succ (Z.log2 n)); [|lia].
  apply Z.pow_le_mono_l. lia.
Qed.

Lemma decimal_value_zero_pad w l : decimal_value 0 (zero_pad w l) = decimal_value 0 l.
Proof.
  unfold zero_pad, decimal_value. rewrite foldl_app. f_equal.
  induction (w - length l)%nat as [|k IH]; [done|]. cbn. exact IH.
Qed.

Lemma Sprintf_06d_inj m n : 0 ≤ m → 0 ≤ n → Sprintf_06d m = Sprintf_06d n → m = n.
Proof.
  intros Hm Hn H. unfold Sprintf_06d in H.
  rewrite !(proj2 (Z.ltb_ge _ _)) in H by lia.
  apply (f_equal bytes) in H. rewrite !bytes_of_bytes in H.
  apply (f_equal (decimal_value 0)) in H.
  by rewrite !decimal_value_zero_pad, !decimal_value_decimal in H.
Qed.

Lemma append_inj_r (p s1 s2 : string) : p +:+ s1 = p +:+ s2 → s1 = s2.
Proof.
  intros H. apply (f_equal bytes) in H. rewrite !bytes_app in H.
  apply app_inv_head in H. by apply bytes_inj.
Qed.

Example Sprintf_06d_7 : Sprintf_06d 7 = "000007"%stdpp.
Proof. reflexivity. Qed.
Example Sprintf_06d_big : Sprintf_06d 1234567 = "1234567"%stdpp.
Proof. reflexivity. Qed.
Example TrimSpace_ex : TrimSpace "  ucla.a	"%stdpp = "ucla.a"%stdpp.
Proof. reflexivity. Qed.
