(* ===== verification/Sha256.v ===== *)
(** * SHA-256 and HMAC-SHA-256 (FIPS 180-4, RFC 2104)

    The digests the bus compares credentials with, on byte strings, with
    32-bit words as integers. *)
From stdpp Require Import gmap strings list.
From Stdlib Require Import ZArith Lia Ascii.
From S2P Require Import Prelude GoBase.

Module Sha256.

Definition w32 (z : Z) : Z := z mod 2 ^ 32.
Definition rotr (n x : Z) : Z := Z.lor (Z.shiftr x n) (w32 (Z.shiftl x (32 - n))).
Definition lnot32 (x : Z) : Z := Z.lxor x (2 ^ 32 - 1).

Definition ch (x y z : Z) : Z := Z.lxor (Z.land x y) (Z.land (lnot32 x) z).
Definition maj (x y z : Z) : Z := Z.lxor (Z.lxor (Z.land x y) (Z.land x z)) (Z.land y z).
Definition bsig0 (x : Z) : Z := Z.lxor (Z.lxor (rotr 2 x) (rotr 13 x)) (rotr 22 x).
Definition bsig1 (x : Z) : Z := Z.lxor (Z.lxor (rotr 6 x) (rotr 11 x)) (rotr 25 x).
Definition ssig0 (x : Z) : Z := Z.lxor (Z.lxor (rotr 7 x) (rotr 18 x)) (Z.shiftr x 3).
Definition ssig1 (x : Z) : Z := Z.lxor (Z.lxor (rotr 17 x) (rotr 19 x)) (Z.shiftr x 10).

(** The constants: the first 32 bits of the fractional parts of the cube roots
    (square roots) of the first primes, computed here from that definition. *)
Definition is_prime (n : Z) : bool :=
  forallb (λ d, negb (n mod d =? 0)) (List.filter (λ d, d * d <=? n) (Z.of_nat <$> seq 2 20)).

Definition primes : list Z := List.filter is_prime (Z.of_nat <$> seq 2 310).

(** The greatest [r] with [r ^ 3 <= n], found bit by bit from bit [k] down. *)
Fixpoint cube_root (k : nat) (r n : Z) : Z :=
  match k with
  | O => r
  | S k =>
      let r' := r + 2 ^ Z.of_nat k in
      cube_root k (if r' * r' * r' <=? n then r' else r) n
  end.

Definition K : list Z :=
  Eval vm_compute in (λ p, w32 (cube_root 40 0 (p * 2 ^ 96))) <$> take 64 primes.

Definition H0 : list Z := Eval vm_compute in (λ p, w32 (Z.sqrt (p * 2 ^ 64))) <$> take 8 primes.

(** Big-endian bytes of a [n]-byte integer. *)
Fixpoint be_bytes (n : nat) (z : Z) : list Z :=
  match n with
  | O => []
  | S n => Z.land (Z.shiftr z (8 * Z.of_nat n)) 255 :: be_bytes n z
  end.

Definition pad (m : list Z) : list Z :=
  let n := length m in
  let zeros := Nat.modulo (64 - Nat.modulo (n + 9) 64) 64 in
  m ++ [0x80] ++ replicate zeros 0 ++ be_bytes 8 (8 * Z.of_nat n).

Fixpoint words (m : list Z) : list Z :=
  match m with
  | a :: b :: c :: d :: m => (((a * 256 + b) * 256 + c) * 256 + d) :: words m
  | _ => []
  end.

(** The message schedule, newest word first. *)
Fixpoint schedule (n : nat) (w : list Z) : list Z :=
  match n with
  | O => w
  | S n =>
      let at_ i := nth i w 0 in
      schedule n (w32 (ssig1 (at_ 1%nat) + at_ 6%nat + ssig0 (at_ 14%nat) + at_ 15%nat) :: w)
  end.

Definition round (st : list Z) (kw : Z * Z) : list Z :=
  match st with
  | [a; b; c; d; e; f; g; h] =>
      let t1 := w32 (h + bsig1 e + ch e f g + fst kw + snd kw) in
      let t2 := w32 (bsig0 a + maj a b c) in
      [w32 (t1 + t2); a; b; c; w32 (d + t1); e; f; g]
  | _ => st
  end.

Definition compress (st block : list Z) : list Z :=
  let w := rev (schedule 48 (rev block)) in
  zip_with (λ x y, w32 (x + y)) st (foldl round st (zip K w)).

Fixpoint blocks (n : nat) (st ws : list Z) : list Z :=
  match n with
  | O => st
  | S n => blocks n (compress st (take 16 ws)) (drop 16 ws)
  end.

Definition digest (m : list Z) : list Z :=
  let ws := words (pad m) in
  mjoin (be_bytes 4 <$> blocks (Nat.div (length ws) 16) H0 ws).

(** HMAC with the 64-byte block of SHA-256. *)
Definition hmac (key m : list Z) : list Z :=
  let key := if (64 <? Z.of_nat (length key)) then digest key else key in
  let key := key ++ replicate (64 - length key) 0 in
  digest ((Z.lxor 0x5c <$> key) ++ digest ((Z.lxor 0x36 <$> key) ++ m)).

(** *** Lengths *)

Lemma be_bytes_length n z : length (be_bytes n z) = n.
Proof. induction n; cbn; congruence. Qed.

Lemma round_length st kw : length st = 8%nat → length (round st kw) = 8%nat.
Proof.
  intros H. destruct st as [|a [|b [|c [|d [|e [|f [|g [|h [|? ?]]]]]]]]]; try discriminate H. reflexivity.
Qed.

Lemma compress_length st block : length st = 8%nat → length (compress st block) = 8%nat.
Proof.
  intros H. unfold compress. cbv zeta. rewrite length_zip_with, H.
  assert (∀ l s, length s = 8%nat → length (foldl round s l) = 8%nat) as Hf.
  { induction l as [|kw l IH]; intros s Hs; [done|]. apply IH, round_length, Hs. }
  by rewrite Hf.
Qed.

Lemma blocks_length n : ∀ st ws, length st = 8%nat → length (blocks n st ws) = 8%nat.
Proof. induction n as [|n IH]; intros st ws H; [done|]. apply IH, compress_length, H. Qed.

(** A digest has 32 bytes. *)
Lemma digest_length m : length (digest m) = 32%nat.
Proof.
  assert (∀ l, length (mjoin (be_bytes 4 <$> l)) = (4 * length l)%nat) as Hjoin.
  { induction l as [|z l IH]; [done|]. rewrite fmap_cons.
    change (mjoin (be_bytes 4 z :: (be_bytes 4 <$> l))) with (be_bytes 4 z ++ mjoin (be_bytes 4 <$> l)).
    rewrite length_app, be_bytes_length, IH. cbn. lia. }
  unfold digest. cbv zeta. rewrite Hjoin, blocks_length by done. done.
Qed.

End Sha256.

Definition of_byte (z : Z) : ascii := ascii_of_N (Z.to_N z).

(** [sha256.Sum256([]byte(s))] as a 32-byte string. *)
Definition Sum256 (s : string) : string :=
  of_bytes (of_byte <$> Sha256.digest (byte <$> bytes s)).

(** [hmac.New(sha256.New, key)] over one message. *)
Definition hmac_sha256 (key m : string) : string :=
  of_bytes (of_byte <$> Sha256.hmac (byte <$> bytes key) (byte <$> bytes m)).

Lemma hmac_sha256_length key m : length (bytes (hmac_sha256 key m)) = 32%nat.
Proof. unfold hmac_sha256. rewrite bytes_of_bytes, length_fmap. apply Sha256.digest_length. Qed.

Example digest_abc :
  Sha256.digest (byte <$> bytes "abc"%stdpp) =
  Sha256.be_bytes 32 0xba7816bf8f01cfea414140de5dae2223b00361a396177a9cb410ff61f20015ad.
Proof. vm_compute. reflexivity. Qed.

Example hmac_jefe :
  Sha256.hmac (byte <$> bytes "Jefe"%stdpp) (byte <$> bytes "what do ya want for nothing?"%stdpp) =
  Sha256.be_bytes 32 0x5bdcc146bf60754e6a042426089575c75a003f089d2739839dec58b964ec3843.
Proof. vm_compute. reflexivity. Qed.
