(* ===== verification/Utf8.v ===== *)
(** * UTF-8 and hexadecimal text

    The parts of [unicode/utf8], [unicode] and [encoding/hex] the program uses,
    on byte strings. *)
From stdpp Require Import gmap strings list.
From Stdlib Require Import ZArith Lia Ascii.
From S2P Require Import Prelude GoBase.

(** ** [utf8.ValidString] *)

Definition in_range (lo hi : Z) (c : ascii) : bool := (lo <=? byte c) && (byte c <=? hi).

(** A continuation byte. *)
Definition cont_byte : ascii → bool := in_range 0x80 0xBF.

(** The length of the rune the bytes start with, if they start with one. *)
Definition rune_length (l : list ascii) : option nat :=
  match l with
  | [] => None
  | c :: l =>
      if in_range 0 0x7F c then Some 1%nat else
      match l with
      | [] => None
      | c1 :: l =>
          if in_range 0xC2 0xDF c then if cont_byte c1 then Some 2%nat else None else
          match l with
          | [] => None
          | c2 :: l =>
              let second :=
                if byte c =? 0xE0 then in_range 0xA0 0xBF c1
                else if byte c =? 0xED then in_range 0x80 0x9F c1
                else in_range 0xE1 0xEF c && cont_byte c1 in
              if second && cont_byte c2 then Some 3%nat else
              match l with
              | [] => None
              | c3 :: _ =>
                  let second :=
                    if byte c =? 0xF0 then in_range 0x90 0xBF c1
                    else if byte c =? 0xF4 then in_range 0x80 0x8F c1
                    else in_range 0xF1 0xF3 c && cont_byte c1 in
                  if second && cont_byte c2 && cont_byte c3 then Some 4%nat else None
              end
          end
      end
  end.

(** The byte offsets of the runes; the fuel is the number of bytes. *)
Fixpoint runes (fuel : nat) (l : list ascii) : option (list (list ascii)) :=
  match l, fuel with
  | [], _ => Some []
  | _, O => None
  | _, S fuel =>
      match rune_length l with
      | None => None
      | Some n =>
          match runes fuel (drop n l) with
          | None => None
          | Some rs => Some (take n l :: rs)
          end
      end
  end.

Definition ValidString (s : string) : bool :=
  match runes (String.length s) (bytes s) with Some _ => true | None => false end.

(** [unicode.IsControl]: U+0000 to U+001F and U+007F to U+009F. *)
Definition IsControl (rune : list ascii) : bool :=
  match rune with
  | [c] => in_range 0 0x1F c || (byte c =? 0x7F)
  | [c1; c2] => (byte c1 =? 0xC2) && in_range 0x80 0x9F c2
  | _ => false
  end.

(** [strings.IndexFunc(s, unicode.IsControl) >= 0], for a valid [s]. *)
Definition has_control (s : string) : bool :=
  match runes (String.length s) (bytes s) with
  | Some rs => existsb IsControl rs
  | None => false
  end.

Lemma rune_length_pos l n : rune_length l = Some n → (1 ≤ n ≤ length l)%nat.
Proof.
  unfold rune_length. intros H.
  repeat (case_match; try done); simplify_eq; cbn; lia.
Qed.

(** Valid text is the concatenation of its runes. *)
Lemma runes_concat fuel l rs : runes fuel l = Some rs → mjoin rs = l.
Proof.
  revert l rs. induction fuel as [|fuel IH]; intros [|c l] rs; cbn [runes]; try (by intros [= <-]).
  destruct (rune_length (c :: l)) as [n|] eqn:En; [|done].
  destruct (runes fuel (drop n (c :: l))) as [rs'|] eqn:Er; [|done].
  intros [= <-]. apply IH in Er. change (take n (c :: l) ++ mjoin rs' = c :: l). rewrite Er. apply take_drop.
Qed.

Example ValidString_ex :
  ValidString "ucla.a"%stdpp = true ∧ ValidString (of_bytes [ascii_of_N 0xC3]) = false ∧
  ValidString (of_bytes [ascii_of_N 0xE2; ascii_of_N 0x82; ascii_of_N 0xAC]) = true.
Proof. by vm_compute. Qed.

(** ** [encoding/hex] *)

Definition hex_digit (n : Z) : ascii :=
  ascii_of_N (Z.to_N (if n <? 10 then 48 + n else 87 + n)).

Definition hex_value (c : ascii) : option Z :=
  let b := byte c in
  if (48 <=? b) && (b <=? 57) then Some (b - 48)
  else if (97 <=? b) && (b <=? 102) then Some (b - 87)
  else if (65 <=? b) && (b <=? 70) then Some (b - 55)
  else None.

Definition hex_encode (l : list ascii) : list ascii :=
  l ≫= λ c, [hex_digit (byte c / 16); hex_digit (byte c mod 16)].

Fixpoint hex_decode (l : list ascii) : option (list ascii) :=
  match l with
  | [] => Some []
  | a :: b :: l =>
      match hex_value a, hex_value b, hex_decode l with
      | Some x, Some y, Some r => Some (ascii_of_N (Z.to_N (16 * x + y)) :: r)
      | _, _, _ => None
      end
  | _ => None
  end.

Definition EncodeToString (s : string) : string := of_bytes (hex_encode (bytes s)).
Definition DecodeString (s : string) : option string := of_bytes <$> hex_decode (bytes s).

Lemma byte_range c : 0 ≤ byte c < 256.
Proof. unfold byte. pose proof (N_ascii_bounded c). lia. Qed.

Lemma byte_ascii_of z : 0 ≤ z < 256 → byte (ascii_of_N (Z.to_N z)) = z.
Proof. intros H. unfold byte. rewrite N_ascii_embedding by lia. lia. Qed.

Lemma ascii_of_byte c : ascii_of_N (Z.to_N (byte c)) = c.
Proof. unfold byte. rewrite N2Z.id. apply ascii_N_embedding. Qed.

Lemma hex_value_digit n : 0 ≤ n < 16 → hex_value (hex_digit n) = Some n.
Proof.
  intros H. unfold hex_value, hex_digit. rewrite byte_ascii_of by (case_bool; prop_bool; lia).
  destruct (Z.ltb_spec n 10).
  - rewrite (proj2 (Z.leb_le _ _)), (proj2 (Z.leb_le _ _)) by lia. cbn. f_equal. lia.
  - rewrite (proj2 (Z.leb_le 48 _)), (proj2 (Z.leb_gt _ 57)) by lia. cbn.
    rewrite (proj2 (Z.leb_le 97 _)), (proj2 (Z.leb_le _ 102)) by lia. cbn. f_equal. lia.
Qed.

Lemma hex_decode_encode l : hex_decode (hex_encode l) = Some l.
Proof.
  induction l as [|c l IH]; [done|]. unfold hex_encode in *. rewrite bind_cons. cbn [app hex_decode].
  pose proof (byte_range c).
  rewrite !hex_value_digit; [|apply Z.mod_pos_bound; lia|split; [apply Z.div_pos; lia|apply Z.div_lt_upper_bound; lia]].
  rewrite IH, <-Z.div_mod by lia. by rewrite ascii_of_byte.
Qed.

Lemma DecodeString_EncodeToString s : DecodeString (EncodeToString s) = Some s.
Proof.
  unfold DecodeString, EncodeToString. rewrite bytes_of_bytes, hex_decode_encode. cbn.
  by rewrite of_bytes_bytes.
Qed.

(** Decoding ignores the case of the digits. *)
Lemma hex_value_lower c : hex_value (lower_byte c) = hex_value c.
Proof.
  unfold lower_byte. destruct (_ && _) eqn:E; [|done]. prop_bool. unfold hex_value.
  assert (byte (ascii_of_N (N_of_ascii c + 32)) = byte c + 32) as ->.
  { unfold byte in *. pose proof (N_ascii_bounded c). rewrite N_ascii_embedding by lia. lia. }
  repeat (case_bool; prop_bool; try done; try lia); try (destruct Eb; prop_bool; lia);
    repeat match goal with H : _ ∨ _ |- _ => destruct H; prop_bool end; try lia; f_equal; lia.
Qed.

Lemma DecodeString_ToLower s : DecodeString (ToLower s) = DecodeString s.
Proof.
  unfold DecodeString, ToLower. rewrite bytes_of_bytes. f_equal.
  generalize (bytes s). intros l. induction l as [l IH] using (well_founded_induction (well_founded_ltof _ length)).
  destruct l as [|a [|b l]]; [done..|]. cbn [map hex_decode].
  rewrite !hex_value_lower, IH; [done|]. unfold ltof. cbn. lia.
Qed.

Lemma hex_decode_length l : ∀ r, hex_decode l = Some r → length l = (2 * length r)%nat.
Proof.
  induction l as [l IH] using (well_founded_induction (well_founded_ltof _ length)). intros r.
  destruct l as [|a [|b l]]; cbn [hex_decode]; [by intros [= <-]|done|].
  destruct (hex_value a), (hex_value b); try done.
  destruct (hex_decode l) as [r'|] eqn:E; [|done]. intros [= <-].
  apply IH in E; [|unfold ltof; cbn; lia]. cbn. lia.
Qed.

Lemma DecodeString_length s d : DecodeString s = Some d → String.length s = (2 * length (bytes d))%nat.
Proof.
  unfold DecodeString. intros (l & Hl & ->)%fmap_Some. rewrite bytes_of_bytes.
  apply hex_decode_length in Hl. rewrite <-Hl. unfold bytes. clear. by induction s; cbn; f_equal.
Qed.

(** Every byte written is a hexadecimal digit. *)
Lemma hex_encoded l c : c ∈ hex_encode l → is_Some (hex_value c).
Proof.
  unfold hex_encode. intros (b & Hc & _)%list_elem_of_bind. pose proof (byte_range b).
  rewrite !elem_of_cons in Hc. destruct Hc as [->|[->|Hc]]; [| |by apply not_elem_of_nil in Hc];
    rewrite hex_value_digit; eauto;
    [split; [apply Z.div_pos; lia|apply Z.div_lt_upper_bound; lia]|apply Z.mod_pos_bound; lia].
Qed.
