(* ===== verification/Json.v ===== *)
(** * JSON values and the length of their encoding

    The bus keeps opaque payloads ([any] fields, event data) as JSON values
    and bounds the memory they take by the length of the text [json.Marshal]
    produces.  [marshal_len] computes that length without building the text.

    A [float64] is held as the text [encoding/json] renders it with; a
    [time.Time] is held as its instant, in UTC. *)
From stdpp Require Import gmap strings list.
From Stdlib Require Import ZArith Lia Ascii.
From S2P Require Import Prelude GoBase.

#[warnings="-register-all"]
Inductive json : Type :=
| JNull
| JBool (b : bool)
| JInt (z : Z)
| JFloat (text : string)
| JString (s : string)
| JTime (t : Time)
| JArr (l : list json)
| JObj (l : list (string * json)).

(** A [[]string]: the nil slice encodes as [null]. *)
Definition JStrings (l : list string) : json :=
  match l with [] => JNull | _ => JArr (map JString l) end.

(** *** Strings: HTML-escaping encoder of [encoding/json] *)

Definition in_range (lo hi : Z) (c : ascii) : bool := (lo <=? byte c) && (byte c <=? hi).
Definition ascii7 (c : ascii) : bool := byte c <? 0x80.
Definition continuation : ascii → bool := in_range 0x80 0xBF.

(** Valid two-, three- and four-byte UTF-8 sequences. *)
Definition rune2 (c1 c2 : ascii) : bool := in_range 0xC2 0xDF c1 && continuation c2.
Definition rune3 (c1 c2 c3 : ascii) : bool :=
  continuation c3
  && ((byte c1 =? 0xE0) && in_range 0xA0 0xBF c2
      || (in_range 0xE1 0xEC c1 || in_range 0xEE 0xEF c1) && continuation c2
      || (byte c1 =? 0xED) && in_range 0x80 0x9F c2).
Definition rune4 (c1 c2 c3 c4 : ascii) : bool :=
  continuation c3 && continuation c4
  && ((byte c1 =? 0xF0) && in_range 0x90 0xBF c2
      || in_range 0xF1 0xF3 c1 && continuation c2
      || (byte c1 =? 0xF4) && in_range 0x80 0x8F c2).

(** U+2028 and U+2029 are written as six-byte escapes. *)
Definition line_separator (c1 c2 c3 : ascii) : bool :=
  (byte c1 =? 0xE2) && (byte c2 =? 0x80) && in_range 0xA8 0xA9 c3.

(** Bytes an ASCII character is written with. *)
Definition ascii_json_len (c : ascii) : N :=
  let b := byte c in
  if (b =? 34) || (b =? 92) then 2
  else if (b =? 8) || (b =? 9) || (b =? 10) || (b =? 12) || (b =? 13) then 2
  else if (b <? 32) || (b =? 60) || (b =? 62) || (b =? 38) then 6
  else 1.

(** An invalid byte becomes the six-byte escape of U+FFFD. *)
Fixpoint json_chars_len (l : list ascii) : N :=
  match l with
  | [] => 0
  | c1 :: l1 =>
      if ascii7 c1 then ascii_json_len c1 + json_chars_len l1 else
      match l1 with
      | [] => 6
      | c2 :: l2 =>
          if rune2 c1 c2 then 2 + json_chars_len l2 else
          match l2 with
          | [] => 6 + json_chars_len l1
          | c3 :: l3 =>
              if rune3 c1 c2 c3
              then (if line_separator c1 c2 c3 then 6 else 3) + json_chars_len l3 else
              match l3 with
              | [] => 6 + json_chars_len l1
              | c4 :: l4 =>
                  if rune4 c1 c2 c3 c4 then 4 + json_chars_len l4
                  else 6 + json_chars_len l1
              end
          end
      end
  end%N.

Definition json_string_len (s : string) : N := 2 + json_chars_len (bytes s).

(** *** Times: RFC 3339 with nanoseconds, in UTC *)

(** Digits left of a nine-digit fraction without its trailing zeros. *)
Fixpoint fraction_digits (fuel : nat) (n : Z) : N :=
  match fuel with
  | O => 0
  | S k => if n mod 10 =? 0 then fraction_digits k (n / 10) else N.of_nat fuel
  end.

(** Days from January 1, year 0, and to the end of year 9999, relative to
    January 1, year 1; an instant outside is refused by [Time.MarshalJSON]. *)
Definition marshal_time_len (t : Time) : option N :=
  if (- (366 * 86400 * Second) <=? t) && (t <? 3652059 * 86400 * Second) then
    let frac := fraction_digits 9 (t mod Second) in
    Some (22 + (if (frac =? 0)%N then 0 else 1 + frac))%N
  else None.

(** *** Values *)

Definition opt_add (x y : option N) : option N :=
  match x, y with Some a, Some b => Some (a + b)%N | _, _ => None end.

(** Commas between [n] elements. *)
Definition commas {A} (l : list A) : N := N.of_nat (length l - 1).

Fixpoint marshal_len (j : json) : option N :=
  match j with
  | JNull => Some 4%N
  | JBool b => Some (if b then 4 else 5)%N
  | JInt z => Some (N.of_nat (String.length (FormatInt z)))
  | JFloat text => Some (N.of_nat (String.length text))
  | JString s => Some (json_string_len s)
  | JTime t => marshal_time_len t
  | JArr l =>
      opt_add (Some (2 + commas l)%N)
        ((fix go (l : list json) : option N :=
            match l with
            | [] => Some 0%N
            | j :: l => opt_add (marshal_len j) (go l)
            end) l)
  | JObj l =>
      opt_add (Some (2 + commas l)%N)
        ((fix go (l : list (string * json)) : option N :=
            match l with
            | [] => Some 0%N
            | (k, j) :: l =>
                opt_add (Some (json_string_len k + 1)%N) (opt_add (marshal_len j) (go l))
            end) l)
  end.

(** [len(blob)] of [blob, err := json.Marshal(v)] where it is only counted
    when there is no error. *)
Definition marshal_size (j : json) : Z :=
  match marshal_len j with Some n => Z.of_N n | None => 0 end.

Lemma marshal_size_nonneg j : 0 ≤ marshal_size j.
Proof. unfold marshal_size. case_match; lia. Qed.
#[export] Hint Resolve marshal_size_nonneg : bus.

(** [{"a":"x<y","at":"0001-01-01T00:00:01.5Z","n":[12,null]}], with [<]
    written as a six-byte escape: 60 bytes. *)
Example marshal_len_ex :
  marshal_len (JObj [("a"%stdpp, JString "x<y"%stdpp);
                     ("at"%stdpp, JTime (1500 * Millisecond));
                     ("n"%stdpp, JArr [JInt 12; JNull])]) = Some 60%N.
Proof. vm_compute. reflexivity. Qed.
