(* ===== verification/Types.v ===== *)
(** * The bus data model: [pkg/bus/types.go] and [pkg/bus/errors.go]

    One record per Go struct, in a module of its own so that the fields keep
    their Go names ([Type] is a reserved word: the field is [Typ]).  String
    enumerations are inductive types with a conversion to the wire text; the
    zero value, the empty string, is a constructor where it can be stored. *)
From stdpp Require Import gmap strings list.
From Stdlib Require Import ZArith Lia Ascii.
From S2P Require Import Prelude GoBase Json.

(** ** Enumerations *)

Inductive Scope := ScopePersonal | ScopeUCLA | ScopeShared.
Inductive NamespaceMode := NamespaceModeCompat | NamespaceModeStrict.
Inductive AgentMode := AgentModePull | AgentModePush.
Inductive AgentStatus := AgentStatusActive | AgentStatusExpired.

Inductive MessageType :=
| MessageTypeNone | MessageTypeRequest | MessageTypeResponse | MessageTypeInform.

Inductive MessageState :=
| StateNone | StatePending | StateWaitingAck | StateExecuting
| StateCompleted | StateRejected | StateError.

Inductive EventType :=
| ObserveMessage | ObserveAck | ObserveProgress | ObserveStateChange
| ObserveAgentRegistered | ObserveAgentExpired | ObserveHumanInjection.

#[export] Instance Scope_eq_dec : EqDecision Scope.
Proof. solve_decision. Defined.
#[export] Instance NamespaceMode_eq_dec : EqDecision NamespaceMode.
Proof. solve_decision. Defined.
#[export] Instance AgentMode_eq_dec : EqDecision AgentMode.
Proof. solve_decision. Defined.
#[export] Instance AgentStatus_eq_dec : EqDecision AgentStatus.
Proof. solve_decision. Defined.
#[export] Instance MessageType_eq_dec : EqDecision MessageType.
Proof. solve_decision. Defined.
#[export] Instance MessageState_eq_dec : EqDecision MessageState.
Proof. solve_decision. Defined.
#[export] Instance EventType_eq_dec : EqDecision EventType.
Proof. solve_decision. Defined.

Definition Scope_string (s : Scope) : string :=
  match s with
  | ScopePersonal => "personal" | ScopeUCLA => "ucla" | ScopeShared => "shared"
  end%stdpp.

Definition MessageType_string (t : MessageType) : string :=
  match t with
  | MessageTypeNone => ε
  | MessageTypeRequest => "request"
  | MessageTypeResponse => "response"
  | MessageTypeInform => "inform"
  end%stdpp.

Definition MessageState_string (s : MessageState) : string :=
  match s with
  | StateNone => ε
  | StatePending => "pending" | StateWaitingAck => "waiting" | StateExecuting => "executing"
  | StateCompleted => "completed" | StateRejected => "rejected" | StateError => "error"
  end%stdpp.

(** The message types a caller may name. *)
Definition parse_message_type (s : string) : option MessageType :=
  if bool_decide (s = MessageType_string MessageTypeRequest) then Some MessageTypeRequest
  else if bool_decide (s = MessageType_string MessageTypeResponse) then Some MessageTypeResponse
  else if bool_decide (s = MessageType_string MessageTypeInform) then Some MessageTypeInform
  else None.

Definition parse_agent_mode (s : string) : option AgentMode :=
  if bool_decide (s = "pull"%stdpp) then Some AgentModePull
  else if bool_decide (s = "push"%stdpp) then Some AgentModePush
  else None.

(** ** Stored structs *)

Module Attachment.
Record t := mk {
  URL : string; Name : string; ContentType : string; Size : Z; SHA256 : string }.
End Attachment.

Module BuildInfo.
Record t := mk { Commit : string; Dirty : bool }.
End BuildInfo.

Module AgentMeta.
Record t := mk {
  Owner : string; Repo : string; HealthURL : string; Dependencies : list string }.
End AgentMeta.

Module Agent.
Record t := mk {
  AgentID : string;
  AllowedScopes : list string;
  SharedGrants : list string;
  Capabilities : list string;
  Version : string;
  Description : string;
  AgentClass : string;
  MutationClass : string;
  Build : option BuildInfo.t;
  Meta : option AgentMeta.t;
  Mode : AgentMode;
  CallbackURL : string;
  Status : AgentStatus;
  RegisteredAt : Time;
  ExpiresAt : Time;
  TTLSeconds : Z }.

Definition set_Status (v : AgentStatus) (a : t) : t :=
  mk (AgentID a) (AllowedScopes a) (SharedGrants a) (Capabilities a) (Version a)
    (Description a) (AgentClass a) (MutationClass a) (Build a) (Meta a) (Mode a)
    (CallbackURL a) v (RegisteredAt a) (ExpiresAt a) (TTLSeconds a).
Definition set_RegisteredAt (v : Time) (a : t) : t :=
  mk (AgentID a) (AllowedScopes a) (SharedGrants a) (Capabilities a) (Version a)
    (Description a) (AgentClass a) (MutationClass a) (Build a) (Meta a) (Mode a)
    (CallbackURL a) (Status a) v (ExpiresAt a) (TTLSeconds a).
End Agent.

Module Conversation.
Record t := mk {
  ConversationID : string;
  Title : string;
  Participants : list string;
  Status : string;
  MessageCount : Z;
  CreatedAt : Time;
  LastMessageAt : Time;
  Meta : json }.

Definition set_Participants (v : list string) (c : t) : t :=
  mk (ConversationID c) (Title c) v (Status c) (MessageCount c) (CreatedAt c)
    (LastMessageAt c) (Meta c).
(** The three fields a new message touches. *)
Definition touch (status : string) (count : Z) (last : Time) (c : t) : t :=
  mk (ConversationID c) (Title c) (Participants c) status count (CreatedAt c) last (Meta c).
End Conversation.

Module Message.
Record t := mk {
  MessageID : string;
  Typ : MessageType;
  From : string;
  To : string;
  ConversationID : string;
  RequestID : string;
  InReplyTo : string;
  Body : string;
  Meta : json;
  Attachments : list Attachment.t;
  State : MessageState;
  CreatedAt : Time;
  TerminalAt : Time;
  DeliveredAt : Time;
  LastProgressAt : Time;
  TTLExpiresAt : Time;
  GraceUntil : Time;
  QueuedForAgent : bool }.

(** Assignment of the lifecycle fields; all the others are set once. *)
Definition set_life (state : MessageState) (terminal delivered progress : Time)
    (queued : bool) (m : t) : t :=
  mk (MessageID m) (Typ m) (From m) (To m) (ConversationID m) (RequestID m) (InReplyTo m)
    (Body m) (Meta m) (Attachments m) state (CreatedAt m) terminal delivered progress
    (TTLExpiresAt m) (GraceUntil m) queued.
Definition set_State (v : MessageState) (m : t) : t :=
  set_life v (TerminalAt m) (DeliveredAt m) (LastProgressAt m) (QueuedForAgent m) m.
Definition set_TerminalAt (v : Time) (m : t) : t :=
  set_life (State m) v (DeliveredAt m) (LastProgressAt m) (QueuedForAgent m) m.
Definition set_DeliveredAt (v : Time) (m : t) : t :=
  set_life (State m) (TerminalAt m) v (LastProgressAt m) (QueuedForAgent m) m.
Definition set_LastProgressAt (v : Time) (m : t) : t :=
  set_life (State m) (TerminalAt m) (DeliveredAt m) v (QueuedForAgent m) m.
Definition set_QueuedForAgent (v : bool) (m : t) : t :=
  set_life (State m) (TerminalAt m) (DeliveredAt m) (LastProgressAt m) v m.
End Message.

Module InboxEvent.
Record t := mk {
  MessageID : string;
  Typ : MessageType;
  From : string;
  ConversationID : string;
  Body : string;
  Meta : json;
  Attachments : list Attachment.t;
  CreatedAt : Time }.
End InboxEvent.

Module ObserveEvent.
Record t := mk {
  ID : Z;
  Typ : EventType;
  At : Time;
  Data : json;
  ConversationID : string;
  AgentIDs : list string;
  Size : Z }.
End ObserveEvent.

(** [isTerminal] of [store.go]. *)
Definition isTerminal (s : MessageState) : bool :=
  match s with
  | StateCompleted | StateRejected | StateError => true
  | _ => false
  end.

(** ** Operation inputs

    The fields a caller controls; enumerations arrive as text. *)

Module RegisterAgentInput.
Record t := mk {
  AgentID : string;
  Secret : string;
  AllowedScopes : list string;
  SharedGrants : list string;
  Capabilities : list string;
  Version : string;
  Description : string;
  AgentClass : string;
  MutationClass : string;
  Build : option BuildInfo.t;
  Meta : option AgentMeta.t;
  Mode : string;
  CallbackURL : string;
  TTLSeconds : Z }.
End RegisterAgentInput.

Module CreateConversationInput.
Record t := mk {
  ConversationID : string; Title : string; Participants : list string;
  Meta : json; ActorAgentID : string }.
End CreateConversationInput.

Module ListConversationsFilter.
Record t := mk { Participant : string; Status : string; ActorAgentID : string }.
End ListConversationsFilter.

Module SendMessageInput.
Record t := mk {
  To : string;
  From : string;
  ConversationID : string;
  RequestID : string;
  Typ : string;
  Body : string;
  Meta : json;
  Attachments : list Attachment.t;
  TTLSeconds : Z;
  InReplyTo : string }.
End SendMessageInput.

Module PollInboxInput.
Record t := mk { AgentID : string; Cursor : Z; Wait : Duration; Limit : Z }.
End PollInboxInput.

Module AckInput.
Record t := mk { AgentID : string; MessageID : string; Status : string; Reason : string }.
End AckInput.

Module EventInput.
Record t := mk {
  ActorAgentID : string; MessageID : string; Typ : string; Body : string; Meta : json }.
End EventInput.

Module InjectInput.
Record t := mk { Identity : string; ConversationID : string; To : string; Body : string }.
End InjectInput.

Module ListConversationMessagesInput.
Record t := mk { ConversationID : string; Cursor : Z; Limit : Z; ActorAgentID : string }.
End ListConversationMessagesInput.

Module ObserveFilter.
Record t := mk { ConversationID : string; AgentID : string; ActorAgentID : string }.
End ObserveFilter.

(** ** Errors *)

Inductive ErrorCode :=
| CodeValidation | CodeUnauthorized | CodeNotFound | CodeRejected | CodeRateLimited
| CodeUnavailable | CodePayloadTooLarge | CodeTimeout | CodeInternal.

#[export] Instance ErrorCode_eq_dec : EqDecision ErrorCode.
Proof. solve_decision. Defined.

Module Error.
Record t := mk {
  Code : ErrorCode; Message : string; Transient : bool; RetryAfter : Z; Status : Z }.
End Error.

Definition statusForCode (code : ErrorCode) : Z :=
  match code with
  | CodeValidation => 400
  | CodeUnauthorized => 401
  | CodeNotFound => 404
  | CodeRejected => 409
  | CodeRateLimited => 429
  | CodePayloadTooLarge => 413
  | CodeTimeout => 408
  | CodeUnavailable => 503
  | CodeInternal => 500
  end.

Definition newError (code : ErrorCode) (message : string) (transient : bool)
    (retryAfter : Duration) : Error.t :=
  let retryAfterSec :=
    if 0 <? retryAfter then
      let sec := int_seconds retryAfter in
      if sec <=? 0 then 1 else sec
    else 0 in
  Error.mk code message transient retryAfterSec (statusForCode code).

Definition ErrorCode_string (code : ErrorCode) : string :=
  match code with
  | CodeValidation => "validation"
  | CodeUnauthorized => "unauthorized"
  | CodeNotFound => "not_found"
  | CodeRejected => "rejected"
  | CodeRateLimited => "rate_limited"
  | CodeUnavailable => "unavailable"
  | CodePayloadTooLarge => "payload_too_large"
  | CodeTimeout => "timeout"
  | CodeInternal => "internal"
  end%stdpp.

(** [(e *Error) Error()] *)
Definition Error_text (e : Error.t) : string :=
  ErrorCode_string (Error.Code e) +:+ ": "%stdpp +:+ Error.Message e.

(** The error argument is its text. *)
Definition NewValidationJSONError (err : string) : Error.t :=
  newError CodeValidation ("invalid json: "%stdpp +:+ err) false 0.

Definition NewInternalError (message : string) : Error.t := newError CodeInternal message true 0.

(** The errors without retry information. *)
Definition fail (code : ErrorCode) (message : string) : Error.t := newError code message false 0.

(** A rate-limited caller is always told to wait at least one second. *)
Lemma newError_RetryAfter_pos code msg tr d :
  0 < d → 1 ≤ Error.RetryAfter (newError code msg tr d).
Proof.
  intros Hd. unfold newError. cbn. rewrite (proj2 (Z.ltb_lt _ _)) by done.
  case_bool; prop_bool; lia.
Qed.

Lemma newError_fields code msg tr d :
  Error.Code (newError code msg tr d) = code ∧
  Error.Message (newError code msg tr d) = msg ∧
  Error.Status (newError code msg tr d) = statusForCode code.
Proof. done. Qed.

Lemma fail_RetryAfter code msg : Error.RetryAfter (fail code msg) = 0.
Proof. done. Qed.
