(* ===== verification/Scope.v ===== *)
(** * Namespaces and authorization: [pkg/bus/scope.go] and the authorization
    helpers of [pkg/bus/store.go] *)
From stdpp Require Import gmap strings list.
From Stdlib Require Import ZArith Lia Ascii.
From S2P Require Import Prelude GoBase Json Types.

(** ** Names *)

Definition scope_of_prefix (prefix : string) : option Scope :=
  if bool_decide (prefix = "personal"%stdpp) then Some ScopePersonal
  else if bool_decide (prefix = "ucla"%stdpp) then Some ScopeUCLA
  else if bool_decide (prefix = "shared"%stdpp) then Some ScopeShared
  else None.

(** [validScopes] is the range of [scope_of_prefix]; [None] stands for the
    [false] second result. *)
Definition ScopeOfName (name : string) : option Scope :=
  let name := TrimSpace name in
  let '(prefix, _, ok) := Cut name "."%char in
  if negb ok || is_empty prefix then None else scope_of_prefix prefix.

Fixpoint normalizeScopes_loop (seen out : list Scope) (scopes : list string)
    : result Error.t (list Scope) :=
  match scopes with
  | [] => Ok out
  | raw :: scopes =>
      let raw := TrimSpace (ToLower raw) in
      if is_empty raw then normalizeScopes_loop seen out scopes else
      match scope_of_prefix raw with
      | None => Err (fail CodeValidation "allowed_scopes must contain only personal, ucla, or shared"%stdpp)
      | Some scope =>
          if bool_decide (scope ∈ seen) then normalizeScopes_loop seen out scopes
          else normalizeScopes_loop (scope :: seen) (out ++ [scope]) scopes
      end
  end.

Definition normalizeScopes (scopes : list string) : result Error.t (list Scope) :=
  normalizeScopes_loop [] [] scopes.

Fixpoint normalizeSharedGrants_loop (seen out : list string) (grants : list string)
    : result Error.t (list string) :=
  match grants with
  | [] => Ok out
  | raw :: grants =>
      let grant := TrimSpace (ToLower raw) in
      if is_empty grant then normalizeSharedGrants_loop seen out grants
      else if bool_decide (grant = "shared"%stdpp) || bool_decide (grant = "shared.*"%stdpp) then
        let grant := Scope_string ScopeShared in
        if bool_decide (grant ∈ seen) then normalizeSharedGrants_loop seen out grants
        else normalizeSharedGrants_loop (grant :: seen) (out ++ [grant]) grants
      else Err (fail CodeValidation "shared_grants must contain only shared"%stdpp)
  end.

Definition normalizeSharedGrants (grants : list string) : result Error.t (list string) :=
  normalizeSharedGrants_loop [] [] grants.

(** Unique control-plane identities in declaration order; the error is the
    offending identity. *)
Fixpoint NormalizeControlPlaneAgents_loop (seen out : list string) (agents : list string)
    : result string (list string) :=
  match agents with
  | [] => Ok out
  | raw :: agents =>
      let agentID := TrimSpace raw in
      if is_empty agentID then NormalizeControlPlaneAgents_loop seen out agents
      else if Contains agentID "."%char then Err agentID
      else if bool_decide (agentID ∈ seen) then NormalizeControlPlaneAgents_loop seen out agents
      else NormalizeControlPlaneAgents_loop (agentID :: seen) (out ++ [agentID]) agents
  end.

Definition NormalizeControlPlaneAgents (agents : list string) : result string (list string) :=
  NormalizeControlPlaneAgents_loop [] [] agents.

(** ** Facts *)

Lemma ScopeOfName_TrimSpace name : ScopeOfName (TrimSpace name) = ScopeOfName name.
Proof. unfold ScopeOfName. by rewrite TrimSpace_idemp. Qed.

Lemma scope_of_prefix_string s : scope_of_prefix (Scope_string s) = Some s.
Proof. by destruct s. Qed.

Lemma scope_of_prefix_Some p s : scope_of_prefix p = Some s → p = Scope_string s.
Proof. unfold scope_of_prefix. intros. repeat case_bool_decide; by simplify_eq. Qed.

(** A name is scoped exactly when its trimmed text is a valid scope name
    followed by a dot. *)
Lemma ScopeOfName_Some name s :
  ScopeOfName name = Some s ↔ ∃ rest, TrimSpace name = Scope_string s +:+ "."%stdpp +:+ rest.
Proof.
  unfold ScopeOfName, Cut. split.
  - destruct (cut_bytes _ _) as [[b a] f] eqn:E. apply cut_bytes_spec in E as [_ Hf].
    destruct f; cbn; [|done]. case_match; [done|]. intros Hs%scope_of_prefix_Some.
    exists (of_bytes a). apply bytes_inj.
    rewrite !bytes_app, bytes_of_bytes, <-Hs, bytes_of_bytes, Hf. done.
  - intros [rest H]. rewrite H, !bytes_app. cbn [bytes String.list_ascii_of_string app].
    rewrite cut_bytes_app by (destruct s; vm_compute; set_solver).
    rewrite of_bytes_bytes. cbn. rewrite scope_of_prefix_string. by destruct s.
Qed.

Lemma ScopeOfName_nonempty name s : ScopeOfName name = Some s → TrimSpace name ≠ ε.
Proof. rewrite ScopeOfName_Some. intros [rest ->]. by destruct s. Qed.

(** *** Control-plane identities *)

Definition control_plane_name (s : string) : Prop :=
  trimmed s ∧ s ≠ ε ∧ Contains s "."%char = false.

Lemma control_plane_name_unscoped s : control_plane_name s → ScopeOfName s = None.
Proof.
  intros (Ht & _ & Hc). unfold ScopeOfName. rewrite Ht. by rewrite Cut_not_Contains.
Qed.

Lemma NormalizeControlPlaneAgents_loop_spec seen out agents l :
  NoDup out → (∀ x, x ∈ seen ↔ x ∈ out) → Forall control_plane_name out →
  NormalizeControlPlaneAgents_loop seen out agents = Ok l →
  NoDup l ∧ Forall control_plane_name l ∧
  (∀ x, x ∈ l ↔ x ∈ out ∨ x ≠ ε ∧ x ∈ (TrimSpace <$> agents)) ∧
  ∃ k, l = out ++ k ∧ k `sublist_of` (TrimSpace <$> agents).
Proof.
  revert seen out. induction agents as [|raw agents IH]; intros seen out Hnd Hseen Hout; cbn.
  { intros [= <-]. split_and!; [done..| |exists []; by rewrite app_nil_r].
    intros x. rewrite elem_of_nil. tauto. }
  destruct (is_empty _) eqn:He; unfold is_empty in He; prop_bool.
  { intros H. destruct (IH _ _ Hnd Hseen Hout H) as (? & ? & Hx & k & -> & ?).
    split_and!; [done..| |exists k; split; [done|by constructor]].
    intros x. rewrite Hx, elem_of_cons. naive_solver. }
  destruct (Contains _ _) eqn:Hc; [done|].
  case_bool_decide as Hin.
  { intros H. destruct (IH _ _ Hnd Hseen Hout H) as (? & ? & Hx & k & -> & ?).
    split_and!; [done..| |exists k; split; [done|by constructor]].
    intros x. rewrite Hx, elem_of_cons. apply Hseen in Hin. naive_solver. }
  intros H. destruct (IH (TrimSpace raw :: seen) (out ++ [TrimSpace raw])) with (4 := H)
    as (? & ? & Hx & k & -> & ?).
  - apply NoDup_app; split_and!; [done| |apply NoDup_singleton].
    intros x Hx ->%list_elem_of_singleton. by apply Hin, Hseen.
  - intros x. rewrite elem_of_cons, elem_of_app, list_elem_of_singleton, Hseen. tauto.
  - apply Forall_app; split; [done|]. apply Forall_singleton.
    split_and!; [apply TrimSpace_trimmed|done..].
  - split_and!; [done..| |].
    + intros x. rewrite Hx, elem_of_app, list_elem_of_singleton, elem_of_cons. naive_solver.
    + exists (TrimSpace raw :: k). rewrite <-app_assoc. split; [done|by constructor].
Qed.

Lemma NormalizeControlPlaneAgents_ok agents l :
  NormalizeControlPlaneAgents agents = Ok l →
  NoDup l ∧ Forall control_plane_name l ∧
  (∀ x, x ∈ l ↔ x ≠ ε ∧ x ∈ (TrimSpace <$> agents)) ∧ l `sublist_of` (TrimSpace <$> agents).
Proof.
  intros H. destruct (NormalizeControlPlaneAgents_loop_spec [] [] agents l) as (?&?&Hx&k&->&?);
    try done; [apply NoDup_nil_2|].
  split_and!; try done. intros x. rewrite Hx, elem_of_nil. tauto.
Qed.

(** *** Claimed scopes *)

Lemma normalizeScopes_loop_spec seen out scopes l :
  NoDup out → (∀ x, x ∈ seen ↔ x ∈ out) →
  normalizeScopes_loop seen out scopes = Ok l →
  NoDup l ∧ (∀ x, x ∈ l ↔ x ∈ out ∨ Scope_string x ∈ (TrimSpace ∘ ToLower <$> scopes)).
Proof.
  revert seen out. induction scopes as [|raw scopes IH]; intros seen out Hnd Hseen; cbn.
  { intros [= <-]. split; [done|]. intros x. rewrite elem_of_nil. tauto. }
  set (r := TrimSpace (ToLower raw)).
  destruct (is_empty r) eqn:He; unfold is_empty in He; prop_bool.
  { intros H. destruct (IH _ _ Hnd Hseen H) as (? & Hx). split; [done|].
    intros x. rewrite Hx, elem_of_cons. rewrite He. destruct x; naive_solver. }
  destruct (scope_of_prefix r) as [s|] eqn:Hs; [|done].
  apply scope_of_prefix_Some in Hs.
  assert (∀ x, Scope_string x = r ↔ x = s) as Hinj.
  { intros x. rewrite Hs. by destruct x, s. }
  case_bool_decide as Hin; intros H.
  - destruct (IH _ _ Hnd Hseen H) as (? & Hx). split; [done|].
    intros x. rewrite Hx, elem_of_cons, Hinj. apply Hseen in Hin. naive_solver.
  - destruct (IH (s :: seen) (out ++ [s])) with (3 := H) as (? & Hx).
    + apply NoDup_app; split_and!; [done| |apply NoDup_singleton].
      intros x Hx ->%list_elem_of_singleton. by apply Hin, Hseen.
    + intros x. rewrite elem_of_cons, elem_of_app, list_elem_of_singleton, Hseen. tauto.
    + split; [done|]. intros x.
      rewrite Hx, elem_of_app, list_elem_of_singleton, elem_of_cons, Hinj. tauto.
Qed.
