(* ===== verification/Config.v ===== *)
(** * Configuration: [Config] and the validation in [NewStore]
    ([pkg/bus/store.go])

    The clock and the logger are not part of the model: an operation receives
    the instants it reads as arguments, and logging has no effect on state.
    [NamespaceMode] and [LegacyScope] are [None] when the text is none of the
    known constants. *)
From stdpp Require Import gmap strings list.
From Stdlib Require Import ZArith Lia Ascii.
From S2P Require Import Prelude GoBase Json Types Scope.

Module Config.
Record t := mk {
  GracePeriod : Duration;
  ProgressMinInterval : Duration;
  IdempotencyWindow : Duration;
  InboxWaitMax : Duration;
  AckTimeout : Duration;
  DefaultMessageTTL : Duration;
  DefaultRegistrationTTL : Duration;
  PushMaxAttempts : Z;
  PushBaseBackoff : Duration;
  PushQueueSize : Z;
  PushWorkers : Z;
  PushShutdownTimeout : Duration;
  MaxInboxEventsPerAgent : Z;
  MaxObserveEvents : Z;
  MaxInboxBytesPerAgent : Z;
  MaxObserveBytes : Z;
  MessageRetention : Duration;
  MessageMaxAge : Duration;
  ConversationRetention : Duration;
  AgentRetention : Duration;
  SweepMinInterval : Duration;
  Mode : option NamespaceMode;
  LegacyScope : option Scope;
  SharedGrantAgents : list string;
  ControlPlaneAgents : list string;
  ControlPlaneAgentSecretHashes : gmap string string }.
End Config.

(** [if v <= 0 { v = d }] *)
Definition positive_or (d v : Z) : Z := if v <=? 0 then d else v.

(** [if v == 0 { v = d }; if v < 0 { v = 0 }] *)
Definition zero_default (d v : Z) : Z :=
  let v := if v =? 0 then d else v in if v <? 0 then 0 else v.

(** [if v < 0 { v = 0 }; if v == 0 { v = d }] *)
Definition negative_default (d v : Z) : Z :=
  let v := if v <? 0 then 0 else v in if v =? 0 then d else v.

(** The defaulting half of [NewStore], after the control-plane checks. *)
Definition normalizeConfig (controlPlane : list string) (c : Config.t) : Config.t := {|
  Config.GracePeriod := positive_or (30 * Second) (Config.GracePeriod c);
  Config.ProgressMinInterval := positive_or (2 * Second) (Config.ProgressMinInterval c);
  Config.IdempotencyWindow := positive_or (24 * Hour) (Config.IdempotencyWindow c);
  Config.InboxWaitMax := positive_or (60 * Second) (Config.InboxWaitMax c);
  Config.AckTimeout := positive_or (10 * Second) (Config.AckTimeout c);
  Config.DefaultMessageTTL := positive_or (600 * Second) (Config.DefaultMessageTTL c);
  Config.DefaultRegistrationTTL := positive_or (60 * Second) (Config.DefaultRegistrationTTL c);
  Config.PushMaxAttempts := positive_or 3 (Config.PushMaxAttempts c);
  Config.PushBaseBackoff := positive_or (500 * Millisecond) (Config.PushBaseBackoff c);
  Config.PushQueueSize := positive_or 256 (Config.PushQueueSize c);
  Config.PushWorkers := positive_or 4 (Config.PushWorkers c);
  Config.PushShutdownTimeout := positive_or (15 * Second) (Config.PushShutdownTimeout c);
  Config.MaxInboxEventsPerAgent := positive_or 10000 (Config.MaxInboxEventsPerAgent c);
  Config.MaxObserveEvents := positive_or 50000 (Config.MaxObserveEvents c);
  Config.MaxInboxBytesPerAgent := zero_default (Z.shiftl 32 20) (Config.MaxInboxBytesPerAgent c);
  Config.MaxObserveBytes := zero_default (Z.shiftl 64 20) (Config.MaxObserveBytes c);
  Config.MessageRetention := zero_default Hour (Config.MessageRetention c);
  Config.MessageMaxAge := zero_default (24 * Hour) (Config.MessageMaxAge c);
  Config.ConversationRetention := zero_default (24 * Hour) (Config.ConversationRetention c);
  Config.AgentRetention := zero_default (24 * Hour) (Config.AgentRetention c);
  Config.SweepMinInterval := negative_default (250 * Millisecond) (Config.SweepMinInterval c);
  Config.Mode :=
    match Config.Mode c with Some m => Some m | None => Some NamespaceModeCompat end;
  Config.LegacyScope :=
    match Config.LegacyScope c with
    | Some ScopeShared | None => Some ScopeUCLA
    | Some s => Some s
    end;
  Config.SharedGrantAgents := Config.SharedGrantAgents c;
  Config.ControlPlaneAgents := controlPlane;
  Config.ControlPlaneAgentSecretHashes := Config.ControlPlaneAgentSecretHashes c |}.

(** ** Errors of [NewStore] *)
Inductive ConfigError :=
| IdentityPrefixed (id : string)
| MissingSecretHash (id : string)
| InvalidHashIdentity
| UnconfiguredHashIdentity (id : string).

Fixpoint check_agents_have_hashes (hashes : gmap string string) (agents : list string)
    : option ConfigError :=
  match agents with
  | [] => None
  | agentID :: agents =>
      if bool_decide (hashes !! agentID = None) then Some (MissingSecretHash agentID)
      else check_agents_have_hashes hashes agents
  end.

(** [order] enumerates the hash map's keys. *)
Fixpoint check_hash_identities (controlPlane : list string) (order : list string)
    : option ConfigError :=
  match order with
  | [] => None
  | agentID :: order =>
      if negb (bool_decide (TrimSpace agentID = agentID)) || is_empty agentID
         || Contains agentID "."%char
      then Some InvalidHashIdentity
      else if negb (bool_decide (agentID ∈ controlPlane))
      then Some (UnconfiguredHashIdentity agentID)
      else check_hash_identities controlPlane order
  end.

(** [HUMAN_ALLOWLIST]: trimmed, non-empty, comma-separated. *)
Definition parse_allowlist (raw : string) : gset string :=
  list_to_set (filter (λ v, v ≠ ε) (TrimSpace <$> Split raw ","%char)).

(** The parts of [Store] no operation assigns after construction. *)
Record Static := mkStatic {
  cfg : Config.t;
  controlPlaneAgents : gset string;
  humanAllowlist : gset string }.

(** The validation half of [NewStore]; [hash_order] is the iteration order of
    the hash map and [human] the environment variable [HUMAN_ALLOWLIST]. *)
Definition NewStore_static (hash_order : list string) (human : string) (c : Config.t)
    : result ConfigError Static :=
  match NormalizeControlPlaneAgents (Config.ControlPlaneAgents c) with
  | Err id => Err (IdentityPrefixed id)
  | Ok agents =>
      match check_agents_have_hashes (Config.ControlPlaneAgentSecretHashes c) agents with
      | Some e => Err e
      | None =>
          match check_hash_identities agents hash_order with
          | Some e => Err e
          | None => Ok (mkStatic (normalizeConfig agents c) (list_to_set agents) (parse_allowlist human))
          end
      end
  end.

(** ** Facts *)

(** Every bound the operations divide time and space with is usable. *)
Record config_ok (c : Config.t) : Prop := {
  ok_grace : 0 < Config.GracePeriod c;
  ok_progress : 0 < Config.ProgressMinInterval c;
  ok_idempotency : 0 < Config.IdempotencyWindow c;
  ok_wait : 0 < Config.InboxWaitMax c;
  ok_ack : 0 < Config.AckTimeout c;
  ok_ttl : 0 < Config.DefaultMessageTTL c;
  ok_registration : 0 < Config.DefaultRegistrationTTL c;
  ok_attempts : 0 < Config.PushMaxAttempts c;
  ok_backoff : 0 < Config.PushBaseBackoff c;
  ok_queue : 0 < Config.PushQueueSize c;
  ok_workers : 0 < Config.PushWorkers c;
  ok_shutdown : 0 < Config.PushShutdownTimeout c;
  ok_inbox_events : 0 < Config.MaxInboxEventsPerAgent c;
  ok_observe_events : 0 < Config.MaxObserveEvents c;
  ok_inbox_bytes : 0 ≤ Config.MaxInboxBytesPerAgent c;
  ok_observe_bytes : 0 ≤ Config.MaxObserveBytes c;
  ok_retention : 0 ≤ Config.MessageRetention c;
  ok_max_age : 0 ≤ Config.MessageMaxAge c;
  ok_conversation : 0 ≤ Config.ConversationRetention c;
  ok_agent : 0 ≤ Config.AgentRetention c;
  ok_sweep : 0 < Config.SweepMinInterval c;
  ok_mode : is_Some (Config.Mode c);
  ok_legacy : ∃ s, Config.LegacyScope c = Some s ∧ s ≠ ScopeShared }.

Lemma positive_or_pos d v : 0 < d → 0 < positive_or d v.
Proof. unfold positive_or. case_bool; prop_bool; lia. Qed.
Lemma zero_default_nonneg d v : 0 ≤ zero_default d v.
Proof. unfold zero_default. repeat case_bool; prop_bool; lia. Qed.
Lemma negative_default_pos d v : 0 < d → 0 < negative_default d v.
Proof. unfold negative_default. repeat case_bool; prop_bool; lia. Qed.
Lemma positive_or_idemp d v : 0 < d → positive_or d (positive_or d v) = positive_or d v.
Proof. unfold positive_or. intros. repeat case_bool; prop_bool; lia. Qed.
#[export] Hint Resolve positive_or_pos zero_default_nonneg negative_default_pos : bus.

Lemma normalizeConfig_ok l c : config_ok (normalizeConfig l c).
Proof.
  constructor; cbn;
    first [ apply positive_or_pos; unfold Hour, Second, Millisecond; lia
          | apply zero_default_nonneg
          | apply negative_default_pos; unfold Millisecond; lia
          | idtac ].
  - case_match; eauto.
  - destruct (Config.LegacyScope c) as [[]|]; eauto.
Qed.

Lemma check_agents_have_hashes_None hashes agents :
  check_agents_have_hashes hashes agents = None ↔ ∀ a, a ∈ agents → is_Some (hashes !! a).
Proof.
  induction agents as [|a agents IH]; cbn; [set_solver|].
  case_bool_decide as Ha.
  - split; [done|]. intros H. destruct (H a) as [? ?]; [left|congruence].
  - rewrite IH. apply not_eq_None_Some in Ha. set_solver.
Qed.

Lemma check_hash_identities_None cp order :
  check_hash_identities cp order = None ↔
  ∀ a, a ∈ order → control_plane_name a ∧ a ∈ cp.
Proof.
  induction order as [|a order IH]; cbn; [set_solver|].
  unfold control_plane_name, trimmed, is_empty in *.
  destruct (_ || _) eqn:E; prop_bool.
  - split; [done|]. intros H. destruct (H a) as [(Ht & Hn & Hc) _]; [left|].
    destruct E as [E|E]; prop_bool; [destruct E as [E|E]; prop_bool|]; congruence.
  - destruct (negb _) eqn:E2; prop_bool.
    + split; [done|]. intros H'. destruct (H' a); [left|done].
    + rewrite IH. split; [|set_solver].
      intros H' x [->|?]%elem_of_cons; [|auto]. by split_and!.
Qed.

(** What a store that started promises about its configuration. *)
Record static_ok (E : Static) : Prop := {
  st_config : config_ok (cfg E);
  st_set : controlPlaneAgents E = list_to_set (Config.ControlPlaneAgents (cfg E));
  st_names : Forall control_plane_name (Config.ControlPlaneAgents (cfg E));
  st_nodup : NoDup (Config.ControlPlaneAgents (cfg E));
  st_hashes : ∀ a, a ∈ Config.ControlPlaneAgents (cfg E) ↔
    is_Some (Config.ControlPlaneAgentSecretHashes (cfg E) !! a) }.

Lemma NewStore_static_ok order human c E :
  enumerates order (Config.ControlPlaneAgentSecretHashes c) →
  NewStore_static order human c = Ok E → static_ok E.
Proof.
  intros [_ Ho] H. unfold NewStore_static in H.
  destruct (NormalizeControlPlaneAgents _) as [l|] eqn:El; [|done].
  destruct (check_agents_have_hashes _ _) eqn:Ea; [done|].
  destruct (check_hash_identities _ _) eqn:Eh; [done|]. inv H.
  apply NormalizeControlPlaneAgents_ok in El as (? & ? & _).
  rewrite check_agents_have_hashes_None in Ea. rewrite check_hash_identities_None in Eh.
  constructor; cbn; try done; [apply normalizeConfig_ok|].
  intros a. split; [apply Ea|]. intros Ha%Ho. by apply Eh.
Qed.
