(* ===== verification/Auth.v ===== *)
(** * Authorization: the [Store] methods of [pkg/bus/scope.go] and the
    [authorize*]/[*CanAccess*] helpers of [pkg/bus/store.go]

    Denials are logged by the code; logging is not modelled. *)
From stdpp Require Import gmap strings list.
From Stdlib Require Import ZArith Lia Ascii.
From S2P Require Import Prelude GoBase Json Types Scope Config.

Section auth.
Context (E : Static).

Definition scopeOfName (name : string) : option Scope :=
  match ScopeOfName name with
  | Some scope => Some scope
  | None =>
      if bool_decide (Config.Mode (cfg E) ≠ Some NamespaceModeCompat) then None
      else if is_empty (TrimSpace name) then None
      else Config.LegacyScope (cfg E)
  end.

Definition isConfiguredControlPlaneAgent (agentID : string) : bool :=
  bool_decide (TrimSpace agentID ∈ controlPlaneAgents E).

Definition isControlPlaneAgent (agentID : string) : bool :=
  bool_decide (Config.Mode (cfg E) = Some NamespaceModeStrict)
  && isConfiguredControlPlaneAgent agentID.

Definition allScopeNames : list string :=
  [Scope_string ScopePersonal; Scope_string ScopeUCLA; Scope_string ScopeShared].

Definition agentAllowedScopes (agentID : string) : list string :=
  if isControlPlaneAgent agentID then allScopeNames
  else match scopeOfName agentID with
       | None => []
       | Some scope => [Scope_string scope]
       end.

Definition acceptsName (name : string) : bool :=
  if isControlPlaneAgent name then true else bool_decide (is_Some (scopeOfName name)).

Definition agentHasScope (agentID : string) (scope : Scope) : bool :=
  existsb (λ allowed, bool_decide (allowed = Scope_string scope)) (agentAllowedScopes agentID).

Definition agentSharedGrants (agentID : string) : list string :=
  let agentID := TrimSpace agentID in
  if is_empty agentID then []
  else if isControlPlaneAgent agentID then [Scope_string ScopeShared]
  else if existsb (λ raw, bool_decide (TrimSpace raw = agentID))
            (Config.SharedGrantAgents (cfg E))
  then [Scope_string ScopeShared]
  else [].

Definition agentHasSharedGrant (agentID : string) : bool :=
  existsb (λ grant, bool_decide (grant = Scope_string ScopeShared)) (agentSharedGrants agentID).

Definition err_scope_denied : Error.t :=
  fail CodeUnauthorized "identity is not allowed to access this scope"%stdpp.

(** [agentID] is the [AgentID] of the stored agent; [None] is success. *)
Definition authorizeAgentForName (agentID resource : string) : option Error.t :=
  if isControlPlaneAgent agentID && acceptsName resource then None
  else match scopeOfName resource with
  | None => Some (fail CodeValidation "topic/queue name must be prefixed with personal., ucla., or shared."%stdpp)
  | Some scope =>
      if bool_decide (scope = ScopeShared) then
        if agentHasSharedGrant agentID then None
        else Some (fail CodeUnauthorized "shared.* access requires explicit shared grant"%stdpp)
      else if agentHasScope agentID scope then None
      else Some err_scope_denied
  end.

Definition authorizeSendTarget (agentID resource : string) : option Error.t :=
  if isControlPlaneAgent resource then None else authorizeAgentForName agentID resource.

Definition agentCanAccessName (agentID resource : string) : bool :=
  let agentID := TrimSpace agentID in
  if is_empty agentID then true
  else if isControlPlaneAgent agentID then acceptsName resource
  else match scopeOfName resource with
  | None => false
  | Some scope =>
      if bool_decide (scope = ScopeShared) then agentHasSharedGrant agentID
      else agentHasScope agentID scope
  end.

Fixpoint actorCanAccessAllNames_loop (actor : string) (protected : bool) (names : list string)
    : bool :=
  match names with
  | [] => protected
  | name :: names =>
      let name := TrimSpace name in
      if is_empty name then actorCanAccessAllNames_loop actor protected names
      else if negb (agentCanAccessName actor name) then false
      else actorCanAccessAllNames_loop actor true names
  end.

Definition actorCanAccessAllNames (actor : string) (names : list string) : bool :=
  let actor := TrimSpace actor in
  if is_empty actor then true else actorCanAccessAllNames_loop actor false names.

Definition actorCanAccessConversation (actor : string) (conv : option Conversation.t) : bool :=
  match conv with
  | None => false
  | Some c => actorCanAccessAllNames actor (Conversation.Participants c)
  end.

Fixpoint authorizeActorForNames_loop (actor : string) (names : list string) : option Error.t :=
  match names with
  | [] => None
  | name :: names =>
      let name := TrimSpace name in
      if is_empty name then authorizeActorForNames_loop actor names
      else if agentCanAccessName actor name then authorizeActorForNames_loop actor names
      else Some err_scope_denied
  end.

Definition authorizeActorForNames (actor : string) (names : list string) : option Error.t :=
  let actor := TrimSpace actor in
  if is_empty actor then None else authorizeActorForNames_loop actor names.

(** ** The access policy

    [may_access a r]: the rule the helpers implement, stated on scopes.  A
    control-plane identity reaches every acceptable name; any other identity
    reaches shared names with a grant and the names of its own scope. *)
Definition may_access (agent resource : string) : Prop :=
  (isControlPlaneAgent agent = true ∧ acceptsName resource = true)
  ∨ (scopeOfName resource = Some ScopeShared ∧ agentHasSharedGrant agent = true)
  ∨ (∃ s, s ≠ ScopeShared ∧ scopeOfName resource = Some s ∧ scopeOfName agent = Some s).

Lemma agentHasScope_iff a s :
  agentHasScope a s = true ↔ isControlPlaneAgent a = true ∨ scopeOfName a = Some s.
Proof.
  unfold agentHasScope, agentAllowedScopes.
  destruct (isControlPlaneAgent a) eqn:Ecp.
  - destruct s; split; naive_solver.
  - destruct (scopeOfName a) as [s'|]; cbn; [|naive_solver].
    rewrite orb_false_r, bool_decide_eq_true. destruct s, s'; naive_solver.
Qed.

Lemma acceptsName_scoped r s : scopeOfName r = Some s → acceptsName r = true.
Proof. intros H. unfold acceptsName. rewrite H. case_match; [done|]. by apply bool_decide_eq_true_2. Qed.

Lemma authorizeAgentForName_spec a r : authorizeAgentForName a r = None ↔ may_access a r.
Proof.
  unfold authorizeAgentForName, may_access.
  destruct (isControlPlaneAgent a && acceptsName r) eqn:Ecp.
  { apply andb_true_iff in Ecp. split; [auto|done]. }
  assert (¬ (isControlPlaneAgent a = true ∧ acceptsName r = true)) as Hn.
  { by rewrite <-andb_true_iff, Ecp. }
  destruct (scopeOfName r) as [s|] eqn:Es; [|split; [done|intros [?|[[? _]|(?&_&?&_)]]; done]].
  pose proof (acceptsName_scoped _ _ Es). case_bool_decide as Hs.
  - subst. destruct (agentHasSharedGrant a); [split; auto|].
    split; [done|]. intros [?|[[? ?]|(s'&?&[= <-]&?)]]; done.
  - pose proof (agentHasScope_iff a s) as Hh. destruct (agentHasScope a s).
    + split; [|done]. intros _. destruct Hh as [Hh _]. destruct Hh as [?|?]; [done|tauto|eauto 6].
    + split; [done|]. intros [?|[[? ?]|(s'&?&[= <-]&?)]]; [tauto|congruence|].
      destruct Hh as [_ Hh]. discriminate Hh. auto.
Qed.

Lemma scopeOfName_TrimSpace name : scopeOfName (TrimSpace name) = scopeOfName name.
Proof. unfold scopeOfName. by rewrite ScopeOfName_TrimSpace, TrimSpace_idemp. Qed.

Lemma isControlPlaneAgent_TrimSpace name :
  isControlPlaneAgent (TrimSpace name) = isControlPlaneAgent name.
Proof.
  unfold isControlPlaneAgent, isConfiguredControlPlaneAgent. by rewrite TrimSpace_idemp.
Qed.

Lemma acceptsName_TrimSpace name : acceptsName (TrimSpace name) = acceptsName name.
Proof.
  unfold acceptsName. by rewrite isControlPlaneAgent_TrimSpace, scopeOfName_TrimSpace.
Qed.

Lemma agentHasSharedGrant_TrimSpace a :
  agentHasSharedGrant (TrimSpace a) = agentHasSharedGrant a.
Proof. unfold agentHasSharedGrant, agentSharedGrants. by rewrite TrimSpace_idemp. Qed.

(** The conversation-access test agrees with the policy for a named actor. *)
Lemma agentCanAccessName_spec a r :
  TrimSpace a ≠ ε →
  agentCanAccessName a r = true ↔
  if isControlPlaneAgent a then acceptsName r = true else may_access a r.
Proof.
  intros Ha. unfold agentCanAccessName, is_empty.
  rewrite bool_decide_eq_false_2 by done.
  rewrite isControlPlaneAgent_TrimSpace, agentHasSharedGrant_TrimSpace.
  destruct (isControlPlaneAgent a) eqn:Ecp; [done|].
  rewrite <-authorizeAgentForName_spec. unfold authorizeAgentForName. rewrite Ecp. cbn.
  destruct (scopeOfName r) as [s|]; [|done].
  case_bool_decide; [by destruct (agentHasSharedGrant a)|].
  replace (agentHasScope (TrimSpace a) s) with (agentHasScope a s);
    [by destruct (agentHasScope a s)|].
  unfold agentHasScope, agentAllowedScopes.
  by rewrite isControlPlaneAgent_TrimSpace, scopeOfName_TrimSpace.
Qed.

(** A name that matters in a participant list. *)
Definition named (names : list string) (n : string) : Prop := n ≠ ε ∧ n ∈ (TrimSpace <$> names).

Lemma named_cons x names n : named (x :: names) n ↔ n ≠ ε ∧ n = TrimSpace x ∨ named names n.
Proof. unfold named. rewrite fmap_cons, elem_of_cons. tauto. Qed.

Lemma named_nil n : ¬ named [] n.
Proof. intros [_ H]. by apply not_elem_of_nil in H. Qed.

(** A property of the named entries, peeled off the list. *)
Lemma named_forall_cons (P : string → Prop) x names :
  (∀ n, named (x :: names) n → P n) ↔
  (TrimSpace x ≠ ε → P (TrimSpace x)) ∧ ∀ n, named names n → P n.
Proof.
  setoid_rewrite named_cons. split.
  - intros H. split; [intros Hx; apply H; auto | intros n Hn; apply H; auto].
  - intros [Hx H] n [[Hn ->]|Hn]; auto.
Qed.

Lemma actorCanAccessAllNames_loop_spec actor p names :
  actorCanAccessAllNames_loop actor p names = true ↔
  (∀ n, named names n → agentCanAccessName actor n = true) ∧ (p = true ∨ ∃ n, named names n).
Proof.
  revert p. induction names as [|x names IH]; intros p.
  { cbn. split.
    - intros ->. split; [|auto]. by intros n ?%named_nil.
    - intros [_ [?|(n & ?%named_nil)]]; done. }
  rewrite named_forall_cons. cbn. unfold is_empty. case_bool_decide as Hx.
  { rewrite IH. setoid_rewrite named_cons. split.
    - intros [H H']. split; [by split|]. destruct H' as [?|[n ?]]; eauto.
    - intros [[_ H] H']. split; [done|].
      destruct H' as [?|(n & [[Hn Hnx]|?])]; [by left|congruence|eauto]. }
  destruct (agentCanAccessName actor (TrimSpace x)) eqn:Ea; cbn.
  - rewrite IH. setoid_rewrite named_cons. split; [|tauto].
    intros [H _]. split; [by split|]. right. exists (TrimSpace x). by left.
  - split; [done|]. intros [[H _] _]. specialize (H Hx). congruence.
Qed.

Lemma authorizeActorForNames_loop_spec actor names :
  authorizeActorForNames_loop actor names = None ↔
  ∀ n, named names n → agentCanAccessName actor n = true.
Proof.
  induction names as [|x names IH].
  { cbn. split; [|done]. by intros _ n ?%named_nil. }
  rewrite named_forall_cons. cbn. unfold is_empty. case_bool_decide as Hx.
  { rewrite IH. tauto. }
  destruct (agentCanAccessName actor (TrimSpace x)) eqn:Ea; cbn.
  - rewrite IH. tauto.
  - split; [done|]. intros [H _]. specialize (H Hx). congruence.
Qed.

(** An identity that is not a configured exception is never accepted
    unprefixed in strict mode. *)
Lemma acceptsName_strict name :
  Config.Mode (cfg E) = Some NamespaceModeStrict →
  acceptsName name = true ↔
  TrimSpace name ∈ controlPlaneAgents E ∨ is_Some (ScopeOfName name).
Proof.
  intros Hm. unfold acceptsName, isControlPlaneAgent, isConfiguredControlPlaneAgent, scopeOfName.
  rewrite Hm. rewrite bool_decide_eq_true_2 by done. cbn. case_bool_decide as Hc; [tauto|].
  rewrite bool_decide_eq_true.
  destruct (ScopeOfName name); [naive_solver|]. split; [|naive_solver].
  intros [? ?]. by rewrite bool_decide_eq_true_2 in H by done.
Qed.

End auth.
