(* ===== verification/Ring.v ===== *)
(** * Bounded buffers

    The per-agent inboxes and the observe ring evict their oldest events with
    the same two loops ([appendInboxLocked] and [trimObserveLocked] of
    [pkg/bus/store.go]): first down to a count, then down to a byte budget,
    never the newest event.  The loops are defined here once, over the
    interface [Sized] that both event types implement. *)
From stdpp Require Import gmap strings list.
From Stdlib Require Import ZArith Lia.
From S2P Require Import Prelude.

(** The size a buffer accounts an event with. *)
Class Sized (A : Type) := size_of : A → Z.

(** The law an event type may promise about it. *)
Class SizedNonneg (A : Type) `{Sized A} := size_of_nonneg : ∀ a : A, 0 ≤ size_of a.

Section ring.
Context `{Sized A}.
Implicit Types (events : list A).

Definition total events : Z := zsum size_of events.

(** [for drop < len(events)-1 && remaining > maxBytes { ... }], on the events
    from [drop] on. *)
Fixpoint evict_bytes (maxBytes : Z) events (remaining : Z) (drop : nat) : nat :=
  match events with
  | x :: (_ :: _) as rest =>
      if maxBytes <? remaining
      then evict_bytes maxBytes rest (remaining - size_of x) (S drop)
      else drop
  | _ => drop
  end.

(** The number of events dropped from the front; [bytes] is the buffer's
    running byte count. *)
Definition evict_count (max maxBytes bytes : Z) events : nat :=
  let n := Z.of_nat (length events) in
  let drop := if (0 <? max) && (max <? n) then Z.to_nat (n - max) else 0%nat in
  if 0 <? maxBytes then
    evict_bytes maxBytes (skipn drop events) (bytes - total (take drop events)) drop
  else drop.

(** The budget a buffer is kept within; a single event may exceed the bytes. *)
Definition within (max maxBytes : Z) events : Prop :=
  (0 < max → Z.of_nat (length events) ≤ max) ∧
  (0 < maxBytes → total events ≤ maxBytes ∨ (length events ≤ 1)%nat).

Lemma total_app l1 l2 : total (l1 ++ l2) = total l1 + total l2.
Proof. apply zsum_app. Qed.

Lemma total_drop n events : total (drop n events) = total events - total (take n events).
Proof. unfold total. rewrite <-(zsum_take_drop _ n events). lia. Qed.

Lemma within_nil max maxBytes : within max maxBytes [].
Proof. split; cbn; [lia|]. intros. right. lia. Qed.

Lemma evict_bytes_cons maxBytes x y events remaining d :
  evict_bytes maxBytes (x :: y :: events) remaining d =
  if maxBytes <? remaining then evict_bytes maxBytes (y :: events) (remaining - size_of x) (S d)
  else d.
Proof. done. Qed.

(** The byte loop: it stops in front of the last event, every position it
    leaves was over the budget, and the one it stops at is not. *)
Lemma evict_bytes_spec maxBytes events remaining d :
  remaining = total events → events ≠ [] →
  let n := evict_bytes maxBytes events remaining d in
  (d ≤ n < d + length events)%nat ∧
  (total (drop (n - d) events) ≤ maxBytes ∨ (n - d = length events - 1)%nat) ∧
  ∀ k, (d ≤ k < n)%nat → maxBytes < total (drop (k - d) events).
Proof.
  revert remaining d. induction events as [|x [|y events] IH]; intros remaining d Hr Hne; [done|..].
  - cbn. rewrite Nat.sub_diag. cbn. repeat split; lia.
  - rewrite evict_bytes_cons. destruct (maxBytes <? remaining) eqn:E; prop_bool.
    + destruct (IH (remaining - size_of x) (S d)) as (Hn & Hb & Hk); [|done|].
      { unfold total in *. rewrite zsum_cons in Hr. lia. }
      set (n := evict_bytes _ _ _ _) in *. cbn zeta. cbn [length] in *.
      assert (n - d = S (n - S d))%nat as -> by lia. cbn [drop].
      split_and!; [lia|lia|lia|].
      intros k Hk'. destruct (decide (k = d)) as [->|].
      * rewrite Nat.sub_diag. cbn [drop]. lia.
      * assert (k - d = S (k - S d))%nat as -> by lia. cbn [drop]. apply Hk. lia.
    + cbn zeta. rewrite Nat.sub_diag. cbn [drop length].
      split_and!; [lia|lia|left; lia|intros; lia].
Qed.

Lemma evict_count_spec max maxBytes events :
  events ≠ [] →
  let n := evict_count max maxBytes (total events) events in
  (n < length events)%nat ∧ within max maxBytes (drop n events) ∧
  ∀ k, (k < n)%nat → ¬ within max maxBytes (drop k events).
Proof.
  intros Hne. unfold evict_count.
  assert (0 < length events)%nat by (destruct events; cbn; [done|lia]).
  set (d := if _ && _ then _ else _).
  assert ((d < length events)%nat ∧
    (0 < max → Z.of_nat (length events - d) ≤ max) ∧
    ∀ k, (k < d)%nat → 0 < max ∧ max < Z.of_nat (length events - k)) as (Hd & Hmax & Hk).
  { subst d. destruct ((0 <? max) && _) eqn:E; prop_bool; [|destruct E; prop_bool];
      (split_and!; [lia|intros; lia|intros; lia]). }
  clearbody d. unfold within. setoid_rewrite length_drop.
  destruct (0 <? maxBytes) eqn:EB; prop_bool.
  - destruct (evict_bytes_spec maxBytes (drop d events) (total events - total (take d events)) d)
      as (Hn & Hb & Hk').
    { by rewrite total_drop. }
    { intros Hnil%(f_equal length). rewrite length_drop in Hnil. cbn in *. lia. }
    rewrite length_drop in *. set (n := evict_bytes _ _ _ _) in *.
    rewrite drop_drop in Hb. replace (d + (n - d))%nat with n in Hb by lia.
    split_and!; [lia|lia| |].
    + intros _. destruct Hb; [by left|right; lia].
    + intros k Hkn [Hc Hw]. destruct (decide (k < d)%nat) as [Hkd|]; [specialize (Hk k Hkd); lia|].
      specialize (Hk' k ltac:(lia)). rewrite drop_drop in Hk'.
      replace (d + (k - d))%nat with k in Hk' by lia. specialize (Hw EB). lia.
  - split_and!; [lia|lia|lia|]. intros k Hkd [Hc _]. specialize (Hk k Hkd). lia.
Qed.

(** The eviction point is determined by the specification: the least number
    of oldest events whose removal brings the buffer within budget. *)
Lemma evict_count_unique max maxBytes events n :
  events ≠ [] →
  within max maxBytes (drop n events) →
  (∀ k, (k < n)%nat → ¬ within max maxBytes (drop k events)) →
  evict_count max maxBytes (total events) events = n.
Proof.
  intros Hne Hw Hleast. destruct (evict_count_spec max maxBytes events Hne) as (_ & Hw' & Hl').
  set (m := evict_count _ _ _ _) in *.
  destruct (lt_eq_lt_dec m n) as [[Hmn|]|Hmn]; [|done|].
  - by apply Hleast in Hmn.
  - by apply Hl' in Hmn.
Qed.

(** A buffer within budget loses nothing. *)
Lemma evict_count_within max maxBytes events :
  events ≠ [] → within max maxBytes events →
  evict_count max maxBytes (total events) events = 0%nat.
Proof. intros Hne Hw. apply evict_count_unique; [done|by rewrite drop_0|lia]. Qed.

End ring.

#[global] Arguments total : simpl never.

Section nonneg.
Context `{SizedNonneg A}.
Implicit Types (events : list A).

Lemma total_nonneg events : 0 ≤ total events.
Proof. apply zsum_nonneg, size_of_nonneg. Qed.

(** Dropping old events keeps a buffer within budget. *)
Lemma within_drop max maxBytes n events :
  within max maxBytes events → within max maxBytes (drop n events).
Proof.
  intros [Hc Hb]. split; rewrite length_drop; [lia|]. intros HB. destruct (Hb HB); [left|lia].
  rewrite total_drop. pose proof (total_nonneg (take n events)). lia.
Qed.

End nonneg.
