(* ===== verification/State.v ===== *)
(** * The store's state: [Store] of [pkg/bus/store.go]

    Go maps are finite maps, slices are lists.  [cfg], [controlPlaneAgents]
    and [humanAllowlist] are never assigned after [NewStore]: they form
    [Static] (Config.v).  The mutex, the HTTP client, the logger, the random
    epoch and the cancellation context are not state of the model.

    A [chan struct{}] that is only ever closed is a number; [Channels] is the
    part of the Go heap that knows which are closed. *)
From stdpp Require Import gmap strings list.
From Stdlib Require Import ZArith Lia Ascii.
From S2P Require Import Prelude GoBase Json Types Config.

Module IdempotencyEntry.
Record t := mk { MessageID : string; CreatedAt : Time }.
End IdempotencyEntry.

(** A queued callback.  [receipt] is the message identifier captured by the
    [onSuccess]/[onFailure] closures, [None] where they are nil. *)
Module PushJob.
Record t := mk { url : string; payload : json; receipt : option string }.
End PushJob.

Module Channels.
Record t := mk { next : nat; closed : gset nat; double_close : bool }.
Definition init : t := mk 0 ∅ false.

(** [make(chan struct{})] *)
Definition make (h : t) : nat * t := (next h, mk (S (next h)) (closed h) (double_close h)).

(** [close(ch)]; closing a closed channel panics, which [double_close] records. *)
Definition close (ch : nat) (h : t) : t :=
  mk (next h) ({[ch]} ∪ closed h) (double_close h || bool_decide (ch ∈ closed h)).
End Channels.

Record Store := mkStore {
  nextConversationID : Z;
  nextMessageID : Z;
  nextObserveID : Z;
  agents : gmap string Agent.t;
  conversations : gmap string Conversation.t;
  messages : gmap string Message.t;
  conversationMessages : gmap string (list string);
  inboxes : gmap string (list InboxEvent.t);
  inboxBase : gmap string Z;
  inboxBytes : gmap string Z;
  observeEvents : list ObserveEvent.t;
  observeBytes : Z;
  idempotency : gmap string IdempotencyEntry.t;
  lastSweepAt : Time;
  inboxNotify : gmap string nat;
  observeNotify : nat;
  sweepSkipped : Z;
  sweepRan : Z;
  pushFailures : Z;
  pushSuccesses : Z;
  pushQueue : list PushJob.t;
  pushWG : Z;
  pushClosed : bool;
  channels : Channels.t }.

Definition set_nextConversationID (v : Z) (s : Store) : Store :=
  mkStore v (nextMessageID s) (nextObserveID s) (agents s) (conversations s) (messages s)
    (conversationMessages s) (inboxes s) (inboxBase s) (inboxBytes s) (observeEvents s)
    (observeBytes s) (idempotency s) (lastSweepAt s) (inboxNotify s) (observeNotify s)
    (sweepSkipped s) (sweepRan s) (pushFailures s) (pushSuccesses s) (pushQueue s) (pushWG s)
    (pushClosed s) (channels s).
Definition set_nextMessageID (v : Z) (s : Store) : Store :=
  mkStore (nextConversationID s) v (nextObserveID s) (agents s) (conversations s) (messages s)
    (conversationMessages s) (inboxes s) (inboxBase s) (inboxBytes s) (observeEvents s)
    (observeBytes s) (idempotency s) (lastSweepAt s) (inboxNotify s) (observeNotify s)
    (sweepSkipped s) (sweepRan s) (pushFailures s) (pushSuccesses s) (pushQueue s) (pushWG s)
    (pushClosed s) (channels s).
Definition set_nextObserveID (v : Z) (s : Store) : Store :=
  mkStore (nextConversationID s) (nextMessageID s) v (agents s) (conversations s) (messages s)
    (conversationMessages s) (inboxes s) (inboxBase s) (inboxBytes s) (observeEvents s)
    (observeBytes s) (idempotency s) (lastSweepAt s) (inboxNotify s) (observeNotify s)
    (sweepSkipped s) (sweepRan s) (pushFailures s) (pushSuccesses s) (pushQueue s) (pushWG s)
    (pushClosed s) (channels s).
Definition set_agents (v : gmap string Agent.t) (s : Store) : Store :=
  mkStore (nextConversationID s) (nextMessageID s) (nextObserveID s) v (conversations s)
    (messages s) (conversationMessages s) (inboxes s) (inboxBase s) (inboxBytes s)
    (observeEvents s) (observeBytes s) (idempotency s) (lastSweepAt s) (inboxNotify s)
    (observeNotify s) (sweepSkipped s) (sweepRan s) (pushFailures s) (pushSuccesses s)
    (pushQueue s) (pushWG s) (pushClosed s) (channels s).
Definition set_conversations (v : gmap string Conversation.t) (s : Store) : Store :=
  mkStore (nextConversationID s) (nextMessageID s) (nextObserveID s) (agents s) v (messages s)
    (conversationMessages s) (inboxes s) (inboxBase s) (inboxBytes s) (observeEvents s)
    (observeBytes s) (idempotency s) (lastSweepAt s) (inboxNotify s) (observeNotify s)
    (sweepSkipped s) (sweepRan s) (pushFailures s) (pushSuccesses s) (pushQueue s) (pushWG s)
    (pushClosed s) (channels s).
Definition set_messages (v : gmap string Message.t) (s : Store) : Store :=
  mkStore (nextConversationID s) (nextMessageID s) (nextObserveID s) (agents s) (conversations
    s) v (conversationMessages s) (inboxes s) (inboxBase s) (inboxBytes s) (observeEvents s)
    (observeBytes s) (idempotency s) (lastSweepAt s) (inboxNotify s) (observeNotify s)
    (sweepSkipped s) (sweepRan s) (pushFailures s) (pushSuccesses s) (pushQueue s) (pushWG s)
    (pushClosed s) (channels s).
Definition set_conversationMessages (v : gmap string (list string)) (s : Store) : Store :=
  mkStore (nextConversationID s) (nextMessageID s) (nextObserveID s) (agents s) (conversations
    s) (messages s) v (inboxes s) (inboxBase s) (inboxBytes s) (observeEvents s) (observeBytes
    s) (idempotency s) (lastSweepAt s) (inboxNotify s) (observeNotify s) (sweepSkipped s)
    (sweepRan s) (pushFailures s) (pushSuccesses s) (pushQueue s) (pushWG s) (pushClosed s)
    (channels s).
Definition set_inboxes (v : gmap string (list InboxEvent.t)) (s : Store) : Store :=
  mkStore (nextConversationID s) (nextMessageID s) (nextObserveID s) (agents s) (conversations
    s) (messages s) (conversationMessages s) v (inboxBase s) (inboxBytes s) (observeEvents s)
    (observeBytes s) (idempotency s) (lastSweepAt s) (inboxNotify s) (observeNotify s)
    (sweepSkipped s) (sweepRan s) (pushFailures s) (pushSuccesses s) (pushQueue s) (pushWG s)
    (pushClosed s) (channels s).
Definition set_inboxBase (v : gmap string Z) (s : Store) : Store :=
  mkStore (nextConversationID s) (nextMessageID s) (nextObserveID s) (agents s) (conversations
    s) (messages s) (conversationMessages s) (inboxes s) v (inboxBytes s) (observeEvents s)
    (observeBytes s) (idempotency s) (lastSweepAt s) (inboxNotify s) (observeNotify s)
    (sweepSkipped s) (sweepRan s) (pushFailures s) (pushSuccesses s) (pushQueue s) (pushWG s)
    (pushClosed s) (channels s).
Definition set_inboxBytes (v : gmap string Z) (s : Store) : Store :=
  mkStore (nextConversationID s) (nextMessageID s) (nextObserveID s) (agents s) (conversations
    s) (messages s) (conversationMessages s) (inboxes s) (inboxBase s) v (observeEvents s)
    (observeBytes s) (idempotency s) (lastSweepAt s) (inboxNotify s) (observeNotify s)
    (sweepSkipped s) (sweepRan s) (pushFailures s) (pushSuccesses s) (pushQueue s) (pushWG s)
    (pushClosed s) (channels s).
Definition set_observeEvents (v : list ObserveEvent.t) (s : Store) : Store :=
  mkStore (nextConversationID s) (nextMessageID s) (nextObserveID s) (agents s) (conversations
    s) (messages s) (conversationMessages s) (inboxes s) (inboxBase s) (inboxBytes s) v
    (observeBytes s) (idempotency s) (lastSweepAt s) (inboxNotify s) (observeNotify s)
    (sweepSkipped s) (sweepRan s) (pushFailures s) (pushSuccesses s) (pushQueue s) (pushWG s)
    (pushClosed s) (channels s).
Definition set_observeBytes (v : Z) (s : Store) : Store :=
  mkStore (nextConversationID s) (nextMessageID s) (nextObserveID s) (agents s) (conversations
    s) (messages s) (conversationMessages s) (inboxes s) (inboxBase s) (inboxBytes s)
    (observeEvents s) v (idempotency s) (lastSweepAt s) (inboxNotify s) (observeNotify s)
    (sweepSkipped s) (sweepRan s) (pushFailures s) (pushSuccesses s) (pushQueue s) (pushWG s)
    (pushClosed s) (channels s).
Definition set_idempotency (v : gmap string IdempotencyEntry.t) (s : Store) : Store :=
  mkStore (nextConversationID s) (nextMessageID s) (nextObserveID s) (agents s) (conversations
    s) (messages s) (conversationMessages s) (inboxes s) (inboxBase s) (inboxBytes s)
    (observeEvents s) (observeBytes s) v (lastSweepAt s) (inboxNotify s) (observeNotify s)
    (sweepSkipped s) (sweepRan s) (pushFailures s) (pushSuccesses s) (pushQueue s) (pushWG s)
    (pushClosed s) (channels s).
Definition set_lastSweepAt (v : Time) (s : Store) : Store :=
  mkStore (nextConversationID s) (nextMessageID s) (nextObserveID s) (agents s) (conversations
    s) (messages s) (conversationMessages s) (inboxes s) (inboxBase s) (inboxBytes s)
    (observeEvents s) (observeBytes s) (idempotency s) v (inboxNotify s) (observeNotify s)
    (sweepSkipped s) (sweepRan s) (pushFailures s) (pushSuccesses s) (pushQueue s) (pushWG s)
    (pushClosed s) (channels s).
Definition set_inboxNotify (v : gmap string nat) (s : Store) : Store :=
  mkStore (nextConversationID s) (nextMessageID s) (nextObserveID s) (agents s) (conversations
    s) (messages s) (conversationMessages s) (inboxes s) (inboxBase s) (inboxBytes s)
    (observeEvents s) (observeBytes s) (idempotency s) (lastSweepAt s) v (observeNotify s)
    (sweepSkipped s) (sweepRan s) (pushFailures s) (pushSuccesses s) (pushQueue s) (pushWG s)
    (pushClosed s) (channels s).
Definition set_observeNotify (v : nat) (s : Store) : Store :=
  mkStore (nextConversationID s) (nextMessageID s) (nextObserveID s) (agents s) (conversations
    s) (messages s) (conversationMessages s) (inboxes s) (inboxBase s) (inboxBytes s)
    (observeEvents s) (observeBytes s) (idempotency s) (lastSweepAt s) (inboxNotify s) v
    (sweepSkipped s) (sweepRan s) (pushFailures s) (pushSuccesses s) (pushQueue s) (pushWG s)
    (pushClosed s) (channels s).
Definition set_sweepSkipped (v : Z) (s : Store) : Store :=
  mkStore (nextConversationID s) (nextMessageID s) (nextObserveID s) (agents s) (conversations
    s) (messages s) (conversationMessages s) (inboxes s) (inboxBase s) (inboxBytes s)
    (observeEvents s) (observeBytes s) (idempotency s) (lastSweepAt s) (inboxNotify s)
    (observeNotify s) v (sweepRan s) (pushFailures s) (pushSuccesses s) (pushQueue s) (pushWG s)
    (pushClosed s) (channels s).
Definition set_sweepRan (v : Z) (s : Store) : Store :=
  mkStore (nextConversationID s) (nextMessageID s) (nextObserveID s) (agents s) (conversations
    s) (messages s) (conversationMessages s) (inboxes s) (inboxBase s) (inboxBytes s)
    (observeEvents s) (observeBytes s) (idempotency s) (lastSweepAt s) (inboxNotify s)
    (observeNotify s) (sweepSkipped s) v (pushFailures s) (pushSuccesses s) (pushQueue s)
    (pushWG s) (pushClosed s) (channels s).
Definition set_pushFailures (v : Z) (s : Store) : Store :=
  mkStore (nextConversationID s) (nextMessageID s) (nextObserveID s) (agents s) (conversations
    s) (messages s) (conversationMessages s) (inboxes s) (inboxBase s) (inboxBytes s)
    (observeEvents s) (observeBytes s) (idempotency s) (lastSweepAt s) (inboxNotify s)
    (observeNotify s) (sweepSkipped s) (sweepRan s) v (pushSuccesses s) (pushQueue s) (pushWG s)
    (pushClosed s) (channels s).
Definition set_pushSuccesses (v : Z) (s : Store) : Store :=
  mkStore (nextConversationID s) (nextMessageID s) (nextObserveID s) (agents s) (conversations
    s) (messages s) (conversationMessages s) (inboxes s) (inboxBase s) (inboxBytes s)
    (observeEvents s) (observeBytes s) (idempotency s) (lastSweepAt s) (inboxNotify s)
    (observeNotify s) (sweepSkipped s) (sweepRan s) (pushFailures s) v (pushQueue s) (pushWG s)
    (pushClosed s) (channels s).
Definition set_pushQueue (v : list PushJob.t) (s : Store) : Store :=
  mkStore (nextConversationID s) (nextMessageID s) (nextObserveID s) (agents s) (conversations
    s) (messages s) (conversationMessages s) (inboxes s) (inboxBase s) (inboxBytes s)
    (observeEvents s) (observeBytes s) (idempotency s) (lastSweepAt s) (inboxNotify s)
    (observeNotify s) (sweepSkipped s) (sweepRan s) (pushFailures s) (pushSuccesses s) v (pushWG
    s) (pushClosed s) (channels s).
Definition set_pushWG (v : Z) (s : Store) : Store :=
  mkStore (nextConversationID s) (nextMessageID s) (nextObserveID s) (agents s) (conversations
    s) (messages s) (conversationMessages s) (inboxes s) (inboxBase s) (inboxBytes s)
    (observeEvents s) (observeBytes s) (idempotency s) (lastSweepAt s) (inboxNotify s)
    (observeNotify s) (sweepSkipped s) (sweepRan s) (pushFailures s) (pushSuccesses s)
    (pushQueue s) v (pushClosed s) (channels s).
Definition set_pushClosed (v : bool) (s : Store) : Store :=
  mkStore (nextConversationID s) (nextMessageID s) (nextObserveID s) (agents s) (conversations
    s) (messages s) (conversationMessages s) (inboxes s) (inboxBase s) (inboxBytes s)
    (observeEvents s) (observeBytes s) (idempotency s) (lastSweepAt s) (inboxNotify s)
    (observeNotify s) (sweepSkipped s) (sweepRan s) (pushFailures s) (pushSuccesses s)
    (pushQueue s) (pushWG s) v (channels s).
Definition set_channels (v : Channels.t) (s : Store) : Store :=
  mkStore (nextConversationID s) (nextMessageID s) (nextObserveID s) (agents s) (conversations
    s) (messages s) (conversationMessages s) (inboxes s) (inboxBase s) (inboxBytes s)
    (observeEvents s) (observeBytes s) (idempotency s) (lastSweepAt s) (inboxNotify s)
    (observeNotify s) (sweepSkipped s) (sweepRan s) (pushFailures s) (pushSuccesses s)
    (pushQueue s) (pushWG s) (pushClosed s) v.

(** The store [NewStore] returns. *)
Definition emptyStore : Store :=
  let '(ch, h) := Channels.make Channels.init in
  mkStore 0 0 0 ∅ ∅ ∅ ∅ ∅ ∅ ∅ [] 0 ∅ 0 ∅ ch 0 0 0 0 [] 0 false h.

(** A Go map read with the zero value for absent keys. *)
Definition inbox (s : Store) (a : string) : list InboxEvent.t := default [] (inboxes s !! a).
Definition base (s : Store) (a : string) : Z := default 0 (inboxBase s !! a).
Definition inbox_size (s : Store) (a : string) : Z := default 0 (inboxBytes s !! a).
Definition conversation_messages (s : Store) (c : string) : list string :=
  default [] (conversationMessages s !! c).

(** [NewStore] *)
Definition NewStore (hash_order : list string) (human : string) (c : Config.t)
    : result ConfigError (Static * Store) :=
  match NewStore_static hash_order human c with
  | Err e => Err e
  | Ok E => Ok (E, emptyStore)
  end.
