(* ===== verification/Push.v ===== *)
(** * Push callbacks: the bounded queue, the worker's delivery loop and
    shutdown ([pkg/bus/store.go])

    The HTTP client is outside the program: [net k] is what happens to the
    [k]-th attempt of a delivery, including whether the pool's context is
    found cancelled after the attempt or during the pause that follows it. *)
From stdpp Require Import gmap strings list.
From Stdlib Require Import ZArith Lia Ascii.
From S2P Require Import Prelude GoBase Json Types Config State.

Section push.
Context (E : Static).

(** ** Scheduling *)

Definition shutdown_failure : string := "push delivery interrupted by shutdown"%stdpp.

(** The empty string is success.  A send on the buffered channel succeeds when
    there is room; a worker already waiting implies an empty buffer. *)
Definition enqueuePushJobLocked (job : PushJob.t) (s : Store) : string * Store :=
  if pushClosed s then (shutdown_failure, set_pushFailures (inc64 (pushFailures s)) s)
  else
    let s := set_pushWG (pushWG s + 1) s in
    if Z.of_nat (length (pushQueue s)) <? Config.PushQueueSize (cfg E) then
      (ε, set_pushQueue (pushQueue s ++ [job]) s)
    else
      let s := set_pushWG (pushWG s - 1) s in
      ("push queue full"%stdpp, set_pushFailures (inc64 (pushFailures s)) s).

Definition enqueuePushLocked (url : string) (payload : json) (s : Store) : Store :=
  (enqueuePushJobLocked (PushJob.mk url payload None) s).2.

(** [finishAcceptance] after the lock is released: the failure receipt to run
    in the background, if any. *)
Definition finishAcceptance (enqueueFailure : option PushJob.t) (reason : string) (s : Store)
    : option (string * string) * Store :=
  match enqueueFailure with
  | Some job =>
      match PushJob.receipt job with
      | Some messageID =>
          if pushClosed s then (None, s)
          else (Some (messageID, reason), set_pushWG (pushWG s + 1) s)
      | None => (None, s)
      end
  | None => (None, s)
  end.

(** ** Delivery *)

Inductive exchange := BuildError | Response (status : Z) | TransportError.

Record Attempt := {
  result_of : exchange;
  cancelled_after : bool;
  cancelled_waiting : bool }.

(** The one receipt callback a delivery runs. *)
Inductive Receipt :=
| OnSuccess (attempts : Z)
| OnFailure (attempts : Z) (failure : string).

Definition success_status (e : exchange) : bool :=
  match e with Response status => (200 <=? status) && (status <? 300) | _ => false end.

Inductive Verdict := Delivered (attempt : Z) | GaveUp (attempt : Z) (failure : string) | Exhausted.

(** [for attempt := 1; attempt <= PushMaxAttempts; attempt++]; the second
    component is the pauses made, in order. *)
Fixpoint attempt_loop (fuel : nat) (net : Z → Attempt) (attempt : Z) (backoff : Duration)
    : Verdict * list Duration :=
  match fuel with
  | O => (Exhausted, [])
  | S fuel =>
      if Config.PushMaxAttempts (cfg E) <? attempt then (Exhausted, []) else
      let a := net attempt in
      match result_of a with
      | BuildError => (GaveUp attempt "build callback request"%stdpp, [])
      | _ =>
          if success_status (result_of a) then (Delivered attempt, [])
          else if cancelled_after a then (GaveUp attempt shutdown_failure, [])
          else if attempt =? Config.PushMaxAttempts (cfg E) then (Exhausted, [])
          else if cancelled_waiting a then (GaveUp attempt shutdown_failure, [backoff])
          else
            let '(v, pauses) := attempt_loop fuel net (attempt + 1) (wrap64 (backoff * 2)) in
            (v, backoff :: pauses)
      end
  end.

Definition sendPushCallback (net : Z → Attempt) (job : PushJob.t) (s : Store)
    : Receipt * list Duration * Store :=
  match marshal_len (PushJob.payload job) with
  | None => (OnFailure 0 "marshal callback payload"%stdpp, [], s)
  | Some _ =>
      let '(v, pauses) :=
        attempt_loop (Z.to_nat (Config.PushMaxAttempts (cfg E))) net 1
          (Config.PushBaseBackoff (cfg E)) in
      match v with
      | Delivered k => (OnSuccess k, pauses, set_pushSuccesses (inc64 (pushSuccesses s)) s)
      | GaveUp k failure => (OnFailure k failure, pauses, s)
      | Exhausted =>
          (OnFailure (Config.PushMaxAttempts (cfg E)) "callback retries exhausted"%stdpp, pauses,
           set_pushFailures (inc64 (pushFailures s)) s)
      end
  end.

(** [closePushWorkers]: the flag stops new work; the wait for the wait group,
    bounded by [PushShutdownTimeout], is the environment's, [timed_out] its
    outcome.  A second call returns at once. *)
Definition closePushWorkers (timed_out : bool) (s : Store) : Store * option string :=
  if pushClosed s then (s, None)
  else (set_pushClosed true s,
        if timed_out then Some "push shutdown exceeded; in-flight callbacks canceled"%stdpp
        else None).

(** ** The delivery loop is a search for the first decisive attempt *)

Definition decisive (net : Z → Attempt) (k : Z) : option Verdict :=
  let a := net k in
  match result_of a with
  | BuildError => Some (GaveUp k "build callback request"%stdpp)
  | _ =>
      if success_status (result_of a) then Some (Delivered k)
      else if cancelled_after a then Some (GaveUp k shutdown_failure)
      else if k =? Config.PushMaxAttempts (cfg E) then Some Exhausted
      else if cancelled_waiting a then Some (GaveUp k shutdown_failure)
      else None
  end.

(** The base backoff doubled [i] times in [int64]. *)
Fixpoint doubled (i : nat) (b : Duration) : Duration :=
  match i with O => b | S i => doubled i (wrap64 (b * 2)) end.

Lemma attempt_loop_decisive fuel net k b v :
  k ≤ Config.PushMaxAttempts (cfg E) → decisive net k = Some v →
  attempt_loop (S fuel) net k b = (v, []) ∨
  attempt_loop (S fuel) net k b = (v, [b]) ∧ cancelled_waiting (net k) = true.
Proof.
  intros Hk. unfold decisive. cbn [attempt_loop]. rewrite (proj2 (Z.ltb_ge _ _)) by lia.
  cbn zeta. destruct (result_of (net k)); repeat case_match; intros; simplify_eq; auto.
Qed.

Lemma attempt_loop_next fuel net k b :
  k ≤ Config.PushMaxAttempts (cfg E) → decisive net k = None →
  attempt_loop (S fuel) net k b =
  (let '(v, pauses) := attempt_loop fuel net (k + 1) (wrap64 (b * 2)) in (v, b :: pauses)).
Proof.
  intros Hk. unfold decisive. cbn [attempt_loop]. rewrite (proj2 (Z.ltb_ge _ _)) by lia.
  cbn zeta. destruct (result_of (net k)); repeat case_match; intros; simplify_eq; auto.
Qed.

Lemma decisive_last net : is_Some (decisive net (Config.PushMaxAttempts (cfg E))).
Proof.
  unfold decisive. rewrite Z.eqb_refl. destruct (result_of _); repeat case_match; eauto.
Qed.

Lemma attempt_loop_spec fuel net k b :
  k ≤ Config.PushMaxAttempts (cfg E) →
  Config.PushMaxAttempts (cfg E) - k < Z.of_nat fuel →
  ∃ n v m, k ≤ n ≤ Config.PushMaxAttempts (cfg E) ∧ decisive net n = Some v ∧
    (∀ i, k ≤ i < n → decisive net i = None) ∧
    attempt_loop fuel net k b = (v, (λ i, doubled i b) <$> seq 0 m) ∧
    (m = Z.to_nat (n - k) ∨ m = S (Z.to_nat (n - k)) ∧ cancelled_waiting (net n) = true).
Proof.
  revert k b. induction fuel as [|fuel IH]; intros k b Hk Hf; [lia|].
  destruct (decisive net k) as [v|] eqn:Ed.
  - destruct (attempt_loop_decisive fuel net k b v Hk Ed) as [->|[-> ?]];
      [exists k, v, 0%nat|exists k, v, 1%nat]; rewrite Z.sub_diag; split_and!; auto; lia.
  - assert (k ≠ Config.PushMaxAttempts (cfg E)).
    { intros ->. destruct (decisive_last net). congruence. }
    rewrite attempt_loop_next by done.
    destruct (IH (k + 1) (wrap64 (b * 2))) as (n & v & m & Hn & Hv & Hlt & -> & Hm); [lia|lia|].
    exists n, v, (S m). split_and!; [lia|lia|done| | |].
    + intros i Hi. destruct (decide (i = k)) as [->|]; [done|apply Hlt; lia].
    + cbn. f_equal. f_equal. rewrite <-fmap_S_seq, <-list_fmap_compose. done.
    + destruct Hm as [->|[-> ?]]; [left|right; split]; lia || done.
Qed.

(** ** The pool: scheduling, workers and shutdown

    [inflight] is the work accepted but not finished outside the queue: jobs
    a worker holds and receipts [finishAcceptance] dispatched.  The wait group
    counts queue and in-flight work together. *)
Record Pool := mkPool { store : Store; inflight : nat }.

Inductive pool_step : Pool → Pool → Prop :=
| pool_enqueue s n job :
    pool_step (mkPool s n) (mkPool (enqueuePushJobLocked job s).2 n)
| pool_dispatch s n job reason r s' :
    finishAcceptance job reason s = (Some r, s') →
    pool_step (mkPool s n) (mkPool s' (S n))
| pool_take s n job rest :
    pushQueue s = job :: rest →
    pool_step (mkPool s n) (mkPool (set_pushQueue rest s) (S n))
| pool_done s n :
    pool_step (mkPool s (S n)) (mkPool (set_pushWG (pushWG s - 1) s) n)
| pool_close s n timed_out :
    pool_step (mkPool s n) (mkPool (closePushWorkers timed_out s).1 n).

(** The wait group is the work outstanding; the queue is bounded. *)
Definition pool_ok (p : Pool) : Prop :=
  pushWG (store p) = Z.of_nat (length (pushQueue (store p)) + inflight p) ∧
  Z.of_nat (length (pushQueue (store p))) ≤ Config.PushQueueSize (cfg E).

Lemma enqueuePushJobLocked_cases job s :
  (pushClosed s = true ∧
   enqueuePushJobLocked job s = (shutdown_failure, set_pushFailures (inc64 (pushFailures s)) s)) ∨
  (pushClosed s = false ∧ Z.of_nat (length (pushQueue s)) < Config.PushQueueSize (cfg E) ∧
   enqueuePushJobLocked job s =
     (ε, set_pushQueue (pushQueue s ++ [job]) (set_pushWG (pushWG s + 1) s))) ∨
  (pushClosed s = false ∧ Config.PushQueueSize (cfg E) ≤ Z.of_nat (length (pushQueue s)) ∧
   ∃ s', enqueuePushJobLocked job s = ("push queue full"%stdpp, s') ∧
     pushFailures s' = inc64 (pushFailures s) ∧ pushQueue s' = pushQueue s ∧
     pushWG s' = pushWG s ∧ pushClosed s' = false).
Proof.
  unfold enqueuePushJobLocked. destruct (pushClosed s) eqn:Ec; [left; done|right].
  cbn. destruct (_ <? _) eqn:El; prop_bool; [left; done|right]. split_and!; [done|done|].
  eexists. split; [reflexivity|]. cbn. split_and!; [done|done|lia|done].
Qed.

Lemma pool_step_ok p p' : pool_ok p → pool_step p p' → pool_ok p'.
Proof.
  intros [Hwg Hq] Hs. inv Hs; cbn in *; unfold pool_ok; cbn.
  - destruct (enqueuePushJobLocked_cases job s)
      as [[_ ->]|[(_ & ? & ->)|(_ & ? & s' & -> & _ & Eq & Ew & _)]]; cbn; [done| |].
    + rewrite length_app; cbn. split; lia.
    + by rewrite Eq, Ew.
  - unfold finishAcceptance in H. repeat case_match; inv H; cbn. split; lia.
  - rewrite H in Hwg, Hq; cbn in *. split; lia.
  - split; lia.
  - unfold closePushWorkers. by case_bool.
Qed.

(** After shutdown begins no work is accepted: the outstanding work only
    shrinks, and with the wait group at zero nothing is queued or running, so
    closing the queue loses no job. *)
Lemma pool_closed_step p p' :
  pool_ok p → pushClosed (store p) = true → pool_step p p' →
  pushClosed (store p') = true ∧ pushWG (store p') ≤ pushWG (store p).
Proof.
  intros _ Hc Hs. inv Hs; cbn in *.
  - unfold enqueuePushJobLocked. rewrite Hc. by cbn.
  - unfold finishAcceptance in H. rewrite Hc in H. repeat case_match; done.
  - by cbn.
  - split; [done|lia].
  - unfold closePushWorkers. by rewrite Hc.
Qed.

Lemma pool_drained p :
  pool_ok p → pushWG (store p) = 0 → pushQueue (store p) = [] ∧ inflight p = 0%nat.
Proof.
  intros [Hwg _] H0. rewrite H0 in Hwg.
  destruct (pushQueue (store p)); cbn in Hwg; [split; [done|lia]|lia].
Qed.

(** Draining makes progress as long as work is outstanding. *)
Lemma pool_progress p :
  pool_ok p → 0 < pushWG (store p) → ∃ p', pool_step p p' ∧ pool_ok p' ∧
    (length (pushQueue (store p')) + length (pushQueue (store p')) + inflight p' <
     length (pushQueue (store p)) + length (pushQueue (store p)) + inflight p)%nat.
Proof.
  intros Hok Hpos. destruct p as [s n]. cbn in *.
  destruct n as [|n].
  - destruct Hok as [Hwg Hq]; cbn in *. destruct (pushQueue s) as [|job rest] eqn:Eq; cbn in *; [lia|].
    exists (mkPool (set_pushQueue rest s) 1). split_and!; [by econstructor| |cbn; lia].
    split; cbn; lia.
  - exists (mkPool (set_pushWG (pushWG s - 1) s) n). split_and!; [by constructor| |cbn; lia].
    eapply pool_step_ok; [exact Hok|by constructor].
Qed.

End push.
