(* ===== verification/Inbox.v ===== *)
(** * Agent inboxes: [appendInboxLocked], [dropInboxPrefixLocked] and the
    inbox broadcast channels of [pkg/bus/store.go] *)
From stdpp Require Import gmap strings list.
From Stdlib Require Import ZArith Lia Ascii.
From S2P Require Import Prelude GoBase Json Types Config Ring State.

(** ** Sizes *)

Definition attachment_size (a : Attachment.t) : Z :=
  32 + len (Attachment.URL a) + len (Attachment.Name a)
  + len (Attachment.ContentType a) + len (Attachment.SHA256 a).

(** A nil [Meta] is [JNull] and is not marshaled. *)
Definition inboxEventSize (evt : InboxEvent.t) : Z :=
  64 + len (InboxEvent.MessageID evt) + len (InboxEvent.From evt)
  + len (InboxEvent.ConversationID evt) + len (InboxEvent.Body evt)
  + zsum attachment_size (InboxEvent.Attachments evt)
  + match InboxEvent.Meta evt with JNull => 0 | meta => marshal_size meta end.

Lemma attachment_size_nonneg a : 0 ≤ attachment_size a.
Proof.
  unfold attachment_size.
  pose proof (len_nonneg (Attachment.URL a)). pose proof (len_nonneg (Attachment.Name a)).
  pose proof (len_nonneg (Attachment.ContentType a)). pose proof (len_nonneg (Attachment.SHA256 a)).
  lia.
Qed.

Lemma inboxEventSize_pos evt : 64 ≤ inboxEventSize evt.
Proof.
  unfold inboxEventSize.
  pose proof (len_nonneg (InboxEvent.MessageID evt)). pose proof (len_nonneg (InboxEvent.From evt)).
  pose proof (len_nonneg (InboxEvent.ConversationID evt)). pose proof (len_nonneg (InboxEvent.Body evt)).
  pose proof (zsum_nonneg attachment_size (InboxEvent.Attachments evt) attachment_size_nonneg).
  assert (0 ≤ match InboxEvent.Meta evt with JNull => 0 | meta => marshal_size meta end).
  { case_match; try apply marshal_size_nonneg. done. }
  lia.
Qed.

#[export] Instance InboxEvent_sized : Sized InboxEvent.t := inboxEventSize.
#[export] Instance InboxEvent_nonneg : SizedNonneg InboxEvent.t.
Proof. intros a. pose proof (inboxEventSize_pos a). unfold size_of, InboxEvent_sized. lia. Qed.

Section inbox.
Context (E : Static).

(** ** Operations *)

(** Go slices [events[:n]] and [events[n:]] after the bounds test. *)
Definition dropInboxPrefixLocked (agentID : string) (n : Z) (s : Store) : Store :=
  let events := inbox s agentID in
  if (n <=? 0) || (Z.of_nat (length events) <? n) then s else
  let k := Z.to_nat n in
  let s := set_inboxBytes
    (<[agentID := inbox_size s agentID - zsum inboxEventSize (take k events)]> (inboxBytes s)) s in
  let s := set_inboxes (<[agentID := drop k events]> (inboxes s)) s in
  set_inboxBase (<[agentID := base s agentID + n]> (inboxBase s)) s.

(** The channel an inbox waiter receives on, created on demand. *)
Definition inboxNotifyChanLocked (agentID : string) (s : Store) : nat * Store :=
  match inboxNotify s !! agentID with
  | Some ch => (ch, s)
  | None =>
      let '(ch, h) := Channels.make (channels s) in
      (ch, set_inboxNotify (<[agentID := ch]> (inboxNotify s)) (set_channels h s))
  end.

Definition signalInboxLocked (agentID : string) (s : Store) : Store :=
  match inboxNotify s !! agentID with
  | Some ch =>
      set_inboxNotify (delete agentID (inboxNotify s))
        (set_channels (Channels.close ch (channels s)) s)
  | None => s
  end.

Definition appendInboxLocked (agentID : string) (evt : InboxEvent.t) (s : Store) : Store :=
  let s := set_inboxes (<[agentID := inbox s agentID ++ [evt]]> (inboxes s)) s in
  let s := set_inboxBytes
    (<[agentID := inbox_size s agentID + inboxEventSize evt]> (inboxBytes s)) s in
  let drop :=
    evict_count (Config.MaxInboxEventsPerAgent (cfg E)) (Config.MaxInboxBytesPerAgent (cfg E))
      (inbox_size s agentID) (inbox s agentID) in
  let s := if (0 <? drop)%nat then dropInboxPrefixLocked agentID (Z.of_nat drop) s else s in
  signalInboxLocked agentID s.

(** ** What the operations leave alone *)

(** Equality of the state outside the inbox component. *)
Record inbox_frame (s s' : Store) : Prop := {
  if_convID : nextConversationID s' = nextConversationID s;
  if_msgID : nextMessageID s' = nextMessageID s;
  if_obsID : nextObserveID s' = nextObserveID s;
  if_agents : agents s' = agents s;
  if_conversations : conversations s' = conversations s;
  if_messages : messages s' = messages s;
  if_convmsgs : conversationMessages s' = conversationMessages s;
  if_observe : observeEvents s' = observeEvents s;
  if_obsbytes : observeBytes s' = observeBytes s;
  if_idem : idempotency s' = idempotency s;
  if_sweep : lastSweepAt s' = lastSweepAt s;
  if_obsnotify : observeNotify s' = observeNotify s;
  if_queue : pushQueue s' = pushQueue s;
  if_closed : pushClosed s' = pushClosed s;
  if_fail : pushFailures s' = pushFailures s;
  if_succ : pushSuccesses s' = pushSuccesses s }.

#[export] Instance inbox_frame_preorder : PreOrder inbox_frame.
Proof.
  split; [by constructor|]. intros x y z [] []. constructor; congruence.
Qed.

Lemma signalInboxLocked_frame a s : inbox_frame s (signalInboxLocked a s).
Proof. unfold signalInboxLocked. case_match; by constructor. Qed.
Lemma dropInboxPrefixLocked_frame a n s : inbox_frame s (dropInboxPrefixLocked a n s).
Proof. unfold dropInboxPrefixLocked. case_match; by constructor. Qed.
Lemma appendInboxLocked_frame a e s : inbox_frame s (appendInboxLocked a e s).
Proof.
  unfold appendInboxLocked. etransitivity; [|apply signalInboxLocked_frame].
  case_match; [etransitivity; [|apply dropInboxPrefixLocked_frame]|]; by constructor.
Qed.
Lemma inboxNotifyChanLocked_frame a s : inbox_frame s (inboxNotifyChanLocked a s).2.
Proof. unfold inboxNotifyChanLocked. case_match; [done|]. by constructor. Qed.

(** Signalling does not touch any inbox. *)
Lemma signalInboxLocked_inbox a b s :
  inbox (signalInboxLocked a s) b = inbox s b ∧ base (signalInboxLocked a s) b = base s b ∧
  inbox_size (signalInboxLocked a s) b = inbox_size s b ∧
  inboxes (signalInboxLocked a s) = inboxes s.
Proof. unfold signalInboxLocked. by case_match. Qed.

Lemma dropInboxPrefixLocked_spec a n s :
  0 < n ≤ Z.of_nat (length (inbox s a)) →
  let s' := dropInboxPrefixLocked a n s in
  inbox s' a = drop (Z.to_nat n) (inbox s a) ∧ base s' a = base s a + n ∧
  inbox_size s' a = inbox_size s a - total (take (Z.to_nat n) (inbox s a)).
Proof.
  intros Hn. unfold dropInboxPrefixLocked.
  rewrite (proj2 (Z.leb_gt _ _)), (proj2 (Z.ltb_ge _ _)) by lia. cbn.
  unfold inbox, base, inbox_size; cbn. by rewrite !lookup_insert_eq.
Qed.

Lemma dropInboxPrefixLocked_other a b n s :
  a ≠ b →
  let s' := dropInboxPrefixLocked a n s in
  inboxes s' !! b = inboxes s !! b ∧ inbox s' b = inbox s b ∧ base s' b = base s b ∧
  inbox_size s' b = inbox_size s b.
Proof.
  intros Hab. unfold dropInboxPrefixLocked. case_match; [done|].
  unfold inbox, base, inbox_size; cbn. by rewrite !lookup_insert_ne by done.
Qed.

Lemma dropInboxPrefixLocked_dom a n s :
  is_Some (inboxes s !! a) → dom (inboxes (dropInboxPrefixLocked a n s)) = dom (inboxes s).
Proof.
  intros Ha. unfold dropInboxPrefixLocked. case_match; [done|]. cbn.
  apply dom_insert_lookup_L. done.
Qed.

(** ** Accounting and budgets *)

(** The byte counter is exact, the base is a position and the events are
    within the configured budgets. *)
Record inbox_ok (s : Store) (a : string) : Prop := {
  io_bytes : inbox_size s a = total (inbox s a);
  io_base : 0 ≤ base s a;
  io_budget : within (Config.MaxInboxEventsPerAgent (cfg E))
                (Config.MaxInboxBytesPerAgent (cfg E)) (inbox s a) }.

Lemma inbox_ok_ext s s' a :
  inbox s' a = inbox s a → base s' a = base s a → inbox_size s' a = inbox_size s a →
  inbox_ok s a → inbox_ok s' a.
Proof. intros H1 H2 H3 []. constructor; rewrite ?H1, ?H2, ?H3; done. Qed.

(** The events an append evicts, and the resulting inbox. *)
Definition append_drop (s : Store) (a : string) (evt : InboxEvent.t) : nat :=
  evict_count (Config.MaxInboxEventsPerAgent (cfg E)) (Config.MaxInboxBytesPerAgent (cfg E))
    (total (inbox s a ++ [evt])) (inbox s a ++ [evt]).

Lemma append_drop_spec s a evt :
  (append_drop s a evt ≤ length (inbox s a))%nat ∧
  within (Config.MaxInboxEventsPerAgent (cfg E)) (Config.MaxInboxBytesPerAgent (cfg E))
    (drop (append_drop s a evt) (inbox s a ++ [evt])).
Proof.
  unfold append_drop. destruct (evict_count_spec (Config.MaxInboxEventsPerAgent (cfg E))
    (Config.MaxInboxBytesPerAgent (cfg E)) (inbox s a ++ [evt])) as (Hn & Hw & _).
  { intros Hnil. by apply app_eq_nil in Hnil as [_ ?]. }
  rewrite length_app in Hn. cbn in Hn. split; [lia|done].
Qed.

Lemma appendInboxLocked_spec s a evt :
  inbox_ok s a →
  let s' := appendInboxLocked a evt s in
  let d := append_drop s a evt in
  inbox s' a = drop d (inbox s a) ++ [evt] ∧ base s' a = base s a + Z.of_nat d ∧ inbox_ok s' a.
Proof.
  intros [Hb Hbase Hw]. cbn zeta.
  destruct (append_drop_spec s a evt) as [Hd Hw'].
  rewrite drop_app_le in Hw' by done.
  assert (total (inbox s a ++ [evt]) = inbox_size s a + inboxEventSize evt) as Ht.
  { rewrite total_app, Hb. unfold total; cbn. unfold size_of, InboxEvent_sized. lia. }
  unfold appendInboxLocked.
  set (s1 := set_inboxBytes _ _).
  assert (inbox s1 a = inbox s a ++ [evt]) as Hi1.
  { unfold s1, inbox; cbn. by rewrite lookup_insert_eq. }
  assert (inbox_size s1 a = total (inbox s a ++ [evt])) as Hs1.
  { rewrite Ht. unfold s1, inbox_size; cbn. by rewrite lookup_insert_eq. }
  assert (base s1 a = base s a) as Hb1 by done.
  rewrite Hi1, Hs1. fold (append_drop s a evt). set (d := append_drop s a evt) in *.
  match goal with |- context [if ?b then ?x else ?y] => set (s2 := if b then x else y) end.
  assert (inbox s2 a = drop d (inbox s a) ++ [evt] ∧ base s2 a = base s a + Z.of_nat d ∧
    inbox_size s2 a = total (drop d (inbox s a) ++ [evt])) as (Hi2 & Hb2 & Hs2).
  { unfold s2. destruct (0 <? d)%nat eqn:E0.
    - apply Nat.ltb_lt in E0.
      destruct (dropInboxPrefixLocked_spec a (Z.of_nat d) s1) as (-> & -> & ->).
      { rewrite Hi1, length_app. cbn. lia. }
      rewrite Hi1, Hs1, Hb1, Nat2Z.id, <-total_drop. by rewrite drop_app_le.
    - apply Nat.ltb_ge in E0. replace d with 0%nat by lia. cbn.
      rewrite drop_0, Hi1, Hs1, Hb1. repeat split; lia. }
  destruct (signalInboxLocked_inbox a a s2) as (Hi3 & Hb3 & Hs3 & _).
  rewrite Hi3, Hb3, Hi2, Hb2. split_and!; [done..|].
  constructor; rewrite ?Hi3, ?Hb3, ?Hs3, ?Hi2, ?Hb2; [done|lia|done].
Qed.

Lemma appendInboxLocked_other a b evt s :
  a ≠ b →
  let s' := appendInboxLocked a evt s in
  inboxes s' !! b = inboxes s !! b ∧ inbox s' b = inbox s b ∧ base s' b = base s b ∧
  inbox_size s' b = inbox_size s b.
Proof.
  intros Hab. unfold appendInboxLocked. cbn zeta.
  match goal with |- context [if ?b then ?x else ?y] => set (s2 := if b then x else y) end.
  destruct (signalInboxLocked_inbox a b s2) as (-> & -> & -> & ->).
  unfold s2. case_match.
  - match goal with |- context [dropInboxPrefixLocked a ?n ?s1] =>
      destruct (dropInboxPrefixLocked_other a b n s1 Hab) as (-> & -> & -> & ->) end.
    unfold inbox, base, inbox_size; cbn. by rewrite !lookup_insert_ne.
  - unfold inbox, base, inbox_size; cbn. by rewrite !lookup_insert_ne.
Qed.

Lemma appendInboxLocked_inbox_ok a b evt s :
  inbox_ok s a → inbox_ok s b → inbox_ok (appendInboxLocked a evt s) b.
Proof.
  intros Ha Hb. destruct (decide (a = b)) as [->|Hab].
  - by apply appendInboxLocked_spec.
  - destruct (appendInboxLocked_other a b evt s Hab) as (_ & ? & ? & ?).
    by eapply inbox_ok_ext.
Qed.

Lemma appendInboxLocked_dom a evt s :
  dom (inboxes (appendInboxLocked a evt s)) = {[a]} ∪ dom (inboxes s).
Proof.
  unfold appendInboxLocked. cbn zeta. match goal with |- context [if ?b then ?x else ?y] => set (s2 := if b then x else y) end.
  destruct (signalInboxLocked_inbox a a s2) as (_ & _ & _ & ->).
  unfold s2. case_match.
  - rewrite dropInboxPrefixLocked_dom; cbn; [by rewrite dom_insert_L|].
    rewrite lookup_insert_eq. eauto.
  - cbn. by rewrite dom_insert_L.
Qed.

Lemma dropInboxPrefixLocked_inbox_ok a b n s :
  inbox_ok s b → inbox_ok (dropInboxPrefixLocked a n s) b.
Proof.
  intros Hok. destruct (decide (a = b)) as [->|Hab].
  - destruct (decide (0 < n ≤ Z.of_nat (length (inbox s b)))) as [Hn|Hn].
    + destruct (dropInboxPrefixLocked_spec b n s Hn) as (Hi & Hb & Hs). destruct Hok.
      constructor; rewrite ?Hi, ?Hb, ?Hs; [by rewrite total_drop, io_bytes0|lia|by apply within_drop].
    + unfold dropInboxPrefixLocked.
      destruct ((n <=? 0) || _) eqn:Eg; [done|]. prop_bool. lia.
  - destruct (dropInboxPrefixLocked_other a b n s Hab) as (_ & ? & ? & ?). by eapply inbox_ok_ext.
Qed.

Lemma signalInboxLocked_inbox_ok a b s : inbox_ok s b → inbox_ok (signalInboxLocked a s) b.
Proof. destruct (signalInboxLocked_inbox a b s) as (?&?&?&_). by apply inbox_ok_ext. Qed.

(** ** Channels: no double close, no lost wake-up *)

(** Every channel the store still holds is open and held in one slot. *)
Record chan_ok (s : Store) : Prop := {
  co_panic : Channels.double_close (channels s) = false;
  co_closed : ∀ ch, ch ∈ Channels.closed (channels s) → (ch < Channels.next (channels s))%nat;
  co_obs : (observeNotify s < Channels.next (channels s))%nat ∧
           observeNotify s ∉ Channels.closed (channels s);
  co_inbox : ∀ a ch, inboxNotify s !! a = Some ch →
    (ch < Channels.next (channels s))%nat ∧ ch ∉ Channels.closed (channels s) ∧
    ch ≠ observeNotify s;
  co_inj : ∀ a b ch, inboxNotify s !! a = Some ch → inboxNotify s !! b = Some ch → a = b }.

(** The part of the state channels live in. *)
Definition same_chans (s s' : Store) : Prop :=
  channels s' = channels s ∧ observeNotify s' = observeNotify s ∧ inboxNotify s' = inboxNotify s.

Lemma chan_ok_ext s s' : same_chans s s' → chan_ok s → chan_ok s'.
Proof. intros (H1 & H2 & H3) []. constructor; rewrite ?H1, ?H2, ?H3; done. Qed.

Lemma dropInboxPrefixLocked_chans a n s : same_chans s (dropInboxPrefixLocked a n s).
Proof. unfold dropInboxPrefixLocked. by case_match. Qed.

Lemma signalInboxLocked_chan_ok a s : chan_ok s → chan_ok (signalInboxLocked a s).
Proof.
  intros [Hp Hc Ho Hi Hj]. unfold signalInboxLocked.
  destruct (inboxNotify s !! a) as [ch|] eqn:Ea; [|by constructor].
  destruct (Hi _ _ Ea) as (Hlt & Hnc & Hne).
  constructor; cbn.
  - rewrite Hp. by apply bool_decide_eq_false.
  - intros c [->%elem_of_singleton|?]%elem_of_union; auto.
  - destruct Ho as [? ?]. split; [done|]. rewrite elem_of_union, elem_of_singleton. naive_solver.
  - intros b c Hb. apply lookup_delete_Some in Hb as [Hab Hb].
    destruct (Hi _ _ Hb) as (? & ? & ?). split_and!; [done| |done].
    rewrite elem_of_union, elem_of_singleton. intros [->|?]; [|done]. apply Hab. eauto.
  - intros b c d Hb Hd. apply lookup_delete_Some in Hb as [_ Hb].
    apply lookup_delete_Some in Hd as [_ Hd]. eauto.
Qed.

Lemma same_chans_trans s1 s2 s3 : same_chans s1 s2 → same_chans s2 s3 → same_chans s1 s3.
Proof. intros (?&?&?) (?&?&?). split_and!; congruence. Qed.

(** An append ends with the signal; before it no channel is touched. *)
Lemma appendInboxLocked_signal a evt s :
  ∃ s2, appendInboxLocked a evt s = signalInboxLocked a s2 ∧ same_chans s s2.
Proof.
  unfold appendInboxLocked. eexists. split; [reflexivity|].
  case_match; [|done]. eapply same_chans_trans; [|apply dropInboxPrefixLocked_chans]. done.
Qed.

Lemma appendInboxLocked_chan_ok a evt s : chan_ok s → chan_ok (appendInboxLocked a evt s).
Proof.
  intros Hok. destruct (appendInboxLocked_signal a evt s) as (s2 & -> & Hs).
  apply signalInboxLocked_chan_ok. by eapply chan_ok_ext.
Qed.

Lemma inboxNotifyChanLocked_chan_ok a s : chan_ok s → chan_ok (inboxNotifyChanLocked a s).2.
Proof.
  intros [Hp Hc Ho Hi Hj]. unfold inboxNotifyChanLocked.
  destruct (inboxNotify s !! a) as [ch|] eqn:Ea; [by constructor|].
  constructor; cbn; [done| | | |].
  - intros c ?%Hc. lia.
  - destruct Ho. split; [lia|done].
  - intros b c [[<- <-]|[Hab Hb]]%lookup_insert_Some.
    + split_and!; [lia| |lia]. intros ?%Hc. lia.
    + destruct (Hi _ _ Hb) as (? & ? & ?). split_and!; [lia|done|done].
  - intros b d c [[<- <-]|[Hab Hb]]%lookup_insert_Some [[<- ?]|[Had Hd]]%lookup_insert_Some;
      [done|..]; [|subst|eauto].
    + destruct (Hi _ _ Hd). lia.
    + destruct (Hi _ _ Hb). lia.
Qed.

(** The channel handed to a waiter is closed by the next append to its inbox. *)
Lemma inboxNotifyChanLocked_slot a s :
  let '(ch, s') := inboxNotifyChanLocked a s in inboxNotify s' !! a = Some ch.
Proof.
  unfold inboxNotifyChanLocked. destruct (inboxNotify s !! a) as [ch|] eqn:Ea; [done|].
  cbn. by rewrite lookup_insert_eq.
Qed.

Lemma appendInboxLocked_wakes a evt s ch :
  inboxNotify s !! a = Some ch → ch ∈ Channels.closed (channels (appendInboxLocked a evt s)).
Proof.
  intros Ha. destruct (appendInboxLocked_signal a evt s) as (s2 & -> & Hc & _ & Hn).
  unfold signalInboxLocked. rewrite Hn, Ha. cbn. set_solver.
Qed.

(** ** The abstract inbox: an append-only log read from a position

    [represents s a L]: the retained events of [a] are the tail of the log
    [L] of everything delivered to it, starting at position [base]. *)
Definition represents (s : Store) (a : string) (L : list InboxEvent.t) : Prop :=
  0 ≤ base s a ≤ Z.of_nat (length L) ∧ inbox s a = drop (Z.to_nat (base s a)) L.

Lemma represents_end s a L :
  represents s a L → base s a + Z.of_nat (length (inbox s a)) = Z.of_nat (length L).
Proof. intros [Hb ->]. rewrite length_drop. lia. Qed.

Lemma appendInboxLocked_represents s a evt L :
  inbox_ok s a → represents s a L → represents (appendInboxLocked a evt s) a (L ++ [evt]).
Proof.
  intros Hok [Hb Hi]. destruct (appendInboxLocked_spec s a evt Hok) as (Hi' & Hb' & _).
  destruct (append_drop_spec s a evt) as [Hd _]. rewrite Hi, length_drop in Hd.
  split; rewrite ?Hb', ?length_app; cbn; [lia|].
  rewrite Hi', Hi, drop_drop, drop_app_le by lia. f_equal. f_equal. lia.
Qed.

Lemma dropInboxPrefixLocked_represents s a n L :
  represents s a L → represents (dropInboxPrefixLocked a n s) a L.
Proof.
  intros [Hb Hi]. destruct (decide (0 < n ≤ Z.of_nat (length (inbox s a)))) as [Hn|Hn].
  - destruct (dropInboxPrefixLocked_spec a n s Hn) as (Hi' & Hb' & _).
    rewrite Hi, length_drop in Hn. split; rewrite Hb'; [lia|].
    rewrite Hi', Hi, drop_drop. f_equal. lia.
  - unfold dropInboxPrefixLocked. destruct ((n <=? 0) || _) eqn:Eg; [done|]. prop_bool. lia.
Qed.

End inbox.

#[global] Arguments appendInboxLocked : simpl never.
