(* ===== verification/Observe.v ===== *)
(** * The observe stream: [publishLocked], [trimObserveLocked],
    [signalObserveLocked] and the scan of [ObserveSince] ([pkg/bus/store.go]) *)
From stdpp Require Import gmap strings list.
From Stdlib Require Import ZArith Lia Ascii.
From S2P Require Import Prelude GoBase Json Types Config Auth Ring State Inbox.

#[export] Instance ObserveEvent_sized : Sized ObserveEvent.t := ObserveEvent.Size.

(** A nil [Data] is [JNull] and is not marshaled. *)
Definition observeEventSize (conversationID : string) (agentIDs : list string) (data : json) : Z :=
  64 + len conversationID + zsum len agentIDs
  + match data with JNull => 0 | _ => marshal_size data end.

Lemma observeEventSize_pos c ids d : 64 ≤ observeEventSize c ids d.
Proof.
  unfold observeEventSize. pose proof (len_nonneg c). pose proof (zsum_nonneg len ids len_nonneg).
  assert (0 ≤ match d with JNull => 0 | _ => marshal_size d end).
  { case_match; try apply marshal_size_nonneg. done. }
  lia.
Qed.

(** [sort.Search(n, f)]: the least index where [f] holds, by bisection. *)
Fixpoint search_loop (fuel : nat) (f : nat → bool) (i j : nat) : nat :=
  match fuel with
  | O => i
  | S fuel =>
      if (i <? j)%nat then
        let h := Nat.div (i + j) 2 in
        if f h then search_loop fuel f i h else search_loop fuel f (S h) j
      else i
  end.

Definition sort_Search (n : nat) (f : nat → bool) : nat := search_loop (S n) f 0 n.

Section observe.
Context (E : Static).

(** ** Operations *)

Definition trimObserveLocked (s : Store) : Store :=
  let events := observeEvents s in
  let drop :=
    evict_count (Config.MaxObserveEvents (cfg E)) (Config.MaxObserveBytes (cfg E))
      (observeBytes s) events in
  if (drop =? 0)%nat then s else
  let s := set_observeBytes (observeBytes s - total (take drop events)) s in
  set_observeEvents (skipn drop events) s.

Definition signalObserveLocked (s : Store) : Store :=
  let s := set_channels (Channels.close (observeNotify s) (channels s)) s in
  let '(ch, h) := Channels.make (channels s) in
  set_observeNotify ch (set_channels h s).

Definition publishLocked (eventType : EventType) (data : json) (conversationID : string)
    (agentIDs : list string) (at_ : Time) (s : Store) : Store :=
  let s := set_nextObserveID (inc64 (nextObserveID s)) s in
  let evt := ObserveEvent.mk (nextObserveID s) eventType at_ data conversationID agentIDs
    (observeEventSize conversationID agentIDs data) in
  let s := set_observeEvents (observeEvents s ++ [evt]) s in
  let s := set_observeBytes (observeBytes s + ObserveEvent.Size evt) s in
  let s := trimObserveLocked s in
  signalObserveLocked s.

Definition eventMatchesFilter (evt : ObserveEvent.t) (filter : ObserveFilter.t) : bool :=
  if negb (is_empty (ObserveFilter.ConversationID filter))
     && negb (bool_decide (ObserveEvent.ConversationID evt = ObserveFilter.ConversationID filter))
  then false
  else if negb (is_empty (ObserveFilter.AgentID filter)) then
    if bool_decide (ObserveFilter.AgentID filter ∈ ObserveEvent.AgentIDs evt)
    then actorCanAccessAllNames E (ObserveFilter.ActorAgentID filter) (ObserveEvent.AgentIDs evt)
    else false
  else actorCanAccessAllNames E (ObserveFilter.ActorAgentID filter) (ObserveEvent.AgentIDs evt).

(** The event list an [ObserveSince] iteration returns and the last
    identifier it saw, under the lock and after the sweep. *)
Definition observe_scan (afterID : Z) (filter : ObserveFilter.t) (s : Store)
    : list ObserveEvent.t * Z :=
  let events := observeEvents s in
  let idx := sort_Search (length events) (λ i,
    match events !! i with Some e => afterID <? ObserveEvent.ID e | None => false end) in
  foldl (λ '(out, last) evt,
    if negb (eventMatchesFilter evt filter) then (out, last)
    else (out ++ [evt], ObserveEvent.ID evt)) ([], afterID) (skipn idx events).

(** ** What publishing leaves alone *)

(** Equality of the state outside the observe component. *)
Record observe_frame (s s' : Store) : Prop := {
  of_convID : nextConversationID s' = nextConversationID s;
  of_msgID : nextMessageID s' = nextMessageID s;
  of_agents : agents s' = agents s;
  of_conversations : conversations s' = conversations s;
  of_messages : messages s' = messages s;
  of_convmsgs : conversationMessages s' = conversationMessages s;
  of_inboxes : inboxes s' = inboxes s;
  of_base : inboxBase s' = inboxBase s;
  of_inbytes : inboxBytes s' = inboxBytes s;
  of_idem : idempotency s' = idempotency s;
  of_sweep : lastSweepAt s' = lastSweepAt s;
  of_notify : inboxNotify s' = inboxNotify s;
  of_queue : pushQueue s' = pushQueue s;
  of_closed : pushClosed s' = pushClosed s;
  of_fail : pushFailures s' = pushFailures s;
  of_succ : pushSuccesses s' = pushSuccesses s }.

#[export] Instance observe_frame_preorder : PreOrder observe_frame.
Proof.
  split; [by constructor|]. intros x y z [] []. constructor; congruence.
Qed.

Lemma trimObserveLocked_frame s : observe_frame s (trimObserveLocked s).
Proof. unfold trimObserveLocked. case_match; by constructor. Qed.

Lemma publishLocked_frame ty d c ids t s : observe_frame s (publishLocked ty d c ids t s).
Proof.
  unfold publishLocked, signalObserveLocked. cbn zeta.
  match goal with |- context [trimObserveLocked ?x] =>
    pose proof (trimObserveLocked_frame x) as Hf; set (s1 := x) in * end.
  assert (observe_frame s s1) as H1 by (by constructor).
  assert (observe_frame s (trimObserveLocked s1)) as [] by (by etransitivity).
  constructor; cbn; congruence.
Qed.

Lemma publishLocked_inbox ty d c ids t s a :
  inbox (publishLocked ty d c ids t s) a = inbox s a ∧
  base (publishLocked ty d c ids t s) a = base s a ∧
  inbox_size (publishLocked ty d c ids t s) a = inbox_size s a.
Proof.
  destruct (publishLocked_frame ty d c ids t s). unfold inbox, base, inbox_size.
  by rewrite of_inboxes0, of_base0, of_inbytes0.
Qed.

(** ** The stream's invariant *)

(** Identifiers are consecutive up to the counter, the byte counter is exact
    and the ring is within budget. *)
Record observe_ok (s : Store) : Prop := {
  oo_ids : ∀ i e, observeEvents s !! i = Some e →
    ObserveEvent.ID e = nextObserveID s - Z.of_nat (length (observeEvents s)) + 1 + Z.of_nat i;
  oo_count : Z.of_nat (length (observeEvents s)) ≤ nextObserveID s;
  oo_size : Forall (λ e, ObserveEvent.Size e =
    observeEventSize (ObserveEvent.ConversationID e) (ObserveEvent.AgentIDs e) (ObserveEvent.Data e))
    (observeEvents s);
  oo_bytes : observeBytes s = total (observeEvents s);
  oo_budget : within (Config.MaxObserveEvents (cfg E)) (Config.MaxObserveBytes (cfg E))
                (observeEvents s) }.

Lemma observe_ok_ext s s' :
  nextObserveID s' = nextObserveID s → observeEvents s' = observeEvents s →
  observeBytes s' = observeBytes s → observe_ok s → observe_ok s'.
Proof. intros H1 H2 H3 []. constructor; rewrite ?H1, ?H2, ?H3; done. Qed.

Lemma trimObserveLocked_spec s :
  observeEvents s ≠ [] → observeBytes s = total (observeEvents s) →
  let n := evict_count (Config.MaxObserveEvents (cfg E)) (Config.MaxObserveBytes (cfg E))
    (total (observeEvents s)) (observeEvents s) in
  let s' := trimObserveLocked s in
  observeEvents s' = drop n (observeEvents s) ∧ observeBytes s' = total (observeEvents s') ∧
  nextObserveID s' = nextObserveID s ∧ same_chans s s'.
Proof.
  intros Hne Hb. cbn zeta. unfold trimObserveLocked. rewrite Hb.
  set (n := evict_count _ _ _ _). destruct (n =? 0)%nat eqn:En.
  - apply Nat.eqb_eq in En. rewrite En, drop_0. done.
  - cbn. split_and!; [done| |done..]. rewrite total_drop. done.
Qed.

(** The event [publishLocked] appends. *)
Definition published (ty : EventType) (d : json) (c : string) (ids : list string) (t : Time)
    (s : Store) : ObserveEvent.t :=
  ObserveEvent.mk (inc64 (nextObserveID s)) ty t d c ids (observeEventSize c ids d).

Lemma publishLocked_spec ty d c ids t s :
  observe_ok s → nextObserveID s < max_int64 →
  let s' := publishLocked ty d c ids t s in
  observe_ok s' ∧ nextObserveID s' = nextObserveID s + 1 ∧
  ∃ n, (n ≤ length (observeEvents s))%nat ∧
    observeEvents s' = drop n (observeEvents s) ++ [published ty d c ids t s].
Proof.
  intros [Hid Hcnt Hsz Hb Hw] Hmax. cbn zeta. unfold publishLocked. cbn zeta.
  match goal with |- context [trimObserveLocked ?x] => set (s1 := x) end.
  set (evt := published ty d c ids t s).
  assert (inc64 (nextObserveID s) = nextObserveID s + 1) as Hinc by (apply inc64_lt; lia).
  assert (observeEvents s1 = observeEvents s ++ [evt]) as He1 by done.
  assert (observeBytes s1 = total (observeEvents s1)) as Hb1.
  { rewrite He1, total_app, <-Hb. unfold s1, total; cbn. unfold size_of, ObserveEvent_sized. cbn. lia. }
  assert (observeEvents s1 ≠ []) as Hne by (rewrite He1; by intros [_ ?]%app_eq_nil).
  destruct (trimObserveLocked_spec s1 Hne Hb1) as (Hev & Hby & Hnx & _).
  destruct (evict_count_spec (Config.MaxObserveEvents (cfg E)) (Config.MaxObserveBytes (cfg E))
    (observeEvents s1) Hne) as (Hn & Hwin & _).
  set (n := evict_count _ _ _ _) in *.
  rewrite He1, length_app in Hn. cbn in Hn.
  rewrite He1, drop_app_le in Hev, Hwin by lia.
  split_and!.
  - constructor; cbn [observeEvents observeBytes nextObserveID signalObserveLocked Channels.make];
      unfold signalObserveLocked; cbn; rewrite ?Hby, ?Hev, ?Hnx; unfold s1; cbn; rewrite ?Hinc.
    + intros i e Hi. rewrite length_app, length_drop. cbn.
      apply lookup_app_Some in Hi as [Hi|[Hi He]].
      * rewrite lookup_drop in Hi. apply Hid in Hi as ->. lia.
      * rewrite length_drop in *. apply list_lookup_singleton_Some in He as [? <-]. cbn.
        rewrite Hinc. lia.
    + rewrite length_app, length_drop. cbn. lia.
    + apply Forall_app; split; [by apply Forall_drop|]. by constructor.
    + done.
    + done.
  - unfold signalObserveLocked; cbn. rewrite Hnx. unfold s1; cbn. done.
  - exists n. split; [lia|]. unfold signalObserveLocked; cbn. done.
Qed.

(** Publishing neither reads nor writes another agent's inbox, and wakes the
    observers. *)
Lemma signalObserveLocked_chan_ok s : chan_ok s → chan_ok (signalObserveLocked s).
Proof.
  intros [Hp Hc [Ho1 Ho2] Hi Hj]. unfold signalObserveLocked. constructor; cbn.
  - rewrite Hp. by apply bool_decide_eq_false.
  - intros c [->%elem_of_singleton|?%Hc]%elem_of_union; lia.
  - split; [lia|]. rewrite elem_of_union, elem_of_singleton. intros [?|?%Hc]; lia.
  - intros a c Ha. destruct (Hi _ _ Ha) as (? & ? & ?). split_and!; [lia| |lia].
    rewrite elem_of_union, elem_of_singleton. intros [?|?]; done.
  - done.
Qed.

Lemma trimObserveLocked_chans s : same_chans s (trimObserveLocked s).
Proof. unfold trimObserveLocked. by case_match. Qed.

Lemma publishLocked_signal ty d c ids t s :
  ∃ s2, publishLocked ty d c ids t s = signalObserveLocked s2 ∧ same_chans s s2.
Proof.
  unfold publishLocked. eexists. split; [reflexivity|].
  eapply same_chans_trans; [|apply trimObserveLocked_chans]. done.
Qed.

Lemma publishLocked_chan_ok ty d c ids t s : chan_ok s → chan_ok (publishLocked ty d c ids t s).
Proof.
  intros Hok. destruct (publishLocked_signal ty d c ids t s) as (s2 & -> & Hs).
  apply signalObserveLocked_chan_ok. by eapply chan_ok_ext.
Qed.

Lemma publishLocked_wakes ty d c ids t s :
  observeNotify s ∈ Channels.closed (channels (publishLocked ty d c ids t s)).
Proof.
  destruct (publishLocked_signal ty d c ids t s) as (s2 & -> & Hc & Ho & _).
  unfold signalObserveLocked; cbn. rewrite Ho. set_solver.
Qed.

End observe.

#[global] Arguments publishLocked : simpl never.

(** ** Bisection *)

Section search.
Context (f : nat → bool) (n : nat).
Hypothesis f_mono : ∀ i j, (i ≤ j)%nat → (j < n)%nat → f i = true → f j = true.

Lemma search_loop_spec fuel i j :
  (j - i < fuel)%nat → (i ≤ j ≤ n)%nat →
  (∀ k, (k < i)%nat → f k = false) → (∀ k, (j ≤ k < n)%nat → f k = true) →
  let r := search_loop fuel f i j in
  (i ≤ r ≤ j)%nat ∧ (∀ k, (k < r)%nat → f k = false) ∧ ∀ k, (r ≤ k < n)%nat → f k = true.
Proof.
  revert i j. induction fuel as [|fuel IH]; intros i j Hf Hij Hlo Hhi; [lia|].
  cbn [search_loop]. cbn zeta. destruct (i <? j)%nat eqn:E.
  - apply Nat.ltb_lt in E. set (h := Nat.div (i + j) 2).
    assert (i ≤ h < j)%nat as Hh.
    { pose proof (Nat.div_mod_eq (i + j) 2). pose proof (Nat.mod_upper_bound (i + j) 2). lia. }
    destruct (f h) eqn:Efh.
    + destruct (IH i h) as (? & ? & ?); [lia|lia|done| |split_and!; try done; lia].
      intros k Hk. eapply f_mono; [| |exact Efh]; lia.
    + destruct (IH (S h) j) as (? & ? & ?); [lia|lia| |done|split_and!; try done; lia].
      intros k Hk. destruct (f k) eqn:Efk; [|done].
      rewrite (f_mono k h) in Efh; [done|lia|lia|done].
  - apply Nat.ltb_ge in E. split_and!; [lia|lia|done|]. intros k Hk. apply Hhi. lia.
Qed.

(** [sort.Search] terminates within its fuel at the least index with [f]. *)
Lemma sort_Search_spec :
  let r := sort_Search n f in
  (r ≤ n)%nat ∧ (∀ k, (k < r)%nat → f k = false) ∧ ∀ k, (r ≤ k < n)%nat → f k = true.
Proof.
  destruct (search_loop_spec (S n) 0 n) as (? & ? & ?); try lia.
  cbn zeta. unfold sort_Search. split_and!; try done; lia.
Qed.

End search.

(** ** The scan is a filter *)

Section scan.
Context (E : Static).

(** The events after [afterID] that pass the filter. *)
Definition visible (afterID : Z) (filter : ObserveFilter.t) (e : ObserveEvent.t) : bool :=
  (afterID <? ObserveEvent.ID e) && eventMatchesFilter E e filter.

Lemma scan_loop filter evs out l0 :
  foldl (λ '(out, last) evt,
    if negb (eventMatchesFilter E evt filter) then (out, last)
    else (out ++ [evt], ObserveEvent.ID evt)) (out, l0) evs =
  let sel := List.filter (λ e, eventMatchesFilter E e filter) evs in
  (out ++ sel, default l0 (ObserveEvent.ID <$> last sel)).
Proof.
  revert out l0. induction evs as [|e evs IH]; intros out l0.
  { cbn. by rewrite app_nil_r. }
  cbn [foldl]. cbn zeta. cbn [List.filter].
  destruct (eventMatchesFilter E e filter) eqn:Ee; cbn [negb]; rewrite IH; [|done].
  cbn zeta. rewrite <-app_assoc. f_equal.
  destruct (List.filter _ evs) as [|y l]; [done|]. rewrite last_cons_cons.
  destruct (last (y :: l)) eqn:El; [done|]. by apply last_None in El.
Qed.

(** Identifiers increase along the ring. *)
Lemma observe_ids_increasing s i j e1 e2 :
  observe_ok E s → (i ≤ j)%nat → observeEvents s !! i = Some e1 → observeEvents s !! j = Some e2 →
  ObserveEvent.ID e1 ≤ ObserveEvent.ID e2.
Proof. intros [Hid _ _ _ _] Hij ->%Hid ->%Hid. lia. Qed.

Lemma filter_skipn_prefix {A} (p q : A → bool) (l : list A) r :
  (∀ k x, (k < r)%nat → l !! k = Some x → p x = false) →
  (∀ k x, (r ≤ k)%nat → l !! k = Some x → p x = true) →
  List.filter q (drop r l) = List.filter (λ x, p x && q x) l.
Proof.
  revert r. induction l as [|x l IH]; intros r Hlo Hhi; [by destruct r|].
  destruct r as [|r].
  - cbn. rewrite (Hhi 0%nat x) by (cbn; done || lia). cbn.
    specialize (IH 0%nat). rewrite drop_0 in IH.
    rewrite <-IH; [done|lia|]. intros k y Hk Hy. apply (Hhi (S k) y); [lia|done].
  - cbn [drop List.filter]. rewrite (Hlo 0%nat x) by (cbn; done || lia). cbn.
    apply IH; intros k y Hk Hy; [apply (Hlo (S k) y)|apply (Hhi (S k) y)]; cbn; done || lia.
Qed.

Lemma observe_scan_spec afterID filter s :
  observe_ok E s →
  let sel := List.filter (visible afterID filter) (observeEvents s) in
  observe_scan E afterID filter s = (sel, default afterID (ObserveEvent.ID <$> last sel)).
Proof.
  intros Hok. cbn zeta. unfold observe_scan. rewrite scan_loop. cbn zeta.
  set (f := λ i : nat, _). set (n := length (observeEvents s)).
  destruct (sort_Search_spec f n) as (Hr & Hlo & Hhi).
  { intros i j Hij Hj. unfold f. destruct (lookup_lt_is_Some_2 _ _ Hj) as [e2 He2]. rewrite He2.
    destruct (observeEvents s !! i) as [e1|] eqn:He1; [|done].
    pose proof (observe_ids_increasing _ _ _ _ _ Hok Hij He1 He2). rewrite !Z.ltb_lt. lia. }
  set (r := sort_Search n f) in *.
  assert (List.filter (λ e, eventMatchesFilter E e filter) (drop r (observeEvents s)) =
          List.filter (visible afterID filter) (observeEvents s)) as ->; [|done].
  apply (filter_skipn_prefix (λ e, afterID <? ObserveEvent.ID e)); intros k x Hk Hx.
  - specialize (Hlo k Hk). unfold f in Hlo. by rewrite Hx in Hlo.
  - specialize (Hhi k). unfold f in Hhi. rewrite Hx in Hhi. apply Hhi.
    split; [done|]. by apply lookup_lt_Some in Hx.
Qed.

End scan.
