(* ===== verification/Structure.v ===== *)
(** * The structural invariant of the store

    The maps of [Store] ([pkg/bus/store.go]) refer to one another: messages to
    conversations, conversations to message lists, receipts to message
    identifiers drawn from a counter.  [structure_ok] is what every operation
    keeps true of them, [evolves] how a stored message may change. *)
From stdpp Require Import gmap strings list.
From Stdlib Require Import ZArith Lia Ascii.
From S2P Require Import Prelude GoBase Json Types Config Ring State Inbox Observe.

(** ** Identifiers drawn from the counters *)

Definition message_id (n : Z) : string := "m-"%stdpp +:+ Sprintf_06d n.
Definition conversation_id (n : Z) : string := "c-"%stdpp +:+ Sprintf_06d n.

Lemma message_id_inj m n : 0 ≤ m → 0 ≤ n → message_id m = message_id n → m = n.
Proof. intros Hm Hn H%append_inj_r. by apply Sprintf_06d_inj. Qed.

Lemma conversation_id_inj m n : 0 ≤ m → 0 ≤ n → conversation_id m = conversation_id n → m = n.
Proof. intros Hm Hn H%append_inj_r. by apply Sprintf_06d_inj. Qed.

(** [id] was given to a message accepted before the counter reached [n]. *)
Definition issued (n : Z) (id : string) : Prop := ∃ k, 1 ≤ k ≤ n ∧ id = message_id k.

Lemma issued_mono m n id : m ≤ n → issued m id → issued n id.
Proof. intros ? (k & ? & ->). exists k. split; [lia|done]. Qed.

Lemma issued_fresh n : 0 ≤ n → ¬ issued n (message_id (n + 1)).
Proof. intros Hn (k & Hk & Heq%message_id_inj); lia. Qed.

(** ** The lifecycle of a message *)

Definition rank (s : MessageState) : nat :=
  match s with
  | StateNone => 0 | StatePending => 1 | StateWaitingAck => 2 | StateExecuting => 3
  | StateCompleted | StateRejected | StateError => 4
  end.

(** How the store may replace a message: the envelope is immutable, the state
    only moves forward, a terminal message keeps its state, and only requests
    change at all. *)
Record evolves (m m' : Message.t) : Prop := {
  ev_life : ∃ st tm dl pr qd, m' = Message.set_life st tm dl pr qd m;
  ev_rank : (rank (Message.State m) ≤ rank (Message.State m'))%nat;
  ev_terminal : isTerminal (Message.State m) = true →
    Message.State m' = Message.State m ∧ Message.TerminalAt m' = Message.TerminalAt m;
  ev_fixed : Message.Typ m ≠ MessageTypeRequest → m' = m }.

Lemma set_life_set_life m a b c d e a' b' c' d' e' :
  Message.set_life a b c d e (Message.set_life a' b' c' d' e' m) = Message.set_life a b c d e m.
Proof. done. Qed.

Lemma set_life_id m :
  Message.set_life (Message.State m) (Message.TerminalAt m) (Message.DeliveredAt m)
    (Message.LastProgressAt m) (Message.QueuedForAgent m) m = m.
Proof. by destruct m. Qed.

#[export] Instance evolves_preorder : PreOrder evolves.
Proof.
  split.
  - intros m. constructor; [|done|done|done]. do 5 eexists. by rewrite set_life_id.
  - intros x y z [(a&b&c&d&e&->) Hr Ht Hf] [(a'&b'&c'&d'&e'&->) Hr' Ht' Hf'].
    constructor.
    + do 5 eexists. by rewrite set_life_set_life.
    + lia.
    + intros Hx. destruct (Ht Hx) as [H1 H2]. rewrite H1 in *. rewrite H2 in *. by apply Ht'.
    + intros Hn. rewrite (Hf' Hn). by apply Hf.
Qed.

Lemma evolves_envelope m m' :
  evolves m m' →
  Message.MessageID m' = Message.MessageID m ∧ Message.Typ m' = Message.Typ m ∧
  Message.From m' = Message.From m ∧ Message.To m' = Message.To m ∧
  Message.ConversationID m' = Message.ConversationID m ∧
  Message.RequestID m' = Message.RequestID m ∧ Message.Body m' = Message.Body m ∧
  Message.CreatedAt m' = Message.CreatedAt m.
Proof. intros [(a&b&c&d&e&->) _ _ _]. done. Qed.

(** Well-formedness of one stored message. *)
Record message_ok (m : Message.t) : Prop := {
  mo_typ : Message.Typ m ≠ MessageTypeNone;
  mo_state : Message.State m ≠ StateNone;
  mo_progress : Message.State m = StateWaitingAck ∨ Message.State m = StateExecuting →
    Message.Typ m = MessageTypeRequest;
  mo_queued : Message.QueuedForAgent m = true → isTerminal (Message.State m) = false →
    Message.State m = StatePending }.

(** ** Equality of the structural part of the state *)

Record core_eq (s s' : Store) : Prop := {
  ce_convID : nextConversationID s' = nextConversationID s;
  ce_msgID : nextMessageID s' = nextMessageID s;
  ce_agents : agents s' = agents s;
  ce_conversations : conversations s' = conversations s;
  ce_messages : messages s' = messages s;
  ce_convmsgs : conversationMessages s' = conversationMessages s;
  ce_idem : idempotency s' = idempotency s;
  ce_inboxes : dom (inboxes s') = dom (inboxes s) }.

#[export] Instance core_eq_equiv : Equivalence core_eq.
Proof.
  split.
  - by constructor.
  - intros s s' []. by constructor.
  - intros s1 s2 s3 [] []. constructor; congruence.
Qed.

#[export] Instance observe_frame_core : subrelation observe_frame core_eq.
Proof. intros s s' H. constructor; try apply H. by rewrite (of_inboxes _ _ H). Qed.

Lemma inbox_frame_core s s' :
  inbox_frame s s' → dom (inboxes s') = dom (inboxes s) → core_eq s s'.
Proof. intros [] ?. by constructor. Qed.

(** ** The invariant *)

Record structure_ok (s : Store) : Prop := {
  so_convID : 0 ≤ nextConversationID s;
  so_msgID : 0 ≤ nextMessageID s;
  so_agent_key : ∀ k a, agents s !! k = Some a → Agent.AgentID a = k;
  so_conv_key : ∀ k c, conversations s !! k = Some c → Conversation.ConversationID c = k;
  so_msg_key : ∀ k m, messages s !! k = Some m → Message.MessageID m = k;
  so_msg : ∀ k m, messages s !! k = Some m → message_ok m;
  so_issued : ∀ k m, messages s !! k = Some m → issued (nextMessageID s) k;
  so_receipts : ∀ k r, idempotency s !! k = Some r →
    issued (nextMessageID s) (IdempotencyEntry.MessageID r);
  so_listed_issued : ∀ c id, id ∈ conversation_messages s c → issued (nextMessageID s) id;
  so_listed : ∀ k m, messages s !! k = Some m →
    k ∈ conversation_messages s (Message.ConversationID m);
  so_owner : ∀ c id m, id ∈ conversation_messages s c → messages s !! id = Some m →
    Message.ConversationID m = c;
  so_nodup : ∀ c, NoDup (conversation_messages s c);
  so_conv_dom : ∀ c, is_Some (conversationMessages s !! c) → is_Some (conversations s !! c);
  so_count : ∀ k c, conversations s !! k = Some c →
    Conversation.MessageCount c = Z.of_nat (length (conversation_messages s k));
  so_inboxes : dom (inboxes s) = dom (agents s) }.

#[export] Instance structure_ok_proper : Proper (core_eq ==> iff) structure_ok.
Proof.
  assert (∀ s s', core_eq s s' → structure_ok s → structure_ok s') as H.
  { intros s s' [H1 H2 H3 H4 H5 H6 H7 H8] [].
    constructor; unfold conversation_messages in *;
      rewrite ?H1, ?H2, ?H3, ?H4, ?H5, ?H6, ?H7, ?H8; done. }
  intros s s' Hs. split; [by apply H|]. apply H. by symmetry.
Qed.

(** How an operation may change the set of messages: each one evolves, is
    pruned, or is new. *)
Definition messages_evolve (s s' : Store) : Prop :=
  ∀ k m, messages s !! k = Some m →
    messages s' !! k = None ∨ ∃ m', messages s' !! k = Some m' ∧ evolves m m'.

(** The same for a step that prunes nothing. *)
Definition messages_update (s s' : Store) : Prop :=
  dom (messages s') = dom (messages s) ∧
  ∀ k m, messages s !! k = Some m → ∃ m', messages s' !! k = Some m' ∧ evolves m m'.

#[export] Instance messages_update_preorder : PreOrder messages_update.
Proof.
  split.
  - intros s. split; [done|]. intros k m Hm. exists m. by split.
  - intros s1 s2 s3 [Hd1 H1] [Hd2 H2]. split; [congruence|]. intros k m Hm.
    destruct (H1 k m Hm) as (m' & Hm' & ?). destruct (H2 k m' Hm') as (m'' & ? & ?).
    exists m''. split; [done|by etransitivity].
Qed.

Lemma messages_update_evolve s s' : messages_update s s' → messages_evolve s s'.
Proof. intros [_ H] k m Hm. right. by apply H. Qed.

#[export] Instance core_eq_update : subrelation core_eq messages_update.
Proof. intros s s' []. split; [congruence|]. intros k m Hm. exists m. by rewrite ce_messages0. Qed.

(** Replacing one message by a later version of itself. *)
Lemma structure_ok_set_message s id m m' :
  structure_ok s → messages s !! id = Some m → evolves m m' → message_ok m' →
  structure_ok (set_messages (<[id := m']> (messages s)) s).
Proof.
  intros Hok Hm Hev Hm'. destruct (evolves_envelope _ _ Hev) as (Eid & _ & _ & _ & Ec & _).
  destruct Hok. constructor; unfold conversation_messages in *; cbn; try done.
  - intros k x [[<- <-]|[? ?]]%lookup_insert_Some; [rewrite Eid|]; eauto.
  - intros k x [[<- <-]|[? ?]]%lookup_insert_Some; eauto.
  - intros k x [[<- <-]|[? ?]]%lookup_insert_Some; eauto.
  - intros k x [[<- <-]|[? ?]]%lookup_insert_Some; [rewrite Ec|]; eauto.
  - intros c k x Hk [[<- <-]|[? ?]]%lookup_insert_Some; [rewrite Ec|]; eauto.
Qed.

Lemma messages_update_set s id m m' :
  messages s !! id = Some m → evolves m m' →
  messages_update s (set_messages (<[id := m']> (messages s)) s).
Proof.
  intros Hm Hev. split; cbn; [apply dom_insert_lookup_L; eauto|].
  intros k x Hx. destruct (decide (id = k)) as [<-|].
  - exists m'. rewrite lookup_insert_eq. by simplify_eq.
  - exists x. by rewrite lookup_insert_ne.
Qed.

(** ** Room for more events

    [roomy E k s]: the observe stream is well-formed and its identifier
    counter can take [k] more events without wrapping. *)
Definition roomy (E : Static) (k : Z) (s : Store) : Prop :=
  observe_ok E s ∧ nextObserveID s + k ≤ max_int64.

Lemma roomy_weaken E j k s : j ≤ k → roomy E k s → roomy E j s.
Proof. intros ? [? ?]. split; [done|lia]. Qed.

Lemma publishLocked_roomy E k ty d c ids t s :
  0 ≤ k → roomy E (k + 1) s → roomy E k (publishLocked E ty d c ids t s).
Proof.
  intros Hk [Hok Hr]. destruct (publishLocked_spec E ty d c ids t s Hok) as (? & Hn & _); [lia|].
  split; [done|lia].
Qed.

Lemma foldl_roomy {A} E (f : Store → A → Store) l k s :
  0 ≤ k → (∀ j s a, 0 ≤ j → roomy E (j + 1) s → roomy E j (f s a)) →
  roomy E (Z.of_nat (length l) + k) s → roomy E k (foldl f s l).
Proof.
  intros Hk Hf. revert s. induction l as [|a l IH]; intros s Hs; cbn.
  - by replace k with (Z.of_nat (length (@nil A)) + k) by (cbn; lia).
  - apply IH. apply Hf; [lia|]. eapply roomy_weaken; [|done]. cbn. lia.
Qed.

Lemma roomy_ext E k s s' :
  nextObserveID s' = nextObserveID s → observeEvents s' = observeEvents s →
  observeBytes s' = observeBytes s → roomy E k s → roomy E k s'.
Proof. intros H1 H2 H3 [? ?]. split; [by eapply observe_ok_ext|by rewrite H1]. Qed.

(** ** The whole invariant *)

(** Everything but the observe stream, whose upkeep needs room. *)
Record sinv (E : Static) (s : Store) : Prop := {
  si_structure : structure_ok s;
  si_inbox : ∀ a, inbox_ok E s a;
  si_chan : chan_ok s }.

Definition inv (E : Static) (s : Store) : Prop := sinv E s ∧ observe_ok E s.

(** A change outside inboxes and channels only has to keep the structure. *)
Lemma sinv_ext E s s' :
  inboxes s' = inboxes s → inboxBase s' = inboxBase s → inboxBytes s' = inboxBytes s →
  same_chans s s' → structure_ok s' → sinv E s → sinv E s'.
Proof.
  intros H1 H2 H3 Hc Hs [_ Hi Hch]. split; [done| |by eapply chan_ok_ext].
  intros a. apply (inbox_ok_ext E s); [| | |done]; unfold inbox, base, inbox_size;
    by rewrite ?H1, ?H2, ?H3.
Qed.

Lemma publishLocked_core E ty d c ids t s : core_eq s (publishLocked E ty d c ids t s).
Proof. apply observe_frame_core, publishLocked_frame. Qed.

Lemma publishLocked_sinv E ty d c ids t s : sinv E s → sinv E (publishLocked E ty d c ids t s).
Proof.
  intros [Hs Hi Hc]. split; [by rewrite <-publishLocked_core| |by apply publishLocked_chan_ok].
  intros a. destruct (publishLocked_inbox E ty d c ids t s a) as (?&?&?). by eapply inbox_ok_ext.
Qed.

Lemma appendInboxLocked_core E a evt s :
  structure_ok s → is_Some (agents s !! a) → core_eq s (appendInboxLocked E a evt s).
Proof.
  intros Hs Ha. apply inbox_frame_core; [apply appendInboxLocked_frame|].
  rewrite appendInboxLocked_dom, (so_inboxes _ Hs). apply elem_of_dom in Ha. set_solver.
Qed.

Lemma appendInboxLocked_sinv E a evt s :
  is_Some (agents s !! a) → sinv E s → sinv E (appendInboxLocked E a evt s).
Proof.
  intros Ha [Hs Hi Hc]. split.
  - by rewrite <-appendInboxLocked_core.
  - intros b. by apply appendInboxLocked_inbox_ok.
  - by apply appendInboxLocked_chan_ok.
Qed.

Lemma set_message_sinv E s id m m' :
  messages s !! id = Some m → evolves m m' → message_ok m' → sinv E s →
  sinv E (set_messages (<[id := m']> (messages s)) s).
Proof.
  intros Hm Hev Hok Hs. apply (sinv_ext E s); [done..| |exact Hs].
  eapply structure_ok_set_message; [apply Hs|done..].
Qed.

#[export] Hint Resolve publishLocked_sinv appendInboxLocked_sinv set_message_sinv : bus.
