(* ===== verification/Sweep.v ===== *)
(** * The sweep: [sweepLocked] and [pruneLocked] of [pkg/bus/store.go]

    Every operation starts with a sweep: it expires agents and receipts, times
    requests out, delivers what was queued for agents that came back, and
    prunes what is past retention.

    Go ranges over maps in an unspecified order.  The order matters where the
    loop body publishes events, so it is an argument, [Order]; the loops that
    only delete entries independently of one another are filters. *)
From stdpp Require Import gmap strings list.
From Stdlib Require Import ZArith Lia Ascii.
From S2P Require Import Prelude GoBase Json Types Config Ring State Inbox Observe Structure.

Record Order := mkOrder { ord_agents : list string; ord_messages : list string }.

(** The orders Go may choose in state [s]. *)
Definition order_ok (o : Order) (s : Store) : Prop :=
  enumerates (ord_agents o) (agents s) ∧ enumerates (ord_messages o) (messages s).

(** The event an inbox receives for a message ([messageInboxEvent] of
    [pkg/bus/sqlite_delivery.go]; the in-memory store inlines it). *)
Definition messageInboxEvent (m : Message.t) : InboxEvent.t :=
  InboxEvent.mk (Message.MessageID m) (Message.Typ m) (Message.From m)
    (Message.ConversationID m) (Message.Body m) (Message.Meta m) (Message.Attachments m)
    (Message.CreatedAt m).

Section sweep.
Context (E : Static).

Definition agent_expired_data (a : Agent.t) (now : Time) : json :=
  JObj [("agent_id"%stdpp, JString (Agent.AgentID a)); ("at"%stdpp, JTime now)].

Definition sweep_agent (now : Time) (s : Store) (id : string) : Store :=
  match agents s !! id with
  | None => s
  | Some a =>
      if bool_decide (Agent.Status a = AgentStatusActive) && After now (Agent.ExpiresAt a) then
        let s := set_agents (<[id := Agent.set_Status AgentStatusExpired a]> (agents s)) s in
        publishLocked E ObserveAgentExpired (agent_expired_data a now) ε [Agent.AgentID a] now s
      else s
  end.

Definition sweep_error_data (m : Message.t) (now : Time) (reason : string) : json :=
  JObj [("message_id"%stdpp, JString (Message.MessageID m));
        ("from_state"%stdpp, JString (MessageState_string (Message.State m)));
        ("to_state"%stdpp, JString (MessageState_string StateError));
        ("at"%stdpp, JTime now);
        ("error"%stdpp, JString reason)].

(** The three timeouts: [m.State = StateError; m.TerminalAt = now], with the
    queue flag cleared where the code clears it, and the published change. *)
Definition time_out (now : Time) (id : string) (m m' : Message.t) (reason : string) (s : Store)
    : Store :=
  let s := set_messages (<[id := m']> (messages s)) s in
  publishLocked E ObserveStateChange (sweep_error_data m now reason) (Message.ConversationID m)
    [Message.From m; Message.To m] now s.

Definition to_error (now : Time) (m : Message.t) : Message.t :=
  Message.set_TerminalAt now (Message.set_State StateError m).

Definition sweep_message (now : Time) (s : Store) (id : string) : Store :=
  match messages s !! id with
  | None => s
  | Some m =>
      if bool_decide (Message.Typ m ≠ MessageTypeRequest) || isTerminal (Message.State m) then s
      else if negb (IsZero (Message.TTLExpiresAt m)) && After now (Message.TTLExpiresAt m) then
        time_out now id m (to_error now m) "ttl timeout"%stdpp s
      else if bool_decide (Message.State m = StateWaitingAck)
              && negb (IsZero (Message.DeliveredAt m))
              && (Config.AckTimeout (cfg E) <? Sub now (Message.DeliveredAt m)) then
        time_out now id m (to_error now m) "ack timeout"%stdpp s
      else if Message.QueuedForAgent m then
        if match agents s !! Message.To m with
           | Some target => bool_decide (Agent.Status target = AgentStatusActive)
           | None => false
           end then
          let m' := Message.set_DeliveredAt now
            (Message.set_State StateWaitingAck (Message.set_QueuedForAgent false m)) in
          let s := set_messages (<[id := m']> (messages s)) s in
          appendInboxLocked E (Message.To m) (messageInboxEvent m') s
        else if negb (IsZero (Message.GraceUntil m)) && After now (Message.GraceUntil m) then
          time_out now id m (to_error now (Message.set_QueuedForAgent false m))
            "target agent did not re-register in grace period"%stdpp s
        else s
      else s
  end.

(** ** pruneLocked *)

Definition prune_message (now : Time) (m : Message.t) : bool :=
  if (0 <? Config.MessageMaxAge (cfg E))
     && (Config.MessageMaxAge (cfg E) <? Sub now (Message.CreatedAt m)) then true
  else if (0 <? Config.MessageRetention (cfg E)) && isTerminal (Message.State m) then
    let terminalAt :=
      if IsZero (Message.TerminalAt m) then Message.CreatedAt m else Message.TerminalAt m in
    Config.MessageRetention (cfg E) <? Sub now terminalAt
  else false.

Definition prune_messages (now : Time) (s : Store) : Store :=
  if (0 <? Config.MessageRetention (cfg E)) || (0 <? Config.MessageMaxAge (cfg E)) then
    set_messages (filter (λ '(_, m), prune_message now m = false) (messages s)) s
  else s.

(** Some listed message of the conversation is still stored. *)
Definition conversation_live (s : Store) (cid : string) : bool :=
  existsb (λ mid, bool_decide (is_Some (messages s !! mid))) (conversation_messages s cid).

Definition prune_conversation (now : Time) (s : Store) (cid : string) (c : Conversation.t) : bool :=
  negb (Sub now (Conversation.LastMessageAt c) <=? Config.ConversationRetention (cfg E))
  && negb (conversation_live s cid).

(** The conversations the loop deletes: the test reads the messages, which the
    loop does not change, and the conversation's own list. *)
Definition conversation_gone (now : Time) (s : Store) (cid : string) : bool :=
  match conversations s !! cid with
  | Some c => prune_conversation now s cid c
  | None => false
  end.

Definition prune_conversations (now : Time) (s : Store) : Store :=
  if 0 <? Config.ConversationRetention (cfg E) then
    let gone := conversation_gone now s in
    let s := set_conversations (filter (λ '(cid, _), gone cid = false) (conversations s)) s in
    set_conversationMessages
      (filter (λ '(cid, _), gone cid = false) (conversationMessages s)) s
  else s.

Definition prune_agent (now : Time) (s : Store) (id : string) : Store :=
  match agents s !! id with
  | None => s
  | Some a =>
      if bool_decide (Agent.Status a ≠ AgentStatusExpired)
         || (Sub now (Agent.ExpiresAt a) <=? Config.AgentRetention (cfg E)) then s
      else
        let s := set_agents (delete id (agents s)) s in
        let s := signalInboxLocked id s in
        let s := set_inboxes (delete id (inboxes s)) s in
        let s := set_inboxBase (delete id (inboxBase s)) s in
        set_inboxBytes (delete id (inboxBytes s)) s
  end.

Definition pruneLocked (o : Order) (now : Time) (s : Store) : Store :=
  let s := prune_messages now s in
  let s := prune_conversations now s in
  if 0 <? Config.AgentRetention (cfg E) then foldl (prune_agent now) s (ord_agents o) else s.

(** ** sweepLocked *)

Definition expire_receipts (now : Time) (s : Store) : Store :=
  set_idempotency
    (filter (λ '(_, r), (Config.IdempotencyWindow (cfg E) <? Sub now (IdempotencyEntry.CreatedAt r)) = false)
      (idempotency s)) s.

Definition sweep_skips (now : Time) (s : Store) : bool :=
  (0 <? Config.SweepMinInterval (cfg E)) && negb (IsZero (lastSweepAt s))
  && (Sub now (lastSweepAt s) <? Config.SweepMinInterval (cfg E)).

(** The body behind the rate limit. *)
Definition full_sweep (o : Order) (now : Time) (s : Store) : Store :=
  let s := set_lastSweepAt now s in
  let s := set_sweepRan ((sweepRan s + 1) mod 2 ^ 64) s in
  let s := expire_receipts now s in
  let s := foldl (sweep_agent now) s (ord_agents o) in
  let s := foldl (sweep_message now) s (ord_messages o) in
  pruneLocked o now s.

Definition sweepLocked (o : Order) (now : Time) (s : Store) : Store :=
  if sweep_skips now s then set_sweepSkipped ((sweepSkipped s + 1) mod 2 ^ 64) s
  else full_sweep o now s.

(** ** The sweep keeps the invariant *)

Lemma to_error_evolves now m :
  Message.Typ m = MessageTypeRequest → isTerminal (Message.State m) = false →
  evolves m (to_error now m).
Proof.
  intros Hty Ht. constructor; cbn; [by do 5 eexists| |congruence|done].
  destruct (Message.State m); cbn; lia.
Qed.

Lemma to_error_ok now m : message_ok m → message_ok (to_error now m).
Proof. intros []. constructor; cbn; try done. by intros [?|?]. Qed.

(** A message the sweep may act on: an unfinished request. *)
Lemma sweep_message_cases now s id m :
  messages s !! id = Some m → message_ok m →
  sweep_message now s id = s ∨
  (isTerminal (Message.State m) = false ∧ ∃ m' reason,
    sweep_message now s id = time_out now id m m' reason s ∧ evolves m m' ∧ message_ok m' ∧
    Message.State m' = StateError) ∨
  (isTerminal (Message.State m) = false ∧ ∃ m' target,
    agents s !! Message.To m = Some target ∧ Agent.Status target = AgentStatusActive ∧
    Message.Typ m = MessageTypeRequest ∧ Message.QueuedForAgent m = true ∧
    sweep_message now s id = appendInboxLocked E (Message.To m) (messageInboxEvent m')
      (set_messages (<[id := m']> (messages s)) s) ∧
    evolves m m' ∧ message_ok m' ∧ Message.State m' = StateWaitingAck).
Proof.
  intros Hm Hok. unfold sweep_message. rewrite Hm.
  destruct (_ || isTerminal _) eqn:E1; [by left|]. prop_bool.
  apply dec_stable in H.
  destruct (negb _ && After _ _).
  { right; left. split; [done|]. do 2 eexists. split_and!; [reflexivity|by apply to_error_evolves|
      by apply to_error_ok|done]. }
  destruct (bool_decide _ && _ && _).
  { right; left. split; [done|]. do 2 eexists. split_and!; [reflexivity|by apply to_error_evolves|
      by apply to_error_ok|done]. }
  destruct (Message.QueuedForAgent m) eqn:Eq; [|by left].
  assert (Message.State m = StatePending) as Hst by by apply Hok.
  destruct (agents s !! Message.To m) as [target|] eqn:Et.
  1: destruct (bool_decide (Agent.Status target = _)) eqn:Ea; prop_bool.
  1: { right; right. split; [done|]. do 2 eexists. split_and!; [done..| | |done].
    - constructor; cbn; [by do 5 eexists|rewrite Hst; cbn; lia|congruence|done].
    - destruct Hok. constructor; cbn; try done. }
  all: destruct (negb _ && After _ _); [|by left].
  all: right; left; split; [done|]; do 2 eexists; split_and!; [reflexivity| | |done].
  all: first [by apply (to_error_ok now (Message.set_QueuedForAgent false m)); destruct Hok; constructor
    | constructor; cbn; [by do 5 eexists|rewrite Hst; cbn; lia|congruence|done]].
Qed.

Lemma sweep_message_sinv now s id : sinv E s → sinv E (sweep_message now s id).
Proof.
  intros Hs. destruct (messages s !! id) as [m|] eqn:Hm.
  2: { unfold sweep_message. by rewrite Hm. }
  destruct (sweep_message_cases now s id m Hm) as
    [->|[(_ & m' & r & -> & ? & ? & _)|(_ & m' & tg & Ht & _ & _ & _ & -> & ? & ? & _)]].
  - by apply (so_msg _ (si_structure _ _ Hs) id).
  - done.
  - apply publishLocked_sinv. by eapply set_message_sinv.
  - apply appendInboxLocked_sinv; [cbn; rewrite Ht; eauto|by eapply set_message_sinv].
Qed.

Lemma time_out_update now id m m' r s :
  messages s !! id = Some m → evolves m m' → messages_update s (time_out now id m m' r s).
Proof.
  intros Hm Hev. unfold time_out. cbv zeta.
  etransitivity; [exact (messages_update_set s id m m' Hm Hev)|].
  apply core_eq_update. apply publishLocked_core.
Qed.

Lemma sweep_message_update now s id : sinv E s → messages_update s (sweep_message now s id).
Proof.
  intros Hs. destruct (messages s !! id) as [m|] eqn:Hm.
  2: { unfold sweep_message. by rewrite Hm. }
  destruct (sweep_message_cases now s id m Hm) as
    [->|[(_ & m' & r & -> & ? & ? & _)|(_ & m' & tg & Ht & _ & _ & _ & -> & ? & ? & _)]].
  - by apply (so_msg _ (si_structure _ _ Hs) id).
  - done.
  - by apply time_out_update.
  - etransitivity; [by eapply messages_update_set|].
    apply core_eq_update, appendInboxLocked_core; [|cbn; rewrite Ht; eauto].
    eapply structure_ok_set_message; [apply Hs|done..].
Qed.

Lemma sweep_message_roomy now s id j :
  0 ≤ j → roomy E (j + 1) s → roomy E j (sweep_message now s id).
Proof.
  intros Hj Hr. assert (roomy E j s) by (eapply roomy_weaken; [|done]; lia).
  unfold sweep_message. destruct (messages s !! id) as [m|]; [|done].
  assert (∀ m' r, roomy E j (time_out now id m m' r s)) as Hto.
  { intros m' r. apply publishLocked_roomy; [done|]. by eapply roomy_ext; [..|exact Hr]. }
  repeat (case_bool; try done); try apply Hto.
  match goal with |- roomy E j (appendInboxLocked E ?a ?e ?s1) =>
    pose proof (appendInboxLocked_frame E a e s1) as F end.
  apply (roomy_ext E j s); [apply F..|done].
Qed.

Lemma sweep_agent_sinv now s id : sinv E s → sinv E (sweep_agent now s id).
Proof.
  intros Hs. unfold sweep_agent. destruct (agents s !! id) as [a|] eqn:Ha; [|done].
  case_bool; [|done]. apply publishLocked_sinv. apply (sinv_ext E s); [done..| |done].
  destruct Hs as [[] _ _]. constructor; try done; cbn.
  - intros k x [[<- <-]|[? ?]]%lookup_insert_Some; cbn; eauto.
  - rewrite dom_insert_lookup_L; eauto.
Qed.

Lemma sweep_agent_messages now s id : messages (sweep_agent now s id) = messages s.
Proof.
  unfold sweep_agent. destruct (agents s !! id); [|done]. case_bool; [|done].
  by rewrite (of_messages _ _ (publishLocked_frame E _ _ _ _ _ _)).
Qed.

Lemma sweep_agent_roomy now s id j :
  0 ≤ j → roomy E (j + 1) s → roomy E j (sweep_agent now s id).
Proof.
  intros Hj Hr. assert (roomy E j s) by (eapply roomy_weaken; [|done]; lia).
  unfold sweep_agent. destruct (agents s !! id) as [a|]; [|done].
  case_bool; [|done]. apply publishLocked_roomy; [done|]. by eapply roomy_ext; [..|exact Hr].
Qed.

Lemma expire_receipts_sinv now s : sinv E s → sinv E (expire_receipts now s).
Proof.
  intros Hs. apply (sinv_ext E s); [done..| |done]. destruct Hs as [[] _ _].
  constructor; try done; cbn. intros k r [Hr _]%map_lookup_filter_Some. eauto.
Qed.

Lemma prune_messages_sinv now s : sinv E s → sinv E (prune_messages now s).
Proof.
  intros Hs. unfold prune_messages. case_bool; [|done].
  apply (sinv_ext E s); [done..| |done]. destruct Hs as [[] _ _].
  constructor; unfold conversation_messages in *; try done; cbn.
  all: try (intros k m [Hm _]%map_lookup_filter_Some; eauto).
  intros c id m Hin [Hm _]%map_lookup_filter_Some; eauto.
Qed.

Lemma prune_messages_evolve now s : messages_evolve s (prune_messages now s).
Proof.
  intros k m Hm. unfold prune_messages. case_bool; cbn; [|right; by exists m].
  destruct (prune_message now m) eqn:Ep.
  - left. apply map_lookup_filter_None. right. intros x Hx. simplify_eq. congruence.
  - right. exists m. split; [|done]. by apply map_lookup_filter_Some.
Qed.

(** Which messages retention removes, exactly. *)
Lemma prune_messages_lookup now s k m :
  messages (prune_messages now s) !! k = Some m ↔
  messages s !! k = Some m ∧ prune_message now m = false.
Proof.
  unfold prune_messages. case_bool; cbn.
  - by rewrite map_lookup_filter_Some.
  - split; [|tauto]. intros Hm. split; [done|]. apply orb_false_iff in Eb as [E1 E2].
    unfold prune_message. by rewrite E1, E2.
Qed.

Lemma conversation_gone_dead now s cid id :
  conversation_gone now s cid = true → id ∈ conversation_messages s cid → messages s !! id = None.
Proof.
  unfold conversation_gone, prune_conversation, conversation_live.
  destruct (conversations s !! cid); [|done]. intros Hg Hin. prop_bool.
  destruct (messages s !! id) eqn:Em; [|done].
  assert (existsb (λ mid, bool_decide (is_Some (messages s !! mid))) (conversation_messages s cid) = true);
    [|congruence].
  apply existsb_exists. exists id. split; [by apply list_elem_of_In|].
  apply bool_decide_eq_true. rewrite Em. eauto.
Qed.

Lemma prune_conversations_unfold now s :
  0 < Config.ConversationRetention (cfg E) →
  let s' := prune_conversations now s in
  (∀ cid c, conversations s' !! cid = Some c ↔
     conversations s !! cid = Some c ∧ conversation_gone now s cid = false) ∧
  (∀ cid, conversation_messages s' cid =
     if conversation_gone now s cid then [] else conversation_messages s cid) ∧
  (∀ cid, is_Some (conversationMessages s' !! cid) →
     is_Some (conversationMessages s !! cid) ∧ conversation_gone now s cid = false).
Proof.
  intros Hc. cbn zeta. unfold prune_conversations. rewrite (proj2 (Z.ltb_lt _ _)) by done.
  set (gone := conversation_gone now s). split_and!.
  - intros cid c. cbn. by rewrite map_lookup_filter_Some.
  - intros cid. unfold conversation_messages. cbn. rewrite map_lookup_filter.
    destruct (conversationMessages s !! cid) as [l|]; cbn; [|by destruct (gone cid)].
    destruct (gone cid); by case_guard.
  - intros cid [l [Hl Hg]%map_lookup_filter_Some]. cbn in *. split; [eauto|done].
Qed.

Lemma prune_conversations_structure now s :
  structure_ok s → structure_ok (prune_conversations now s).
Proof.
  intros Hs. destruct (decide (0 < Config.ConversationRetention (cfg E))) as [Hc|Hc].
  2: { unfold prune_conversations. by rewrite (proj2 (Z.ltb_ge _ _)) by lia. }
  destruct (prune_conversations_unfold now s Hc) as (H1 & H2 & H3).
  assert (messages (prune_conversations now s) = messages s ∧
    agents (prune_conversations now s) = agents s ∧
    inboxes (prune_conversations now s) = inboxes s ∧
    idempotency (prune_conversations now s) = idempotency s ∧
    nextMessageID (prune_conversations now s) = nextMessageID s ∧
    nextConversationID (prune_conversations now s) = nextConversationID s)
    as (Em & Ea & Ei & Er & En & Ec).
  { unfold prune_conversations. by case_bool. }
  pose proof (conversation_gone_dead now s) as Hdead.
  pose proof (so_conv_dom _ Hs) as Hcd. destruct Hs. constructor; rewrite ?Em, ?Ea, ?Ei, ?Er, ?En, ?Ec; try done.
  - intros k c [? _]%H1. eauto.
  - intros c id. rewrite H2. case_match; [by intros ?%not_elem_of_nil|]. eauto.
  - intros k m Hm. rewrite H2. case_match eqn:Eg; [|eauto].
    rewrite (Hdead _ k Eg) in Hm; [done|eauto].
  - intros c id m. rewrite H2. case_match; [by intros ?%not_elem_of_nil|]. eauto.
  - intros c. rewrite H2. case_match; [apply NoDup_nil_2|done].
  - intros c Hx. apply H3 in Hx as [[c' Hc']%Hcd Hg]. exists c'. by apply H1.
  - intros k c [Hk Hg]%H1. rewrite H2, Hg. eauto.
Qed.

Lemma prune_agent_sinv now s id : sinv E s → sinv E (prune_agent now s id).
Proof.
  intros [Hs Hi Hc]. unfold prune_agent. destruct (agents s !! id) as [a|] eqn:Ha; [|done].
  case_bool; [done|]. set (s1 := set_agents _ s). set (s2 := signalInboxLocked id s1).
  assert (chan_ok s2) as Hc2 by (apply signalInboxLocked_chan_ok; by eapply chan_ok_ext; [|exact Hc]).
  pose proof (signalInboxLocked_frame id s1 : inbox_frame s1 s2) as F.
  assert (inboxes s2 = inboxes s ∧ inboxBase s2 = inboxBase s ∧ inboxBytes s2 = inboxBytes s)
    as (Ei & Ebase & Ey).
  { unfold s2, signalInboxLocked. by destruct (inboxNotify s1 !! id). }
  split; [| |by eapply chan_ok_ext; [|exact Hc2]].
  - destruct Hs. constructor; unfold conversation_messages in *; cbn;
      rewrite ?(if_convID _ _ F), ?(if_msgID _ _ F), ?(if_agents _ _ F), ?(if_conversations _ _ F),
        ?(if_messages _ _ F), ?(if_convmsgs _ _ F), ?(if_idem _ _ F), ?Ei; try done; cbn.
    + intros k x [_ Hk]%lookup_delete_Some. eauto.
    + rewrite !dom_delete_L. congruence.
  - intros b. destruct (Hi b). constructor; unfold inbox, base, inbox_size in *; cbn;
      rewrite ?Ei, ?Ebase, ?Ey; destruct (decide (id = b)) as [->|];
      rewrite ?lookup_delete_eq, ?lookup_delete_ne by done; try done.
    apply within_nil.
Qed.

(** Pruning agents touches neither messages, counters nor the stream. *)
Lemma prune_agent_rest now s id :
  messages (prune_agent now s id) = messages s ∧
  nextObserveID (prune_agent now s id) = nextObserveID s ∧
  observeEvents (prune_agent now s id) = observeEvents s ∧
  observeBytes (prune_agent now s id) = observeBytes s.
Proof.
  unfold prune_agent. destruct (agents s !! id); [|done]. case_bool; [done|].
  match goal with |- context [signalInboxLocked id ?x] =>
    pose proof (signalInboxLocked_frame id x) as F end.
  cbn. split_and!; [apply (if_messages _ _ F)|apply (if_obsID _ _ F)|apply (if_observe _ _ F)|
    apply (if_obsbytes _ _ F)].
Qed.

Lemma prune_agents_rest now l s :
  let s' := foldl (prune_agent now) s l in
  messages s' = messages s ∧ nextObserveID s' = nextObserveID s ∧
  observeEvents s' = observeEvents s ∧ observeBytes s' = observeBytes s.
Proof.
  cbn zeta. apply (foldl_rel (λ x y, messages y = messages x ∧ nextObserveID y = nextObserveID x ∧
    observeEvents y = observeEvents x ∧ observeBytes y = observeBytes x)).
  - done.
  - intros x y z (?&?&?&?) (?&?&?&?). split_and!; congruence.
  - intros b a _. apply prune_agent_rest.
Qed.

Lemma prune_conversations_rest now s :
  messages (prune_conversations now s) = messages s ∧
  agents (prune_conversations now s) = agents s ∧
  nextObserveID (prune_conversations now s) = nextObserveID s ∧
  observeEvents (prune_conversations now s) = observeEvents s ∧
  observeBytes (prune_conversations now s) = observeBytes s.
Proof. unfold prune_conversations. by case_bool. Qed.

Lemma pruneLocked_sinv o now s : sinv E s → sinv E (pruneLocked o now s).
Proof.
  intros Hs. unfold pruneLocked. cbv zeta. apply (prune_messages_sinv now) in Hs.
  assert (sinv E (prune_conversations now (prune_messages now s))) as Hs2.
  { pose proof (si_structure _ _ Hs) as Hst. unfold prune_conversations. case_bool; [|done].
    apply (sinv_ext E (prune_messages now s)); [done..| |done].
    pose proof (prune_conversations_structure now (prune_messages now s) Hst) as Hp.
    unfold prune_conversations in Hp. by rewrite Eb in Hp. }
  case_bool; [|done]. apply foldl_inv; [done|]. intros b a _. apply prune_agent_sinv.
Qed.

Lemma pruneLocked_messages o now s :
  messages (pruneLocked o now s) = messages (prune_messages now s).
Proof.
  unfold pruneLocked. cbv zeta.
  destruct (prune_conversations_rest now (prune_messages now s)) as (E1 & _).
  case_bool; [|done]. destruct (prune_agents_rest now (ord_agents o)
    (prune_conversations now (prune_messages now s))) as (E2 & _). congruence.
Qed.

Lemma pruneLocked_roomy o now s k : roomy E k s → roomy E k (pruneLocked o now s).
Proof.
  intros Hr. unfold pruneLocked. cbv zeta.
  assert (roomy E k (prune_messages now s)) as Hr1.
  { apply (roomy_ext E k s); [..|done]; unfold prune_messages; by case_bool. }
  destruct (prune_conversations_rest now (prune_messages now s)) as (_&_&?&?&?).
  assert (roomy E k (prune_conversations now (prune_messages now s))) as Hr2.
  { by apply (roomy_ext E k (prune_messages now s)). }
  case_bool; [|done].
  destruct (prune_agents_rest now (ord_agents o) (prune_conversations now (prune_messages now s)))
    as (_&?&?&?).
  by apply (roomy_ext E k (prune_conversations now (prune_messages now s))).
Qed.

(** The events one sweep can publish. *)
Definition sweep_events (o : Order) : Z :=
  Z.of_nat (length (ord_agents o)) + Z.of_nat (length (ord_messages o)).

(** The two loops of a full sweep. *)
Definition sweep_loops (o : Order) (now : Time) (s : Store) : Store :=
  foldl (sweep_message now)
    (foldl (sweep_agent now)
      (expire_receipts now (set_sweepRan ((sweepRan s + 1) mod 2 ^ 64) (set_lastSweepAt now s)))
      (ord_agents o))
    (ord_messages o).

Lemma full_sweep_loops o now s : full_sweep o now s = pruneLocked o now (sweep_loops o now s).
Proof. done. Qed.

Lemma sweep_start_sinv now s :
  sinv E s →
  sinv E (expire_receipts now (set_sweepRan ((sweepRan s + 1) mod 2 ^ 64) (set_lastSweepAt now s))).
Proof.
  intros Hs. apply expire_receipts_sinv. apply (sinv_ext E s); [done..| |done].
  destruct Hs as [[] _ _]. by constructor.
Qed.

Lemma sweep_loops_sinv o now s : sinv E s → sinv E (sweep_loops o now s).
Proof.
  intros Hs. unfold sweep_loops.
  apply foldl_inv; [|intros; by apply sweep_message_sinv].
  apply foldl_inv; [|intros; by apply sweep_agent_sinv].
  by apply sweep_start_sinv.
Qed.

Lemma sweepLocked_sinv o now s : sinv E s → sinv E (sweepLocked o now s).
Proof.
  intros Hs. unfold sweepLocked. case_bool.
  - apply (sinv_ext E s); [done..| |done]. destruct Hs as [[] _ _]. by constructor.
  - rewrite full_sweep_loops. by apply pruneLocked_sinv, sweep_loops_sinv.
Qed.

Lemma sweepLocked_roomy o now s k :
  0 ≤ k → roomy E (sweep_events o + k) s → roomy E k (sweepLocked o now s).
Proof.
  intros Hk Hr. unfold sweepLocked, sweep_events in *. case_bool.
  - apply (roomy_ext E k s); [done..|]. eapply roomy_weaken; [|done]. lia.
  - rewrite full_sweep_loops. apply pruneLocked_roomy. unfold sweep_loops.
    apply foldl_roomy; [done|intros; by apply sweep_message_roomy|].
    apply foldl_roomy; [lia|intros; by apply sweep_agent_roomy|].
    apply (roomy_ext E _ s); [done..|]. eapply roomy_weaken; [|done]. lia.
Qed.

(** The sweep updates messages in place or prunes them; it creates none. *)
Lemma sweep_loops_update o now s : sinv E s → messages_update s (sweep_loops o now s).
Proof.
  intros Hs. unfold sweep_loops. apply sweep_start_sinv with (now := now) in Hs.
  set (s1 := expire_receipts _ _) in *.
  assert (messages_update s s1) as H1.
  { split; [done|]. intros k m Hm. exists m. split; done. }
  set (s2 := foldl (sweep_agent now) s1 _).
  assert (sinv E s2 ∧ messages_update s1 s2) as [Hs2 H2].
  { apply (foldl_inv (λ x, sinv E x ∧ messages_update s1 x)); [by split|].
    intros b a _ [Hb Hu]. split; [by apply sweep_agent_sinv|].
    etransitivity; [exact Hu|]. split; [by rewrite sweep_agent_messages|].
    intros k m Hm. exists m. by rewrite sweep_agent_messages. }
  etransitivity; [exact H1|]. etransitivity; [exact H2|].
  apply (foldl_inv (λ x, sinv E x ∧ messages_update s2 x)); [by split|].
  intros b a _ [Hb Hu]. split; [by apply sweep_message_sinv|].
  etransitivity; [exact Hu|]. by apply sweep_message_update.
Qed.

Lemma sweepLocked_evolve o now s :
  sinv E s → messages_evolve s (sweepLocked o now s) ∧
  dom (messages (sweepLocked o now s)) ⊆ dom (messages s).
Proof.
  intros Hs. unfold sweepLocked. case_bool.
  { split; [|done]. intros k m Hm. right. exists m. by split. }
  rewrite full_sweep_loops. destruct (sweep_loops_update o now s Hs) as [Hd Hu].
  split.
  - intros k m Hm. destruct (Hu k m Hm) as (m' & Hm' & Hev).
    rewrite pruneLocked_messages.
    destruct (prune_messages_evolve now (sweep_loops o now s) k m' Hm') as [?|(m'' & ? & ?)];
      [by left|right]. exists m''. split; [done|by etransitivity].
  - rewrite pruneLocked_messages, <-Hd. intros k [m Hm]%elem_of_dom.
    apply prune_messages_lookup in Hm as [Hm _]. apply elem_of_dom. eauto.
Qed.
End sweep.

#[global] Arguments sweepLocked : simpl never.
#[global] Arguments full_sweep : simpl never.
