(* ===== verification/SweepSpec.v ===== *)
(** * What a sweep does, entry by entry

    The loops of [sweepLocked] visit maps in an order Go does not specify.
    Each iteration only rewrites its own entry, so the resulting agents and
    messages do not depend on the order: they are given here by functions on
    single entries.  The order only shows in the events. *)
From stdpp Require Import gmap strings list.
From Stdlib Require Import ZArith Lia Ascii.
From S2P Require Import Prelude GoBase Json Types Config Ring State Inbox Observe Structure Sweep.

(** A loop whose body rewrites the entry it visits. *)
Lemma foldl_pointwise `{Countable K} {S V : Type} (P : S → Prop) (get : S → gmap K V)
    (f : V → option V) (body : S → K → S) (l : list K) (s : S) (k : K) :
  P s → (∀ s id, P s → P (body s id)) →
  (∀ s id, P s → get (body s id) = partial_alter (λ o, o ≫= f) id (get s)) →
  NoDup l →
  get (foldl body s l) !! k = if decide (k ∈ l) then get s !! k ≫= f else get s !! k.
Proof.
  intros HP Hbody Hget. revert s HP. induction l as [|id l IH]; intros s HP Hnd; cbn [foldl].
  { by rewrite decide_False by apply not_elem_of_nil. }
  apply NoDup_cons in Hnd as [Hid Hnd]. rewrite IH, Hget by auto.
  destruct (decide (id = k)) as [->|Hne].
  - rewrite decide_False by done. rewrite decide_True by left.
    by rewrite lookup_partial_alter_eq.
  - rewrite lookup_partial_alter_ne by done.
    destruct (decide (k ∈ l)); [rewrite decide_True by (by right)|rewrite decide_False]; try done.
    by intros [->|?]%elem_of_cons.
Qed.

(** Over an enumeration of the map every entry is rewritten once. *)
Lemma foldl_enumerates `{Countable K} {S V : Type} (P : S → Prop) (get : S → gmap K V)
    (f : V → option V) (body : S → K → S) (l : list K) (s : S) (k : K) :
  P s → (∀ s id, P s → P (body s id)) →
  (∀ s id, P s → get (body s id) = partial_alter (λ o, o ≫= f) id (get s)) →
  enumerates l (get s) →
  get (foldl body s l) !! k = get s !! k ≫= f.
Proof.
  intros HP Hb Hg [Hnd Hl]. rewrite (foldl_pointwise P get f body) by done.
  case_decide as Hk; [done|]. destruct (get s !! k) eqn:Ek; [|done].
  destruct Hk. apply Hl. eauto.
Qed.

Section spec.
Context (E : Static).

(** ** Entry by entry *)

Definition expire_agent (now : Time) (a : Agent.t) : Agent.t :=
  if bool_decide (Agent.Status a = AgentStatusActive) && After now (Agent.ExpiresAt a)
  then Agent.set_Status AgentStatusExpired a else a.

Definition is_active (ags : gmap string Agent.t) (id : string) : bool :=
  match ags !! id with
  | Some a => bool_decide (Agent.Status a = AgentStatusActive)
  | None => false
  end.

(** The next version of a message, given the agents after expiry. *)
Definition sweep_result (ags : gmap string Agent.t) (now : Time) (m : Message.t) : Message.t :=
  if bool_decide (Message.Typ m ≠ MessageTypeRequest) || isTerminal (Message.State m) then m
  else if negb (IsZero (Message.TTLExpiresAt m)) && After now (Message.TTLExpiresAt m) then
    to_error now m
  else if bool_decide (Message.State m = StateWaitingAck) && negb (IsZero (Message.DeliveredAt m))
          && (Config.AckTimeout (cfg E) <? Sub now (Message.DeliveredAt m)) then
    to_error now m
  else if Message.QueuedForAgent m then
    if is_active ags (Message.To m) then
      Message.set_DeliveredAt now
        (Message.set_State StateWaitingAck (Message.set_QueuedForAgent false m))
    else if negb (IsZero (Message.GraceUntil m)) && After now (Message.GraceUntil m) then
      to_error now (Message.set_QueuedForAgent false m)
    else m
  else m.

(** Whether the agent is pruned. *)
Definition prune_agent_test (now : Time) (a : Agent.t) : bool :=
  (0 <? Config.AgentRetention (cfg E))
  && negb (bool_decide (Agent.Status a ≠ AgentStatusExpired)
           || (Sub now (Agent.ExpiresAt a) <=? Config.AgentRetention (cfg E))).

Lemma partial_alter_same {V} (f : option V → option V) (m : gmap string V) k :
  f (m !! k) = m !! k → partial_alter f k m = m.
Proof.
  intros Hf. apply map_eq. intros j. destruct (decide (k = j)) as [<-|].
  - by rewrite lookup_partial_alter_eq.
  - by rewrite lookup_partial_alter_ne.
Qed.

Lemma partial_alter_insert {V} (f : V → option V) (m : gmap string V) k x y :
  m !! k = Some x → f x = Some y → partial_alter (λ o, o ≫= f) k m = <[k := y]> m.
Proof.
  intros Hx Hf. apply map_eq. intros j. destruct (decide (k = j)) as [<-|].
  - by rewrite lookup_partial_alter_eq, lookup_insert_eq, Hx.
  - by rewrite lookup_partial_alter_ne, lookup_insert_ne.
Qed.

Lemma partial_alter_delete {V} (f : V → option V) (m : gmap string V) k x :
  m !! k = Some x → f x = None → partial_alter (λ o, o ≫= f) k m = delete k m.
Proof.
  intros Hx Hf. apply map_eq. intros j. destruct (decide (k = j)) as [<-|].
  - by rewrite lookup_partial_alter_eq, lookup_delete_eq, Hx.
  - by rewrite lookup_partial_alter_ne, lookup_delete_ne.
Qed.

Lemma sweep_agent_agents now s id :
  agents (sweep_agent E now s id) =
  partial_alter (λ o, o ≫= λ a, Some (expire_agent now a)) id (agents s).
Proof.
  unfold sweep_agent. destruct (agents s !! id) as [a|] eqn:Ha.
  2: { symmetry. apply partial_alter_same. by rewrite Ha. }
  unfold expire_agent. destruct (_ && _) eqn:Eb.
  - rewrite (of_agents _ _ (publishLocked_frame E _ _ _ _ _ _)). cbn.
    symmetry. eapply partial_alter_insert; [done|]. cbn. by rewrite Eb.
  - symmetry. apply partial_alter_same. rewrite Ha. cbn. by rewrite Eb.
Qed.

Lemma sweep_message_agents now s id : agents (sweep_message E now s id) = agents s.
Proof.
  unfold sweep_message, time_out. repeat case_match; try done;
    first [ by rewrite (of_agents _ _ (publishLocked_frame E _ _ _ _ _ _))
          | by rewrite (if_agents _ _ (appendInboxLocked_frame E _ _ _)) ].
Qed.

Lemma sweep_message_messages now s id :
  messages (sweep_message E now s id) =
  partial_alter (λ o, o ≫= λ m, Some (sweep_result (agents s) now m)) id (messages s).
Proof.
  unfold sweep_message, time_out. destruct (messages s !! id) as [m|] eqn:Hm.
  2: { symmetry. apply partial_alter_same. by rewrite Hm. }
  assert (∀ m', sweep_result (agents s) now m = m' →
    partial_alter (λ o, o ≫= λ m, Some (sweep_result (agents s) now m)) id (messages s) =
    <[id := m']> (messages s)) as Hins.
  { intros m' <-. by eapply partial_alter_insert. }
  assert (sweep_result (agents s) now m = m →
    messages s = partial_alter (λ o, o ≫= λ m, Some (sweep_result (agents s) now m)) id (messages s))
    as Hself.
  { intros Hr. rewrite (Hins m Hr). symmetry. by apply insert_id. }
  unfold sweep_result, is_active in Hins, Hself. fold (is_active (agents s) (Message.To m)).
  unfold is_active.
  repeat (case_bool; cbn zeta;
    [first [ by apply Hself
           | by rewrite (of_messages _ _ (publishLocked_frame E _ _ _ _ _ _)); symmetry; apply Hins
           | by rewrite (if_messages _ _ (appendInboxLocked_frame E _ _ _)); symmetry; apply Hins
           | idtac ]|]);
  first [ by apply Hself
        | by rewrite (of_messages _ _ (publishLocked_frame E _ _ _ _ _ _)); symmetry; apply Hins ].
Qed.

Lemma prune_agent_agents now s id :
  agents (prune_agent E now s id) =
  partial_alter (λ o, o ≫= λ a,
    if bool_decide (Agent.Status a ≠ AgentStatusExpired)
       || (Sub now (Agent.ExpiresAt a) <=? Config.AgentRetention (cfg E))
    then Some a else None) id (agents s).
Proof.
  unfold prune_agent. destruct (agents s !! id) as [a|] eqn:Ha.
  2: { symmetry. apply partial_alter_same. by rewrite Ha. }
  destruct (_ || _) eqn:Eb.
  - symmetry. apply partial_alter_same. rewrite Ha. cbn. by rewrite Eb.
  - cbn. rewrite (if_agents _ _ (signalInboxLocked_frame id _)). cbn.
    symmetry. eapply partial_alter_delete; [done|]. cbn. by rewrite Eb.
Qed.

(** ** The loops over enumerations *)

Lemma sweep_agents_loop o now s k :
  enumerates o (agents s) →
  agents (foldl (sweep_agent E now) s o) !! k = expire_agent now <$> agents s !! k.
Proof.
  intros Ho. rewrite (foldl_enumerates (λ _, True) agents (λ a, Some (expire_agent now a)));
    [by destruct (agents s !! k)|done|done| |done].
  intros s' id _. apply sweep_agent_agents.
Qed.

Lemma sweep_agents_messages o now s : messages (foldl (sweep_agent E now) s o) = messages s.
Proof.
  apply (foldl_rel (λ x y, messages y = messages x)); [done|congruence|].
  intros b a _. apply sweep_agent_messages.
Qed.

Lemma sweep_messages_agents o now s : agents (foldl (sweep_message E now) s o) = agents s.
Proof.
  apply (foldl_rel (λ x y, agents y = agents x)); [done|congruence|].
  intros b a _. apply sweep_message_agents.
Qed.

Lemma sweep_messages_loop o now s k :
  enumerates o (messages s) →
  messages (foldl (sweep_message E now) s o) !! k = sweep_result (agents s) now <$> messages s !! k.
Proof.
  intros Ho. rewrite (foldl_enumerates (λ x, agents x = agents s) messages
    (λ m, Some (sweep_result (agents s) now m))); [by destruct (messages s !! k)|done| | |done].
  - intros x id Hx. by rewrite sweep_message_agents.
  - intros x id Hx. rewrite <-Hx. apply sweep_message_messages.
Qed.

Lemma sweep_loops_agents o now s k :
  order_ok o s → agents (sweep_loops E o now s) !! k = expire_agent now <$> agents s !! k.
Proof.
  intros [Ha _]. unfold sweep_loops. rewrite sweep_messages_agents.
  by rewrite sweep_agents_loop.
Qed.

Lemma sweep_loops_messages o now s k :
  order_ok o s →
  messages (sweep_loops E o now s) !! k =
  sweep_result (expire_agent now <$> agents s) now <$> messages s !! k.
Proof.
  intros [Ha Hm]. unfold sweep_loops. rewrite sweep_messages_loop, sweep_agents_messages.
  2: { by rewrite sweep_agents_messages. }
  do 2 f_equal. apply map_eq. intros j. rewrite lookup_fmap. by rewrite sweep_agents_loop.
Qed.

(** ** The outcome of a full sweep *)

(** A message's fate: rewritten by the loop, then kept or pruned. *)
Definition message_fate (ags : gmap string Agent.t) (now : Time) (m : Message.t)
    : option Message.t :=
  let m := sweep_result (expire_agent now <$> ags) now m in
  if prune_message E now m then None else Some m.

Definition agent_fate (now : Time) (a : Agent.t) : option Agent.t :=
  let a := expire_agent now a in if prune_agent_test now a then None else Some a.

Lemma full_sweep_messages o now s k :
  order_ok o s →
  messages (full_sweep E o now s) !! k = messages s !! k ≫= message_fate (agents s) now.
Proof.
  intros Ho. rewrite full_sweep_loops, pruneLocked_messages.
  apply option_eq. intros m. rewrite prune_messages_lookup, sweep_loops_messages by done.
  unfold message_fate. destruct (messages s !! k) as [m0|]; cbn; [|naive_solver].
  set (m' := sweep_result _ _ _). split.
  - intros [[= <-] Hp]. by rewrite Hp.
  - destruct (prune_message E now m') eqn:Ep; [done|]. by intros [= <-].
Qed.

Lemma full_sweep_agents o now s k :
  order_ok o s → agents (full_sweep E o now s) !! k = agents s !! k ≫= agent_fate now.
Proof.
  intros Ho. rewrite full_sweep_loops. unfold pruneLocked. cbv zeta.
  set (s1 := sweep_loops E o now s).
  assert (∀ j, agents (prune_conversations E now (prune_messages E now s1)) !! j =
    expire_agent now <$> agents s !! j) as H1.
  { intros j. destruct (prune_conversations_rest E now (prune_messages E now s1)) as (_ & -> & _).
    unfold prune_messages. case_bool; by apply sweep_loops_agents. }
  unfold agent_fate, prune_agent_test.
  destruct (0 <? Config.AgentRetention (cfg E)) eqn:Er; cbn [andb].
  - rewrite (foldl_enumerates (λ _, True) agents (λ a,
      if bool_decide (Agent.Status a ≠ AgentStatusExpired)
         || (Sub now (Agent.ExpiresAt a) <=? Config.AgentRetention (cfg E))
      then Some a else None)); [|done|done| |].
    + rewrite H1. destruct (agents s !! k); cbn; [|done]. by destruct (_ || _).
    + intros x id _. apply prune_agent_agents.
    + eapply enumerates_dom; [|apply Ho]. apply set_eq. intros j.
      rewrite !elem_of_dom, H1. destruct (agents s !! j); cbn; split; eauto.
  - rewrite H1. by destruct (agents s !! k).
Qed.

(** ** Deliveries

    The requests a sweep hands to [a]'s inbox, in visiting order. *)

Definition delivers (ags : gmap string Agent.t) (now : Time) (a : string) (m : Message.t) : bool :=
  bool_decide (Message.Typ m = MessageTypeRequest) && negb (isTerminal (Message.State m))
  && negb (negb (IsZero (Message.TTLExpiresAt m)) && After now (Message.TTLExpiresAt m))
  && negb (bool_decide (Message.State m = StateWaitingAck) && negb (IsZero (Message.DeliveredAt m))
           && (Config.AckTimeout (cfg E) <? Sub now (Message.DeliveredAt m)))
  && Message.QueuedForAgent m && is_active ags (Message.To m) && bool_decide (Message.To m = a).

(** What the visit of [id] appends to [a]'s log. *)
Definition delivery_of (s : Store) (now : Time) (a id : string) : list InboxEvent.t :=
  match messages s !! id with
  | Some m => if delivers (agents s) now a m then [messageInboxEvent m] else []
  | None => []
  end.

Lemma sweep_message_represents now s id a L :
  sinv E s → represents s a L →
  represents (sweep_message E now s id) a (L ++ delivery_of s now a id).
Proof.
  intros Hs HL. unfold delivery_of, sweep_message.
  destruct (messages s !! id) as [m|] eqn:Hm; [|by rewrite app_nil_r].
  assert (∀ m' r, represents (time_out E now id m m' r s) a L) as Hto.
  { intros m' r. unfold time_out. cbv zeta. unfold represents.
    match goal with |- context [publishLocked E ?t ?d ?c ?i ?n ?x] =>
      destruct (publishLocked_inbox E t d c i n x a) as (-> & -> & _) end. done. }
  unfold delivers.
  destruct (bool_decide (Message.Typ m = _)) eqn:Et; prop_bool.
  2: { rewrite bool_decide_eq_true_2 by done. cbn. by rewrite app_nil_r. }
  rewrite (bool_decide_eq_false_2 (_ ≠ _)) by auto. cbn [orb].
  destruct (isTerminal _); cbn [negb andb]; [by rewrite app_nil_r|].
  destruct (negb _ && After _ _); cbn [negb andb]; [rewrite app_nil_r; apply Hto|].
  destruct (bool_decide _ && _ && _); cbn [negb andb]; [rewrite app_nil_r; apply Hto|].
  destruct (Message.QueuedForAgent m); cbn [negb andb]; [|by rewrite app_nil_r].
  unfold is_active.
  destruct (match agents s !! _ with Some _ => _ | None => _ end) eqn:Ea; cbn [negb andb].
  2: { rewrite app_nil_r. case_bool; [apply Hto|done]. }
  set (m' := Message.set_DeliveredAt _ _).
  set (s1 := set_messages _ s).
  case_bool_decide as Ha.
  - rewrite Ha. change (messageInboxEvent m) with (messageInboxEvent m').
    apply appendInboxLocked_represents; [|done].
    apply (inbox_ok_ext E s); [done..|]. apply Hs.
  - rewrite app_nil_r. unfold represents.
    destruct (appendInboxLocked_other E (Message.To m) a (messageInboxEvent m') s1 Ha)
      as (_ & -> & -> & _). done.
Qed.

(** The deliveries of a loop whose visits do not influence one another. *)
Lemma sweep_message_delivery now s id j a :
  j ≠ id → delivery_of (sweep_message E now s id) now a j = delivery_of s now a j.
Proof.
  intros Hj. unfold delivery_of. rewrite sweep_message_agents, sweep_message_messages.
  by rewrite lookup_partial_alter_ne by done.
Qed.

Lemma sweep_messages_represents o now s a L :
  NoDup o → sinv E s → represents s a L →
  represents (foldl (sweep_message E now) s o) a (L ++ (o ≫= delivery_of s now a)).
Proof.
  intros Hnd. revert s L. induction o as [|id o IH]; intros s L Hs HL; cbn [foldl].
  { by rewrite app_nil_r. }
  apply NoDup_cons in Hnd as [Hid Hnd]. rewrite bind_cons, app_assoc.
  assert (o ≫= delivery_of s now a = o ≫= delivery_of (sweep_message E now s id) now a) as ->.
  { clear IH Hnd. induction o as [|j o IH]; [done|]. apply not_elem_of_cons in Hid as [? ?].
    rewrite !bind_cons. by rewrite sweep_message_delivery, IH. }
  apply IH; [done|by apply sweep_message_sinv|by apply sweep_message_represents].
Qed.

(** A message that is not a request is left alone by the loop: in particular a
    queued inform or response is never delivered. *)
Lemma sweep_result_not_request ags now m :
  Message.Typ m ≠ MessageTypeRequest → sweep_result ags now m = m.
Proof. intros Ht. unfold sweep_result. by rewrite bool_decide_eq_true_2. Qed.

Lemma delivers_request ags now a m :
  delivers ags now a m = true →
  Message.Typ m = MessageTypeRequest ∧ Message.QueuedForAgent m = true ∧ Message.To m = a ∧
  is_active ags a = true.
Proof. unfold delivers. intros H. prop_bool. subst. done. Qed.

(** ** Deadlines after a sweep *)

(** No deadline of [m] has passed at [now]. *)
Record in_time (ags : gmap string Agent.t) (now : Time) (m : Message.t) : Prop := {
  it_ttl : Message.TTLExpiresAt m = 0 ∨ now ≤ Message.TTLExpiresAt m;
  it_ack : Message.State m = StateWaitingAck →
    Message.DeliveredAt m = 0 ∨ Sub now (Message.DeliveredAt m) ≤ Config.AckTimeout (cfg E);
  it_queue : Message.QueuedForAgent m = true →
    is_active ags (Message.To m) = false ∧
    (Message.GraceUntil m = 0 ∨ now ≤ Message.GraceUntil m) }.

Lemma negb_deadline t now :
  negb (IsZero t) && After now t = false → t = 0 ∨ now ≤ t.
Proof. unfold IsZero, After. intros H. prop_bool. destruct H; prop_bool; lia. Qed.

Lemma sweep_result_in_time ags now m :
  0 < Config.AckTimeout (cfg E) →
  let m' := sweep_result ags now m in
  Message.Typ m' = MessageTypeRequest → isTerminal (Message.State m') = false → in_time ags now m'.
Proof.
  intros Hack. cbn zeta. unfold sweep_result.
  destruct (_ || isTerminal _) eqn:E1.
  { intros Ht Hst. rewrite Hst, orb_false_r in E1. by prop_bool. }
  destruct (negb _ && After _ _) eqn:E2; [done|]. apply negb_deadline in E2.
  destruct (bool_decide _ && _ && _) eqn:E3; [done|].
  assert (Message.State m = StateWaitingAck →
    Message.DeliveredAt m = 0 ∨ Sub now (Message.DeliveredAt m) ≤ Config.AckTimeout (cfg E)) as Hw.
  { intros Hw. rewrite bool_decide_eq_true_2 in E3 by done. unfold IsZero in E3.
    cbn in E3. prop_bool. destruct E3; prop_bool; [by left|right; lia]. }
  destruct (Message.QueuedForAgent m) eqn:E4.
  2: { intros _ _. constructor; [done|done|congruence]. }
  destruct (is_active ags (Message.To m)) eqn:E5.
  { intros _ _. constructor; cbn; [done| |done]. intros _. right.
    unfold Sub. rewrite Z.sub_diag. unfold min_int64, max_int64. lia. }
  destruct (negb _ && After _ _) eqn:E6; [done|]. apply negb_deadline in E6.
  intros _ _. by constructor.
Qed.

End spec.
