(* ===== verification/Conversations.v ===== *)
(** * Conversations: [CreateConversation], [ListConversations],
    [ListConversationMessages] and their helpers ([pkg/bus/store.go]) *)
From stdpp Require Import gmap strings list sorting.
From Stdlib Require Import ZArith Lia Ascii.
From S2P Require Import Prelude GoBase Json Types Config Scope Auth Ring State Inbox Observe Structure Sweep.

Section conversations.
Context (E : Static).

(** ** Participants *)

Fixpoint merge_loop (seen : list string) (participants : list string) (more : list string)
    : list string :=
  match more with
  | [] => participants
  | p :: more =>
      let p := TrimSpace p in
      if is_empty p then merge_loop seen participants more
      else if bool_decide (p ∈ seen) then merge_loop seen participants more
      else merge_loop (p :: seen) (participants ++ [p]) more
  end.

Definition mergeConversationParticipantsLocked (c : Conversation.t) (participants : list string)
    : Conversation.t :=
  Conversation.set_Participants
    (merge_loop (TrimSpace <$> Conversation.Participants c) (Conversation.Participants c)
       participants) c.

(** ** Creation and reuse *)

Definition active_status : string := "active"%stdpp.

Definition ensureConversationLocked (input : CreateConversationInput.t) (now : Time) (s : Store)
    : Store * result Error.t Conversation.t :=
  let requested := TrimSpace (CreateConversationInput.ConversationID input) in
  let '(id, s) :=
    if is_empty requested then
      let n := inc64 (nextConversationID s) in
      (conversation_id n, set_nextConversationID n s)
    else (requested, s) in
  let actor := CreateConversationInput.ActorAgentID input in
  let participants := CreateConversationInput.Participants input in
  match conversations s !! id with
  | Some existing =>
      match authorizeActorForNames E actor (Conversation.Participants existing) with
      | Some err => (s, Err err)
      | None =>
          match authorizeActorForNames E actor participants with
          | Some err => (s, Err err)
          | None =>
              let c := mergeConversationParticipantsLocked existing participants in
              (set_conversations (<[id := c]> (conversations s)) s, Ok c)
          end
      end
  | None =>
      match authorizeActorForNames E actor participants with
      | Some err => (s, Err err)
      | None =>
          let c := Conversation.mk id (TrimSpace (CreateConversationInput.Title input))
            participants active_status 0 now now (CreateConversationInput.Meta input) in
          (set_conversations (<[id := c]> (conversations s)) s, Ok c)
      end
  end.

Definition participant_rejected (p : string) : bool :=
  negb (is_empty (TrimSpace p)) && negb (acceptsName E p).

Definition CreateConversation (o : Order) (now : Time) (input : CreateConversationInput.t)
    (s : Store) : Store * result Error.t Conversation.t :=
  if existsb participant_rejected (CreateConversationInput.Participants input) then
    (s, Err (fail CodeValidation "participants must be prefixed with personal., ucla., or shared."%stdpp))
  else ensureConversationLocked input now (sweepLocked E o now s).

(** ** Listing *)

Definition conversation_listed (participant status actor : string) (c : Conversation.t) : bool :=
  (is_empty status || bool_decide (Conversation.Status c = status))
  && actorCanAccessConversation E actor (Some c)
  && (is_empty participant || bool_decide (participant ∈ Conversation.Participants c)).

Definition created_before (c1 c2 : Conversation.t) : Prop :=
  Conversation.CreatedAt c1 ≤ Conversation.CreatedAt c2.
#[export] Instance created_before_dec : RelDecision created_before.
Proof. intros c1 c2. apply Z_le_dec. Defined.

(** The entries of a map in the order of an enumeration of its keys. *)
Definition in_order {V} (m : gmap string V) (order : list string) : list V :=
  omap (λ k, m !! k) order.

(** [order] is the iteration order of the conversation map; the order among
    equal creation times is whatever it makes of it. *)
Definition ListConversations (o : Order) (order : list string) (now : Time)
    (input : ListConversationsFilter.t) (s : Store) : Store * list Conversation.t :=
  let participant := TrimSpace (ListConversationsFilter.Participant input) in
  let status := TrimSpace (ListConversationsFilter.Status input) in
  let actor := TrimSpace (ListConversationsFilter.ActorAgentID input) in
  let s := sweepLocked E o now s in
  (s, merge_sort created_before
        (List.filter (conversation_listed participant status actor)
           (in_order (conversations s) order))).

Definition clamp_limit (limit : Z) : Z :=
  let limit := if limit <=? 0 then 50 else limit in if 200 <? limit then 200 else limit.

Definition ListConversationMessages (o : Order) (now : Time)
    (input : ListConversationMessagesInput.t) (s : Store)
    : Store * result Error.t (string * list Message.t * Z) :=
  let cid := ListConversationMessagesInput.ConversationID input in
  if is_empty (TrimSpace cid) then
    (s, Err (fail CodeValidation "conversation_id is required"%stdpp)) else
  let limit := clamp_limit (ListConversationMessagesInput.Limit input) in
  let s := sweepLocked E o now s in
  match conversations s !! cid with
  | None => (s, Err (fail CodeNotFound "conversation not found"%stdpp))
  | Some conv =>
      if negb (actorCanAccessConversation E
                 (TrimSpace (ListConversationMessagesInput.ActorAgentID input)) (Some conv))
      then (s, Err (fail CodeNotFound "conversation not found"%stdpp)) else
      let ids := conversation_messages s (Conversation.ConversationID conv) in
      let n := Z.of_nat (length ids) in
      let cursor := ListConversationMessagesInput.Cursor input in
      let cursor := if cursor <? 0 then 0 else cursor in
      let cursor := if n <? cursor then n else cursor in
      let end_ := cursor + limit in
      let end_ := if n <? end_ then n else end_ in
      let page := take (Z.to_nat (end_ - cursor)) (drop (Z.to_nat cursor) ids) in
      (s, Ok (Conversation.ConversationID conv, omap (λ id, messages s !! id) page, end_))
  end.

(** ** Merging participants *)

Lemma merge_loop_spec seen ps more :
  (∀ x, x ∈ seen → x ∈ (TrimSpace <$> ps)) →
  ∃ k, merge_loop seen ps more = ps ++ k ∧ NoDup k ∧ (∀ x, x ∈ k → x ∉ seen) ∧
    ∀ x, x ∈ k ↔ x ≠ ε ∧ x ∈ (TrimSpace <$> more) ∧ x ∉ seen.
Proof.
  revert seen ps. induction more as [|p more IH]; intros seen ps Hseen; cbn.
  { exists []. rewrite app_nil_r. split_and!; [done|apply NoDup_nil_2|..]; set_solver. }
  unfold is_empty. case_bool_decide as Hp.
  { destruct (IH seen ps Hseen) as (k & -> & ? & ? & Hk). exists k. split_and!; [done..|].
    intros x. rewrite Hk, elem_of_cons. naive_solver. }
  case_bool_decide as Hin.
  { destruct (IH seen ps Hseen) as (k & -> & ? & ? & Hk). exists k. split_and!; [done..|].
    intros x. rewrite Hk, elem_of_cons. naive_solver. }
  destruct (IH (TrimSpace p :: seen) (ps ++ [TrimSpace p])) as (k & -> & Hnd & Hns & Hk).
  { intros x [->|?]%elem_of_cons; rewrite fmap_app; cbn; [|set_solver].
    apply elem_of_app; right. rewrite TrimSpace_idemp. by left. }
  exists (TrimSpace p :: k). rewrite <-app_assoc. split_and!; [done| | |].
  - apply NoDup_cons. split; [|done]. intros Hx. apply (Hns _ Hx). left.
  - intros x [->|Hx]%elem_of_cons; [done|]. specialize (Hns _ Hx). set_solver.
  - intros x. rewrite !elem_of_cons, Hk, elem_of_cons.
    destruct (decide (x = TrimSpace p)); naive_solver.
Qed.

(** ** The invariant *)

Lemma structure_ok_set_conversation s id c :
  structure_ok s → Conversation.ConversationID c = id →
  Conversation.MessageCount c = Z.of_nat (length (conversation_messages s id)) →
  structure_ok (set_conversations (<[id := c]> (conversations s)) s).
Proof.
  intros [] Hid Hn. constructor; unfold conversation_messages in *; try done; cbn.
  - intros k x [[<- <-]|[? ?]]%lookup_insert_Some; eauto.
  - intros k Hk. destruct (decide (id = k)) as [<-|].
    + rewrite lookup_insert_eq. eauto.
    + rewrite lookup_insert_ne by done. eauto.
  - intros k x [[<- <-]|[? ?]]%lookup_insert_Some; eauto.
Qed.

Lemma no_conversation_messages s id :
  structure_ok s → conversations s !! id = None → conversation_messages s id = [].
Proof.
  intros Hs Hn. unfold conversation_messages.
  destruct (conversationMessages s !! id) eqn:Ec; [|done].
  destruct (so_conv_dom _ Hs id) as [? ?]; [eauto|congruence].
Qed.

Lemma structure_ok_next_conversation s n :
  0 ≤ n → structure_ok s → structure_ok (set_nextConversationID n s).
Proof. intros Hn []. by constructor. Qed.

Lemma ensureConversationLocked_sinv input now s :
  nextConversationID s < max_int64 → sinv E s →
  sinv E (ensureConversationLocked input now s).1.
Proof.
  intros Hmax Hs. unfold ensureConversationLocked.
  assert (∃ id s1, (if is_empty (TrimSpace (CreateConversationInput.ConversationID input))
    then (conversation_id (inc64 (nextConversationID s)),
          set_nextConversationID (inc64 (nextConversationID s)) s)
    else (TrimSpace (CreateConversationInput.ConversationID input), s)) = (id, s1) ∧ sinv E s1)
    as (id & s1 & -> & Hs1).
  { case_bool; do 2 eexists; (split; [reflexivity|]); [|done].
    apply (sinv_ext E s); [done..| |done].
    apply structure_ok_next_conversation; [|apply Hs].
    pose proof (so_convID _ (si_structure _ _ Hs)). rewrite inc64_lt; lia. }
  destruct (conversations s1 !! id) as [c|] eqn:Ec; cbn;
    repeat (case_match; cbn; try done);
    (apply (sinv_ext E s1); [done..| |done];
     apply structure_ok_set_conversation; [apply Hs1| |]; cbn).
  - by apply (so_conv_key _ (si_structure _ _ Hs1)).
  - by apply (so_count _ (si_structure _ _ Hs1)).
  - done.
  - by rewrite no_conversation_messages by (done || apply Hs1).
Qed.

(** Conversation operations leave messages and the observe stream alone. *)
Lemma ensureConversationLocked_rest input now s :
  let s' := (ensureConversationLocked input now s).1 in
  messages s' = messages s ∧ nextMessageID s' = nextMessageID s ∧
  agents s' = agents s ∧ inboxes s' = inboxes s ∧ inboxBase s' = inboxBase s ∧
  nextObserveID s' = nextObserveID s ∧
  observeEvents s' = observeEvents s ∧ observeBytes s' = observeBytes s.
Proof.
  cbn zeta. unfold ensureConversationLocked.
  case_bool; repeat (case_match; cbn; try done).
Qed.

End conversations.
