(* ===== verification/Agents.v ===== *)
(** * Agents: [RegisterAgent], [ListAgents] and their helpers
    ([pkg/bus/store.go]) *)
From stdpp Require Import gmap strings list sorting.
From Stdlib Require Import ZArith Lia Ascii.
From S2P Require Import Prelude GoBase Sha256 Json Types Scope Config Auth Ring State Inbox Observe Structure Sweep Conversations.

Definition normalizeBuildInfo (input : option BuildInfo.t) : option BuildInfo.t :=
  match input with
  | None => None
  | Some b =>
      let out := BuildInfo.mk (TrimSpace (BuildInfo.Commit b)) (BuildInfo.Dirty b) in
      if is_empty (BuildInfo.Commit out) && negb (BuildInfo.Dirty out) then None else Some out
  end.

Definition normalizeAgentMeta (input : option AgentMeta.t) : option AgentMeta.t :=
  match input with
  | None => None
  | Some m =>
      let deps := List.filter (λ d, negb (is_empty d)) (TrimSpace <$> AgentMeta.Dependencies m) in
      let out := AgentMeta.mk (TrimSpace (AgentMeta.Owner m)) (TrimSpace (AgentMeta.Repo m))
        (TrimSpace (AgentMeta.HealthURL m)) deps in
      if is_empty (AgentMeta.Owner out) && is_empty (AgentMeta.Repo out)
         && is_empty (AgentMeta.HealthURL out) && (length (AgentMeta.Dependencies out) =? 0)%nat
      then None else Some out
  end.

(** The zero value of [[sha256.Size]byte]: what an absent map key reads as. *)
Definition zero_digest : string := of_bytes (replicate 32 zero).

Section agents.
Context (E : Static).

(** ** Registration *)

(** The control-plane credential check; [subtle.ConstantTimeCompare] on two
    32-byte digests is equality. *)
Definition credential_accepted (agentID secret : string) : bool :=
  negb (isConfiguredControlPlaneAgent E agentID)
  || bool_decide (Sum256 secret =
       default zero_digest (Config.ControlPlaneAgentSecretHashes (cfg E) !! agentID)).

(** The part of [RegisterAgent] before the lock, and the record it fills in. *)
Definition registration (now : Time) (input : RegisterAgentInput.t) : result Error.t Agent.t :=
  let agentID := TrimSpace (RegisterAgentInput.AgentID input) in
  guard negb (is_empty agentID) else fail CodeValidation "agent_id is required"%stdpp ;;
  guard acceptsName E agentID
    else fail CodeValidation "agent_id must be prefixed with personal., ucla., or shared."%stdpp ;;
  guard credential_accepted agentID (RegisterAgentInput.Secret input)
    else fail CodeUnauthorized "control-plane registration credential rejected"%stdpp ;;
  let? _ := normalizeScopes (RegisterAgentInput.AllowedScopes input) in
  let? _ := normalizeSharedGrants (RegisterAgentInput.SharedGrants input) in
  let mode :=
    if is_empty (RegisterAgentInput.Mode input) then Some AgentModePull
    else parse_agent_mode (RegisterAgentInput.Mode input) in
  match mode with
  | None => Err (fail CodeValidation "mode must be pull or push"%stdpp)
  | Some mode =>
      let callback := TrimSpace (RegisterAgentInput.CallbackURL input) in
      guard negb (bool_decide (mode = AgentModePush) && is_empty callback)
        else fail CodeValidation "callback_url required for push mode"%stdpp ;;
      let agentClass := TrimSpace (RegisterAgentInput.AgentClass input) in
      guard bool_decide (agentClass ∈ [ε; "worker"; "orchestrator"]%stdpp)
        else fail CodeValidation "agent_class must be worker or orchestrator"%stdpp ;;
      let mutationClass := TrimSpace (RegisterAgentInput.MutationClass input) in
      guard bool_decide (mutationClass ∈ [ε; "observe"; "recommend"; "mutate"]%stdpp)
        else fail CodeValidation "mutation_class must be observe, recommend, or mutate"%stdpp ;;
      let ttl := RegisterAgentInput.TTLSeconds input in
      let ttl := if ttl <=? 0 then int_seconds (Config.DefaultRegistrationTTL (cfg E)) else ttl in
      Ok (Agent.mk agentID (agentAllowedScopes E agentID) (agentSharedGrants E agentID)
        (RegisterAgentInput.Capabilities input) (TrimSpace (RegisterAgentInput.Version input))
        (TrimSpace (RegisterAgentInput.Description input)) agentClass mutationClass
        (normalizeBuildInfo (RegisterAgentInput.Build input))
        (normalizeAgentMeta (RegisterAgentInput.Meta input))
        mode callback AgentStatusActive now (Add now (seconds ttl)) ttl)
  end.

Definition registered_data (a : Agent.t) (now : Time) : json :=
  JObj [("agent_id"%stdpp, JString (Agent.AgentID a));
        ("allowed_scopes"%stdpp, JStrings (Agent.AllowedScopes a));
        ("shared_grants"%stdpp, JStrings (Agent.SharedGrants a));
        ("capabilities"%stdpp, JStrings (Agent.Capabilities a));
        ("at"%stdpp, JTime now)].

(** A first registration creates an empty inbox; a later one keeps it. *)
Definition ensure_inbox (id : string) (s : Store) : Store :=
  match inboxes s !! id with
  | Some _ => s
  | None =>
      let s := set_inboxes (<[id := []]> (inboxes s)) s in
      let s := set_inboxBase (<[id := 0]> (inboxBase s)) s in
      set_inboxBytes (<[id := 0]> (inboxBytes s)) s
  end.

Definition RegisterAgent (o : Order) (now : Time) (input : RegisterAgentInput.t) (s : Store)
    : Store * result Error.t Agent.t :=
  match registration now input with
  | Err e => (s, Err e)
  | Ok agent =>
      let s := sweepLocked E o now s in
      let id := Agent.AgentID agent in
      let agent :=
        match agents s !! id with
        | Some existing => Agent.set_RegisteredAt (Agent.RegisteredAt existing) agent
        | None => agent
        end in
      match authorizeAgentForName E id id with
      | Some e => (s, Err e)
      | None =>
          let s := set_agents (<[id := agent]> (agents s)) s in
          let s := ensure_inbox id s in
          (publishLocked E ObserveAgentRegistered (registered_data agent now) ε [id] now s,
           Ok agent)
      end
  end.

(** ** Listing *)

Definition agent_listed (capability : string) (a : Agent.t) : bool :=
  bool_decide (Agent.Status a = AgentStatusActive)
  && (is_empty capability || bool_decide (capability ∈ Agent.Capabilities a)).

Definition id_before (a b : Agent.t) : Prop := String.le (Agent.AgentID a) (Agent.AgentID b).
#[export] Instance id_before_dec : RelDecision id_before.
Proof. intros a b. apply String.le_dec. Defined.

(** [order] is the iteration order of the agent map. *)
Definition ListAgents (o : Order) (order : list string) (now : Time) (capability : string)
    (s : Store) : Store * list Agent.t :=
  let capability := TrimSpace capability in
  let s := sweepLocked E o now s in
  (s, merge_sort id_before (List.filter (agent_listed capability) (in_order (agents s) order))).

(** ** The sweep and the stored agents

    The sweep only changes the status of an agent or forgets it. *)
Definition agents_fade (s s' : Store) : Prop :=
  ∀ k a', agents s' !! k = Some a' →
    ∃ a st, agents s !! k = Some a ∧ a' = Agent.set_Status st a.

#[export] Instance agents_fade_preorder : PreOrder agents_fade.
Proof.
  split.
  - intros s k a Ha. exists a, (Agent.Status a). split; [done|by destruct a].
  - intros s1 s2 s3 H12 H23 k a Ha. destruct (H23 k a Ha) as (b & st & Hb & ->).
    destruct (H12 k b Hb) as (c & st' & Hc & ->). by exists c, st.
Qed.

Lemma agents_fade_eq s s' : agents s' = agents s → agents_fade s s'.
Proof. intros H k a. rewrite H. intros Ha. exists a, (Agent.Status a). split; [done|by destruct a]. Qed.

Lemma sweep_agent_fade now s id : agents_fade s (sweep_agent E now s id).
Proof.
  unfold sweep_agent. destruct (agents s !! id) as [a|] eqn:Ha; [|done].
  case_bool; [|done].
  intros k b. rewrite (of_agents _ _ (publishLocked_frame E _ _ _ _ _ _)). cbn.
  intros [[<- <-]|[Hne Hb]]%lookup_insert_Some; [by do 2 eexists|].
  exists b, (Agent.Status b). split; [done|by destruct b].
Qed.

Lemma prune_agent_fade now s id : agents_fade s (prune_agent E now s id).
Proof.
  unfold prune_agent. destruct (agents s !! id) as [a|] eqn:Ha; [|done].
  case_bool; [done|]. intros k b. cbn.
  rewrite (if_agents _ _ (signalInboxLocked_frame id _)). cbn.
  intros [_ Hb]%lookup_delete_Some. exists b, (Agent.Status b). split; [done|by destruct b].
Qed.

Lemma sweep_message_fade now s id : agents_fade s (sweep_message E now s id).
Proof.
  apply agents_fade_eq. unfold sweep_message, time_out. repeat case_match; try done;
    first [ by rewrite (of_agents _ _ (publishLocked_frame E _ _ _ _ _ _))
          | by rewrite (if_agents _ _ (appendInboxLocked_frame E _ _ _)) ].
Qed.

Lemma foldl_fade {A} (f : Store → A → Store) l s :
  (∀ s a, agents_fade s (f s a)) → agents_fade s (foldl f s l).
Proof. intros Hf. apply foldl_rel; [done|intros x y z; by etransitivity|auto]. Qed.

Lemma sweepLocked_fade o now s : agents_fade s (sweepLocked E o now s).
Proof.
  unfold sweepLocked. case_bool; [by apply agents_fade_eq|].
  rewrite full_sweep_loops. transitivity (sweep_loops E o now s).
  - unfold sweep_loops. etransitivity; [|apply foldl_fade, sweep_message_fade].
    etransitivity; [|apply foldl_fade, sweep_agent_fade]. by apply agents_fade_eq.
  - unfold pruneLocked. cbv zeta. set (s1 := sweep_loops E o now s).
    assert (agents_fade s1 (prune_conversations E now (prune_messages E now s1))) as H1.
    { destruct (prune_conversations_rest E now (prune_messages E now s1)) as (_ & Ha & _).
      apply agents_fade_eq. rewrite Ha. unfold prune_messages. by case_bool. }
    case_bool; [|done]. etransitivity; [exact H1|]. apply foldl_fade, prune_agent_fade.
Qed.

(** ** Registration keeps the invariant *)

Lemma registration_id now input a :
  registration now input = Ok a → Agent.AgentID a = TrimSpace (RegisterAgentInput.AgentID input).
Proof. unfold registration. intros H. repeat (case_match; try done); by injection H as <-. Qed.

Lemma ensure_inbox_agents id s : agents (ensure_inbox id s) = agents s.
Proof. unfold ensure_inbox. by case_match. Qed.

(** Storing an agent together with its inbox. *)
Lemma store_agent_sinv id a s :
  Agent.AgentID a = id → sinv E s →
  sinv E (ensure_inbox id (set_agents (<[id := a]> (agents s)) s)).
Proof.
  intros Hid [Hs Hi Hc]. unfold ensure_inbox. cbn.
  destruct (inboxes s !! id) as [l|] eqn:El.
  - apply (sinv_ext E s); [done..| |done]. destruct Hs. constructor; try done; cbn.
    + intros k x [[<- <-]|[? ?]]%lookup_insert_Some; eauto.
    + rewrite dom_insert_lookup_L; [done|]. apply elem_of_dom. rewrite <-so_inboxes.
      apply elem_of_dom; eauto.
  - split.
    + destruct Hs. constructor; try done; cbn.
      * intros k x [[<- <-]|[? ?]]%lookup_insert_Some; eauto.
      * rewrite !dom_insert_L. congruence.
    + intros b. destruct (decide (id = b)) as [<-|].
      * constructor; unfold inbox, base, inbox_size; cbn; rewrite !lookup_insert_eq; cbn;
          [done|done|apply within_nil].
      * apply (inbox_ok_ext E s); [..|done]; unfold inbox, base, inbox_size; cbn;
          by rewrite lookup_insert_ne.
    + by eapply chan_ok_ext; [|exact Hc].
Qed.

Lemma RegisterAgent_sinv o now input s : sinv E s → sinv E (RegisterAgent o now input s).1.
Proof.
  intros Hs. unfold RegisterAgent. destruct (registration now input) as [a|e]; [|done].
  cbv zeta. apply (sweepLocked_sinv E o now) in Hs.
  generalize dependent (sweepLocked E o now s). intros s1 Hs.
  case_match; cbn; [done|]. apply publishLocked_sinv, store_agent_sinv; [|done].
  by case_match.
Qed.

Lemma ensure_inbox_roomy id k s : roomy E k s → roomy E k (ensure_inbox id s).
Proof. intros Hr. unfold ensure_inbox. case_match; [done|]. by apply (roomy_ext E k s). Qed.

Lemma RegisterAgent_roomy o now input s :
  roomy E (sweep_events o + 1) s → roomy E 0 (RegisterAgent o now input s).1.
Proof.
  intros Hr. unfold RegisterAgent. destruct (registration now input) as [a|e]; cbn [fst].
  2: { eapply roomy_weaken; [|exact Hr]. unfold sweep_events. lia. }
  apply (sweepLocked_roomy E o now s 1) in Hr; [|done]. cbv zeta.
  generalize dependent (sweepLocked E o now s). intros s1 Hr.
  case_match; cbn [fst]; [by eapply roomy_weaken; [|exact Hr]|].
  apply publishLocked_roomy; [done|]. apply ensure_inbox_roomy.
  by apply (roomy_ext E _ s1).
Qed.

Lemma RegisterAgent_messages o now input s :
  messages (RegisterAgent o now input s).1 = messages s ∨
  messages (RegisterAgent o now input s).1 = messages (sweepLocked E o now s).
Proof.
  unfold RegisterAgent. destruct (registration now input) as [a|e]; [right|by left].
  cbv zeta. case_match; [done|]. cbn.
  rewrite (of_messages _ _ (publishLocked_frame E _ _ _ _ _ _)). unfold ensure_inbox. by case_match.
Qed.

(** ** The server decides an agent's scopes and grants *)

Record agent_policy (a : Agent.t) : Prop := {
  ap_accepted : acceptsName E (Agent.AgentID a) = true;
  ap_self : authorizeAgentForName E (Agent.AgentID a) (Agent.AgentID a) = None;
  ap_scopes : Agent.AllowedScopes a = agentAllowedScopes E (Agent.AgentID a);
  ap_grants : Agent.SharedGrants a = agentSharedGrants E (Agent.AgentID a);
  ap_push : Agent.Mode a = AgentModePush → Agent.CallbackURL a ≠ ε }.

Definition policy_ok (s : Store) : Prop := ∀ k a, agents s !! k = Some a → agent_policy a.

Lemma policy_ok_fade s s' : agents_fade s s' → policy_ok s → policy_ok s'.
Proof. intros Hf Hp k a Ha. destruct (Hf k a Ha) as (b & st & Hb & ->). destruct (Hp k b Hb). by constructor. Qed.

Lemma registration_policy now input a :
  registration now input = Ok a →
  acceptsName E (Agent.AgentID a) = true ∧
  credential_accepted (Agent.AgentID a) (RegisterAgentInput.Secret input) = true ∧
  Agent.AllowedScopes a = agentAllowedScopes E (Agent.AgentID a) ∧
  Agent.SharedGrants a = agentSharedGrants E (Agent.AgentID a) ∧
  (Agent.Mode a = AgentModePush → Agent.CallbackURL a ≠ ε).
Proof.
  unfold registration. cbv zeta.
  destruct (negb (is_empty _)); [|done]. destruct (acceptsName E _) eqn:Ha; [|done].
  destruct (credential_accepted _ _) eqn:Hc; [|done].
  destruct (normalizeScopes _); [|done]. destruct (normalizeSharedGrants _); [|done].
  destruct (if is_empty (RegisterAgentInput.Mode input) then _ else _) as [mode|]; [|done].
  destruct (negb (bool_decide (mode = _) && _)) eqn:Eb; [|done].
  destruct (bool_decide (TrimSpace (RegisterAgentInput.AgentClass _) ∈ _)); [|done].
  destruct (bool_decide (TrimSpace (RegisterAgentInput.MutationClass _) ∈ _)); [|done].
  intros [= <-]. cbn. split_and!; [done..|]. intros ->.
  rewrite (bool_decide_eq_true_2 (AgentModePush = _)) in Eb by done.
  cbn in Eb. unfold is_empty in Eb. by prop_bool.
Qed.

Lemma RegisterAgent_policy o now input s : policy_ok s → policy_ok (RegisterAgent o now input s).1.
Proof.
  intros Hp. unfold RegisterAgent. destruct (registration now input) as [a|e] eqn:Er; [|done].
  cbv zeta. apply (policy_ok_fade _ _ (sweepLocked_fade o now s)) in Hp.
  generalize dependent (sweepLocked E o now s). intros s1 Hp.
  destruct (registration_policy _ _ _ Er) as (?&?&?&?&?).
  case_match; [done|]. intros k b. cbn.
  rewrite (of_agents _ _ (publishLocked_frame E _ _ _ _ _ _)), ensure_inbox_agents. cbn.
  intros [[<- <-]|[_ Hb]]%lookup_insert_Some; [|by apply (Hp k)].
  destruct (agents s1 !! Agent.AgentID a); by constructor.
Qed.

(** ** Listing is sorted and exact *)

#[export] Instance id_before_trans : Transitive id_before.
Proof. intros a b c Hab Hbc. unfold id_before in *. by etransitivity. Qed.
#[export] Instance id_before_total : Total id_before.
Proof. intros a b. unfold id_before. destruct (String.le_total (Agent.AgentID a) (Agent.AgentID b)); auto. Qed.

Lemma in_order_elem {V} (m : gmap string V) order x :
  enumerates order m → (x ∈ in_order m order ↔ ∃ k, m !! k = Some x).
Proof.
  intros [_ Ho]. unfold in_order. rewrite list_elem_of_omap. split.
  - intros (k & _ & Hk). eauto.
  - intros [k Hk]. exists k. split; [apply Ho; eauto|done].
Qed.

Lemma in_order_perm {V} (m : gmap string V) o1 o2 :
  enumerates o1 m → enumerates o2 m → in_order m o1 ≡ₚ in_order m o2.
Proof.
  intros [H1 E1] [H2 E2]. unfold in_order. apply omap_Permutation.
  apply NoDup_Permutation; [done..|]. intros k. by rewrite E1, E2.
Qed.

Lemma List_filter_elem {A} (f : A → bool) l x : x ∈ List.filter f l ↔ f x = true ∧ x ∈ l.
Proof. rewrite !list_elem_of_In, filter_In. tauto. Qed.

Lemma ListAgents_spec o order now capability s :
  let s1 := sweepLocked E o now s in
  enumerates order (agents s1) →
  (ListAgents o order now capability s).1 = s1 ∧
  StronglySorted id_before (ListAgents o order now capability s).2 ∧
  ∀ a, a ∈ (ListAgents o order now capability s).2 ↔
    agent_listed (TrimSpace capability) a = true ∧ ∃ k, agents s1 !! k = Some a.
Proof.
  intros s1 Ho. unfold ListAgents. cbn zeta. cbn [fst snd]. fold s1. split_and!; [done| |].
  - apply (StronglySorted_merge_sort id_before).
  - intros a. rewrite merge_sort_Permutation, List_filter_elem, in_order_elem by done. done.
Qed.

End agents.
