(* ===== verification/Wakeup.v ===== *)
(** * No lost wake-ups

    A long poll that found nothing waits on a channel.  [waiting] and
    [observing] say what such a waiter relies on: either its channel has been
    closed, or the channel is still the registered one and nothing has been
    added since.  Every step of the store keeps both. *)
From stdpp Require Import gmap strings list.
From Stdlib Require Import ZArith Lia Ascii.
From S2P Require Import Prelude GoBase Json Types Config Ring State Inbox Observe Structure Sweep Conversations Agents.

Definition chan_closed (ch : nat) (s : Store) : Prop := ch ∈ Channels.closed (channels s).

(** The position after the newest event of an inbox. *)
Definition inbox_end (s : Store) (a : string) : Z := base s a + Z.of_nat (length (inbox s a)).

Definition waiting (a : string) (ch : nat) (p : Z) (s : Store) : Prop :=
  chan_closed ch s ∨
  inboxNotify s !! a = Some ch ∧ is_Some (inboxes s !! a) ∧ inbox_end s a = p.

Definition observing (ch : nat) (n : Z) (s : Store) : Prop :=
  chan_closed ch s ∨ observeNotify s = ch ∧ nextObserveID s = n.

Record wakes (s s' : Store) : Prop := {
  wk_inbox : ∀ a ch p, waiting a ch p s → waiting a ch p s';
  wk_observe : ∀ ch n, observing ch n s → observing ch n s' }.

#[export] Instance wakes_preorder : PreOrder wakes.
Proof. split; [by split; auto|]. intros x y z [] []. split; auto. Qed.

(** A step away from channels, inboxes and the event counter. *)
Record calm (s s' : Store) : Prop := {
  cm_chans : same_chans s s';
  cm_inboxes : inboxes s' = inboxes s;
  cm_base : inboxBase s' = inboxBase s;
  cm_obsID : nextObserveID s' = nextObserveID s }.

#[export] Instance calm_preorder : PreOrder calm.
Proof.
  split; [by intros s; repeat constructor|].
  intros x y z [(?&?&?) ? ? ?] [(?&?&?) ? ? ?]. constructor; [split_and!|..]; congruence.
Qed.

Lemma calm_wakes s s' : calm s s' → wakes s s'.
Proof.
  intros [(Hc & Ho & Hn) Hi Hb Hid]. split.
  - intros a ch p. unfold waiting, chan_closed, inbox_end, inbox, base. by rewrite Hc, Hn, Hi, Hb.
  - intros ch n. unfold observing, chan_closed. by rewrite Hc, Ho, Hid.
Qed.

Lemma signalObserveLocked_closed s ch :
  chan_closed ch (signalObserveLocked s) ↔ ch = observeNotify s ∨ chan_closed ch s.
Proof. unfold chan_closed, signalObserveLocked; cbn. set_solver. Qed.

Section wakeup.
Context (E : Static).

Lemma publishLocked_waking ty d c ids t s : wakes s (publishLocked E ty d c ids t s).
Proof.
  pose proof (publishLocked_inbox E ty d c ids t s) as Hin.
  destruct (publishLocked_frame E ty d c ids t s).
  destruct (publishLocked_signal E ty d c ids t s) as (s2 & Hs2 & Hc & Ho & Hn).
  assert (∀ ch, chan_closed ch (publishLocked E ty d c ids t s) ↔
    ch = observeNotify s ∨ chan_closed ch s) as Hcl.
  { intros ch. rewrite Hs2, signalObserveLocked_closed, Ho. unfold chan_closed. by rewrite Hc. }
  split.
  - intros a ch p [H|(H1 & H2 & H3)]; [left; apply Hcl; auto|right].
    destruct (Hin a) as (Ei & Eb & _). unfold inbox_end. rewrite of_notify, of_inboxes, Ei, Eb. done.
  - intros ch n [H|[<- _]]; left; apply Hcl; auto.
Qed.

Lemma signalInboxLocked_waking a s : wakes s (signalInboxLocked a s).
Proof.
  split.
  - intros b ch p [H|(H1 & H2 & H3)].
    + left. revert H. unfold signalInboxLocked, chan_closed. case_match; [|done]. cbn. set_solver.
    + destruct (signalInboxLocked_inbox a b s) as (Ei & Eb & _ & Es).
      destruct (decide (a = b)) as [<-|Hne].
      * left. unfold signalInboxLocked, chan_closed. rewrite H1. cbn. set_solver.
      * right. unfold inbox_end. rewrite Es, Ei, Eb. split_and!; [|done..].
        unfold signalInboxLocked. case_match; [|done]. cbn. by rewrite lookup_delete_ne.
  - intros ch n [H|[H1 H2]].
    + left. revert H. unfold signalInboxLocked, chan_closed. case_match; [|done]. cbn. set_solver.
    + right. unfold signalInboxLocked. case_match; done.
Qed.

Lemma dropInboxPrefixLocked_end a b n s : inbox_end (dropInboxPrefixLocked a n s) b = inbox_end s b.
Proof.
  unfold inbox_end. destruct (decide (a = b)) as [<-|Hne].
  - destruct (decide (0 < n ≤ Z.of_nat (length (inbox s a)))) as [Hn|Hn].
    + destruct (dropInboxPrefixLocked_spec a n s Hn) as (-> & -> & _). rewrite length_drop. lia.
    + unfold dropInboxPrefixLocked. destruct ((n <=? 0) || _) eqn:Eg; [done|]. prop_bool. lia.
  - by destruct (dropInboxPrefixLocked_other a b n s Hne) as (_ & -> & -> & _).
Qed.

Lemma dropInboxPrefixLocked_waking a n s : wakes s (dropInboxPrefixLocked a n s).
Proof.
  destruct (dropInboxPrefixLocked_chans a n s) as (Hc & Ho & Hn).
  pose proof (dropInboxPrefixLocked_frame a n s) as [].
  split.
  - intros b ch p. unfold waiting, chan_closed. rewrite Hc, Hn, dropInboxPrefixLocked_end.
    intros [H|(H1 & H2 & H3)]; [by left|right]. split_and!; [done| |done].
    unfold dropInboxPrefixLocked. case_match; [done|]. cbn.
    destruct (decide (a = b)) as [<-|]; [rewrite lookup_insert_eq; eauto|by rewrite lookup_insert_ne].
  - intros ch m. unfold observing, chan_closed. by rewrite Hc, Ho, if_obsID.
Qed.

Lemma appendInboxLocked_waking a evt s : wakes s (appendInboxLocked E a evt s).
Proof.
  destruct (appendInboxLocked_signal E a evt s) as (s2 & Hs2 & Hc & Ho & Hn).
  assert (∀ ch, chan_closed ch s → chan_closed ch (appendInboxLocked E a evt s)) as Hcl.
  { intros ch H. rewrite Hs2. unfold chan_closed, signalInboxLocked in *. rewrite <-Hc in H.
    case_match; [cbn; set_solver|done]. }
  pose proof (appendInboxLocked_frame E a evt s) as [].
  split.
  - intros b ch p [H|(H1 & H2 & H3)]; [left; auto|].
    destruct (decide (a = b)) as [<-|Hne]; [left; by apply appendInboxLocked_wakes|right].
    destruct (appendInboxLocked_other E a b evt s Hne) as (Em & Ei & Eb & _).
    unfold inbox_end. rewrite Em, Ei, Eb. split_and!; [|done..]. rewrite Hs2.
    unfold signalInboxLocked. case_match; [|congruence]. cbn. rewrite lookup_delete_ne by done.
    congruence.
  - intros ch n [H|[H1 H2]]; [left; auto|right]. split; congruence.
Qed.

Lemma inboxNotifyChanLocked_waking a s : wakes s (inboxNotifyChanLocked a s).2.
Proof.
  unfold inboxNotifyChanLocked. destruct (inboxNotify s !! a) as [c|] eqn:Ea; [done|].
  split; [|done]. intros b ch p [H|(H1 & H2 & H3)]; [by left|right]. split_and!; [|done..].
  cbn. rewrite lookup_insert_ne; [done|]. intros ->. congruence.
Qed.

(** ** The sweep *)

Lemma calm_then s s1 s2 : calm s s1 → wakes s1 s2 → wakes s s2.
Proof. intros Hc Hw. etransitivity; [by apply calm_wakes|done]. Qed.

Lemma sweep_agent_waking now s id : wakes s (sweep_agent E now s id).
Proof.
  unfold sweep_agent. repeat case_match; try done.
  eapply calm_then; [|apply publishLocked_waking]. by repeat constructor.
Qed.

Lemma sweep_message_waking now s id : wakes s (sweep_message E now s id).
Proof.
  unfold sweep_message, time_out. repeat case_match; try done;
    (eapply calm_then; [|first [apply publishLocked_waking|apply appendInboxLocked_waking]]);
    by repeat constructor.
Qed.

Lemma prune_agent_waking now s id : chan_ok s → wakes s (prune_agent E now s id).
Proof.
  intros Hok. unfold prune_agent. destruct (agents s !! id); [|done]. case_bool; [done|].
  set (s1 := signalInboxLocked id _).
  assert (wakes s s1) as H1.
  { eapply calm_then; [|apply signalInboxLocked_waking]. by repeat constructor. }
  assert (inboxNotify s1 !! id = None) as Hnone.
  { unfold s1, signalInboxLocked. cbn. destruct (inboxNotify s !! id) eqn:En; [|done].
    cbn. by rewrite lookup_delete_eq. }
  clearbody s1. etransitivity; [exact H1|]. split; [|done].
  intros b ch p [H|(Hb & Hin & Hend)]; [by left|right].
  assert (id ≠ b) by congruence. unfold inbox_end, inbox, base in *. cbn.
  by rewrite !lookup_delete_ne.
Qed.

Lemma foldl_waking {A} (P : Store → Prop) (f : Store → A → Store) l s :
  P s → (∀ s a, P s → P (f s a) ∧ wakes s (f s a)) → wakes s (foldl f s l).
Proof.
  revert s. induction l as [|a l IH]; intros s Hs Hf; cbn; [done|].
  destruct (Hf s a Hs). etransitivity; [done|]. by apply IH.
Qed.

Lemma sweepLocked_waking o now s : sinv E s → wakes s (sweepLocked E o now s).
Proof.
  intros Hs. unfold sweepLocked. case_bool; [apply calm_wakes; by repeat constructor|].
  rewrite full_sweep_loops. pose proof (sweep_loops_sinv E o now s Hs) as Hl.
  transitivity (sweep_loops E o now s).
  - unfold sweep_loops. set (s1 := expire_receipts E now _).
    assert (calm s s1) as Hc by (by repeat constructor).
    eapply calm_then; [exact Hc|].
    transitivity (foldl (sweep_agent E now) s1 (ord_agents o));
      apply (foldl_waking (λ _, True)); [done| |done|]; intros; (split; [done|]);
      [apply sweep_agent_waking|apply sweep_message_waking].
  - generalize dependent (sweep_loops E o now s). intros s1 Hs1. unfold pruneLocked. cbv zeta.
    assert (calm s1 (prune_conversations E now (prune_messages E now s1))) as Hc.
    { unfold prune_conversations, prune_messages. by repeat case_bool; repeat constructor. }
    eapply calm_then; [exact Hc|]. case_bool; [|done].
    apply (foldl_waking chan_ok).
    + destruct Hc as [Hch _ _ _]. by eapply chan_ok_ext; [|apply Hs1].
    + intros s2 a H2. split; [|by apply prune_agent_waking]. unfold prune_agent.
      destruct (agents s2 !! a); [|done]. case_bool; [done|].
      eapply chan_ok_ext; [|apply (signalInboxLocked_chan_ok a (set_agents (delete a (agents s2)) s2))];
        [done|]. by eapply chan_ok_ext; [|exact H2].
Qed.

Lemma ensure_inbox_waking id s : wakes s (ensure_inbox id s).
Proof.
  unfold ensure_inbox. destruct (inboxes s !! id) eqn:Ei; [done|]. split; [|done].
  intros b ch p [H|(Hb & Hin & Hend)]; [by left|right].
  assert (id ≠ b) as Hne by (intros ->; rewrite Ei in Hin; by destruct Hin).
  unfold inbox_end, inbox, base in *. cbn. by rewrite !lookup_insert_ne.
Qed.

End wakeup.
