(* ===== verification/History.v ===== *)
(** * One operation, seen from outside

    [step_ok] collects what every operation of the store guarantees, in a form
    that composes: operations are sequences of steps (sweep, publish, append,
    install, ...) and each step is proved once. *)
From stdpp Require Import gmap strings list.
From Stdlib Require Import ZArith Lia Ascii.
From S2P Require Import Prelude GoBase Json Types Config Auth Ring State Inbox Observe Structure Sweep Conversations Agents Wakeup.

(** ** The lifecycle of messages across states

    A stored message is a later version of the one stored before under the
    same identifier, or it is new and so is its identifier. *)
Definition history (s s' : Store) : Prop :=
  nextMessageID s ≤ nextMessageID s' ∧
  ∀ k m', messages s' !! k = Some m' →
    (∃ m, messages s !! k = Some m ∧ evolves m m') ∨ ¬ issued (nextMessageID s) k.

#[export] Instance history_preorder : PreOrder history.
Proof.
  split.
  - intros s. split; [done|]. intros k m Hm. left. by exists m.
  - intros s1 s2 s3 [Hn1 H1] [Hn2 H2]. split; [lia|]. intros k m Hm.
    destruct (H2 k m Hm) as [(m2 & Hm2 & He2)|Hni].
    + destruct (H1 k m2 Hm2) as [(m1 & Hm1 & He1)|Hni]; [left|by right].
      exists m1. split; [done|by etransitivity].
    + right. intros Hi. apply Hni. by eapply issued_mono.
Qed.

Lemma history_same s s' :
  nextMessageID s' = nextMessageID s → messages s' = messages s → history s s'.
Proof. intros H1 H2. split; [lia|]. rewrite H2. intros k m Hm. left. by exists m. Qed.

Lemma history_update s s' :
  nextMessageID s' = nextMessageID s → messages_update s s' → history s s'.
Proof.
  intros Hn [Hd Hu]. split; [lia|]. intros k m' Hm'. left.
  assert (k ∈ dom (messages s)) as [m Hm]%elem_of_dom.
  { rewrite <-Hd. apply elem_of_dom. eauto. }
  destruct (Hu k m Hm) as (x & Hx & He). exists m. split; [done|]. congruence.
Qed.

Section history.
Context (E : Static).

(** A receipt within its window is never lost or replaced. *)
Definition receipts_kept (now : Time) (s s' : Store) : Prop :=
  ∀ key d, idempotency s !! key = Some d →
    Sub now (IdempotencyEntry.CreatedAt d) ≤ Config.IdempotencyWindow (cfg E) →
    idempotency s' !! key = Some d.

(** [k] bounds the observe events the step publishes. *)
Record step_ok (now : Time) (k : Z) (s s' : Store) : Prop := {
  st_nonneg : 0 ≤ k;
  st_sinv : sinv E s';
  st_room : ∀ j, 0 ≤ j → roomy E (k + j) s → roomy E j s';
  st_history : history s s';
  st_receipts : receipts_kept now s s';
  st_policy : policy_ok E s → policy_ok E s';
  st_wakes : wakes s s' }.

Lemma step_refl now s : sinv E s → step_ok now 0 s s.
Proof. intros Hs. constructor; auto; try done. by intros ? ?. Qed.

Lemma step_trans now k1 k2 s1 s2 s3 :
  step_ok now k1 s1 s2 → (sinv E s2 → step_ok now k2 s2 s3) → step_ok now (k1 + k2) s1 s3.
Proof.
  intros [? Hs Hr Hh Hi Hp Hw] H23. destruct (H23 Hs) as [? Hs' Hr' Hh' Hi' Hp' Hw'].
  constructor; [lia|done| |by etransitivity| |auto|by etransitivity].
  - intros j Hj Hroom. apply Hr'; [done|]. apply Hr; [lia|].
    eapply roomy_weaken; [|exact Hroom]. lia.
  - intros key d Hd Hwin. apply Hi'; [by apply Hi|done].
Qed.

Lemma step_weaken now k1 k2 s s' : k1 ≤ k2 → step_ok now k1 s s' → step_ok now k2 s s'.
Proof.
  intros Hk [? ? Hr ? ? ? ?]. constructor; try done; [lia|].
  intros j Hj Hroom. apply Hr; [done|]. eapply roomy_weaken; [|exact Hroom]. lia.
Qed.

(** A step outside messages, receipts, agents and the observe stream. *)
Record quiet (s s' : Store) : Prop := {
  qu_msgID : nextMessageID s' = nextMessageID s;
  qu_messages : messages s' = messages s;
  qu_idem : idempotency s' = idempotency s;
  qu_agents : agents s' = agents s;
  qu_obsID : nextObserveID s' = nextObserveID s;
  qu_obs : observeEvents s' = observeEvents s;
  qu_obsbytes : observeBytes s' = observeBytes s }.

Lemma quiet_step now s s' : quiet s s' → wakes s s' → sinv E s' → step_ok now 0 s s'.
Proof.
  intros [] Hw Hs. constructor; [done|done| | | | |done].
  - intros j _ Hr. by eapply roomy_ext.
  - by apply history_same.
  - intros key d. congruence.
  - intros Hp. eapply policy_ok_fade; [|done]. by apply agents_fade_eq.
Qed.

Lemma publish_step now ty d c ids t s :
  sinv E s → step_ok now 1 s (publishLocked E ty d c ids t s).
Proof.
  intros Hs. destruct (publishLocked_frame E ty d c ids t s).
  constructor; [done| | | | | |apply publishLocked_waking].
  - by apply publishLocked_sinv.
  - intros j Hj Hr. apply publishLocked_roomy; [done|]. by rewrite Z.add_comm.
  - by apply history_same.
  - intros key e. congruence.
  - intros Hp. eapply policy_ok_fade; [|done]. by apply agents_fade_eq.
Qed.

Lemma append_step now a evt s :
  is_Some (agents s !! a) → sinv E s → step_ok now 0 s (appendInboxLocked E a evt s).
Proof.
  intros Ha Hs. destruct (appendInboxLocked_frame E a evt s).
  apply quiet_step; [by constructor|apply appendInboxLocked_waking|]. by apply appendInboxLocked_sinv.
Qed.

Lemma set_message_step now s id m m' :
  messages s !! id = Some m → evolves m m' → message_ok m' → sinv E s →
  step_ok now 0 s (set_messages (<[id := m']> (messages s)) s).
Proof.
  intros Hm He Hok Hs.
  constructor; [done| | | | |by intros Hp|apply calm_wakes; by repeat constructor].
  - by eapply set_message_sinv.
  - intros j _ Hr. by apply (roomy_ext E j s).
  - apply history_update; [done|]. by eapply messages_update_set.
  - by intros key d.
Qed.

(** ** The sweep is a step *)

(** What no part of the sweep changes. *)
Record sweep_frame (s s' : Store) : Prop := {
  sf_msgID : nextMessageID s' = nextMessageID s;
  sf_convID : nextConversationID s' = nextConversationID s;
  sf_queue : pushQueue s' = pushQueue s;
  sf_closed : pushClosed s' = pushClosed s }.

#[export] Instance sweep_frame_preorder : PreOrder sweep_frame.
Proof. split; [by constructor|]. intros x y z [] []. constructor; congruence. Qed.

Definition same_receipts (s s' : Store) : Prop :=
  sweep_frame s s' ∧ idempotency s' = idempotency s.

#[export] Instance same_receipts_preorder : PreOrder same_receipts.
Proof.
  split; [by intros s; split|]. intros x y z [? ?] [? ?]. split; [by etransitivity|congruence].
Qed.

Lemma observe_same s s' : observe_frame s s' → same_receipts s s'.
Proof. intros []. by repeat constructor. Qed.
Lemma inbox_same s s' : inbox_frame s s' → same_receipts s s'.
Proof. intros []. by repeat constructor. Qed.

Lemma sweep_agent_same now s id : same_receipts s (sweep_agent E now s id).
Proof.
  unfold sweep_agent. repeat case_match; try done.
  etransitivity; [|apply observe_same, publishLocked_frame]. by repeat constructor.
Qed.

Lemma time_out_same now id m m' r s : same_receipts s (time_out E now id m m' r s).
Proof.
  unfold time_out. etransitivity; [|apply observe_same, publishLocked_frame]. by repeat constructor.
Qed.

Lemma sweep_message_same now s id : same_receipts s (sweep_message E now s id).
Proof.
  unfold sweep_message. repeat case_match; try done; try apply time_out_same.
  all: etransitivity; [|apply inbox_same, appendInboxLocked_frame]; by repeat constructor.
Qed.

Lemma prune_agent_same now s id : same_receipts s (prune_agent E now s id).
Proof.
  unfold prune_agent. repeat case_match; try done.
  etransitivity; [apply (inbox_same _ _ (signalInboxLocked_frame id s))|].
  unfold signalInboxLocked. cbn. by case_match; repeat constructor.
Qed.

Lemma pruneLocked_same o now s : same_receipts s (pruneLocked E o now s).
Proof.
  unfold pruneLocked. cbv zeta.
  assert (same_receipts s (prune_conversations E now (prune_messages E now s))) as H1.
  { unfold prune_conversations, prune_messages. by repeat case_bool; repeat constructor. }
  case_bool; [|done]. etransitivity; [exact H1|].
  apply foldl_rel; [done|intros ? ? ?; by etransitivity|]. intros; apply prune_agent_same.
Qed.

Lemma full_sweep_same o now s :
  sweep_frame s (full_sweep E o now s) ∧
  idempotency (full_sweep E o now s) = idempotency (expire_receipts E now s).
Proof.
  rewrite full_sweep_loops. unfold sweep_loops. set (s1 := expire_receipts _ _ _).
  assert (same_receipts s1 (pruneLocked E o now (foldl (sweep_message E now)
    (foldl (sweep_agent E now) s1 (ord_agents o)) (ord_messages o)))) as [H ->].
  { etransitivity; [|apply pruneLocked_same].
    transitivity (foldl (sweep_agent E now) s1 (ord_agents o)); apply (foldl_rel same_receipts);
      try done; try (intros ? ? ?; by etransitivity); intros;
      [apply sweep_agent_same|apply sweep_message_same]. }
  split; [|done]. etransitivity; [|exact H]. by constructor.
Qed.

Lemma sweepLocked_frame o now s : sweep_frame s (sweepLocked E o now s).
Proof. unfold sweepLocked. case_bool; [by constructor|]. apply full_sweep_same. Qed.

Lemma sweepLocked_receipts o now s key d :
  idempotency (sweepLocked E o now s) !! key = Some d → idempotency s !! key = Some d.
Proof.
  unfold sweepLocked. case_bool; [done|]. rewrite (proj2 (full_sweep_same o now s)). cbn.
  by intros [? _]%map_lookup_filter_Some.
Qed.

Lemma sweepLocked_kept o now s : receipts_kept now s (sweepLocked E o now s).
Proof.
  intros key d Hd Hw. unfold sweepLocked. case_bool; [done|].
  rewrite (proj2 (full_sweep_same o now s)). cbn. apply map_lookup_filter_Some. split; [done|].
  by apply Z.ltb_ge.
Qed.

Lemma sweep_step o now s :
  sinv E s → step_ok now (sweep_events o) s (sweepLocked E o now s).
Proof.
  intros Hs. constructor.
  - unfold sweep_events. lia.
  - by apply sweepLocked_sinv.
  - intros j Hj. by apply sweepLocked_roomy.
  - destruct (sweepLocked_evolve E o now s Hs) as [He Hd].
    destruct (sweepLocked_frame o now s) as [Hn _ _ _]. split; [lia|].
    intros k m' Hm'. left.
    assert (k ∈ dom (messages s)) as [m Hm]%elem_of_dom.
    { apply Hd. apply elem_of_dom. eauto. }
    destruct (He k m Hm) as [?|(x & Hx & ?)]; [congruence|].
    exists m. split; [done|congruence].
  - apply sweepLocked_kept.
  - intros Hp. eapply policy_ok_fade; [apply sweepLocked_fade|done].
  - by apply sweepLocked_waking.
Qed.

(** ** Registration and conversations *)

Lemma RegisterAgent_step o now input s :
  sinv E s → step_ok now (sweep_events o + 1) s (RegisterAgent E o now input s).1.
Proof.
  intros Hs. pose proof (RegisterAgent_policy E o now input s) as Hp.
  pose proof (RegisterAgent_sinv E o now input s Hs) as Hsi.
  revert Hp Hsi. unfold RegisterAgent. destruct (registration E now input) as [a|e].
  2: { intros _ _. eapply step_weaken; [|by apply step_refl]. unfold sweep_events. lia. }
  cbv zeta. pose proof (sweep_step o now s Hs) as Hsw.
  generalize dependent (sweepLocked E o now s). intros s1 Hsw Hp Hsi.
  destruct (authorizeAgentForName E _ _) eqn:Ea.
  { cbn [fst]. eapply step_weaken; [|exact Hsw]. lia. }
  cbn [fst] in *. set (a' := match agents s1 !! _ with Some _ => _ | None => _ end) in *.
  set (s2 := ensure_inbox _ _) in *. destruct Hsw as [Hk Hs1 Hr1 Hh1 Hi1 Hp1 Hw1].
  assert (Agent.AgentID a' = Agent.AgentID a) as Hid by (unfold a'; by case_match).
  assert (sinv E s2) as Hs2 by (by apply store_agent_sinv).
  assert (quiet (set_agents (agents s2) s1) s2) as Hq.
  { unfold s2, ensure_inbox. cbn. by case_match; constructor. }
  destruct (publish_step now ObserveAgentRegistered (registered_data a' now) ε [Agent.AgentID a] now
    s2 Hs2) as [_ _ Hr2 Hh2 Hi2 _ Hw2].
  constructor; [lia|done| | | |done|].
  - intros j Hj Hroom. apply Hr2; [done|]. destruct Hq. eapply (roomy_ext E _ s1); [done..|].
    apply Hr1; [lia|]. eapply roomy_weaken; [|exact Hroom]. lia.
  - etransitivity; [exact Hh1|]. etransitivity; [|exact Hh2]. destruct Hq. by apply history_same.
  - intros key d Hd Hw. apply Hi2; [|done]. destruct Hq. rewrite qu_idem0. cbn. by apply Hi1.
  - etransitivity; [exact Hw1|]. etransitivity; [|exact Hw2]. unfold s2.
    eapply calm_then; [|apply ensure_inbox_waking]. by repeat constructor.
Qed.

Lemma ensureConversationLocked_step now input s :
  nextConversationID s < max_int64 → sinv E s →
  step_ok now 0 s (ensureConversationLocked E input now s).1.
Proof.
  intros Hc Hs. apply quiet_step; [| |by apply ensureConversationLocked_sinv].
  - pose proof (ensureConversationLocked_rest E input now s) as (?&?&?&?&?&?&?&?).
    constructor; try done. unfold ensureConversationLocked.
    case_bool; repeat (case_match; cbn; try done).
  - apply calm_wakes. unfold ensureConversationLocked.
    case_bool; repeat (case_match; cbn; try by repeat constructor).
Qed.

Lemma CreateConversation_step o now input s :
  nextConversationID s < max_int64 → sinv E s →
  step_ok now (sweep_events o) s (CreateConversation E o now input s).1.
Proof.
  intros Hc Hs. unfold CreateConversation. case_bool.
  { cbn. eapply step_weaken; [|by apply step_refl]. unfold sweep_events. lia. }
  replace (sweep_events o) with (sweep_events o + 0) by lia.
  eapply step_trans; [by apply sweep_step|]. intros Hs1.
  apply ensureConversationLocked_step; [|done].
  by destruct (sweepLocked_frame o now s) as [_ -> _ _].
Qed.

End history.
