(* ===== verification/Send.v ===== *)
(** * Sending: [sendMessage] and [inject] of [pkg/bus/store.go]

    Both plan a complete acceptance record, hand it to an optional durability
    barrier, and only then change the store.  The barrier ([commit], given by
    the SQLite store, absent in the in-memory store) is an argument: it may
    refuse with an error, or accept and name the message whose push receipts
    are to be recorded. *)
From stdpp Require Import gmap strings list.
From Stdlib Require Import ZArith Lia Ascii.
From S2P Require Import Prelude GoBase Json Types Config Auth Ring State Push Inbox Observe Structure Sweep Conversations.

(** The unit separator, byte 0x1f. *)
Definition unit_separator : string := String "031"%char ε.

Definition dedupeKey (from to requestID : string) : string :=
  from +:+ unit_separator +:+ to +:+ unit_separator +:+ requestID.

Module SendAcceptance.
Record t := mk {
  message : Message.t;
  conversation : Conversation.t;
  conversationPos : Z;
  nextConversationID : Z;
  nextMessageID : Z;
  idempotencyKey : string;
  idempotency : option IdempotencyEntry.t;
  inboxEvent : option InboxEvent.t;
  pushURL : string;
  pushPayload : option json }.
End SendAcceptance.

Definition Commit : Type := option (SendAcceptance.t → result Error.t (option string)).

(** The barrier's answer; without a barrier the acceptance stands. *)
Definition run_commit (commit : Commit) (a : SendAcceptance.t) : result Error.t (option string) :=
  match commit with Some f => f a | None => Ok None end.

(** ** Wire forms *)

Definition omit_empty (key value : string) : list (string * json) :=
  if is_empty value then [] else [(key, JString value)].

Definition attachment_json (a : Attachment.t) : json :=
  JObj (("url"%stdpp, JString (Attachment.URL a))
    :: omit_empty "name"%stdpp (Attachment.Name a)
    ++ omit_empty "content_type"%stdpp (Attachment.ContentType a)
    ++ (if Attachment.Size a =? 0 then [] else [("size"%stdpp, JInt (Attachment.Size a))])
    ++ omit_empty "sha256"%stdpp (Attachment.SHA256 a)).

(** The callback body; [attachments] only on direct sends. *)
Definition push_payload (m : Message.t) (with_attachments : bool) : json :=
  JObj ([("message_id"%stdpp, JString (Message.MessageID m));
         ("request_id"%stdpp, JString (Message.RequestID m));
         ("type"%stdpp, JString (MessageType_string (Message.Typ m)));
         ("from"%stdpp, JString (Message.From m));
         ("conversation_id"%stdpp, JString (Message.ConversationID m));
         ("body"%stdpp, JString (Message.Body m));
         ("meta"%stdpp, Message.Meta m)]
        ++ (if with_attachments
            then [("attachments"%stdpp, JArr (attachment_json <$> Message.Attachments m))] else [])
        ++ [("created_at"%stdpp, JTime (Message.CreatedAt m))]).

Definition message_data (m : Message.t) : json :=
  JObj [("message_id"%stdpp, JString (Message.MessageID m));
        ("type"%stdpp, JString (MessageType_string (Message.Typ m)));
        ("from"%stdpp, JString (Message.From m));
        ("to"%stdpp, JString (Message.To m));
        ("conversation_id"%stdpp, JString (Message.ConversationID m));
        ("body"%stdpp, JString (Message.Body m));
        ("created_at"%stdpp, JTime (Message.CreatedAt m))].

Definition injection_data (identity : string) (m : Message.t) (now : Time) : json :=
  JObj [("identity"%stdpp, JString identity);
        ("message_id"%stdpp, JString (Message.MessageID m));
        ("conversation_id"%stdpp, JString (Message.ConversationID m));
        ("to"%stdpp, JString (Message.To m));
        ("body"%stdpp, JString (Message.Body m));
        ("at"%stdpp, JTime now)].

Section send.
Context (E : Static).

(** ** Steps the two operations share *)

(** The callback of an active target in push mode. *)
Definition push_callback (target : Agent.t) : option string :=
  let url := TrimSpace (Agent.CallbackURL target) in
  if bool_decide (Agent.Mode target = AgentModePush) && negb (is_empty url) then Some url else None.

(** The assignments right after the barrier. *)
Definition install (a : SendAcceptance.t) (s : Store) : Store :=
  let m := SendAcceptance.message a in
  let conv := SendAcceptance.conversation a in
  let cid := Conversation.ConversationID conv in
  let s := set_nextConversationID (SendAcceptance.nextConversationID a) s in
  let s := set_nextMessageID (SendAcceptance.nextMessageID a) s in
  let s := set_conversations (<[cid := conv]> (conversations s)) s in
  let s := set_messages (<[Message.MessageID m := m]> (messages s)) s in
  set_conversationMessages
    (<[cid := conversation_messages s cid ++ [Message.MessageID m]]> (conversationMessages s)) s.

Definition append_event (to : string) (evt : option InboxEvent.t) (s : Store) : Store :=
  match evt with Some e => appendInboxLocked E to e s | None => s end.

(** The job that could not be scheduled, with the reason. *)
Definition schedule_push (a : SendAcceptance.t) (receipt : option string) (s : Store)
    : option PushJob.t * string * Store :=
  match SendAcceptance.pushPayload a with
  | Some payload =>
      if is_empty (SendAcceptance.pushURL a) then (None, ε, s) else
      let job := PushJob.mk (SendAcceptance.pushURL a) payload receipt in
      let '(failure, s) := enqueuePushJobLocked E job s in
      if is_empty failure then (None, ε, s) else (Some job, failure, s)
  | None => (None, ε, s)
  end.

(** ** sendMessage *)

Record SendRequest := mkSendRequest {
  sr_from : string; sr_to : string; sr_requestID : string; sr_body : string;
  sr_type : MessageType; sr_ttl : Z }.

(** The part before the lock. *)
Definition send_request (input : SendMessageInput.t) : result Error.t SendRequest :=
  let to := TrimSpace (SendMessageInput.To input) in
  let from := TrimSpace (SendMessageInput.From input) in
  let requestID := TrimSpace (SendMessageInput.RequestID input) in
  let body := TrimSpace (SendMessageInput.Body input) in
  guard negb (is_empty to) else fail CodeValidation "to is required"%stdpp ;;
  guard acceptsName E to
    else fail CodeValidation "to must be prefixed with personal., ucla., or shared."%stdpp ;;
  guard negb (is_empty from) else fail CodeValidation "from is required"%stdpp ;;
  guard acceptsName E from
    else fail CodeValidation "from must be prefixed with personal., ucla., or shared."%stdpp ;;
  guard negb (is_empty requestID) else fail CodeValidation "request_id is required"%stdpp ;;
  guard negb (is_empty body) else fail CodeValidation "body is required"%stdpp ;;
  let typ :=
    if is_empty (SendMessageInput.Typ input) then Some MessageTypeRequest
    else parse_message_type (SendMessageInput.Typ input) in
  match typ with
  | None => Err (fail CodeValidation "type must be request, response, or inform"%stdpp)
  | Some typ =>
      let ttl := SendMessageInput.TTLSeconds input in
      let ttl := if ttl <=? 0 then int_seconds (Config.DefaultMessageTTL (cfg E)) else ttl in
      Ok (mkSendRequest from to requestID body typ ttl)
  end.

(** Sender, scopes and target, on the swept store. *)
Definition send_target (r : SendRequest) (s : Store) : result Error.t Agent.t :=
  match agents s !! sr_from r with
  | Some sender =>
      guard bool_decide (Agent.Status sender = AgentStatusActive)
        else fail CodeUnauthorized "sender is not registered/active"%stdpp ;;
      match authorizeAgentForName E (Agent.AgentID sender) (sr_from r) with
      | Some e => Err e
      | None =>
          match authorizeSendTarget E (Agent.AgentID sender) (sr_to r) with
          | Some e => Err e
          | None =>
              match agents s !! sr_to r with
              | Some target => Ok target
              | None => Err (fail CodeNotFound "target agent not registered"%stdpp)
              end
          end
      end
  | None => Err (fail CodeUnauthorized "sender is not registered/active"%stdpp)
  end.

(** The receipt that makes a send a duplicate. *)
Definition send_duplicate (now : Time) (r : SendRequest) (s : Store) : option IdempotencyEntry.t :=
  match idempotency s !! dedupeKey (sr_from r) (sr_to r) (sr_requestID r) with
  | Some d =>
      if Sub now (IdempotencyEntry.CreatedAt d) <=? Config.IdempotencyWindow (cfg E)
      then Some d else None
  | None => None
  end.

(** What a duplicate is answered: the stored message, or its outline when
    retention has pruned it. *)
Definition duplicate_message (r : SendRequest) (d : IdempotencyEntry.t) (s : Store) : Message.t :=
  match messages s !! IdempotencyEntry.MessageID d with
  | Some existing => existing
  | None =>
      Message.mk (IdempotencyEntry.MessageID d) MessageTypeNone (sr_from r) (sr_to r) ε
        (sr_requestID r) ε ε JNull [] StateNone (IdempotencyEntry.CreatedAt d) 0 0 0 0 0 false
  end.

(** The counter and identifier for a requested conversation. *)
Definition choose_conversation (requested : string) (s : Store) : Z * string :=
  let requested := TrimSpace requested in
  if is_empty requested then
    let n := inc64 (nextConversationID s) in (n, conversation_id n)
  else (nextConversationID s, requested).

Definition send_conversation (now : Time) (r : SendRequest) (cid : string) (s : Store)
    : result Error.t Conversation.t :=
  let from := sr_from r in
  let to := sr_to r in
  match conversations s !! cid with
  | Some existing =>
      match authorizeActorForNames E from (Conversation.Participants existing) with
      | Some e => Err e
      | None =>
          match authorizeActorForNames E from [from; to] with
          | Some e => Err e
          | None => Ok (mergeConversationParticipantsLocked existing [from; to])
          end
      end
  | None =>
      match authorizeActorForNames E from [from] with
      | Some e => Err e
      | None => Ok (Conversation.mk cid ε [from; to] active_status 0 now now JNull)
      end
  end.

Definition target_expired (target : Agent.t) : bool :=
  bool_decide (Agent.Status target = AgentStatusExpired).

Definition grace_until (target : Agent.t) : Time :=
  Add (Agent.ExpiresAt target) (Config.GracePeriod (cfg E)).

Definition send_message (now : Time) (input : SendMessageInput.t) (r : SendRequest)
    (cid : string) (target : Agent.t) (id : string) : Message.t :=
  let request := bool_decide (sr_type r = MessageTypeRequest) in
  let live := negb (target_expired target) in
  Message.mk id (sr_type r) (sr_from r) (sr_to r) cid (sr_requestID r)
    (TrimSpace (SendMessageInput.InReplyTo input)) (sr_body r) (SendMessageInput.Meta input)
    (SendMessageInput.Attachments input)
    (if negb request then StateCompleted else if live then StateWaitingAck else StatePending)
    now
    (if negb request then now else 0)
    (if request && live then now else 0)
    0
    (Add now (seconds (sr_ttl r)))
    (if live then 0 else grace_until target)
    (negb live).

(** The acceptance record of a send that is not a duplicate. *)
Definition send_plan (now : Time) (input : SendMessageInput.t) (r : SendRequest)
    (target : Agent.t) (s : Store) : result Error.t SendAcceptance.t :=
  let '(nextConv, cid) := choose_conversation (SendMessageInput.ConversationID input) s in
  let? conv := send_conversation now r cid s in
  guard negb (target_expired target && After now (grace_until target))
    else fail CodeNotFound "target agent expired beyond grace period"%stdpp ;;
  let nextMsg := inc64 (nextMessageID s) in
  let m := send_message now input r (Conversation.ConversationID conv) target (message_id nextMsg) in
  let live := negb (target_expired target) in
  let url := if live then push_callback target else None in
  let position := Z.of_nat (length (conversation_messages s (Conversation.ConversationID conv))) in
  let status := if is_empty (Conversation.Status conv) then active_status
                else Conversation.Status conv in
  Ok (SendAcceptance.mk m (Conversation.touch status (position + 1) now conv) position
    nextConv nextMsg (dedupeKey (sr_from r) (sr_to r) (sr_requestID r))
    (Some (IdempotencyEntry.mk (Message.MessageID m) now))
    (if live then Some (messageInboxEvent m) else None)
    (default ε url) (match url with Some _ => Some (push_payload m true) | None => None end)).

(** The store changes of an accepted send, up to the push job. *)
Definition send_apply (now : Time) (a : SendAcceptance.t) (s : Store) : Store :=
  let m := SendAcceptance.message a in
  let s := install a s in
  let s := match SendAcceptance.idempotency a with
           | Some d => set_idempotency (<[SendAcceptance.idempotencyKey a := d]> (idempotency s)) s
           | None => s
           end in
  let s := append_event (Message.To m) (SendAcceptance.inboxEvent a) s in
  publishLocked E ObserveMessage (message_data m) (Message.ConversationID m)
    [Message.From m; Message.To m] now s.

(** The result, with the failed push receipt [finishAcceptance] dispatches. *)
Definition sendMessage (commit : Commit) (o : Order) (now : Time) (input : SendMessageInput.t)
    (s : Store) : Store * result Error.t (Message.t * bool) * option (string * string) :=
  match send_request input with
  | Err e => (s, Err e, None)
  | Ok r =>
      let s := sweepLocked E o now s in
      match send_target r s with
      | Err e => (s, Err e, None)
      | Ok target =>
          match send_duplicate now r s with
          | Some d => (s, Ok (duplicate_message r d s, true), None)
          | None =>
              match send_plan now input r target s with
              | Err e => (s, Err e, None)
              | Ok a =>
                  match run_commit commit a with
                  | Err e => (s, Err e, None)
                  | Ok receipt =>
                      let s := send_apply now a s in
                      let '(failed, reason, s) := schedule_push a receipt s in
                      let '(dispatched, s) := finishAcceptance failed reason s in
                      (s, Ok (SendAcceptance.message a, false), dispatched)
                  end
              end
          end
      end
  end.

Definition SendMessage := sendMessage None.

(** ** inject *)

Definition inject_identity (identity : string) : string := "human:"%stdpp +:+ identity.

(** The part before the lock: identity, body and target. *)
Definition inject_request (input : InjectInput.t) : result Error.t (string * string * string) :=
  let identity := TrimSpace (InjectInput.Identity input) in
  let body := TrimSpace (InjectInput.Body input) in
  let to := TrimSpace (InjectInput.To input) in
  guard negb (is_empty identity || is_empty body)
    else fail CodeValidation "identity and body are required"%stdpp ;;
  guard is_empty to || acceptsName E to
    else fail CodeValidation "to must be prefixed with personal., ucla., or shared."%stdpp ;;
  guard bool_decide (humanAllowlist E = ∅) || bool_decide (identity ∈ humanAllowlist E)
    else fail CodeUnauthorized "human identity not allowed"%stdpp ;;
  Ok (identity, body, to).

Definition inject_conversation (now : Time) (cid : string) (s : Store) : Conversation.t :=
  match conversations s !! cid with
  | Some existing => existing
  | None => Conversation.mk cid ε [] active_status 0 now now JNull
  end.

(** Delivery to the named target: [None] where no target is named. *)
Definition inject_target (now : Time) (to : string) (s : Store) : result Error.t (option Agent.t) :=
  if is_empty to then Ok None
  else match agents s !! to with
  | None => Err (fail CodeNotFound "target agent not registered"%stdpp)
  | Some target =>
      guard negb (target_expired target && After now (grace_until target))
        else fail CodeNotFound "target agent expired beyond grace period"%stdpp ;;
      Ok (Some target)
  end.

Definition inject_message (now : Time) (identity body to cid id : string)
    (target : option Agent.t) : Message.t :=
  let queued := match target with Some t => target_expired t | None => false end in
  Message.mk id MessageTypeInform (inject_identity identity) to cid
    ("inject-"%stdpp +:+ FormatInt (UnixNano now)) ε body (JObj [("identity"%stdpp, JString identity)]) []
    (if queued then StatePending else StateCompleted)
    now
    (if queued then 0 else now)
    0 0
    (Add now (Config.DefaultMessageTTL (cfg E)))
    (match target with Some t => if target_expired t then grace_until t else 0 | None => 0 end)
    queued.

Definition inject_plan (now : Time) (input : InjectInput.t) (identity body to : string)
    (s : Store) : result Error.t SendAcceptance.t :=
  let '(nextConv, cid) := choose_conversation (InjectInput.ConversationID input) s in
  let conv := inject_conversation now cid s in
  let nextMsg := inc64 (nextMessageID s) in
  let? target := inject_target now to s in
  let cid := Conversation.ConversationID conv in
  let m := inject_message now identity body to cid (message_id nextMsg) target in
  let live := match target with
              | Some t => if target_expired t then None else Some t
              | None => None
              end in
  let url := match live with Some t => push_callback t | None => None end in
  let position := Z.of_nat (length (conversation_messages s cid)) in
  Ok (SendAcceptance.mk m (Conversation.touch (Conversation.Status conv) (position + 1) now conv)
    position nextConv nextMsg ε None
    (match live with Some _ => Some (messageInboxEvent m) | None => None end)
    (default ε url) (match url with Some _ => Some (push_payload m false) | None => None end)).

Definition inject_apply (now : Time) (identity : string) (a : SendAcceptance.t) (s : Store)
    : Store :=
  let m := SendAcceptance.message a in
  let s := install a s in
  let s := append_event (Message.To m) (SendAcceptance.inboxEvent a) s in
  let s := publishLocked E ObserveHumanInjection (injection_data identity m now)
    (Message.ConversationID m) [Message.From m; Message.To m] now s in
  publishLocked E ObserveMessage (message_data m) (Message.ConversationID m)
    [Message.From m; Message.To m] now s.

Definition inject (commit : Commit) (o : Order) (now : Time) (input : InjectInput.t) (s : Store)
    : Store * result Error.t Message.t * option (string * string) :=
  match inject_request input with
  | Err e => (s, Err e, None)
  | Ok (identity, body, to) =>
      let s := sweepLocked E o now s in
      match inject_plan now input identity body to s with
      | Err e => (s, Err e, None)
      | Ok a =>
          match run_commit commit a with
          | Err e => (s, Err e, None)
          | Ok receipt =>
              let s := inject_apply now identity a s in
              let '(failed, reason, s) := schedule_push a receipt s in
              let '(dispatched, s) := finishAcceptance failed reason s in
              (s, Ok (SendAcceptance.message a), dispatched)
          end
      end
  end.

Definition Inject := inject None.

End send.
