(* ===== verification/SendSpec.v ===== *)
(** * Sending keeps the invariant

    The facts about [Send.v] that do not depend on who the caller is: what an
    acceptance record looks like, that installing it keeps the store
    well-formed, and every field of the store an accepted send leaves. *)
From stdpp Require Import gmap strings list.
From Stdlib Require Import ZArith Lia Ascii.
From S2P Require Import Prelude GoBase Json Types Config Auth Ring State Push Inbox Observe Structure Sweep SweepSpec Conversations Agents Wakeup History Send.

Section spec.
Context (E : Static).

(** ** Acceptance records *)

(** An acceptance planned in state [s]: a new message at the end of its
    conversation. *)
Record acceptance_ok (s : Store) (a : SendAcceptance.t) : Prop := {
  ac_next : SendAcceptance.nextMessageID a = inc64 (nextMessageID s);
  ac_id : Message.MessageID (SendAcceptance.message a) = message_id (inc64 (nextMessageID s));
  ac_conv : SendAcceptance.nextConversationID a = nextConversationID s ∨
    SendAcceptance.nextConversationID a = inc64 (nextConversationID s);
  ac_cid : Conversation.ConversationID (SendAcceptance.conversation a) =
    Message.ConversationID (SendAcceptance.message a);
  ac_pos : SendAcceptance.conversationPos a =
    Z.of_nat (length (conversation_messages s (Message.ConversationID (SendAcceptance.message a))));
  ac_count : Conversation.MessageCount (SendAcceptance.conversation a) =
    SendAcceptance.conversationPos a + 1;
  ac_msg : message_ok (SendAcceptance.message a);
  ac_event : ∀ e, SendAcceptance.inboxEvent a = Some e →
    e = messageInboxEvent (SendAcceptance.message a) ∧
    is_Some (agents s !! Message.To (SendAcceptance.message a));
  ac_receipt : ∀ r, SendAcceptance.idempotency a = Some r →
    IdempotencyEntry.MessageID r = Message.MessageID (SendAcceptance.message a) }.

Lemma choose_conversation_next requested s :
  (choose_conversation requested s).1 = nextConversationID s ∨
  (choose_conversation requested s).1 = inc64 (nextConversationID s).
Proof. unfold choose_conversation. case_bool; [by right|by left]. Qed.

Lemma send_target_spec r s t :
  send_target E r s = Ok t →
  agents s !! sr_to r = Some t ∧ ∃ sender, agents s !! sr_from r = Some sender ∧
    Agent.Status sender = AgentStatusActive ∧
    authorizeAgentForName E (Agent.AgentID sender) (sr_from r) = None ∧
    authorizeSendTarget E (Agent.AgentID sender) (sr_to r) = None.
Proof.
  unfold send_target. intros H. repeat (case_match; try done). simplify_eq. prop_bool.
  split; [done|]. eauto.
Qed.

Lemma send_message_ok now input r cid t id :
  sr_type r ≠ MessageTypeNone → message_ok (send_message E now input r cid t id).
Proof.
  intros Ht. unfold send_message. constructor; cbn; [done| | |].
  - by repeat case_match.
  - intros Hs. destruct (decide (sr_type r = MessageTypeRequest)) as [|Hn]; [done|].
    rewrite bool_decide_eq_false_2 in Hs by done. by destruct Hs.
  - intros Hq Hterm. apply negb_true_iff, negb_false_iff in Hq. rewrite Hq in *.
    by destruct (bool_decide _).
Qed.

Lemma send_request_type input r : send_request E input = Ok r → sr_type r ≠ MessageTypeNone.
Proof.
  unfold send_request. cbv zeta. intros H. do 6 (case_bool; [|done]).
  destruct (if is_empty (SendMessageInput.Typ input) then _ else _) as [ty|] eqn:Ety; [|done].
  injection H as <-. cbn. intros ->. revert Ety. unfold parse_message_type.
  repeat case_bool; done.
Qed.

Lemma send_conversation_id now r cid s c :
  structure_ok s → send_conversation E now r cid s = Ok c → Conversation.ConversationID c = cid.
Proof.
  intros Hs. unfold send_conversation. destruct (conversations s !! cid) eqn:Ec.
  - repeat (case_match; [done|]). intros [= <-]. cbn. by apply (so_conv_key _ Hs).
  - case_match; [done|]. by intros [= <-].
Qed.

Lemma send_plan_spec now input r t s a :
  structure_ok s → sr_type r ≠ MessageTypeNone → agents s !! sr_to r = Some t →
  send_plan E now input r t s = Ok a →
  acceptance_ok s a ∧
  ∃ cid conv, choose_conversation (SendMessageInput.ConversationID input) s =
      (SendAcceptance.nextConversationID a, cid) ∧
    send_conversation E now r cid s = Ok conv ∧
    SendAcceptance.message a =
      send_message E now input r cid t (message_id (inc64 (nextMessageID s))) ∧
    SendAcceptance.idempotencyKey a = dedupeKey (sr_from r) (sr_to r) (sr_requestID r) ∧
    SendAcceptance.idempotency a =
      Some (IdempotencyEntry.mk (Message.MessageID (SendAcceptance.message a)) now) ∧
    (target_expired t = true → After now (grace_until E t) = false) ∧
    SendAcceptance.inboxEvent a =
      (if target_expired t then None else Some (messageInboxEvent (SendAcceptance.message a))).
Proof.
  intros Hs Hty Ht. unfold send_plan.
  destruct (choose_conversation _ s) as [next cid] eqn:Ecc.
  destruct (send_conversation E now r cid s) as [conv|] eqn:Ec; [|done].
  destruct (target_expired t && After now (grace_until E t)) eqn:Eg; [done|]. cbn [negb].
  pose proof (send_conversation_id _ _ _ _ _ Hs Ec) as Hid. rewrite Hid.
  intros [= <-]. split.
  - pose proof (choose_conversation_next (SendMessageInput.ConversationID input) s) as Hn.
    rewrite Ecc in Hn.
    constructor; cbn; [done|done|exact Hn|done|done|done|by apply send_message_ok| |].
    + intros e. destruct (negb _); [|done]. intros [= <-]. split; [done|eauto].
    + by intros ? [= <-].
  - exists cid, conv. cbn. split_and!; try done.
    + intros He. rewrite He in Eg. done.
    + by destruct (target_expired t).
Qed.

Lemma inject_message_ok now i b to cid id t : message_ok (inject_message E now i b to cid id t).
Proof.
  unfold inject_message. constructor; cbn; [done| | |].
  - by destruct (match t with Some _ => _ | None => _ end).
  - destruct (match t with Some _ => _ | None => _ end); naive_solver.
  - by destruct (match t with Some _ => _ | None => _ end).
Qed.

Lemma inject_conversation_id now cid s :
  structure_ok s → Conversation.ConversationID (inject_conversation now cid s) = cid.
Proof.
  intros Hs. unfold inject_conversation. destruct (conversations s !! cid) eqn:Ec; [|done].
  by apply (so_conv_key _ Hs).
Qed.

Lemma inject_target_agent now to s t : inject_target E now to s = Ok (Some t) → agents s !! to = Some t.
Proof. unfold inject_target. intros H. repeat (case_match; try done); congruence. Qed.

Lemma inject_plan_spec now input identity body to s a :
  structure_ok s → inject_plan E now input identity body to s = Ok a →
  acceptance_ok s a ∧
  ∃ cid target, choose_conversation (InjectInput.ConversationID input) s =
      (SendAcceptance.nextConversationID a, cid) ∧
    inject_target E now to s = Ok target ∧
    SendAcceptance.message a =
      inject_message E now identity body to cid (message_id (inc64 (nextMessageID s))) target ∧
    SendAcceptance.idempotency a = None.
Proof.
  intros Hs. unfold inject_plan.
  destruct (choose_conversation _ s) as [next cid] eqn:Ecc.
  destruct (inject_target E now to s) as [target|] eqn:Et; [|done].
  rewrite (inject_conversation_id now cid s Hs).
  intros [= <-]. split.
  - pose proof (choose_conversation_next (InjectInput.ConversationID input) s) as Hn.
    rewrite Ecc in Hn.
    constructor; cbn; [done|done|exact Hn|by apply inject_conversation_id|done|done
      |apply inject_message_ok| |done].
    intros e. destruct target as [t|]; [|done].
    destruct (target_expired t); [done|]. intros [= <-]. split; [done|].
    apply inject_target_agent in Et. eauto.
  - by exists cid, target.
Qed.

(** ** Installing an acceptance *)

Lemma install_structure a s :
  structure_ok s → acceptance_ok s a →
  nextMessageID s < max_int64 → nextConversationID s < max_int64 →
  structure_ok (install a s).
Proof.
  intros Hs Ha Hm Hc. destruct Ha as [Hnext Hid Hconv Hcid Hpos Hcount Hmsg _ _].
  pose proof (so_msgID _ Hs) as H0. pose proof (so_convID _ Hs) as H0c.
  rewrite inc64_lt in Hnext, Hid by lia. rewrite (inc64_lt (nextConversationID s)) in Hconv by lia.
  set (m := SendAcceptance.message a) in *. set (conv := SendAcceptance.conversation a) in *.
  set (n := nextMessageID s) in *.
  assert (¬ issued n (Message.MessageID m)) as Hfresh by (rewrite Hid; by apply issued_fresh).
  assert (issued (n + 1) (Message.MessageID m)) as Hiss.
  { exists (n + 1). split; [lia|done]. }
  assert (messages s !! Message.MessageID m = None) as Hnone.
  { destruct (messages s !! _) eqn:E1; [|done]. by apply (so_issued _ Hs) in E1. }
  assert (∀ c, conversation_messages (install a s) c =
    if decide (Conversation.ConversationID conv = c)
    then conversation_messages s c ++ [Message.MessageID m] else conversation_messages s c) as Hcm.
  { intros c. unfold install, conversation_messages; cbn. fold conv m. case_decide as Hd.
    - subst c. by rewrite lookup_insert_eq.
    - by rewrite lookup_insert_ne. }
  assert (∀ i, issued n i → issued (n + 1) i) as Hmono by (intros i; apply issued_mono; lia).
  assert (∀ k, k ∈ [Message.MessageID m] ↔ k = Message.MessageID m) as Hsing by (intros k; apply list_elem_of_singleton).
  constructor; try setoid_rewrite Hcm; cbn; fold m conv; try rewrite Hnext.
  - destruct Hconv; lia.
  - lia.
  - apply Hs.
  - intros k c [[<- <-]|[_ ?]]%lookup_insert_Some; [done|by apply Hs].
  - intros k x [[<- <-]|[_ ?]]%lookup_insert_Some; [done|by apply Hs].
  - intros k x [[<- <-]|[_ Hx]]%lookup_insert_Some; [done|by eapply (so_msg _ Hs)].
  - intros k x [[<- <-]|[_ Hx]]%lookup_insert_Some; [done|]. by eapply Hmono, (so_issued _ Hs).
  - intros k r Hr. by eapply Hmono, (so_receipts _ Hs).
  - intros c i. case_decide; rewrite ?elem_of_app, ?Hsing; [intros [Hi| ->]; [|done]|intros Hi];
      by eapply Hmono, (so_listed_issued _ Hs).
  - intros k x [[<- <-]|[_ Hx]]%lookup_insert_Some.
    + rewrite decide_True by done. rewrite elem_of_app, Hsing. by right.
    + apply (so_listed _ Hs) in Hx. case_decide; rewrite ?elem_of_app; auto.
  - intros c i x Hi [[<- <-]|[Hne Hx]]%lookup_insert_Some.
    + case_decide; [congruence|]. by apply (so_listed_issued _ Hs) in Hi.
    + apply (so_owner _ Hs c i x); [|done]. revert Hi. case_decide; [|done].
      rewrite elem_of_app, Hsing. intros [?| ->]; done.
  - intros c. case_decide; [|by apply Hs]. apply NoDup_app. split_and!; [by apply Hs| |apply NoDup_singleton].
    intros i Hi. rewrite Hsing. intros ->. by apply (so_listed_issued _ Hs) in Hi.
  - intros c [l Hl]. apply lookup_insert_Some in Hl as [[<- _]|[Hne Hl]].
    + rewrite lookup_insert_eq. eauto.
    + rewrite lookup_insert_ne by done. apply (so_conv_dom _ Hs). eauto.
  - intros k c [[<- <-]|[Hne Hk]]%lookup_insert_Some.
    + rewrite decide_True by done. rewrite Hcount, Hpos, <-Hcid, length_app. cbn. lia.
    + rewrite decide_False by done. by apply Hs.
  - apply Hs.
Qed.

Lemma install_sinv a s :
  sinv E s → acceptance_ok s a → nextMessageID s < max_int64 → nextConversationID s < max_int64 →
  sinv E (install a s).
Proof.
  intros Hs Ha ? ?. apply (sinv_ext E s); [done..| |done].
  apply install_structure; [apply Hs|done..].
Qed.

Lemma set_receipt_sinv key d s :
  sinv E s → issued (nextMessageID s) (IdempotencyEntry.MessageID d) →
  sinv E (set_idempotency (<[key := d]> (idempotency s)) s).
Proof.
  intros Hs Hd. apply (sinv_ext E s); [done..| |done]. destruct Hs as [[] _ _].
  constructor; try done; cbn. intros k r [[<- <-]|[_ ?]]%lookup_insert_Some; eauto.
Qed.

Lemma append_event_sinv to evt s :
  (∀ e, evt = Some e → is_Some (agents s !! to)) → sinv E s → sinv E (append_event E to evt s).
Proof. intros He Hs. destruct evt as [e|]; cbn; [|done]. apply appendInboxLocked_sinv; eauto. Qed.

Lemma append_event_frame to evt s : inbox_frame s (append_event E to evt s).
Proof. destruct evt; cbn; [apply appendInboxLocked_frame|done]. Qed.

(** ** Sends and injections as steps *)

Lemma install_step now a s :
  acceptance_ok s a → nextMessageID s < max_int64 → nextConversationID s < max_int64 →
  sinv E s → step_ok E now 0 s (install a s).
Proof.
  intros Ha Hm Hc Hs. pose proof (so_msgID _ (si_structure _ _ Hs)) as H0.
  constructor; [done|by apply install_sinv| | | |by intros Hp
    |apply calm_wakes; by repeat constructor].
  - intros j _ Hr. by apply (roomy_ext E j s).
  - destruct Ha as [Hn Hid _ _ _ _ _ _ _]. rewrite inc64_lt in Hn, Hid by lia.
    split; [cbn; lia|]. intros k x. cbn.
    intros [[<- <-]|[_ Hx]]%lookup_insert_Some; [right|left; by exists x].
    rewrite Hid. by apply issued_fresh.
  - by intros key d.
Qed.

Lemma set_receipt_step now key d s :
  issued (nextMessageID s) (IdempotencyEntry.MessageID d) →
  (∀ d0, idempotency s !! key = Some d0 →
    Config.IdempotencyWindow (cfg E) < Sub now (IdempotencyEntry.CreatedAt d0)) →
  sinv E s → step_ok E now 0 s (set_idempotency (<[key := d]> (idempotency s)) s).
Proof.
  intros Hd Hold Hs. constructor; [done|by apply set_receipt_sinv| | | |by intros Hp
    |apply calm_wakes; by repeat constructor].
  - intros j _ Hr. by apply (roomy_ext E j s).
  - by apply history_same.
  - intros k e He Hw. cbn. rewrite lookup_insert_ne; [done|]. intros ->.
    specialize (Hold _ He). lia.
Qed.

Lemma append_event_step now to evt s :
  (∀ e, evt = Some e → is_Some (agents s !! to)) → sinv E s →
  step_ok E now 0 s (append_event E to evt s).
Proof.
  intros He Hs. destruct evt as [e|]; cbn; [|by apply step_refl]. apply append_step; eauto.
Qed.

(** The barrier has passed: the rest of [sendMessage] is a step. *)
Lemma send_apply_step now a s :
  acceptance_ok s a → nextMessageID s < max_int64 → nextConversationID s < max_int64 →
  (∀ d0, idempotency s !! SendAcceptance.idempotencyKey a = Some d0 →
    Config.IdempotencyWindow (cfg E) < Sub now (IdempotencyEntry.CreatedAt d0)) →
  sinv E s → step_ok E now 1 s (send_apply E now a s).
Proof.
  intros Ha Hm Hc Hold Hs. unfold send_apply. cbv zeta.
  pose proof (so_msgID _ (si_structure _ _ Hs)) as H0.
  eapply (step_trans E now 0 1); [by apply install_step|]. intros Hs1.
  assert (nextMessageID (install a s) = nextMessageID s + 1) as Hn1.
  { cbn. rewrite (ac_next _ _ Ha), inc64_lt; lia. }
  assert (agents (install a s) = agents s ∧ idempotency (install a s) = idempotency s)
    as [Hag1 Hid1] by done.
  generalize dependent (install a s). intros s1 Hs1 Hn1 Hag1 Hid1.
  eapply (step_trans E now 0 1 s1
    (match SendAcceptance.idempotency a with Some d => _ | None => s1 end)).
  { destruct (SendAcceptance.idempotency a) as [d|] eqn:Ed; [|by apply step_refl].
    apply set_receipt_step; [|by rewrite Hid1|done].
    rewrite (ac_receipt _ _ Ha d Ed), (ac_id _ _ Ha), inc64_lt by lia.
    exists (nextMessageID s + 1). split; [lia|done]. }
  intros Hs2. set (s2 := match SendAcceptance.idempotency a with Some _ => _ | None => _ end) in *.
  assert (agents s2 = agents s) as Hag2 by (unfold s2; case_match; exact Hag1).
  clearbody s2. eapply (step_trans E now 0 1); [apply append_event_step; [|done]|].
  - intros e He. rewrite Hag2. by apply (ac_event _ _ Ha e).
  - intros Hs3. by apply publish_step.
Qed.

Lemma inject_apply_step now identity a s :
  acceptance_ok s a → nextMessageID s < max_int64 → nextConversationID s < max_int64 →
  sinv E s → step_ok E now 2 s (inject_apply E now identity a s).
Proof.
  intros Ha Hm Hc Hs. unfold inject_apply. cbv zeta.
  eapply (step_trans E now 0 2); [by apply install_step|]. intros Hs1.
  assert (agents (install a s) = agents s) as Hag1 by done.
  generalize dependent (install a s). intros s1 Hs1 Hag1.
  eapply (step_trans E now 0 2); [apply append_event_step; [|done]|].
  - intros e He. rewrite Hag1. by apply (ac_event _ _ Ha e).
  - intros Hs3. apply (step_trans E now 1 1) with (s2 := publishLocked E ObserveHumanInjection
      (injection_data identity (SendAcceptance.message a) now)
      (Message.ConversationID (SendAcceptance.message a))
      [Message.From (SendAcceptance.message a); Message.To (SendAcceptance.message a)] now
      (append_event E (Message.To (SendAcceptance.message a)) (SendAcceptance.inboxEvent a) s1));
      [by apply publish_step|]. intros Hs4. by apply publish_step.
Qed.

(** Push scheduling touches only the queue, the wait group and the counters. *)
Record push_frame (s s' : Store) : Prop := {
  pf_quiet : quiet s s';
  pf_convID : nextConversationID s' = nextConversationID s;
  pf_conversations : conversations s' = conversations s;
  pf_convmsgs : conversationMessages s' = conversationMessages s;
  pf_inboxes : inboxes s' = inboxes s;
  pf_base : inboxBase s' = inboxBase s;
  pf_bytes : inboxBytes s' = inboxBytes s;
  pf_chans : same_chans s s' }.

#[export] Instance push_frame_preorder : PreOrder push_frame.
Proof.
  split; [by intros s; repeat constructor|].
  intros x y z [[] ? ? ? ? ? ? (?&?&?)] [[] ? ? ? ? ? ? (?&?&?)].
  constructor; [constructor|..|split_and!]; congruence.
Qed.

Lemma schedule_push_frame a r s : push_frame s (schedule_push E a r s).2.
Proof.
  unfold schedule_push, enqueuePushJobLocked.
  repeat (case_match; cbn in *; simplify_eq; try by repeat constructor).
Qed.

Lemma finishAcceptance_frame j r s : push_frame s (finishAcceptance j r s).2.
Proof. unfold finishAcceptance. by repeat case_match; repeat constructor. Qed.

Lemma push_frame_step now s s' : push_frame s s' → sinv E s → step_ok E now 0 s s'.
Proof.
  intros [Hq ? ? ? ? ? ? Hc] Hs.
  apply quiet_step; [done|apply calm_wakes; destruct Hq; by constructor|].
  apply (sinv_ext E s); [done..| |done]. destruct Hq.
  assert (core_eq s s') as <- by (constructor; congruence). apply Hs.
Qed.

(** The tail shared by both operations. *)
Definition push_tail (a : SendAcceptance.t) (receipt : option string) (s : Store)
    : option (string * string) * Store :=
  let '(failed, reason, s) := schedule_push E a receipt s in finishAcceptance failed reason s.

Lemma push_tail_frame a r s : push_frame s (push_tail a r s).2.
Proof.
  unfold push_tail. pose proof (schedule_push_frame a r s) as H1.
  destruct (schedule_push E a r s) as [[failed reason] s1]. cbn in H1.
  etransitivity; [exact H1|]. apply finishAcceptance_frame.
Qed.

(** [sendMessage] by cases: refused before the lock, refused or answered from
    a receipt after the sweep, or accepted. *)
Inductive send_case (commit : Commit) (o : Order) (now : Time) (input : SendMessageInput.t)
    (s : Store) : Store * result Error.t (Message.t * bool) * option (string * string) → Prop :=
| send_invalid e : send_request E input = Err e → send_case commit o now input s (s, Err e, None)
| send_refused r e :
    send_request E input = Ok r →
    send_case commit o now input s (sweepLocked E o now s, Err e, None)
| send_repeated r t d :
    send_request E input = Ok r →
    send_target E r (sweepLocked E o now s) = Ok t →
    send_duplicate E now r (sweepLocked E o now s) = Some d →
    send_case commit o now input s
      (sweepLocked E o now s, Ok (duplicate_message r d (sweepLocked E o now s), true), None)
| send_accepted r t a receipt :
    send_request E input = Ok r →
    send_target E r (sweepLocked E o now s) = Ok t →
    send_duplicate E now r (sweepLocked E o now s) = None →
    send_plan E now input r t (sweepLocked E o now s) = Ok a →
    run_commit commit a = Ok receipt →
    send_case commit o now input s
      ((push_tail a receipt (send_apply E now a (sweepLocked E o now s))).2,
       Ok (SendAcceptance.message a, false),
       (push_tail a receipt (send_apply E now a (sweepLocked E o now s))).1).

Lemma sendMessage_cases commit o now input s :
  send_case commit o now input s (sendMessage E commit o now input s).
Proof.
  unfold sendMessage. destruct (send_request E input) as [r|e] eqn:Er; [|by apply send_invalid].
  cbv zeta. destruct (send_target E r _) as [t|e] eqn:Et; [|by eapply send_refused].
  destruct (send_duplicate E now r _) as [d|] eqn:Ed; [by eapply send_repeated|].
  destruct (send_plan E now input r t _) as [a|e] eqn:Ep; [|by eapply send_refused].
  destruct (run_commit commit a) as [receipt|e] eqn:Ec; [|by eapply send_refused].
  pose proof (send_accepted commit o now input s r t a receipt Er Et Ed Ep Ec) as H.
  revert H. unfold push_tail.
  destruct (schedule_push E a receipt _) as [[failed reason] s1].
  by destruct (finishAcceptance failed reason s1).
Qed.

Lemma send_duplicate_None now r s :
  send_duplicate E now r s = None ↔
  ∀ d, idempotency s !! dedupeKey (sr_from r) (sr_to r) (sr_requestID r) = Some d →
    Config.IdempotencyWindow (cfg E) < Sub now (IdempotencyEntry.CreatedAt d).
Proof.
  unfold send_duplicate. destruct (idempotency s !! _) as [d|]; [|naive_solver].
  case_bool; prop_bool; split; try done; naive_solver lia.
Qed.

Lemma sendMessage_step commit o now input s :
  nextMessageID s < max_int64 → nextConversationID s < max_int64 → sinv E s →
  step_ok E now (sweep_events o + 1) s (sendMessage E commit o now input s).1.1.
Proof.
  intros Hm Hc Hs. pose proof (sweep_step E o now s Hs) as Hsw.
  pose proof (st_nonneg _ _ _ _ _ Hsw) as Hk.
  destruct (sweepLocked_frame E o now s) as [Hn1 Hn2 _ _].
  destruct (sendMessage_cases commit o now input s) as [e|r e Hr|r t d|r t a rc Hr Ht Hd Hp _]; cbn [fst].
  - eapply step_weaken; [|by apply step_refl]. lia.
  - eapply step_weaken; [|exact Hsw]. lia.
  - eapply step_weaken; [|exact Hsw]. lia.
  - eapply step_trans; [exact Hsw|]. intros Hs1.
    generalize dependent (sweepLocked E o now s). intros s1 _ Hn1 Hn2 Ht Hd Hp Hs1.
    destruct (send_target_spec _ _ _ Ht) as [Htg _].
    destruct (send_plan_spec now input r t s1 a) as [Ha (cid & conv & _ & _ & _ & Hkey & _)];
      [apply Hs1|by eapply send_request_type|done|done|].
    apply (step_trans E now 1 0 s1 (send_apply E now a s1)).
    + apply send_apply_step; [done|congruence|congruence| |done].
      rewrite Hkey. by apply send_duplicate_None.
    + intros Hs2. apply push_frame_step; [apply push_tail_frame|done].
Qed.

(** The caller's part of a request. *)
Lemma send_request_fields input r :
  send_request E input = Ok r →
  sr_from r = TrimSpace (SendMessageInput.From input) ∧
  sr_to r = TrimSpace (SendMessageInput.To input) ∧
  sr_requestID r = TrimSpace (SendMessageInput.RequestID input) ∧
  sr_body r = TrimSpace (SendMessageInput.Body input) ∧
  acceptsName E (sr_from r) = true ∧ acceptsName E (sr_to r) = true.
Proof.
  unfold send_request. cbv zeta. intros H.
  case_bool; [|done]. destruct (acceptsName E _) eqn:Eto; [|done].
  case_bool; [|done]. destruct (acceptsName E (TrimSpace (SendMessageInput.From input))) eqn:Efr; [|done].
  do 2 (case_bool; [|done]). case_match; [|done]. by injection H as <-.
Qed.

(** The receipt an accepted send leaves. *)
Lemma send_apply_receipt now a s d :
  SendAcceptance.idempotency a = Some d →
  idempotency (send_apply E now a s) !! SendAcceptance.idempotencyKey a = Some d.
Proof.
  intros Hd. unfold send_apply. cbv zeta.
  rewrite (of_idem _ _ (publishLocked_frame E _ _ _ _ _ _)), (if_idem _ _ (append_event_frame _ _ _)), Hd.
  cbn. by rewrite lookup_insert_eq.
Qed.

(** [inject] by cases. *)
Inductive inject_case (commit : Commit) (o : Order) (now : Time) (input : InjectInput.t)
    (s : Store) : Store * result Error.t Message.t * option (string * string) → Prop :=
| inject_invalid e : inject_request E input = Err e → inject_case commit o now input s (s, Err e, None)
| inject_refused q e :
    inject_request E input = Ok q →
    inject_case commit o now input s (sweepLocked E o now s, Err e, None)
| inject_accepted identity body to a receipt :
    inject_request E input = Ok (identity, body, to) →
    inject_plan E now input identity body to (sweepLocked E o now s) = Ok a →
    run_commit commit a = Ok receipt →
    inject_case commit o now input s
      ((push_tail a receipt (inject_apply E now identity a (sweepLocked E o now s))).2,
       Ok (SendAcceptance.message a),
       (push_tail a receipt (inject_apply E now identity a (sweepLocked E o now s))).1).

Lemma inject_cases commit o now input s :
  inject_case commit o now input s (inject E commit o now input s).
Proof.
  unfold inject. destruct (inject_request E input) as [[[identity body] to]|e] eqn:Er;
    [|by apply inject_invalid].
  cbv zeta. destruct (inject_plan E now input identity body to _) as [a|e] eqn:Ep;
    [|by eapply inject_refused].
  destruct (run_commit commit a) as [receipt|e] eqn:Ec; [|by eapply inject_refused].
  pose proof (inject_accepted commit o now input s identity body to a receipt Er Ep Ec) as H.
  revert H. unfold push_tail.
  destruct (schedule_push E a receipt _) as [[failed reason] s1].
  by destruct (finishAcceptance failed reason s1).
Qed.

Lemma inject_step commit o now input s :
  nextMessageID s < max_int64 → nextConversationID s < max_int64 → sinv E s →
  step_ok E now (sweep_events o + 2) s (inject E commit o now input s).1.1.
Proof.
  intros Hm Hc Hs. pose proof (sweep_step E o now s Hs) as Hsw.
  pose proof (st_nonneg _ _ _ _ _ Hsw) as Hk.
  destruct (sweepLocked_frame E o now s) as [Hn1 Hn2 _ _].
  destruct (inject_cases commit o now input s) as [e|q e|identity body to a rc Hr Hp _]; cbn [fst].
  - eapply step_weaken; [|by apply step_refl]. lia.
  - eapply step_weaken; [|exact Hsw]. lia.
  - eapply step_trans; [exact Hsw|]. intros Hs1.
    generalize dependent (sweepLocked E o now s). intros s1 _ Hn1 Hn2 Hp Hs1.
    destruct (inject_plan_spec now input identity body to s1 a) as [Ha _]; [apply Hs1|done|].
    apply (step_trans E now 2 0 s1 (inject_apply E now identity a s1)).
    + apply inject_apply_step; [done|congruence|congruence|done].
    + intros Hs2. apply push_frame_step; [apply push_tail_frame|done].
Qed.

End spec.

(** ** The frame of an accepted send

    [send_frame] lists, field by field, the store an accepted [sendMessage]
    leaves: what the message adds to each of them, and that the others are
    unchanged.  It is written from the request and the swept store alone; the
    lemmas below show that [send_plan], [send_apply] and the push tail of
    [Send.v] establish it. *)

(** *** What the frame says of each part *)

(** Who joins a conversation with participants [ps], in order. *)
Definition joining (from to : string) (ps : list string) : list string :=
  let present := TrimSpace <$> ps in
  (if decide (from ∈ present) then [] else [from]) ++
  (if decide (to ∈ from :: present) then [] else [to]).

(** The record of conversation [cid] after a message between [from] and [to]. *)
Record conversation_after (from to cid : string) (now : Time) (s : Store) (conv : Conversation.t)
    : Prop := {
  ca_id : Conversation.ConversationID conv = cid;
  ca_count : Conversation.MessageCount conv = Z.of_nat (length (conversation_messages s cid)) + 1;
  ca_last : Conversation.LastMessageAt conv = now;
  ca_rest : match conversations s !! cid with
    | Some c => Conversation.Title conv = Conversation.Title c ∧
        Conversation.CreatedAt conv = Conversation.CreatedAt c ∧
        Conversation.Meta conv = Conversation.Meta c ∧
        Conversation.Status conv =
          (if decide (Conversation.Status c = ε) then active_status else Conversation.Status c) ∧
        Conversation.Participants conv =
          Conversation.Participants c ++ joining from to (Conversation.Participants c)
    | None => Conversation.Title conv = ε ∧ Conversation.CreatedAt conv = now ∧
        Conversation.Meta conv = JNull ∧ Conversation.Status conv = active_status ∧
        Conversation.Participants conv = [from; to]
    end }.

(** The fate of the callback of an accepted message: none is due; the pool is
    closed; it is queued; or the queue is full, and the failure of a callback
    with a receipt is reported in the background. *)
Inductive push_outcome (cap : Z) (job : option PushJob.t) (rc : option (string * string))
    (s s' : Store) : Prop :=
| push_none :
    job = None → rc = None → pushQueue s' = pushQueue s → pushWG s' = pushWG s →
    pushFailures s' = pushFailures s → push_outcome cap job rc s s'
| push_closed j :
    job = Some j → pushClosed s = true → rc = None → pushQueue s' = pushQueue s →
    pushWG s' = pushWG s → pushFailures s' = inc64 (pushFailures s) → push_outcome cap job rc s s'
| push_queued j :
    job = Some j → pushClosed s = false → Z.of_nat (length (pushQueue s)) < cap → rc = None →
    pushQueue s' = pushQueue s ++ [j] → pushWG s' = pushWG s + 1 →
    pushFailures s' = pushFailures s → push_outcome cap job rc s s'
| push_full j :
    job = Some j → pushClosed s = false → cap ≤ Z.of_nat (length (pushQueue s)) →
    rc = ((λ id, (id, "push queue full"%stdpp)) <$> PushJob.receipt j) →
    pushQueue s' = pushQueue s →
    pushWG s' = pushWG s + (match PushJob.receipt j with Some _ => 1 | None => 0 end) →
    pushFailures s' = inc64 (pushFailures s) → push_outcome cap job rc s s'.

(** The channels a send closes: the event stream's and, where the message is
    delivered, that of a waiter on the target's inbox. *)
Definition woken (live : bool) (to : string) (s : Store) : gset nat :=
  {[observeNotify s]} ∪
  match inboxNotify s !! to with Some ch => if live then {[ch]} else ∅ | None => ∅ end.

(** The state a fresh message starts in. *)
Definition initial_state (typ : MessageType) (live : bool) : MessageState :=
  if bool_decide (typ = MessageTypeRequest) then (if live then StateWaitingAck else StatePending)
  else StateCompleted.

Section frame.
Context (E : Static).

(** The message a request becomes, its identifier and conversation aside: the
    caller's trimmed fields, and the state its type and target call for. *)
Record message_for (now : Time) (input : SendMessageInput.t) (target : Agent.t) (m : Message.t)
    : Prop := {
  mf_from : Message.From m = TrimSpace (SendMessageInput.From input);
  mf_to : Message.To m = TrimSpace (SendMessageInput.To input);
  mf_request : Message.RequestID m = TrimSpace (SendMessageInput.RequestID input);
  mf_reply : Message.InReplyTo m = TrimSpace (SendMessageInput.InReplyTo input);
  mf_body : Message.Body m = TrimSpace (SendMessageInput.Body input);
  mf_meta : Message.Meta m = SendMessageInput.Meta input;
  mf_attachments : Message.Attachments m = SendMessageInput.Attachments input;
  mf_type : if decide (SendMessageInput.Typ input = ε) then Message.Typ m = MessageTypeRequest
            else parse_message_type (SendMessageInput.Typ input) = Some (Message.Typ m);
  mf_created : Message.CreatedAt m = now;
  mf_ttl : Message.TTLExpiresAt m = Add now (seconds
    (if decide (0 < SendMessageInput.TTLSeconds input) then SendMessageInput.TTLSeconds input
     else int_seconds (Config.DefaultMessageTTL (cfg E))));
  mf_state : Message.State m = initial_state (Message.Typ m) (negb (target_expired target));
  mf_terminal : Message.TerminalAt m =
    (if decide (Message.Typ m = MessageTypeRequest) then 0 else now);
  mf_delivered : Message.DeliveredAt m =
    (if decide (Message.State m = StateWaitingAck) then now else 0);
  mf_progress : Message.LastProgressAt m = 0;
  mf_queued : Message.QueuedForAgent m = target_expired target;
  mf_grace : Message.GraceUntil m = (if target_expired target then grace_until E target else 0) }.

(** One event more at the end of the stream, and a prefix evicted to keep it
    within its budget. *)
Definition stream_after (evt : ObserveEvent.t) (s s' : Store) : Prop :=
  let evs := observeEvents s ++ [evt] in
  let bytes := observeBytes s + ObserveEvent.Size evt in
  let n := evict_count (Config.MaxObserveEvents (cfg E)) (Config.MaxObserveBytes (cfg E)) bytes evs in
  nextObserveID s' = inc64 (nextObserveID s) ∧
  observeEvents s' = drop n evs ∧ observeBytes s' = bytes - total (take n evs).

(** The callback due for [m]. *)
Definition callback_of (target : Agent.t) (m : Message.t) (receipt : option string)
    : option PushJob.t :=
  if target_expired target then None
  else (λ url, PushJob.mk url (push_payload m true) receipt) <$> push_callback target.

(** The store [s'] after message [m] for [target] was accepted in [s]; the
    barrier named [receipt], and [rc] is reported in the background. *)
Record send_frame (now : Time) (input : SendMessageInput.t) (target : Agent.t) (m : Message.t)
    (receipt : option string) (rc : option (string * string)) (s s' : Store) : Prop := {
  fr_messages : messages s' = <[Message.MessageID m := m]> (messages s);
  fr_counter : nextMessageID s' = nextMessageID s + 1 ∧
    Message.MessageID m = message_id (nextMessageID s + 1);
  fr_conversation_id :
    if decide (TrimSpace (SendMessageInput.ConversationID input) = ε)
    then nextConversationID s' = inc64 (nextConversationID s) ∧
         Message.ConversationID m = conversation_id (inc64 (nextConversationID s))
    else nextConversationID s' = nextConversationID s ∧
         Message.ConversationID m = TrimSpace (SendMessageInput.ConversationID input);
  fr_conversations : ∃ conv,
    conversations s' = <[Message.ConversationID m := conv]> (conversations s) ∧
    conversation_after (Message.From m) (Message.To m) (Message.ConversationID m) now s conv;
  fr_lists : conversationMessages s' =
    <[Message.ConversationID m :=
        conversation_messages s (Message.ConversationID m) ++ [Message.MessageID m]]>
      (conversationMessages s);
  fr_receipts : idempotency s' =
    <[dedupeKey (Message.From m) (Message.To m) (Message.RequestID m) :=
        IdempotencyEntry.mk (Message.MessageID m) now]> (idempotency s);
  fr_stream : stream_after
    (published ObserveMessage (message_data m) (Message.ConversationID m)
       [Message.From m; Message.To m] now s) s s';
  fr_inbox : target_expired target = false →
    let d := append_drop E s (Message.To m) (messageInboxEvent m) in
    inbox s' (Message.To m) = drop d (inbox s (Message.To m)) ++ [messageInboxEvent m] ∧
    base s' (Message.To m) = base s (Message.To m) + Z.of_nat d ∧
    inbox_size s' (Message.To m) = total (inbox s' (Message.To m));
  fr_inboxes : ∀ b, target_expired target = true ∨ b ≠ Message.To m →
    inboxes s' !! b = inboxes s !! b ∧ base s' b = base s b ∧ inbox_size s' b = inbox_size s b;
  fr_waiters : inboxNotify s' =
    (if target_expired target then inboxNotify s else delete (Message.To m) (inboxNotify s));
  fr_observers : observeNotify s' = Channels.next (channels s);
  fr_channels : channels s' =
    Channels.mk (S (Channels.next (channels s)))
      (woken (negb (target_expired target)) (Message.To m) s ∪ Channels.closed (channels s)) false;
  fr_push : push_outcome (Config.PushQueueSize (cfg E)) (callback_of target m receipt) rc s s';
  fr_agents : agents s' = agents s;
  fr_sweep : lastSweepAt s' = lastSweepAt s ∧ sweepSkipped s' = sweepSkipped s ∧
    sweepRan s' = sweepRan s;
  fr_pool : pushSuccesses s' = pushSuccesses s ∧ pushClosed s' = pushClosed s }.

(** *** Conversations *)

Lemma merge_two from to ps :
  TrimSpace from = from → TrimSpace to = to → from ≠ ε → to ≠ ε →
  merge_loop (TrimSpace <$> ps) ps [from; to] = ps ++ joining from to ps.
Proof.
  intros Hf Ht Hf0 Ht0. unfold joining. cbn [merge_loop]. rewrite Hf, Ht.
  unfold is_empty. rewrite !bool_decide_eq_false_2 with (P := from = ε) by done.
  rewrite !bool_decide_eq_false_2 with (P := to = ε) by done.
  set (l := TrimSpace <$> ps).
  destruct (decide (from ∈ l)) as [Hi|Hi]; [rewrite (bool_decide_eq_true_2 _ Hi)|rewrite (bool_decide_eq_false_2 _ Hi)];
    destruct (decide (to ∈ from :: l)) as [Hj|Hj].
  - rewrite bool_decide_eq_true_2; [by rewrite app_nil_r|].
    apply elem_of_cons in Hj as [->|?]; done.
  - rewrite bool_decide_eq_false_2; [done|]. intros ?. apply Hj. by right.
  - rewrite (bool_decide_eq_true_2 _ Hj). by rewrite app_nil_r.
  - rewrite (bool_decide_eq_false_2 _ Hj). by rewrite <-app_assoc.
Qed.

(** The conversation record a plan installs. *)
Lemma send_plan_conversation now input r t s a :
  structure_ok s → send_plan E now input r t s = Ok a →
  sr_from r ≠ ε → sr_to r ≠ ε → TrimSpace (sr_from r) = sr_from r → TrimSpace (sr_to r) = sr_to r →
  conversation_after (sr_from r) (sr_to r) (Message.ConversationID (SendAcceptance.message a)) now s
    (SendAcceptance.conversation a).
Proof.
  intros Hs Hp Hf0 Ht0 Hf Ht. revert Hp. unfold send_plan.
  destruct (choose_conversation _ s) as [next cid].
  destruct (send_conversation E now r cid s) as [conv|] eqn:Ec; [|done].
  destruct (negb _); [|done]. intros [= <-]. cbn.
  pose proof (send_conversation_id _ _ _ _ _ _ Hs Ec) as Hid. rewrite Hid.
  constructor; cbn; [exact Hid|done|done|].
  unfold send_conversation in Ec. destruct (conversations s !! cid) as [c|] eqn:Eo.
  - repeat (case_match; [done|]). injection Ec as <-. cbn.
    split_and!; [done..| |by apply merge_two].
    unfold is_empty. destruct (decide (Conversation.Status c = ε)) as [Hst|Hst];
      [by rewrite (bool_decide_eq_true_2 _ Hst)|by rewrite (bool_decide_eq_false_2 _ Hst)].
  - case_match; [done|]. by injection Ec as <-.
Qed.

(** *** The operations, exactly *)

(** Fields no part of a send writes but its own step. *)
Definition untouched (s s' : Store) : Prop :=
  agents s' = agents s ∧ lastSweepAt s' = lastSweepAt s ∧ sweepSkipped s' = sweepSkipped s ∧
  sweepRan s' = sweepRan s ∧ pushSuccesses s' = pushSuccesses s ∧ pushClosed s' = pushClosed s.

#[export] Instance untouched_preorder : PreOrder untouched.
Proof. split; [by intros s|]. intros x y z (?&?&?&?&?&?) (?&?&?&?&?&?). split_and!; congruence. Qed.

Lemma publish_exact ty d c ids t s :
  let s' := publishLocked E ty d c ids t s in
  stream_after (published ty d c ids t s) s s' ∧ untouched s s' ∧
  pushWG s' = pushWG s ∧ observeNotify s' = Channels.next (channels s) ∧
  channels s' = Channels.mk (S (Channels.next (channels s)))
    ({[observeNotify s]} ∪ Channels.closed (channels s))
    (Channels.double_close (channels s) || bool_decide (observeNotify s ∈ Channels.closed (channels s))).
Proof.
  cbv zeta. unfold publishLocked, trimObserveLocked, stream_after. cbv zeta.
  cbn [observeEvents observeBytes set_observeBytes set_observeEvents set_nextObserveID nextObserveID].
  fold (published ty d c ids t s). set (n := evict_count _ _ _ _).
  destruct n as [|n]; cbn [Nat.eqb].
  - rewrite drop_0, take_0. split_and!; try done. unfold total; cbn. lia.
  - by split_and!.
Qed.

Lemma append_exact to e s :
  let s' := appendInboxLocked E to e s in
  untouched s s' ∧ pushWG s' = pushWG s ∧ inboxNotify s' = delete to (inboxNotify s) ∧
  channels s' = match inboxNotify s !! to with
                | Some ch => Channels.close ch (channels s) | None => channels s end.
Proof.
  cbv zeta. unfold appendInboxLocked. cbv zeta.
  match goal with |- context [signalInboxLocked to ?x] => set (s2 := x) end.
  assert (untouched s s2 ∧ pushWG s2 = pushWG s ∧ same_chans s s2) as (Hu & Hw & Hc & _ & Hn).
  { unfold s2. case_match; [|done]. unfold dropInboxPrefixLocked. by case_match. }
  clearbody s2. unfold signalInboxLocked. rewrite Hn.
  destruct (inboxNotify s !! to) as [ch|] eqn:Ech.
  - cbn. by rewrite Hc.
  - rewrite Hn, Hc, delete_id by done. done.
Qed.

Lemma push_tail_exact a receipt s :
  let r := push_tail E a receipt s in
  (∀ p, SendAcceptance.pushPayload a = Some p → SendAcceptance.pushURL a ≠ ε) →
  untouched s r.2 ∧ observeNotify r.2 = observeNotify s ∧
  push_outcome (Config.PushQueueSize (cfg E))
    ((λ p, PushJob.mk (SendAcceptance.pushURL a) p receipt) <$> SendAcceptance.pushPayload a)
    r.1 s r.2.
Proof.
  cbv zeta. intros Hurl. unfold push_tail, schedule_push.
  destruct (SendAcceptance.pushPayload a) as [p|] eqn:Ep; cbn [fmap option_fmap option_map];
    [|split_and!; [done|done|by apply push_none]].
  assert (is_empty (SendAcceptance.pushURL a) = false) as ->.
  { apply bool_decide_eq_false. by eapply Hurl. }
  assert (is_empty shutdown_failure = false ∧ is_empty "push queue full"%stdpp = false) as [Ef1 Ef2] by done.
  set (j := PushJob.mk _ _ _).
  destruct (enqueuePushJobLocked_cases E j s) as [[Hc ->]|[(Hc & Hl & ->)|(Hc & Hl & _)]].
  - subst j. rewrite ?Ef1, ?Ef2. cbn. destruct receipt as [r|]; cbn; rewrite ?Hc;
      (split_and!; [done|done|]); by eapply push_closed.
  - cbn. split_and!; [done|done|by eapply push_queued].
  - unfold enqueuePushJobLocked. rewrite Hc. cbn [pushQueue set_pushWG].
    rewrite (proj2 (Z.ltb_ge _ _)) by done. subst j. rewrite ?Ef1, ?Ef2. cbn. destruct receipt as [r|]; cbn; rewrite ?Hc;
      (split_and!; [done|done|]); (eapply push_full; [reflexivity|..]; cbn; try done; lia).
Qed.

(** *** The frame holds *)

(** What an acceptance asks of the push pool. *)
Lemma send_plan_callback now input r t s a receipt :
  send_plan E now input r t s = Ok a →
  (∀ p, SendAcceptance.pushPayload a = Some p → SendAcceptance.pushURL a ≠ ε) ∧
  (λ p, PushJob.mk (SendAcceptance.pushURL a) p receipt) <$> SendAcceptance.pushPayload a =
    callback_of t (SendAcceptance.message a) receipt.
Proof.
  unfold send_plan. destruct (choose_conversation _ s) as [next cid].
  destruct (send_conversation E now r cid s) as [conv|]; [|done].
  destruct (negb (target_expired t && _)); [|done]. intros [= <-]. cbn.
  unfold callback_of. destruct (target_expired t); cbn; [done|].
  destruct (push_callback t) as [url|] eqn:Eu; cbn; [|done]. split; [|done].
  intros _ _. unfold push_callback in Eu. destruct (_ && _) eqn:Eb; [|done]. injection Eu as <-.
  apply andb_true_iff in Eb as [_ Eb]. by apply negb_true_iff, bool_decide_eq_false in Eb.
Qed.

(** Installing an acceptance, up to the push job. *)
Lemma send_apply_exact now a s :
  let m := SendAcceptance.message a in
  let to := Message.To m in
  let s' := send_apply E now a s in
  let live := match SendAcceptance.inboxEvent a with Some _ => true | None => false end in
  chan_ok s →
  untouched s s' ∧ pushWG s' = pushWG s ∧
  stream_after (published ObserveMessage (message_data m) (Message.ConversationID m)
    [Message.From m; to] now s) s s' ∧
  observeNotify s' = Channels.next (channels s) ∧
  inboxNotify s' = (if live then delete to (inboxNotify s) else inboxNotify s) ∧
  channels s' = Channels.mk (S (Channels.next (channels s)))
    (woken live to s ∪ Channels.closed (channels s)) false.
Proof.
  cbv zeta. intros Hc. unfold send_apply. cbv zeta.
  set (s1 := match SendAcceptance.idempotency a with Some _ => _ | None => _ end).
  assert (untouched s s1 ∧ pushWG s1 = pushWG s ∧ same_chans s s1 ∧
    nextObserveID s1 = nextObserveID s ∧ observeEvents s1 = observeEvents s ∧
    observeBytes s1 = observeBytes s) as (Hu & Hw & (Hch & Ho & Hn) & Hid & Hev & Hby).
  { unfold s1. by case_match. }
  clearbody s1. set (m := SendAcceptance.message a). set (to := Message.To m).
  set (s2 := append_event E to (SendAcceptance.inboxEvent a) s1).
  pose proof (append_event_frame E to (SendAcceptance.inboxEvent a) s1) as Hf. fold s2 in Hf.
  set (live := match SendAcceptance.inboxEvent a with Some _ => true | None => false end).
  assert (untouched s1 s2 ∧ pushWG s2 = pushWG s1 ∧
    inboxNotify s2 = (if live then delete to (inboxNotify s1) else inboxNotify s1) ∧
    channels s2 = (match inboxNotify s1 !! to with
      | Some ch => if live then Channels.close ch (channels s1) else channels s1
      | None => channels s1 end)) as (Hu2 & Hw2 & Hn2 & Hch2).
  { unfold s2, live. destruct (SendAcceptance.inboxEvent a) as [e|]; cbn [append_event];
      [apply append_exact|]. split_and!; try done. by case_match. }
  destruct Hf as [_ _ Hid2 _ _ _ _ Hev2 Hby2 _ _ Ho2 _ _ _ _]. clearbody s2.
  destruct (publish_exact ObserveMessage (message_data m) (Message.ConversationID m)
    [Message.From m; to] now s2) as (Hs3 & Hu3 & Hw3 & Ho3 & Hch3).
  destruct (publishLocked_frame E ObserveMessage (message_data m) (Message.ConversationID m)
    [Message.From m; to] now s2) as [_ _ _ _ _ _ _ _ _ _ _ Hn3 _ _ _ _].
  split_and!.
  - do 2 (etransitivity; [eassumption|]). exact Hu3.
  - congruence.
  - unfold stream_after, published in *. rewrite Hid2, Hev2, Hby2, Hid, Hev, Hby in Hs3. exact Hs3.
  - rewrite Ho3, Hch2, <-Hch. destruct (inboxNotify s1 !! to); [|done]. by case_match.
  - by rewrite Hn3, Hn2, Hn.
  - rewrite Hch3, Hch2, Ho2, Ho, Hn, Hch. destruct Hc as [Hp _ [_ Hoc] Hi _].
    unfold woken. destruct (inboxNotify s !! to) as [ch|] eqn:Ech; [destruct live|]; cbn.
    + destruct (Hi _ _ Ech) as (_ & Hnc & Hne). rewrite Hp.
      rewrite !bool_decide_eq_false_2 by set_solver. cbn. f_equal. set_solver.
    + rewrite Hp, bool_decide_eq_false_2 by done. f_equal. set_solver.
    + rewrite Hp, bool_decide_eq_false_2 by done. f_equal. set_solver.
Qed.

(** What [send_apply] writes to the catalogue, the receipts and the counters. *)
Lemma send_apply_catalogue_exact now a s :
  let m := SendAcceptance.message a in
  let conv := SendAcceptance.conversation a in
  let cid := Conversation.ConversationID conv in
  let s' := send_apply E now a s in
  nextConversationID s' = SendAcceptance.nextConversationID a ∧
  nextMessageID s' = SendAcceptance.nextMessageID a ∧
  conversations s' = <[cid := conv]> (conversations s) ∧
  messages s' = <[Message.MessageID m := m]> (messages s) ∧
  conversationMessages s' =
    <[cid := conversation_messages s cid ++ [Message.MessageID m]]> (conversationMessages s) ∧
  idempotency s' = (match SendAcceptance.idempotency a with
    | Some d => <[SendAcceptance.idempotencyKey a := d]> (idempotency s) | None => idempotency s end) ∧
  pushQueue s' = pushQueue s ∧ pushFailures s' = pushFailures s.
Proof.
  cbv zeta. unfold send_apply. cbv zeta.
  match goal with |- context [publishLocked E ?ty ?d ?c ?ids ?t ?x] =>
    destruct (publishLocked_frame E ty d c ids t x) as [-> -> _ -> -> -> _ _ _ -> _ _ -> _ -> _] end.
  match goal with |- context [append_event E ?to ?e ?x] =>
    destruct (append_event_frame E to e x) as [-> -> _ _ -> -> -> _ _ -> _ _ -> _ -> _] end.
  by destruct (SendAcceptance.idempotency a).
Qed.

(** What it does to the inboxes. *)
Lemma send_apply_inboxes now a s :
  let to := Message.To (SendAcceptance.message a) in
  let s' := send_apply E now a s in
  inbox_ok E s to →
  (∀ e, SendAcceptance.inboxEvent a = Some e →
    inbox s' to = drop (append_drop E s to e) (inbox s to) ++ [e] ∧
    base s' to = base s to + Z.of_nat (append_drop E s to e) ∧
    inbox_size s' to = total (inbox s' to)) ∧
  ∀ b, SendAcceptance.inboxEvent a = None ∨ b ≠ to →
    inboxes s' !! b = inboxes s !! b ∧ base s' b = base s b ∧ inbox_size s' b = inbox_size s b.
Proof.
  cbv zeta. intros Hok. unfold send_apply. cbv zeta. set (to := Message.To _) in *.
  set (s1 := match SendAcceptance.idempotency a with Some _ => _ | None => _ end).
  assert (inboxes s1 = inboxes s ∧ inboxBase s1 = inboxBase s ∧ inboxBytes s1 = inboxBytes s)
    as (Hi & Hb & Hz) by (unfold s1; by case_match).
  clearbody s1.
  assert (∀ b, inbox s1 b = inbox s b ∧ base s1 b = base s b ∧ inbox_size s1 b = inbox_size s b) as Hsame.
  { intros b. unfold inbox, base, inbox_size. by rewrite Hi, Hb, Hz. }
  match goal with |- context [publishLocked E ?ty ?d ?c ?ids ?t ?x] =>
    set (s2 := x); pose proof (publishLocked_inbox E ty d c ids t x) as Hp;
    pose proof (of_inboxes _ _ (publishLocked_frame E ty d c ids t x)) as Hpi end.
  fold s2 in Hp, Hpi. split.
  - intros e He. destruct (Hp to) as (-> & -> & ->). unfold s2. rewrite He. cbn [append_event].
    assert (append_drop E s to e = append_drop E s1 to e) as ->
      by (unfold append_drop; by rewrite (proj1 (Hsame to))).
    destruct (Hsame to) as (<- & <- & Hz').
    destruct (appendInboxLocked_spec E s1 to e) as (Hi1 & Hb1 & [Hz1 _ _]); [by eapply inbox_ok_ext; [| | |exact Hok]; apply Hsame|].
    done.
  - intros b Hb'. destruct (Hp b) as (_ & -> & ->). rewrite Hpi, <-Hi.
    destruct (Hsame b) as (_ & <- & <-). unfold s2.
    destruct (SendAcceptance.inboxEvent a) as [e|]; cbn [append_event]; [|done].
    destruct Hb' as [?|Hb']; [done|].
    destruct (appendInboxLocked_other E to b e s1) as (-> & _ & -> & ->); done.
Qed.

Lemma send_request_nonempty input r : send_request E input = Ok r → sr_from r ≠ ε ∧ sr_to r ≠ ε.
Proof.
  unfold send_request. cbv zeta. intros H.
  destruct (is_empty (TrimSpace (SendMessageInput.To input))) eqn:E1; [done|]. cbn [negb] in H.
  destruct (acceptsName E _); [|done].
  destruct (is_empty (TrimSpace (SendMessageInput.From input))) eqn:E2; [done|]. cbn [negb] in H.
  destruct (acceptsName E _); [|done]. do 2 (destruct (negb _); [|done]).
  case_match; [|done]. injection H as <-. cbn. by apply bool_decide_eq_false in E1, E2.
Qed.

Lemma push_outcome_ext cap job rc s1 s s' :
  pushClosed s1 = pushClosed s → pushQueue s1 = pushQueue s → pushWG s1 = pushWG s →
  pushFailures s1 = pushFailures s → push_outcome cap job rc s1 s' → push_outcome cap job rc s s'.
Proof.
  intros Hc Hq Hw Hf [].
  - apply push_none; congruence.
  - eapply push_closed; first [eassumption|congruence].
  - eapply push_queued; first [eassumption|congruence].
  - eapply push_full; first [eassumption|congruence].
Qed.

(** An accepted send leaves the frame. *)
Lemma accepted_frame now input r t s a receipt :
  sinv E s → nextMessageID s < max_int64 →
  send_request E input = Ok r → send_target E r s = Ok t → send_plan E now input r t s = Ok a →
  let q := push_tail E a receipt (send_apply E now a s) in
  send_frame now input t (SendAcceptance.message a) receipt q.1 s q.2.
Proof.
  intros Hs Hm Hr Ht Hp. cbv zeta.
  destruct (send_target_spec _ _ _ _ Ht) as [Htg _].
  destruct (send_request_fields _ _ _ Hr) as (F1 & F2 & F3 & _ & A1 & A2).
  destruct (send_plan_spec E now input r t s a (si_structure _ _ Hs)
    (send_request_type _ _ _ Hr) Htg Hp) as (Ha & cid & conv & Hcid & _ & Hmsg & Hkey & Hidem & _ & Hev).
  destruct (send_plan_callback now input r t s a receipt Hp) as [Hurl Hcb].
  pose proof (send_request_nonempty _ _ Hr) as [N1 N2].
  pose proof (send_plan_conversation now input r t s a (si_structure _ _ Hs) Hp N1 N2) as Hconv.
  rewrite F1, F2, !TrimSpace_idemp, <-F1, <-F2 in Hconv. specialize (Hconv eq_refl eq_refl).
  assert (Message.From (SendAcceptance.message a) = sr_from r ∧
    Message.To (SendAcceptance.message a) = sr_to r ∧
    Message.RequestID (SendAcceptance.message a) = sr_requestID r ∧
    Message.ConversationID (SendAcceptance.message a) = cid) as (G1 & G2 & G3 & G4) by (by rewrite Hmsg).
  pose proof (so_msgID _ (si_structure _ _ Hs)) as H0.
  destruct (send_apply_exact now a s (si_chan _ _ Hs)) as (U1 & W1 & St1 & O1 & N3 & C1).
  destruct (send_apply_catalogue_exact now a s) as (K1 & K2 & K3 & K4 & K5 & K6 & K7 & K8).
  destruct (send_apply_inboxes now a s (si_inbox _ _ Hs _)) as [I1 I2].
  destruct (push_tail_exact a receipt (send_apply E now a s) Hurl) as (U2 & O2 & Hpush).
  destruct (push_tail_frame E a receipt (send_apply E now a s)) as [[] P1 P2 P3 P4 P5 P6 (P7 & _ & P9)].
  generalize dependent (push_tail E a receipt (send_apply E now a s)). intros [rc s'].
  generalize dependent (send_apply E now a s). intros s2. cbn [fst snd]. intros.
  destruct Ha as [Hn Hid _ Hcid' _ _ _ _ _]. rewrite inc64_lt in Hn, Hid by lia.
  destruct U1 as (?&?&?&?&?&?), U2 as (?&?&?&?&?&?).
  assert (∀ b, base s' b = base s2 b ∧ inbox_size s' b = inbox_size s2 b ∧ inbox s' b = inbox s2 b) as Hb.
  { intros b. unfold base, inbox_size, inbox. by rewrite P4, P5, P6. }
  rewrite Hcid', G4 in K3, K5. rewrite G4 in Hconv.
  constructor; rewrite ?G1, ?G2, ?G3, ?G4.
  - congruence.
  - split; congruence.
  - rewrite P1, K1. unfold choose_conversation, is_empty in Hcid.
    destruct (decide (TrimSpace (SendMessageInput.ConversationID input) = ε)) as [He|He];
      [rewrite (bool_decide_eq_true_2 _ He) in Hcid|rewrite (bool_decide_eq_false_2 _ He) in Hcid];
      by injection Hcid as <- <-.
  - exists (SendAcceptance.conversation a). by rewrite P2, K3.
  - by rewrite P3, K5.
  - rewrite qu_idem, K6, Hidem, Hkey. done.
  - rewrite G1, G2, G4 in St1. unfold stream_after in *. by rewrite qu_obsID, qu_obs, qu_obsbytes.
  - intros Hx. rewrite Hx in Hev. destruct (I1 _ Hev) as (J1 & J2 & J3).
    rewrite G2 in J1, J2, J3. destruct (Hb (sr_to r)) as (-> & -> & ->). done.
  - intros b Hx. destruct (Hb b) as (-> & -> & _). rewrite P4. apply I2. rewrite Hev.
    destruct Hx as [->|Hx]; [by left|right]. by rewrite G2.
  - rewrite P9, N3, Hev, G2. by destruct (target_expired t).
  - congruence.
  - rewrite P7, C1, Hev, G2. by destruct (target_expired t).
  - rewrite <-Hcb. eapply push_outcome_ext; [..|exact Hpush]; congruence.
  - congruence.
  - split_and!; congruence.
  - split; congruence.
Qed.

Lemma send_message_for now input r cid t id :
  send_request E input = Ok r → message_for now input t (send_message E now input r cid t id).
Proof.
  intros Hr. destruct (send_request_fields _ _ _ Hr) as (F1 & F2 & F3 & F4 & _).
  assert ((if decide (SendMessageInput.Typ input = ε) then sr_type r = MessageTypeRequest
           else parse_message_type (SendMessageInput.Typ input) = Some (sr_type r)) ∧
    sr_ttl r = (if decide (0 < SendMessageInput.TTLSeconds input) then SendMessageInput.TTLSeconds input
     else int_seconds (Config.DefaultMessageTTL (cfg E)))) as [Hty Httl].
  { revert Hr. unfold send_request. cbv zeta. do 6 (case_bool; [|done]). unfold is_empty at 1.
    assert ((if SendMessageInput.TTLSeconds input <=? 0 then int_seconds (Config.DefaultMessageTTL (cfg E))
      else SendMessageInput.TTLSeconds input) = (if decide (0 < SendMessageInput.TTLSeconds input)
      then SendMessageInput.TTLSeconds input else int_seconds (Config.DefaultMessageTTL (cfg E)))) as ->.
    { destruct (decide _), (Z.leb_spec (SendMessageInput.TTLSeconds input) 0); lia || done. }
    destruct (decide (SendMessageInput.Typ input = ε)) as [He|He];
      [rewrite (bool_decide_eq_true_2 _ He)|rewrite (bool_decide_eq_false_2 _ He)].
    - by intros [= <-].
    - destruct (parse_message_type _); [|done]. by intros [= <-]. }
  unfold send_message. constructor; cbn; try done.
  - by rewrite Httl.
  - unfold initial_state. destruct (bool_decide _); cbn; by destruct (target_expired t).
  - destruct (decide (sr_type r = MessageTypeRequest)) as [He|He];
      [by rewrite (bool_decide_eq_true_2 _ He)|by rewrite (bool_decide_eq_false_2 _ He)].
  - destruct (bool_decide _), (target_expired t); cbn; by destruct (decide _).
  - apply negb_involutive.
  - by destruct (target_expired t).
Qed.

End frame.
