(* ===== verification/Poll.v ===== *)
(** * Long polling: [pollInbox] and [ObserveSince] of [pkg/bus/store.go]

    Both run a locked section in a loop and, when it finds nothing, wait on a
    broadcast channel or a timer.  A section is a function of the store; the
    loop is a function of the list of wake-ups, each saying how the rest of
    the system changed the store in the meantime.  The list running out is the
    timer firing. *)
From stdpp Require Import gmap strings list.
From Stdlib Require Import ZArith Lia Ascii.
From S2P Require Import Prelude GoBase Json Types Config Auth Ring State Inbox Observe Structure Sweep Conversations Agents Wakeup History.

(** The instants a section reads: at its start and before it waits. *)
Record Reading := mkReading { at_start : Time; at_wait : Time }.

(** A wake-up: what happened to the store while the lock was released. *)
Record Wake := mkWake { w_env : Store → Store; w_order : Order; w_reading : Reading }.

(** A section either returns or waits on a channel for some time. *)
Inductive Outcome (A : Type) :=
| Returned (a : A)
| Waits (ch : nat) (remaining : Duration) (on_timeout : A).
Arguments Returned {A} a.
Arguments Waits {A} ch remaining on_timeout.

(** The loop around a section. *)
Fixpoint wait_loop {A} (section : Order → Reading → Store → Store * Outcome A)
    (o : Order) (r : Reading) (wakes : list Wake) (s : Store) : Store * A :=
  let '(s, out) := section o r s in
  match out with
  | Returned a => (s, a)
  | Waits _ _ on_timeout =>
      match wakes with
      | [] => (s, on_timeout)
      | w :: wakes => wait_loop section (w_order w) (w_reading w) wakes (w_env w s)
      end
  end.

Section poll.
Context (E : Static).

Definition clamp_wait (wait : Duration) : Duration :=
  let wait := if wait <? 0 then 0 else wait in
  if Config.InboxWaitMax (cfg E) <? wait then Config.InboxWaitMax (cfg E) else wait.

(** ** pollInbox *)

(** The optional barrier for cursor advancement; [None] is success. *)
Definition Advance : Type := option (string → Z → option Error.t).

Definition run_advance (advance : Advance) (agentID : string) (cursor : Z) : option Error.t :=
  match advance with Some f => f agentID cursor | None => None end.

Definition poll_request (input : PollInboxInput.t) : result Error.t string :=
  let agentID := TrimSpace (PollInboxInput.AgentID input) in
  guard negb (is_empty agentID) else fail CodeValidation "agent_id is required"%stdpp ;;
  guard acceptsName E agentID
    else fail CodeValidation "agent_id must be prefixed with personal., ucla., or shared."%stdpp ;;
  Ok agentID.

Definition clamp_cursor (cursor lo hi : Z) : Z :=
  let cursor := if cursor <? lo then lo else cursor in if hi <? cursor then hi else cursor.

Definition limited (limit : Z) (events : list InboxEvent.t) : list InboxEvent.t :=
  if (0 <? limit) && (limit <? Z.of_nat (length events)) then take (Z.to_nat limit) events
  else events.

(** The inbox half of the section: reclaim what the cursor acknowledges and
    read from it.  [None] is an empty inbox. *)
Definition read_inbox (advance : Advance) (agentID : string) (cursor limit : Z) (s : Store)
    : Store * result Error.t (Z * option (list InboxEvent.t * Z)) :=
  let b := base s agentID in
  let end_ := b + Z.of_nat (length (inbox s agentID)) in
  let cursor := clamp_cursor cursor b end_ in
  let finish (s : Store) :=
    if cursor <? end_ then
      let out := limited limit (inbox s agentID) in
      (s, Ok (cursor, Some (out, cursor + Z.of_nat (length out))))
    else (s, Ok (cursor, None)) in
  if b <? cursor then
    match run_advance advance agentID cursor with
    | Some e => (s, Err e)
    | None => finish (dropInboxPrefixLocked agentID (cursor - b) s)
    end
  else finish s.

Definition poll_section (advance : Advance) (agentID : string) (input : PollInboxInput.t)
    (deadline : Time) (o : Order) (r : Reading) (s : Store)
    : Store * Outcome (result Error.t (list InboxEvent.t * Z)) :=
  let s := sweepLocked E o (at_start r) s in
  match agents s !! agentID with
  | Some agent =>
      if negb (bool_decide (Agent.Status agent = AgentStatusActive)) then
        (s, Returned (Err (fail CodeUnauthorized "agent is not registered/active"%stdpp))) else
      match authorizeAgentForName E (Agent.AgentID agent) agentID with
      | Some e => (s, Returned (Err e))
      | None =>
          let '(s, res) :=
            read_inbox advance agentID (PollInboxInput.Cursor input) (PollInboxInput.Limit input) s in
          match res with
          | Err e => (s, Returned (Err e))
          | Ok (_, Some (out, next)) => (s, Returned (Ok (out, next)))
          | Ok (cursor, None) =>
              if clamp_wait (PollInboxInput.Wait input) =? 0 then (s, Returned (Ok ([], cursor)))
              else
                let remaining := Sub deadline (at_wait r) in
                if remaining <=? 0 then (s, Returned (Ok ([], cursor)))
                else
                  let '(ch, s) := inboxNotifyChanLocked agentID s in
                  (s, Waits ch remaining (Ok ([], cursor)))
          end
      end
  | None => (s, Returned (Err (fail CodeUnauthorized "agent is not registered/active"%stdpp)))
  end.

(** [started] is the instant the deadline is computed from. *)
Definition pollInbox (advance : Advance) (started : Time) (o : Order) (r : Reading)
    (wakes : list Wake) (input : PollInboxInput.t) (s : Store)
    : Store * result Error.t (list InboxEvent.t * Z) :=
  match poll_request input with
  | Err e => (s, Err e)
  | Ok agentID =>
      let deadline := Add started (clamp_wait (PollInboxInput.Wait input)) in
      wait_loop (poll_section advance agentID input deadline) o r wakes s
  end.

Definition PollInbox := pollInbox None.

(** ** ObserveSince *)

Definition observe_section (afterID : Z) (filter : ObserveFilter.t) (wait : Duration)
    (deadline : Time) (o : Order) (r : Reading) (s : Store)
    : Store * Outcome (list ObserveEvent.t * Z) :=
  let s := sweepLocked E o (at_start r) s in
  let '(out, last) := observe_scan E afterID filter s in
  if (0 <? length out)%nat then (s, Returned (out, last))
  else if wait =? 0 then (s, Returned (out, last))
  else
    let remaining := Sub deadline (at_wait r) in
    if remaining <=? 0 then (s, Returned (out, last))
    else (s, Waits (observeNotify s) remaining ([], last)).

Definition ObserveSince (started : Time) (o : Order) (r : Reading) (wakes : list Wake)
    (afterID : Z) (filter : ObserveFilter.t) (wait : Duration) (s : Store)
    : Store * (list ObserveEvent.t * Z) :=
  let wait := clamp_wait wait in
  wait_loop (observe_section afterID filter wait (Add started wait)) o r wakes s.

(** ** Reading refines the abstract log *)

Lemma clamp_cursor_spec c lo hi :
  lo ≤ hi → lo ≤ clamp_cursor c lo hi ≤ hi ∧ (lo ≤ c ≤ hi → clamp_cursor c lo hi = c) ∧
  (c ≤ lo → clamp_cursor c lo hi = lo) ∧ (hi ≤ c → clamp_cursor c lo hi = hi).
Proof. intros H. unfold clamp_cursor. repeat case_bool; prop_bool; lia. Qed.

(** At most [limit] events, all of them when there is no limit; never none. *)
Definition batch (limit : Z) (events : list InboxEvent.t) : list InboxEvent.t :=
  if 0 <? limit then take (Z.to_nat limit) events else events.

Lemma limited_batch limit events : limited limit events = batch limit events.
Proof.
  unfold limited, batch. destruct (0 <? limit) eqn:E0; cbn; [|done].
  case_bool; [done|]. prop_bool. rewrite take_ge; [done|lia].
Qed.

Lemma batch_nonempty limit events : events ≠ [] → batch limit events ≠ [].
Proof.
  unfold batch. intros Hne. case_bool; [|done]. prop_bool.
  destruct events; [done|]. destruct (Z.to_nat limit) eqn:El; [lia|done].
Qed.

Lemma batch_prefix limit events : ∃ k, batch limit events = take k events.
Proof.
  unfold batch. case_bool; [eauto|]. exists (length events). by rewrite firstn_all.
Qed.

(** The result of a read on the represented log: the batch from the clamped
    cursor, which becomes the base. *)
Lemma read_inbox_refines a cursor limit s L :
  represents s a L →
  let c := clamp_cursor cursor (base s a) (Z.of_nat (length L)) in
  let s' := (read_inbox None a cursor limit s).1 in
  let out := batch limit (drop (Z.to_nat c) L) in
  represents s' a L ∧ base s' a = c ∧
  (read_inbox None a cursor limit s).2 =
    Ok (c, if c <? Z.of_nat (length L) then Some (out, c + Z.of_nat (length out)) else None).
Proof.
  intros HL. pose proof (represents_end _ _ _ HL) as Hend. destruct HL as [Hb Hi].
  cbn zeta. unfold read_inbox. rewrite Hend. cbn zeta.
  set (c := clamp_cursor cursor (base s a) (Z.of_nat (length L))).
  destruct (clamp_cursor_spec cursor (base s a) (Z.of_nat (length L))) as [Hc _]; [lia|].
  fold c in Hc. cbn [run_advance].
  destruct (base s a <? c) eqn:Ebc; prop_bool.
  - assert (0 < c - base s a ≤ Z.of_nat (length (inbox s a))) as Hd by lia.
    destruct (dropInboxPrefixLocked_spec a (c - base s a) s Hd) as (Hi' & Hb' & _).
    set (s2 := dropInboxPrefixLocked a (c - base s a) s) in *.
    assert (represents s2 a L) as HL2 by (apply dropInboxPrefixLocked_represents; by split).
    assert (inbox s2 a = drop (Z.to_nat c) L) as Hi2.
    { rewrite Hi', Hi, drop_drop. f_equal. lia. }
    destruct (c <? Z.of_nat (length L)); cbn [fst snd]; (split_and!; [done|lia|]);
      [by rewrite Hi2, limited_batch|done].
  - assert (c = base s a) as -> by lia.
    destruct (_ <? Z.of_nat (length L)); cbn [fst snd]; (split_and!; [by split|done|]);
      [by rewrite Hi, limited_batch|done].
Qed.

(** ** Polling as steps *)

Lemma read_inbox_cases adv a c l s :
  (read_inbox adv a c l s).1 = s ∨ ∃ n, (read_inbox adv a c l s).1 = dropInboxPrefixLocked a n s.
Proof. unfold read_inbox. cbv zeta. repeat case_match; cbn; eauto. Qed.

Lemma dropInboxPrefixLocked_step now a n s : sinv E s → step_ok E now 0 s (dropInboxPrefixLocked a n s).
Proof.
  intros Hs. pose proof (dropInboxPrefixLocked_frame a n s) as F. destruct F.
  apply quiet_step; [by constructor|apply dropInboxPrefixLocked_waking|].
  destruct Hs as [Hst Hi Hc]. split.
  - assert (core_eq s (dropInboxPrefixLocked a n s)) as Hcore; [|by rewrite <-Hcore].
    apply inbox_frame_core; [apply dropInboxPrefixLocked_frame|].
    destruct (decide (is_Some (inboxes s !! a))) as [Ha|Ha].
    + by apply dropInboxPrefixLocked_dom.
    + assert (inbox s a = []) as He.
      { unfold inbox. destruct (inboxes s !! a); [by destruct Ha|done]. }
      unfold dropInboxPrefixLocked. rewrite He. cbn.
      destruct (n <=? 0) eqn:E0; [done|]. prop_bool. by rewrite (proj2 (Z.ltb_lt _ _)).
  - intros b. by apply dropInboxPrefixLocked_inbox_ok.
  - eapply chan_ok_ext; [apply dropInboxPrefixLocked_chans|done].
Qed.

Lemma inboxNotifyChanLocked_step now a s :
  sinv E s → step_ok E now 0 s (inboxNotifyChanLocked a s).2.
Proof.
  intros Hs. pose proof (inboxNotifyChanLocked_frame a s) as F. destruct F.
  apply quiet_step; [by constructor|apply inboxNotifyChanLocked_waking|].
  destruct Hs as [Hst Hi Hc].
  assert (inboxes (inboxNotifyChanLocked a s).2 = inboxes s ∧
    inboxBase (inboxNotifyChanLocked a s).2 = inboxBase s ∧
    inboxBytes (inboxNotifyChanLocked a s).2 = inboxBytes s) as (H1 & H2 & H3).
  { unfold inboxNotifyChanLocked. by case_match. }
  split; [|intros b|by apply inboxNotifyChanLocked_chan_ok].
  - assert (core_eq s (inboxNotifyChanLocked a s).2) as <-; [|done].
    apply inbox_frame_core; [by constructor|congruence].
  - apply (inbox_ok_ext E s); [..|done]; unfold inbox, base, inbox_size; by rewrite ?H1, ?H2, ?H3.
Qed.

Lemma poll_section_step adv a input d o r s :
  sinv E s →
  step_ok E (at_start r) (sweep_events o) s (poll_section adv a input d o r s).1.
Proof.
  intros Hs. pose proof (sweep_step E o (at_start r) s Hs) as Hsw.
  unfold poll_section. cbv zeta.
  destruct (agents (sweepLocked E o (at_start r) s) !! a) as [ag|]; [|exact Hsw].
  case_bool; [exact Hsw|]. case_match; [exact Hsw|].
  pose proof (read_inbox_cases adv a (PollInboxInput.Cursor input) (PollInboxInput.Limit input)
    (sweepLocked E o (at_start r) s)) as Hc.
  destruct (read_inbox adv a _ _ _) as [s2 res]. cbn [fst] in Hc.
  replace (sweep_events o) with (sweep_events o + 0) by lia.
  eapply step_trans; [exact Hsw|]. intros Hs1.
  assert (step_ok E (at_start r) 0 (sweepLocked E o (at_start r) s) s2) as H2.
  { destruct Hc as [->|[n ->]]; [by apply step_refl|by apply dropInboxPrefixLocked_step]. }
  repeat (case_match; try exact H2).
  apply (step_trans E (at_start r) 0 0 _ s2); [exact H2|]. intros Hs2.
  pose proof (inboxNotifyChanLocked_step (at_start r) a s2 Hs2) as Hn.
  destruct (inboxNotifyChanLocked a s2). simplify_eq. exact Hn.
Qed.

Lemma observe_section_step after filter wait d o r s :
  sinv E s →
  step_ok E (at_start r) (sweep_events o) s (observe_section after filter wait d o r s).1.
Proof.
  intros Hs. pose proof (sweep_step E o (at_start r) s Hs) as Hsw.
  unfold observe_section. cbv zeta. destruct (observe_scan _ _ _ _) as [out last].
  repeat case_match; exact Hsw.
Qed.

(** ** What a waiting section has seen *)

Lemma read_inbox_empty adv a c l s s' cur :
  read_inbox adv a c l s = (s', Ok (cur, None)) → cur = inbox_end s' a.
Proof.
  unfold read_inbox. cbv zeta. fold (inbox_end s a).
  set (cc := clamp_cursor c (base s a) (inbox_end s a)).
  assert (cc ≤ inbox_end s a) as Hc.
  { apply clamp_cursor_spec. unfold inbox_end. lia. }
  destruct (cc <? inbox_end s a) eqn:Elt; prop_bool; repeat case_match; try done; intros [= <- <-];
    rewrite ?dropInboxPrefixLocked_end; lia.
Qed.

Lemma inboxNotifyChanLocked_inbox a s :
  inbox_end (inboxNotifyChanLocked a s).2 a = inbox_end s a ∧
  inboxes (inboxNotifyChanLocked a s).2 = inboxes s.
Proof. unfold inboxNotifyChanLocked. by case_match. Qed.

Lemma registered_inbox a s : sinv E s → is_Some (agents s !! a) → is_Some (inboxes s !! a).
Proof.
  intros Hs Ha. apply elem_of_dom. rewrite (so_inboxes _ (si_structure _ _ Hs)). by apply elem_of_dom.
Qed.

(** A section that decides to wait holds the registered channel of an inbox it
    has read to the end. *)
Lemma poll_section_waits adv a input d o r s s1 ch remaining out :
  sinv E s → poll_section adv a input d o r s = (s1, Waits ch remaining out) →
  inboxNotify s1 !! a = Some ch ∧ is_Some (inboxes s1 !! a) ∧ out = Ok ([], inbox_end s1 a).
Proof.
  intros Hs. unfold poll_section. cbv zeta. apply (sweepLocked_sinv E o (at_start r)) in Hs.
  generalize dependent (sweepLocked E o (at_start r) s). intros s0 Hs.
  destruct (agents s0 !! a) as [ag|] eqn:Ha; [|done].
  case_bool; [done|]. case_match; [done|].
  pose proof (read_inbox_cases adv a (PollInboxInput.Cursor input) (PollInboxInput.Limit input) s0) as Hc.
  destruct (read_inbox adv a _ _ s0) as [s' res] eqn:Er. cbn [fst] in Hc.
  destruct res as [[c [[? ?]|]]|]; [done| |done]. do 2 (case_bool; [done|]).
  apply read_inbox_empty in Er. subst c.
  pose proof (inboxNotifyChanLocked_slot a s') as Hslot.
  destruct (inboxNotifyChanLocked_inbox a s') as [He Hd].
  destruct (inboxNotifyChanLocked a s') as [ch' s1']. cbn in *. intros [= <- <- _ <-].
  split_and!; [done| |by rewrite He]. rewrite Hd. apply registered_inbox.
  - destruct Hc as [->|[n ->]]; [done|].
    exact (st_sinv _ _ _ _ _ (dropInboxPrefixLocked_step (at_start r) a n s0 Hs)).
  - destruct Hc as [->|[n ->]]; [eauto|].
    rewrite (if_agents _ _ (dropInboxPrefixLocked_frame a n s0)). eauto.
Qed.

Lemma observe_section_waits after filter wait d o r s s1 ch remaining out :
  observe_section after filter wait d o r s = (s1, Waits ch remaining out) → observeNotify s1 = ch.
Proof.
  unfold observe_section. cbv zeta. destruct (observe_scan _ _ _ _) as [evs last].
  do 3 (case_bool; [done|]). by intros [= <- <- _ _].
Qed.

End poll.
