(* ===== verification/Lifecycle.v ===== *)
(** * Acknowledgements and events: [ack] and [postEvent] of
    [pkg/bus/store.go] *)
From stdpp Require Import gmap strings list.
From Stdlib Require Import ZArith Lia Ascii.
From S2P Require Import Prelude GoBase Json Types Config Auth Ring State Inbox Observe Structure Sweep Conversations Agents History.

(** The optional durability barrier; [None] is success. *)
Definition CommitMessage : Type := option (Message.t → option Error.t).

Definition run_commit_message (commit : CommitMessage) (m : Message.t) : option Error.t :=
  match commit with Some f => f m | None => None end.

Definition message_ids (m : Message.t) : list string := [Message.From m; Message.To m].

Definition ack_data (m : Message.t) (agentID status : string) (now : Time) : json :=
  JObj [("message_id"%stdpp, JString (Message.MessageID m));
        ("agent_id"%stdpp, JString agentID);
        ("status"%stdpp, JString status);
        ("at"%stdpp, JTime now)].

Definition state_change_data (m : Message.t) (from : MessageState) (now : Time)
    (extra : list (string * json)) : json :=
  JObj ([("message_id"%stdpp, JString (Message.MessageID m));
         ("from_state"%stdpp, JString (MessageState_string from));
         ("to_state"%stdpp, JString (MessageState_string (Message.State m)));
         ("at"%stdpp, JTime now)] ++ extra).

Definition progress_data (m : Message.t) (body : string) (meta : json) (now : Time) : json :=
  JObj [("message_id"%stdpp, JString (Message.MessageID m));
        ("body"%stdpp, JString body);
        ("meta"%stdpp, meta);
        ("at"%stdpp, JTime now)].

Section lifecycle.
Context (E : Static).

Definition publish_for (ty : EventType) (data : json) (m : Message.t) (now : Time) (s : Store)
    : Store :=
  publishLocked E ty data (Message.ConversationID m) (message_ids m) now s.

(** [*m = next] on the stored message. *)
Definition store_message (id : string) (m : Message.t) (s : Store) : Store :=
  set_messages (<[id := m]> (messages s)) s.

(** ** ack *)

Inductive AckStatus := AckAccepted | AckRejected.

Definition AckStatus_string (st : AckStatus) : string :=
  match st with AckAccepted => "accepted" | AckRejected => "rejected" end%stdpp.

Definition parse_ack_status (status : string) : option AckStatus :=
  if bool_decide (status = "accepted"%stdpp) then Some AckAccepted
  else if bool_decide (status = "rejected"%stdpp) then Some AckRejected
  else None.

(** The part before the lock. *)
Definition ack_request (input : AckInput.t) : result Error.t (string * string * AckStatus) :=
  let agentID := TrimSpace (AckInput.AgentID input) in
  let messageID := TrimSpace (AckInput.MessageID input) in
  guard negb (is_empty agentID || is_empty messageID)
    else fail CodeValidation "agent_id and message_id are required"%stdpp ;;
  match parse_ack_status (TrimSpace (AckInput.Status input)) with
  | None => Err (fail CodeValidation "status must be accepted or rejected"%stdpp)
  | Some st => Ok (agentID, messageID, st)
  end.

(** The acknowledged version of a message. *)
Definition ack_message (now : Time) (status : AckStatus) (m : Message.t) : Message.t :=
  let delivered := if IsZero (Message.DeliveredAt m) then now else Message.DeliveredAt m in
  match status with
  | AckRejected => Message.set_life StateRejected now delivered (Message.LastProgressAt m) false m
  | AckAccepted =>
      Message.set_life StateExecuting (Message.TerminalAt m) delivered (Message.LastProgressAt m)
        false m
  end.

Definition ack (commit : CommitMessage) (o : Order) (now : Time) (input : AckInput.t) (s : Store)
    : Store * option Error.t :=
  match ack_request input with
  | Err e => (s, Some e)
  | Ok (agentID, messageID, status) =>
      let s := sweepLocked E o now s in
      match messages s !! messageID with
      | None => (s, Some (fail CodeNotFound "message not found"%stdpp))
      | Some m =>
          if bool_decide (Message.Typ m ≠ MessageTypeRequest) then
            (s, Some (fail CodeValidation "acks only apply to request messages"%stdpp))
          else if bool_decide (Message.To m ≠ agentID) then
            (s, Some (fail CodeUnauthorized "agent_id does not own this message"%stdpp))
          else if isTerminal (Message.State m) then (s, None)
          else
            let next := ack_message now status m in
            match run_commit_message commit next with
            | Some e => (s, Some e)
            | None =>
                let s := store_message messageID next s in
                let s := publish_for ObserveAck
                  (ack_data next agentID (AckStatus_string status) now) next now s in
                let s := publish_for ObserveStateChange
                  (state_change_data next (Message.State m) now []) next now s in
                (s, None)
            end
      end
  end.

Definition Ack := ack None.

(** ** postEvent *)

Inductive EventKind := EventProgress | EventFinal | EventError.

Definition parse_event_kind (typ : string) : option EventKind :=
  if bool_decide (typ = "progress"%stdpp) then Some EventProgress
  else if bool_decide (typ = "final"%stdpp) then Some EventFinal
  else if bool_decide (typ = "error"%stdpp) then Some EventError
  else None.

(** The part before the lock: actor, message, kind and body. *)
Definition event_request (input : EventInput.t)
    : result Error.t (string * string * EventKind * string) :=
  let actor := TrimSpace (EventInput.ActorAgentID input) in
  let messageID := TrimSpace (EventInput.MessageID input) in
  let typ := TrimSpace (EventInput.Typ input) in
  let body := TrimSpace (EventInput.Body input) in
  guard negb (is_empty actor) else fail CodeUnauthorized "X-Agent-ID is required"%stdpp ;;
  guard negb (is_empty messageID || is_empty typ || is_empty body)
    else fail CodeValidation "message_id, type, and body are required"%stdpp ;;
  match parse_event_kind typ with
  | None => Err (fail CodeValidation "type must be progress, final, or error"%stdpp)
  | Some kind => Ok (actor, messageID, kind, body)
  end.

(** The next version of a message, or the rate limit. *)
Definition event_message (now : Time) (kind : EventKind) (m : Message.t)
    : result Error.t Message.t :=
  match kind with
  | EventProgress =>
      let elapsed := Sub now (Message.LastProgressAt m) in
      if negb (IsZero (Message.LastProgressAt m))
         && (elapsed <? Config.ProgressMinInterval (cfg E)) then
        Err (newError CodeRateLimited "progress event too frequent"%stdpp true
               (wrap64 (Config.ProgressMinInterval (cfg E) - elapsed)))
      else
        let m := if bool_decide (Message.State m = StateWaitingAck)
                 then Message.set_State StateExecuting m else m in
        Ok (Message.set_LastProgressAt now m)
  | EventFinal => Ok (Message.set_TerminalAt now (Message.set_State StateCompleted m))
  | EventError => Ok (Message.set_TerminalAt now (Message.set_State StateError m))
  end.

(** The observer events of an accepted transition. *)
Definition publish_event (now : Time) (kind : EventKind) (body : string) (meta : json)
    (from : MessageState) (m : Message.t) (s : Store) : Store :=
  match kind with
  | EventProgress =>
      let s := if bool_decide (from ≠ Message.State m)
               then publish_for ObserveStateChange (state_change_data m from now []) m now s
               else s in
      publish_for ObserveProgress (progress_data m body meta now) m now s
  | _ =>
      publish_for ObserveStateChange
        (state_change_data m from now [("body"%stdpp, JString body); ("meta"%stdpp, meta)]) m now s
  end.

Definition postEvent (commit : CommitMessage) (o : Order) (now : Time) (input : EventInput.t)
    (s : Store) : Store * option Error.t :=
  match event_request input with
  | Err e => (s, Some e)
  | Ok (actor, messageID, kind, body) =>
      let s := sweepLocked E o now s in
      match messages s !! messageID with
      | None => (s, Some (fail CodeNotFound "message not found"%stdpp))
      | Some m =>
          if bool_decide (Message.To m ≠ actor) then
            (s, Some (fail CodeUnauthorized "actor does not own this message"%stdpp))
          else if bool_decide (Message.Typ m ≠ MessageTypeRequest) then
            (s, Some (fail CodeValidation "events only apply to request messages"%stdpp))
          else if isTerminal (Message.State m) then (s, run_commit_message commit m)
          else match event_message now kind m with
          | Err e => (s, Some e)
          | Ok next =>
              match run_commit_message commit next with
              | Some e => (s, Some e)
              | None =>
                  let s := store_message messageID next s in
                  (publish_event now kind body (EventInput.Meta input) (Message.State m) next s,
                   None)
              end
          end
      end
  end.

Definition PostEvent := postEvent None.

(** ** Both move a live request forward *)

Lemma live_rank st : st ≠ StateNone → isTerminal st = false → (1 ≤ rank st ≤ 3)%nat.
Proof. destruct st; cbn; intros; done || lia. Qed.

Lemma ack_message_evolves now st m :
  message_ok m → Message.Typ m = MessageTypeRequest → isTerminal (Message.State m) = false →
  evolves m (ack_message now st m).
Proof.
  intros Hok Hty Hl. pose proof (live_rank _ (mo_state _ Hok) Hl). unfold ack_message.
  constructor; [by destruct st; do 5 eexists|destruct st; cbn; lia|congruence|done].
Qed.

Lemma ack_message_ok now st m :
  message_ok m → Message.Typ m = MessageTypeRequest → message_ok (ack_message now st m).
Proof. intros [] Ht. unfold ack_message. destruct st; constructor; cbn; try done; by rewrite Ht. Qed.

Lemma event_message_evolves now k m m' :
  message_ok m → Message.Typ m = MessageTypeRequest → isTerminal (Message.State m) = false →
  event_message now k m = Ok m' → evolves m m'.
Proof.
  intros Hok Hty Hl. pose proof (live_rank _ (mo_state _ Hok) Hl). unfold event_message.
  destruct k; cbv zeta; [case_bool; [done|]| |]; intros [= <-];
    (constructor; [|cbn|congruence|done]); try (by do 5 eexists); try lia.
  - case_bool; by do 5 eexists.
  - case_bool_decide as Hw; cbn; [rewrite Hw; cbn; lia|lia].
Qed.

Lemma event_message_ok now k m m' :
  message_ok m → Message.Typ m = MessageTypeRequest → event_message now k m = Ok m' →
  message_ok m'.
Proof.
  intros [] Ht. unfold event_message.
  destruct k; cbv zeta; [case_bool; [done|]| |]; intros [= <-].
  - case_bool_decide as Hw; constructor; cbn in *; try done.
    intros Hq _. rewrite Hw in *. by specialize (mo_queued Hq eq_refl).
  - by constructor.
  - by constructor.
Qed.

(** ** As steps *)

Lemma publish_for_step now ty d m t s : sinv E s → step_ok E now 1 s (publish_for ty d m t s).
Proof. intros Hs. unfold publish_for. by apply publish_step. Qed.

Lemma ack_step commit o now input s :
  sinv E s → step_ok E now (sweep_events o + 2) s (ack commit o now input s).1.
Proof.
  intros Hs. pose proof (sweep_step E o now s Hs) as Hsw.
  pose proof (st_nonneg _ _ _ _ _ Hsw) as Hk.
  assert (step_ok E now (sweep_events o + 2) s (sweepLocked E o now s)) as Hsw2.
  { eapply step_weaken; [|exact Hsw]. lia. }
  unfold ack. destruct (ack_request input) as [[[agentID messageID] st]|e].
  2: { eapply step_weaken; [|by apply step_refl]. lia. }
  cbv zeta. destruct (messages (sweepLocked E o now s) !! messageID) as [m|] eqn:Hm; [|exact Hsw2].
  case_bool_decide as Hty; [exact Hsw2|].
  case_bool_decide as Hto; [exact Hsw2|]. destruct (isTerminal _) eqn:Hl; [exact Hsw2|].
  destruct (run_commit_message _ _); [exact Hsw2|]. cbn [fst].
  eapply step_trans; [exact Hsw|]. intros Hs1.
  pose proof (so_msg _ (si_structure _ _ Hs1) _ _ Hm) as Hok.
  eapply (step_trans E now 0 2).
  { eapply set_message_step; [exact Hm|by apply ack_message_evolves|by apply ack_message_ok|done]. }
  intros Hs2. eapply (step_trans E now 1 1); [by apply publish_for_step|]. intros Hs3.
  by apply publish_for_step.
Qed.

Lemma publish_event_step now k body meta from m s :
  sinv E s → step_ok E now 2 s (publish_event now k body meta from m s).
Proof.
  intros Hs. unfold publish_event. destruct k.
  2,3: eapply step_weaken; [|by apply publish_for_step]; lia.
  apply (step_trans E now 1 1) with
    (s2 := if bool_decide (from ≠ Message.State m)
           then publish_for ObserveStateChange (state_change_data m from now []) m now s else s).
  - case_bool; [by apply publish_for_step|]. eapply step_weaken; [|by apply step_refl]. lia.
  - intros Hs1. by apply publish_for_step.
Qed.

Lemma postEvent_step commit o now input s :
  sinv E s → step_ok E now (sweep_events o + 2) s (postEvent commit o now input s).1.
Proof.
  intros Hs. pose proof (sweep_step E o now s Hs) as Hsw.
  pose proof (st_nonneg _ _ _ _ _ Hsw) as Hk.
  assert (step_ok E now (sweep_events o + 2) s (sweepLocked E o now s)) as Hsw2.
  { eapply step_weaken; [|exact Hsw]. lia. }
  unfold postEvent. destruct (event_request input) as [[[[actor messageID] k] body]|e].
  2: { eapply step_weaken; [|by apply step_refl]. lia. }
  cbv zeta. destruct (messages (sweepLocked E o now s) !! messageID) as [m|] eqn:Hm; [|exact Hsw2].
  case_bool_decide as Hto; [exact Hsw2|].
  case_bool_decide as Hty; [exact Hsw2|].
  destruct (isTerminal _) eqn:Hl; [exact Hsw2|].
  destruct (event_message now k m) as [next|e] eqn:En; [|exact Hsw2].
  destruct (run_commit_message _ _); [exact Hsw2|]. cbn [fst].
  eapply step_trans; [exact Hsw|]. intros Hs1.
  pose proof (so_msg _ (si_structure _ _ Hs1) _ _ Hm) as Hok.
  eapply (step_trans E now 0 2).
  { eapply set_message_step; [exact Hm|by eapply event_message_evolves|by eapply event_message_ok|done]. }
  intros Hs2. by apply publish_event_step.
Qed.

End lifecycle.
