(* ===== verification/Queries.v ===== *)
(** * Read-only views: [snapshotCounts], [Health], [SystemStatus], [Metrics]
    and [GetMessageForTest] of [pkg/bus/store.go] *)
From stdpp Require Import gmap strings list.
From Stdlib Require Import ZArith Lia Ascii.
From S2P Require Import Prelude GoBase Json Types Config Auth Ring State Inbox Observe Structure Sweep SweepSpec Conversations Agents History.

Record snapshotCounts := mkCounts {
  active : Z; expired : Z; n_conversations : Z; n_messages : Z; n_observeEvents : Z;
  n_pushSuccesses : Z; n_pushFailures : Z }.

Section queries.
Context (E : Static).

(** [order] is the iteration order of the agent map. *)
Definition count_agents (order : list string) (s : Store) : Z * Z :=
  foldl (λ '(a, e) id,
    match agents s !! id with
    | Some ag =>
        if bool_decide (Agent.Status ag = AgentStatusActive) then (a + 1, e) else (a, e + 1)
    | None => (a, e)
    end) (0, 0) order.

Definition take_snapshot (o : Order) (order : list string) (now : Time) (s : Store)
    : Store * snapshotCounts :=
  let s := sweepLocked E o now s in
  let '(a, e) := count_agents order s in
  (s, mkCounts a e (Z.of_nat (size (conversations s))) (Z.of_nat (size (messages s)))
        (Z.of_nat (length (observeEvents s))) (pushSuccesses s) (pushFailures s)).

Definition health_json (c : snapshotCounts) : json :=
  JObj [("ok"%stdpp, JBool true); ("status"%stdpp, JString "healthy"%stdpp);
        ("agents"%stdpp, JInt (active c)); ("observe"%stdpp, JInt (n_observeEvents c));
        ("push"%stdpp, JObj [("successes"%stdpp, JInt (n_pushSuccesses c));
                             ("failures"%stdpp, JInt (n_pushFailures c))])].

Definition Health (o : Order) (order : list string) (now : Time) (s : Store) : Store * json :=
  let '(s, c) := take_snapshot o order now s in (s, health_json c).

Definition status_json (c : snapshotCounts) : json :=
  JObj [("ok"%stdpp, JBool true);
        ("system"%stdpp, JObj
          [("agents_active"%stdpp, JInt (active c)); ("agents_expired"%stdpp, JInt (expired c));
           ("conversations"%stdpp, JInt (n_conversations c));
           ("messages"%stdpp, JInt (n_messages c));
           ("observe_events"%stdpp, JInt (n_observeEvents c));
           ("push_successes"%stdpp, JInt (n_pushSuccesses c));
           ("push_failures"%stdpp, JInt (n_pushFailures c))])].

Definition SystemStatus (o : Order) (order : list string) (now : Time) (s : Store)
    : Store * json :=
  let '(s, c) := take_snapshot o order now s in (s, status_json c).

Definition newline : string := String "010"%char ε.

(** One metric in the Prometheus text format. *)
Definition metric (name kind help : string) (v : Z) : string :=
  "# HELP "%stdpp +:+ name +:+ " "%stdpp +:+ help +:+ newline
  +:+ "# TYPE "%stdpp +:+ name +:+ " "%stdpp +:+ kind +:+ newline
  +:+ name +:+ " "%stdpp +:+ FormatInt v +:+ newline.

Definition metrics_text (c : snapshotCounts) : string :=
  metric "agent_bus_agents_active"%stdpp "gauge"%stdpp
    "Number of active registered agents."%stdpp (active c)
  +:+ metric "agent_bus_agents_expired"%stdpp "gauge"%stdpp
    "Number of expired agents still tracked."%stdpp (expired c)
  +:+ metric "agent_bus_conversations_total"%stdpp "gauge"%stdpp
    "Number of tracked conversations."%stdpp (n_conversations c)
  +:+ metric "agent_bus_messages_total"%stdpp "gauge"%stdpp
    "Number of tracked messages."%stdpp (n_messages c)
  +:+ metric "agent_bus_observe_events_total"%stdpp "gauge"%stdpp
    "Number of retained observe events."%stdpp (n_observeEvents c)
  +:+ metric "agent_bus_push_successes_total"%stdpp "counter"%stdpp
    "Successful push callback deliveries."%stdpp (n_pushSuccesses c)
  +:+ metric "agent_bus_push_failures_total"%stdpp "counter"%stdpp
    "Failed push callback deliveries after retries."%stdpp (n_pushFailures c).

Definition Metrics (o : Order) (order : list string) (now : Time) (s : Store) : Store * string :=
  let '(s, c) := take_snapshot o order now s in (s, metrics_text c).

Definition GetMessageForTest (messageID : string) (s : Store) : option Message.t :=
  messages s !! messageID.

(** ** The counts partition the agents *)

Lemma count_agents_spec order s :
  enumerates order (agents s) →
  let '(a, e) := count_agents order s in
  a = Z.of_nat (length (List.filter (is_active (agents s)) order)) ∧
  a + e = Z.of_nat (size (agents s)).
Proof.
  intros Ho. pose proof (enumerates_length _ _ Ho) as Hlen. destruct Ho as [_ Hk].
  assert (∀ l x y, (∀ k, k ∈ l → is_Some (agents s !! k)) →
    foldl (λ '(a, e) id, match agents s !! id with
      | Some ag => if bool_decide (Agent.Status ag = AgentStatusActive) then (a + 1, e) else (a, e + 1)
      | None => (a, e) end) (x, y) l =
    (x + Z.of_nat (length (List.filter (is_active (agents s)) l)),
     y + Z.of_nat (length l) - Z.of_nat (length (List.filter (is_active (agents s)) l)))) as H.
  { intros l. induction l as [|k l IH]; intros x y Hl; cbn [foldl List.filter length].
    { f_equal; lia. }
    assert (∀ j, j ∈ l → is_Some (agents s !! j)) as Hl' by (intros; apply Hl; by right).
    destruct (Hl k) as [ag Hag]; [left|].
    assert (is_active (agents s) k = bool_decide (Agent.Status ag = AgentStatusActive)) as ->.
    { unfold is_active. by rewrite Hag. }
    rewrite Hag. case_bool_decide; cbn [length]; rewrite IH by done; f_equal; lia. }
  unfold count_agents. rewrite H by (intros; by apply Hk). rewrite <-Hlen. split; lia.
Qed.

Lemma take_snapshot_store o order now s : (take_snapshot o order now s).1 = sweepLocked E o now s.
Proof. unfold take_snapshot. cbv zeta. by destruct (count_agents order _). Qed.

End queries.
