(* ===== verification/System.v ===== *)
(** * The bus as a transition system

    Every API call is one locked section of the store, or several for the long
    polls; the mutex serialises them.  A run of the program is therefore a
    sequence of [step]s, in any interleaving of the clients, the push workers
    and the waiters, under a clock that does not go back. *)
From stdpp Require Import gmap strings list relations.
From Stdlib Require Import ZArith Lia Ascii.
From S2P Require Import Prelude GoBase Json Types Config Auth Ring State Push Inbox Observe Structure Sweep SweepSpec Conversations Agents Wakeup History Send SendSpec Poll Lifecycle Queries.

(** One locked section. *)
Inductive Op :=
| OpRegisterAgent (input : RegisterAgentInput.t)
| OpListAgents (order : list string) (capability : string)
| OpCreateConversation (input : CreateConversationInput.t)
| OpListConversations (order : list string) (filter : ListConversationsFilter.t)
| OpListConversationMessages (input : ListConversationMessagesInput.t)
| OpSendMessage (commit : Commit) (input : SendMessageInput.t)
| OpInject (commit : Commit) (input : InjectInput.t)
| OpPollInbox (advance : Advance) (agentID : string) (input : PollInboxInput.t)
    (deadline at_wait : Time)
| OpObserveSince (afterID : Z) (filter : ObserveFilter.t) (wait : Duration)
    (deadline at_wait : Time)
| OpAck (commit : CommitMessage) (input : AckInput.t)
| OpPostEvent (commit : CommitMessage) (input : EventInput.t)
| OpSnapshot (order : list string)
| OpPushTake
| OpPushFinish (net : Z → Attempt) (job : PushJob.t)
| OpReceiptFinish
| OpClosePush (timed_out : bool).

Section system.
Context (E : Static).

Definition run (o : Order) (now : Time) (op : Op) (s : Store) : Store :=
  match op with
  | OpRegisterAgent input => (RegisterAgent E o now input s).1
  | OpListAgents order capability => (ListAgents E o order now capability s).1
  | OpCreateConversation input => (CreateConversation E o now input s).1
  | OpListConversations order filter => (ListConversations E o order now filter s).1
  | OpListConversationMessages input => (ListConversationMessages E o now input s).1
  | OpSendMessage commit input => (sendMessage E commit o now input s).1.1
  | OpInject commit input => (inject E commit o now input s).1.1
  | OpPollInbox advance agentID input deadline w =>
      (poll_section E advance agentID input deadline o (mkReading now w) s).1
  | OpObserveSince afterID filter wait deadline w =>
      (observe_section E afterID filter wait deadline o (mkReading now w) s).1
  | OpAck commit input => (ack E commit o now input s).1
  | OpPostEvent commit input => (postEvent E commit o now input s).1
  | OpSnapshot order => (take_snapshot E o order now s).1
  | OpPushTake => set_pushQueue (tail (pushQueue s)) s
  | OpPushFinish net job =>
      let s := (sendPushCallback E net job s).2 in set_pushWG (pushWG s - 1) s
  | OpReceiptFinish => set_pushWG (pushWG s - 1) s
  | OpClosePush timed_out => (closePushWorkers timed_out s).1
  end.

(** The [int64] counters have room for one more operation. *)
Record headroom (o : Order) (s : Store) : Prop := {
  hr_msg : nextMessageID s < max_int64;
  hr_conv : nextConversationID s < max_int64;
  hr_obs : nextObserveID s + sweep_events o + 2 ≤ max_int64 }.

Inductive step : Time * Store → Time * Store → Prop :=
| do_op t now o op s :
    t ≤ now → order_ok o s → headroom o s → step (t, s) (now, run o now op s).

(** States a run can reach from the store [NewStore] returns. *)
Definition reachable (now : Time) (s : Store) : Prop := ∃ t0, rtc step (t0, emptyStore) (now, s).

(** ** Every operation is a step in the sense of [step_ok] *)

Lemma sendPushCallback_frame net job s : push_frame s (sendPushCallback E net job s).2.
Proof.
  unfold sendPushCallback. case_match; [|done].
  destruct (attempt_loop _ _ _ _ _) as [v ps]. by destruct v; repeat constructor.
Qed.

Lemma run_step o now op s :
  sinv E s → headroom o s → step_ok E now (sweep_events o + 2) s (run o now op s).
Proof.
  intros Hs [Hm Hc _]. pose proof (sweep_step E o now s Hs) as Hsw.
  assert (0 ≤ sweep_events o) as Hk by (unfold sweep_events; lia).
  assert (∀ s', push_frame s s' → step_ok E now (sweep_events o + 2) s s') as Hpush.
  { intros s' Hf. eapply step_weaken; [|by apply push_frame_step]. lia. }
  destruct op; cbn [run].
  - eapply step_weaken; [|by apply RegisterAgent_step]. lia.
  - unfold ListAgents. cbn [fst]. eapply step_weaken; [|exact Hsw]. lia.
  - eapply step_weaken; [|by apply CreateConversation_step]. lia.
  - unfold ListConversations. cbn [fst]. eapply step_weaken; [|exact Hsw]. lia.
  - unfold ListConversationMessages. cbv zeta. eapply (step_weaken _ _ (sweep_events o)); [lia|].
    case_bool; [eapply step_weaken; [|by apply step_refl]; lia|].
    repeat (case_match; try exact Hsw).
  - eapply step_weaken; [|by apply sendMessage_step]. lia.
  - by apply inject_step.
  - eapply step_weaken; [|by apply (poll_section_step E advance agentID input deadline o (mkReading now at_wait))]. lia.
  - eapply step_weaken; [|by apply (observe_section_step E afterID filter wait deadline o (mkReading now at_wait))]. lia.
  - by apply ack_step.
  - by apply postEvent_step.
  - rewrite take_snapshot_store. eapply step_weaken; [|exact Hsw]. lia.
  - apply Hpush. by repeat constructor.
  - apply Hpush. pose proof (sendPushCallback_frame net job s) as Hf.
    generalize dependent ((sendPushCallback E net job s).2). intros s1 Hf.
    etransitivity; [exact Hf|]. by repeat constructor.
  - apply Hpush. by repeat constructor.
  - apply Hpush. unfold closePushWorkers. case_bool; by repeat constructor.
Qed.

(** ** Invariants of runs *)

Lemma emptyStore_inv : inv E emptyStore.
Proof.
  split; [split|].
  - constructor; unfold conversation_messages; cbn; try done; try lia.
    + intros c id H. by apply not_elem_of_nil in H.
    + intros c. apply NoDup_nil_2.
    + intros c [? ?]. done.
  - intros a. constructor; [done|done|apply within_nil].
  - constructor; cbn; [done|set_solver|split; [lia|set_solver]|done|done].
  - constructor; cbn; [done|lia|done|done|apply within_nil].
Qed.

Lemma emptyStore_policy : policy_ok E emptyStore.
Proof. by intros k a Ha. Qed.

(** What one step, and hence any run, preserves. *)
Record run_ok (p p' : Time * Store) : Prop := {
  ru_time : p.1 ≤ p'.1;
  ru_inv : inv E p'.2;
  ru_policy : policy_ok E p.2 → policy_ok E p'.2;
  ru_history : history p.2 p'.2;
  ru_receipts : receipts_kept E p'.1 p.2 p'.2;
  ru_wakes : wakes p.2 p'.2 }.

Lemma run_inv o now op s : inv E s → headroom o s → inv E (run o now op s).
Proof.
  intros [Hs Ho] Hr. destruct (run_step o now op s Hs Hr) as [_ Hs' Hroom _ _ _ _].
  split; [done|]. destruct (Hroom 0) as [Ho' _]; [done| |done]. split; [done|]. destruct Hr. lia.
Qed.

Lemma step_run_ok p p' : inv E p.2 → step p p' → run_ok p p'.
Proof.
  intros Hi Hst. destruct Hst as [t now o op s Ht Hord Hr]. cbn in *.
  pose proof (run_inv o now op s Hi Hr) as Hi'. destruct Hi as [Hs _].
  destruct (run_step o now op s Hs Hr) as [_ Hs' Hroom Hh Hk Hp Hw].
  by constructor.
Qed.

Lemma receipts_kept_trans t1 t2 s1 s2 s3 :
  t1 ≤ t2 → receipts_kept E t1 s1 s2 → receipts_kept E t2 s2 s3 → receipts_kept E t2 s1 s3.
Proof.
  intros Ht H1 H2 key d Hd Hw. apply H2; [|done]. apply H1; [done|].
  revert Hw. unfold Sub, min_int64, max_int64. lia.
Qed.

Lemma rtc_run_ok p p' : inv E p.2 → rtc step p p' → run_ok p p'.
Proof.
  intros Hi Hr. induction Hr as [p|p q r Hst _ IH].
  { constructor; try done. by intros key d. }
  destruct (step_run_ok _ _ Hi Hst) as [Ht1 Hi1 Hp1 Hh1 Hk1 Hw1].
  destruct (IH Hi1) as [Ht2 Hi2 Hp2 Hh2 Hk2 Hw2].
  constructor; [lia|done|auto|by etransitivity| |by etransitivity].
  by eapply receipts_kept_trans; [|exact Hk1|exact Hk2].
Qed.

Lemma reachable_ok now s : reachable now s → inv E s ∧ policy_ok E s.
Proof.
  intros [t0 Hr]. destruct (rtc_run_ok (t0, emptyStore) _ emptyStore_inv Hr) as [_ ? Hp _ _ _].
  split; [done|]. apply Hp, emptyStore_policy.
Qed.

End system.
