(* ===== verification/Scenario.v ===== *)
(** * A concrete run

    A configuration, two agents and a few calls, executed by the model.  The
    witnesses of the properties instantiate them here. *)
From stdpp Require Import gmap strings list relations.
From Stdlib Require Import ZArith Lia Ascii.
From S2P Require Import Prelude GoBase Sha256 Json Types Scope Config Auth Ring State Push Inbox Observe Structure Sweep SweepSpec Conversations Agents Wakeup History Send SendSpec Poll Lifecycle Queries System.

(** ** Executing a list of operations *)

(** The order that lists the keys as the maps do. *)
Definition order_of (s : Store) : Order :=
  mkOrder (elements (dom (agents s))) (elements (dom (messages s))).

Lemma order_of_ok s : order_ok (order_of s) s.
Proof. split; apply enumerates_elements. Qed.

Definition has_headroom (o : Order) (s : Store) : bool :=
  (nextMessageID s <? max_int64) && (nextConversationID s <? max_int64)
  && (nextObserveID s + sweep_events o + 2 <=? max_int64).

Lemma has_headroom_ok o s : has_headroom o s = true → headroom o s.
Proof. intros H. unfold has_headroom in H. prop_bool. by constructor. Qed.

Definition exec1 (E : Static) (p : Time * Store) (q : Time * Op) : Time * Store :=
  (q.1, run E (order_of p.2) q.1 q.2 p.2).

Fixpoint exec_ok (E : Static) (p : Time * Store) (l : list (Time * Op)) : bool :=
  match l with
  | [] => true
  | q :: l => (p.1 <=? q.1) && has_headroom (order_of p.2) p.2 && exec_ok E (exec1 E p q) l
  end.

Definition exec (E : Static) (p : Time * Store) (l : list (Time * Op)) : Time * Store :=
  foldl (exec1 E) p l.

Lemma exec_steps E p l : exec_ok E p l = true → rtc (step E) p (exec E p l).
Proof.
  revert p. induction l as [|q l IH]; intros p Hok; cbn in *; [done|].
  prop_bool. eapply rtc_l; [|by apply IH].
  destruct p as [t s], q as [now op]. cbn in *.
  constructor; [done|apply order_of_ok|by apply has_headroom_ok].
Qed.

(** ** The configuration *)

Definition plain_config : Config.t :=
  Config.mk 0 0 0 0 0 0 0 0 0 0 0 0 0 0 0 0 0 0 0 0 0 None None [] [] ∅.

Definition static_of (c : Config.t) : Static :=
  match NewStore_static (elements (dom (Config.ControlPlaneAgentSecretHashes c))) ε c with
  | Ok E => E
  | Err _ => mkStatic c ∅ ∅
  end.

Definition E0 : Static := static_of plain_config.

(** Strict mode with one trusted identity, [hub], whose secret is [s3cret]. *)
Definition strict_config : Config.t :=
  Config.mk 0 0 0 0 0 0 0 0 0 0 0 0 0 0 0 0 0 0 0 0 0 (Some NamespaceModeStrict) None
    ["ucla.alice"%stdpp] ["hub"%stdpp] {["hub"%stdpp := Sum256 "s3cret"%stdpp]}.

Definition E1 : Static := static_of strict_config.

(** ** The calls *)

Definition t0 : Time := 10 ^ 18.
Definition at_s (n : Z) : Time := t0 + n * Second.

Definition alice : string := "ucla.alice"%stdpp.
Definition bob : string := "ucla.bob"%stdpp.

Definition register (id : string) (ttl : Z) : RegisterAgentInput.t :=
  RegisterAgentInput.mk id ε [] [] ["chat"%stdpp] ε ε ε ε None None ε ε ttl.

Definition send (from to req typ body : string) : SendMessageInput.t :=
  SendMessageInput.mk to from ε req typ body JNull [] 0 ε.

Definition request1 : SendMessageInput.t :=
  send alice bob "r-1"%stdpp ε "ping"%stdpp.

Definition register_calls : list (Time * Op) :=
  [(t0, OpRegisterAgent (register alice 3600)); (t0, OpRegisterAgent (register bob 3600))].

(** Both agents registered for an hour. *)
Definition registered : Time * Store := exec E0 (t0, emptyStore) register_calls.

(** Alice's request accepted one second later. *)
Definition request_calls : list (Time * Op) := [(at_s 1, OpSendMessage None request1)].
Definition requested : Time * Store := exec E0 registered request_calls.

Lemma exec_reachable E l :
  exec_ok E (t0, emptyStore) l = true →
  reachable E (exec E (t0, emptyStore) l).1 (exec E (t0, emptyStore) l).2.
Proof. intros H. exists t0. rewrite <-surjective_pairing. by apply exec_steps. Qed.

Lemma registered_reachable : reachable E0 registered.1 registered.2.
Proof. apply exec_reachable. vm_compute. reflexivity. Qed.

Lemma requested_reachable : reachable E0 requested.1 requested.2.
Proof.
  change requested with (exec E0 (t0, emptyStore) (register_calls ++ request_calls)).
  apply exec_reachable. vm_compute. reflexivity.
Qed.

(** The stored request. *)
Definition request_message : Message.t :=
  default (Message.mk ε MessageTypeNone ε ε ε ε ε ε JNull [] StateNone 0 0 0 0 0 0 false)
    (messages requested.2 !! message_id 1).

Lemma request_accepted :
  sendMessage E0 None (order_of registered.2) (at_s 1) request1 registered.2 =
  (requested.2, Ok (request_message, false), None).
Proof. vm_compute. reflexivity. Qed.

Example requested_message :
  Message.State <$> messages requested.2 !! message_id 1 = Some StateWaitingAck.
Proof. vm_compute. reflexivity. Qed.
