(* ===== verification/RunProps.v ===== *)
(** * Properties of runs

    What holds in every state a run can reach and between any two of them,
    whatever the interleaving of clients, waiters and push workers. *)
From stdpp Require Import gmap strings list relations.
From Stdlib Require Import ZArith Lia Ascii.
From S2P Require Import Prelude GoBase Json Types Config Auth Ring State Push Inbox Observe Structure Sweep SweepSpec Conversations Agents Wakeup History Send SendSpec Poll Lifecycle Queries System Scenario.

(** ** Invariant *)

(** C1: Every reachable state is well-formed: messages, conversations, message
    lists, receipts and inboxes refer to one another consistently, each inbox
    and the observe ring are within budget with exact byte counts, event
    identifiers are consecutive, no channel in use is closed, and every stored
    agent carries exactly the scopes and grants the server's policy gives it. *)
Theorem reachable_well_formed E now s : reachable E now s → inv E s ∧ policy_ok E s.
Proof. apply reachable_ok. Qed.

Lemma reachable_well_formed_witness : inv E0 requested.2 ∧ policy_ok E0 requested.2.
Proof. exact (reachable_well_formed E0 requested.1 requested.2 requested_reachable). Defined.

(** ** Exactly-once acceptance *)

Lemma repeat_of_receipt E commit o now input s s' m dup d r rc :
  send_request E input = Ok r →
  idempotency s !! dedupeKey (sr_from r) (sr_to r) (sr_requestID r) = Some d →
  Sub now (IdempotencyEntry.CreatedAt d) ≤ Config.IdempotencyWindow (cfg E) →
  sendMessage E commit o now input s = (s', Ok (m, dup), rc) →
  s' = sweepLocked E o now s ∧ dup = true ∧ m = duplicate_message r d (sweepLocked E o now s).
Proof.
  intros Hr Hd Hw Hsend.
  pose proof (sweepLocked_kept E o now s _ _ Hd Hw) as Hd'.
  assert (send_duplicate E now r (sweepLocked E o now s) = Some d) as Hdup.
  { unfold send_duplicate. by rewrite Hd', (proj2 (Z.leb_le _ _) Hw). }
  pose proof (sendMessage_cases E commit o now input s) as Hc. rewrite Hsend in Hc.
  inversion Hc as [| |r' t d' Hr' _ Hd2|r' t a rc' Hr' _ Hd2]; subst;
    assert (r' = r) as -> by congruence; rewrite Hdup in Hd2; by simplify_eq.
Qed.

Lemma accepted_receipt E commit o now input s s' m rc :
  sinv E s → sendMessage E commit o now input s = (s', Ok (m, false), rc) →
  ∃ r, send_request E input = Ok r ∧
    idempotency s' !! dedupeKey (sr_from r) (sr_to r) (sr_requestID r) =
      Some (IdempotencyEntry.mk (Message.MessageID m) now).
Proof.
  intros Hs Hsend. pose proof (sendMessage_cases E commit o now input s) as Hc.
  rewrite Hsend in Hc. inv Hc. exists r. split; [done|].
  apply (sweepLocked_sinv E o now) in Hs.
  match goal with H : send_target E r _ = Ok t |- _ =>
    destruct (send_target_spec _ _ _ _ H) as [Ht _] end.
  match goal with H : send_plan E now input r t _ = Ok a |- _ =>
    destruct (send_plan_spec E now input r t _ a (si_structure _ _ Hs)
      (send_request_type _ _ _ ltac:(eassumption)) Ht H)
      as (_ & cid & conv & _ & _ & _ & Hkey & Hrec & _) end.
  destruct (push_tail_frame E a receipt (send_apply E now a (sweepLocked E o now s))) as [[] _ _ _ _ _ _ _].
  rewrite qu_idem, <-Hkey. by apply send_apply_receipt.
Qed.

(** While the receipt of a send lasts, a repetition is answered as a duplicate. *)
Lemma repeat_answered E input input' r id t commit o now s s' m' dup rc :
  send_request E input = Ok r →
  TrimSpace (SendMessageInput.From input') = TrimSpace (SendMessageInput.From input) →
  TrimSpace (SendMessageInput.To input') = TrimSpace (SendMessageInput.To input) →
  TrimSpace (SendMessageInput.RequestID input') = TrimSpace (SendMessageInput.RequestID input) →
  inv E s → idempotency s !! dedupeKey (sr_from r) (sr_to r) (sr_requestID r) =
    Some (IdempotencyEntry.mk id t) →
  Sub now t ≤ Config.IdempotencyWindow (cfg E) →
  sendMessage E commit o now input' s = (s', Ok (m', dup), rc) →
  dup = true ∧ Message.MessageID m' = id ∧ s' = sweepLocked E o now s.
Proof.
  intros Hr Hf Hto Hreq Hi Hd Hw Hsend.
  destruct (send_request E input') as [r'|e] eqn:Hr'.
  2: { unfold sendMessage in Hsend. by rewrite Hr' in Hsend. }
  destruct (send_request_fields _ _ _ Hr) as (F1 & F2 & F3 & _).
  destruct (send_request_fields _ _ _ Hr') as (G1 & G2 & G3 & _).
  assert (dedupeKey (sr_from r') (sr_to r') (sr_requestID r') =
    dedupeKey (sr_from r) (sr_to r) (sr_requestID r)) as Hkey by congruence.
  rewrite <-Hkey in Hd.
  destruct (repeat_of_receipt _ _ _ _ _ _ _ _ _ _ _ _ Hr' Hd Hw Hsend) as (-> & -> & ->).
  split_and!; [done| |done]. unfold duplicate_message. cbn.
  destruct (messages _ !! id) as [x|] eqn:Ex; [|done].
  pose proof (si_structure _ _ (sweepLocked_sinv E o now s (proj1 Hi))) as Hst.
  by apply (so_msg_key _ Hst) in Ex.
Qed.

(** C2: A request is accepted at most once.  After a send is accepted, in any
    continuation of the run and for as long as the idempotency window lasts,
    every successful send with the same sender, target and request identifier
    is answered as a duplicate with the same message identifier, and adds
    nothing to the store. *)
Theorem accepted_at_most_once E commit o t input s s1 m rc1 t' s2 commit' o' now input' s3 m' dup rc2 :
  inv E s → headroom o s →
  sendMessage E commit o t input s = (s1, Ok (m, false), rc1) →
  rtc (step E) (t, s1) (t', s2) →
  TrimSpace (SendMessageInput.From input') = TrimSpace (SendMessageInput.From input) →
  TrimSpace (SendMessageInput.To input') = TrimSpace (SendMessageInput.To input) →
  TrimSpace (SendMessageInput.RequestID input') = TrimSpace (SendMessageInput.RequestID input) →
  t' ≤ now → Sub now t ≤ Config.IdempotencyWindow (cfg E) →
  sendMessage E commit' o' now input' s2 = (s3, Ok (m', dup), rc2) →
  dup = true ∧ Message.MessageID m' = Message.MessageID m ∧ s3 = sweepLocked E o' now s2.
Proof.
  intros Hi Hh Hsend Hrun Hf Hto Hreq Ht' Hw Hsend'.
  destruct (accepted_receipt _ _ _ _ _ _ _ _ _ (proj1 Hi) Hsend) as (r & Hr & Hrec).
  assert (inv E s1) as Hi1.
  { pose proof (run_inv E o t (OpSendMessage commit input) s Hi Hh) as H. cbn in H.
    by rewrite Hsend in H. }
  destruct (rtc_run_ok E (t, s1) (t', s2) Hi1 Hrun) as [_ Hi2 _ _ Hk _]. cbn in Hk, Hi2.
  eapply (repeat_answered E input input' r); eauto.
  apply Hk; [done|]. revert Hw. unfold Sub, min_int64, max_int64. cbn. lia.
Qed.

(** Alice repeats her request three seconds later, after Bob polled. *)
Definition bob_polls : list (Time * Op) :=
  [(at_s 2, OpPollInbox None bob (PollInboxInput.mk bob 0 0 0) 0 (at_s 2))].
Definition after_poll : Time * Store := exec E0 requested bob_polls.

Lemma accepted_at_most_once_witness :
  let res := sendMessage E0 None (order_of after_poll.2) (at_s 4) request1 after_poll.2 in
  ∃ m', res.1.2 = Ok (m', true) ∧ Message.MessageID m' = message_id 1 ∧
    res.1.1 = sweepLocked E0 (order_of after_poll.2) (at_s 4) after_poll.2.
Proof.
  cbv zeta.
  destruct (sendMessage E0 None (order_of registered.2) (at_s 1) request1 registered.2)
    as [[s1 [[m [|]]|e]] rc1] eqn:H1; [exfalso; revert H1; vm_compute; discriminate| |
    exfalso; revert H1; vm_compute; discriminate].
  assert (Message.MessageID m = message_id 1) as Hid.
  { assert (match (sendMessage E0 None (order_of registered.2) (at_s 1) request1 registered.2).1.2 with
            | Ok (x, _) => Message.MessageID x | _ => ε end = message_id 1) as H by (vm_compute; reflexivity).
    rewrite H1 in H. exact H. }
  assert (s1 = requested.2) as ->.
  { change requested.2 with
      ((sendMessage E0 None (order_of registered.2) (at_s 1) request1 registered.2).1.1). by rewrite H1. }
  destruct (sendMessage E0 None (order_of after_poll.2) (at_s 4) request1 after_poll.2)
    as [[s3 [[m' dup]|e]] rc2] eqn:H2; [|exfalso; revert H2; vm_compute; discriminate].
  destruct (accepted_at_most_once E0 None (order_of registered.2) (at_s 1) request1 registered.2
    requested.2 m rc1 (at_s 2) after_poll.2 None (order_of after_poll.2) (at_s 4) request1 s3 m' dup rc2)
    as (-> & Hm & ->).
  - apply (reachable_ok E0 registered.1 registered.2 registered_reachable).
  - apply has_headroom_ok. vm_compute. reflexivity.
  - exact H1.
  - apply (exec_steps E0 requested bob_polls). vm_compute. reflexivity.
  - reflexivity.
  - reflexivity.
  - reflexivity.
  - vm_compute. discriminate.
  - vm_compute. discriminate.
  - exact H2.
  - exists m'. rewrite <-Hid. cbn. split_and!; [reflexivity|exact Hm|reflexivity].
Defined.

(** ** Message lifecycle *)

(** C3: Between any two states of a run a stored message is either pruned or
    present as a later version of itself: the envelope is unchanged, the state
    has only moved forward (pending, waiting, executing, terminal), and a
    terminal state with its time is final. *)
Theorem messages_only_move_forward E t s t' s' k m :
  inv E s → rtc (step E) (t, s) (t', s') → messages s !! k = Some m →
  messages s' !! k = None ∨
  ∃ m', messages s' !! k = Some m' ∧
    Message.From m' = Message.From m ∧ Message.To m' = Message.To m ∧
    Message.Body m' = Message.Body m ∧ Message.ConversationID m' = Message.ConversationID m ∧
    (rank (Message.State m) ≤ rank (Message.State m'))%nat ∧
    (isTerminal (Message.State m) = true →
      Message.State m' = Message.State m ∧ Message.TerminalAt m' = Message.TerminalAt m).
Proof.
  intros Hi Hrun Hm. destruct (rtc_run_ok E (t, s) (t', s') Hi Hrun) as [_ _ _ [_ Hh] _ _].
  cbn in Hh. destruct (messages s' !! k) as [m'|] eqn:Hm'; [right|by left].
  destruct (Hh k m' Hm') as [(m0 & Hm0 & He)|Hn].
  - simplify_eq. exists m'. destruct (evolves_envelope _ _ He) as (_ & _ & ? & ? & ? & _ & ? & _).
    by destruct He.
  - exfalso. by apply Hn, (so_issued _ (si_structure _ _ (proj1 Hi)) _ _ Hm).
Qed.

Definition bob_finishes : list (Time * Op) :=
  [(at_s 2, OpAck None (AckInput.mk bob (message_id 1) "accepted"%stdpp ε));
   (at_s 3, OpPostEvent None (EventInput.mk bob (message_id 1) "final"%stdpp "pong"%stdpp JNull))].

Definition finished : Time * Store := exec E0 requested bob_finishes.

Lemma messages_only_move_forward_witness :
  messages finished.2 !! message_id 1 = None ∨
  ∃ m', messages finished.2 !! message_id 1 = Some m' ∧
    (rank StateWaitingAck ≤ rank (Message.State m'))%nat.
Proof.
  destruct (messages_only_move_forward E0 requested.1 requested.2 finished.1 finished.2
    (message_id 1) request_message) as [H|(m' & Hm' & _ & _ & _ & _ & Hr & _)].
  - exact (proj1 (reachable_ok E0 _ _ requested_reachable)).
  - rewrite <-!surjective_pairing. apply exec_steps. vm_compute. reflexivity.
  - vm_compute. reflexivity.
  - by left.
  - right. exists m'. split; [exact Hm'|exact Hr].
Defined.

(** C4: Message identifiers are never reused: an identifier given out earlier
    in the run whose message is gone never names a message again. *)
Theorem identifiers_not_reused E t s t' s' n :
  inv E s → rtc (step E) (t, s) (t', s') → 1 ≤ n ≤ nextMessageID s →
  messages s !! message_id n = None → messages s' !! message_id n = None.
Proof.
  intros Hi Hrun Hn Hnone. destruct (rtc_run_ok E (t, s) (t', s') Hi Hrun) as [_ _ _ [_ Hh] _ _].
  cbn in Hh. destruct (messages s' !! message_id n) as [m'|] eqn:Hm'; [|done].
  destruct (Hh _ m' Hm') as [(m & Hm & _)|Hni]; [congruence|].
  destruct Hni. by exists n.
Qed.

(** Two days later the finished request has been pruned. *)
Definition two_days : Z := 48 * 3600.
Definition swept_out : Time * Store := exec E0 finished [(at_s two_days, OpSnapshot [])].

Definition reopened : Time * Store :=
  exec E0 swept_out
    [(at_s (two_days + 1), OpRegisterAgent (register alice 60));
     (at_s (two_days + 1), OpInject None (InjectInput.mk "op"%stdpp ε alice "hi"%stdpp))].

Lemma identifiers_not_reused_witness : messages reopened.2 !! message_id 1 = None.
Proof.
  apply (identifiers_not_reused E0 swept_out.1 swept_out.2 reopened.1 reopened.2).
  - change swept_out with (exec E0 (t0, emptyStore)
      (register_calls ++ request_calls ++ bob_finishes ++ [(at_s two_days, OpSnapshot [])])).
    eapply proj1, reachable_ok, exec_reachable. vm_compute. reflexivity.
  - rewrite <-!surjective_pairing. apply exec_steps. vm_compute. reflexivity.
  - vm_compute. split; discriminate.
  - vm_compute. reflexivity.
Defined.

(** ** Wake-ups *)

(** C5: No wake-up is lost.  When an inbox poll decides to wait, it has read
    everything, and as long as its channel has not been closed nothing has
    been added to the inbox, whatever the rest of the system did since. *)
Theorem poll_wakeup_not_lost E advance a input deadline o r s s1 ch remaining out t' s2 :
  inv E s → headroom o s →
  poll_section E advance a input deadline o r s = (s1, Waits ch remaining out) →
  rtc (step E) (at_start r, s1) (t', s2) →
  out = Ok ([], inbox_end s1 a) ∧ (chan_closed ch s2 ∨ inbox_end s2 a = inbox_end s1 a).
Proof.
  intros Hi Hh Hp Hrun.
  assert (inv E s1) as Hi1.
  { pose proof (run_inv E o (at_start r) (OpPollInbox advance a input deadline (at_wait r)) s Hi Hh) as H.
    cbn in H. destruct r. cbn in *. by rewrite Hp in H. }
  destruct (rtc_run_ok E (at_start r, s1) (t', s2) Hi1 Hrun) as [_ _ _ _ _ [Hw _]]. cbn in Hw.
  destruct (poll_section_waits E _ _ _ _ _ _ _ _ _ _ _ (proj1 Hi) Hp) as (Hslot & Hin & Hout).
  split; [done|]. destruct (Hw a ch (inbox_end s1 a)) as [?|(_ & _ & ?)]; [by right|by left|by right].
Qed.

Definition bob_waits : PollInboxInput.t := PollInboxInput.mk bob 0 (30 * Second) 0.

Definition bob_waiting : Store :=
  (poll_section E0 None bob bob_waits (at_s 30) (order_of registered.2)
    (mkReading t0 t0) registered.2).1.

Definition woken : Time * Store := exec E0 (t0, bob_waiting) request_calls.

Lemma poll_wakeup_not_lost_witness :
  chan_closed 3 woken.2 ∨ inbox_end woken.2 bob = inbox_end bob_waiting bob.
Proof.
  eapply (poll_wakeup_not_lost E0 None bob bob_waits (at_s 30) (order_of registered.2)
    (mkReading t0 t0) registered.2 bob_waiting 3 (30 * Second) (Ok ([], 0)) woken.1 woken.2).
  - exact (proj1 (reachable_ok E0 _ _ registered_reachable)).
  - apply has_headroom_ok. vm_compute. reflexivity.
  - vm_compute. reflexivity.
  - rewrite <-surjective_pairing. apply exec_steps. vm_compute. reflexivity.
Defined.

(** The same for observers: as long as the channel an [ObserveSince] call
    waits on is open, no event has been published since it looked. *)
Theorem observe_wakeup_not_lost E after filter wait deadline o r s s1 ch remaining out t' s2 :
  inv E s → headroom o s →
  observe_section E after filter wait deadline o r s = (s1, Waits ch remaining out) →
  rtc (step E) (at_start r, s1) (t', s2) →
  chan_closed ch s2 ∨ nextObserveID s2 = nextObserveID s1.
Proof.
  intros Hi Hh Hp Hrun.
  assert (inv E s1) as Hi1.
  { pose proof (run_inv E o (at_start r) (OpObserveSince after filter wait deadline (at_wait r))
      s Hi Hh) as H. cbn in H. destruct r. cbn in *. by rewrite Hp in H. }
  destruct (rtc_run_ok E (at_start r, s1) (t', s2) Hi1 Hrun) as [_ _ _ _ _ [_ Hw]]. cbn in Hw.
  pose proof (observe_section_waits E _ _ _ _ _ _ _ _ _ _ _ Hp) as Hch.
  destruct (Hw ch (nextObserveID s1)) as [?|[_ ?]]; [by right|by left|by right].
Qed.

Definition watch_bob : ObserveFilter.t := ObserveFilter.mk ε bob ε.

Definition watching : Store :=
  (observe_section E0 2 watch_bob (30 * Second) (at_s 30) (order_of registered.2)
    (mkReading t0 t0) registered.2).1.

Lemma observe_wakeup_not_lost_witness :
  let s2 := (exec E0 (t0, watching) request_calls).2 in
  chan_closed 2 s2 ∨ nextObserveID s2 = nextObserveID watching.
Proof.
  cbv zeta. eapply (observe_wakeup_not_lost E0 2 watch_bob (30 * Second) (at_s 30)
    (order_of registered.2) (mkReading t0 t0) registered.2 watching 2 (30 * Second) ([], 2) (at_s 1)).
  - exact (proj1 (reachable_ok E0 _ _ registered_reachable)).
  - apply has_headroom_ok. vm_compute. reflexivity.
  - vm_compute. reflexivity.
  - change (at_s 1) with (exec E0 (t0, watching) request_calls).1.
    rewrite <-surjective_pairing. apply exec_steps. vm_compute. reflexivity.
Defined.

(** C7: No run closes a channel twice, which would panic: a channel is closed
    at most once, and every channel a waiter can still be handed is open. *)
Theorem no_double_close E now s :
  reachable E now s →
  Channels.double_close (channels s) = false ∧ ¬ chan_closed (observeNotify s) s ∧
  ∀ a ch, inboxNotify s !! a = Some ch → ¬ chan_closed ch s.
Proof.
  intros Hr. destruct (reachable_ok E now s Hr) as [[[_ _ [Hp _ [_ Ho] Hi _]] _] _].
  split_and!; [done|done|]. intros a ch Ha. by destruct (Hi a ch Ha) as (_ & ? & _).
Qed.

Lemma no_double_close_witness : Channels.double_close (channels requested.2) = false.
Proof. exact (proj1 (no_double_close E0 requested.1 requested.2 requested_reachable)). Defined.
