(* ===== verification/SendProps.v ===== *)
(** * Properties of sending and injecting messages *)
From stdpp Require Import gmap strings list relations.
From Stdlib Require Import ZArith Lia Ascii.
From S2P Require Import Prelude GoBase Sha256 Json Types Scope Config Auth Ring State Push Inbox Observe Structure Sweep SweepSpec Conversations Agents Wakeup History Send SendSpec Poll Lifecycle Queries System Scenario.

(** ** What an acceptance changes *)

Lemma push_tail_inbox E a rc s b L : represents s b L → represents (push_tail E a rc s).2 b L.
Proof.
  destruct (push_tail_frame E a rc s) as [_ _ _ _ Hi Hb _ _].
  unfold represents, inbox, base. by rewrite Hi, Hb.
Qed.

Lemma publishLocked_represents E ty d c ids t s b L :
  represents s b L → represents (publishLocked E ty d c ids t s) b L.
Proof.
  destruct (publishLocked_inbox E ty d c ids t s b) as (Hi & Hb & _).
  unfold represents. by rewrite Hi, Hb.
Qed.

(** What an optional event adds to the log of [b]. *)
Definition delivered_to (to : string) (evt : option InboxEvent.t) (b : string) : list InboxEvent.t :=
  match evt with Some e => if decide (to = b) then [e] else [] | None => [] end.

Lemma append_event_represents E to evt s b L :
  inbox_ok E s b → represents s b L →
  represents (append_event E to evt s) b (L ++ delivered_to to evt b).
Proof.
  intros Hok HL. destruct evt as [e|]; cbn; [|by rewrite app_nil_r].
  case_decide as Hb; [subst; by apply appendInboxLocked_represents|].
  rewrite app_nil_r. destruct (appendInboxLocked_other E to b e s Hb) as (_ & Hi & Hba & _).
  unfold represents. by rewrite Hi, Hba.
Qed.

Lemma send_apply_represents E now a s b L :
  inbox_ok E s b → represents s b L →
  represents (send_apply E now a s) b
    (L ++ delivered_to (Message.To (SendAcceptance.message a)) (SendAcceptance.inboxEvent a) b).
Proof.
  intros Hok HL. unfold send_apply. cbv zeta. apply publishLocked_represents, append_event_represents.
  - eapply inbox_ok_ext; [..|exact Hok]; by case_match.
  - unfold represents, inbox, base in *. by case_match.
Qed.

Lemma inject_apply_represents E now i a s b L :
  inbox_ok E s b → represents s b L →
  represents (inject_apply E now i a s) b
    (L ++ delivered_to (Message.To (SendAcceptance.message a)) (SendAcceptance.inboxEvent a) b).
Proof.
  intros Hok HL. unfold inject_apply. cbv zeta.
  do 2 apply publishLocked_represents. apply append_event_represents; [|done].
  by eapply inbox_ok_ext; [..|exact Hok].
Qed.

(** Everything but inboxes, receipts, events and push state. *)
Definition same_catalogue (s s' : Store) : Prop :=
  messages s' = messages s ∧ conversations s' = conversations s ∧
  conversationMessages s' = conversationMessages s ∧ agents s' = agents s ∧
  nextMessageID s' = nextMessageID s.

Lemma same_catalogue_trans s1 s2 s3 :
  same_catalogue s1 s2 → same_catalogue s2 s3 → same_catalogue s1 s3.
Proof. intros (?&?&?&?&?) (?&?&?&?&?). repeat split; congruence. Qed.

Lemma publish_catalogue E ty d c ids t s : same_catalogue s (publishLocked E ty d c ids t s).
Proof. by destruct (publishLocked_frame E ty d c ids t s). Qed.

Lemma append_catalogue E to evt s : same_catalogue s (append_event E to evt s).
Proof. by destruct (append_event_frame E to evt s). Qed.

Lemma push_tail_catalogue E a rc s : same_catalogue s (push_tail E a rc s).2.
Proof. by destruct (push_tail_frame E a rc s) as [[] ? ? ? ? ? ? ?]. Qed.

Lemma send_apply_catalogue E now a s : same_catalogue (install a s) (send_apply E now a s).
Proof.
  unfold send_apply. cbv zeta. eapply same_catalogue_trans; [|apply publish_catalogue].
  eapply same_catalogue_trans; [|apply append_catalogue]. by case_match.
Qed.

Lemma inject_apply_catalogue E now i a s : same_catalogue (install a s) (inject_apply E now i a s).
Proof.
  unfold inject_apply. cbv zeta. do 2 (eapply same_catalogue_trans; [|apply publish_catalogue]).
  apply append_catalogue.
Qed.

(** The catalogue after one more message; [send_frame] gives the other fields. *)
Record one_more (s s' : Store) (m : Message.t) : Prop := {
  om_id : Message.MessageID m = message_id (nextMessageID s + 1);
  om_fresh : messages s !! Message.MessageID m = None;
  om_messages : messages s' = <[Message.MessageID m := m]> (messages s);
  om_link : conversation_messages s' (Message.ConversationID m) =
    conversation_messages s (Message.ConversationID m) ++ [Message.MessageID m];
  om_others : ∀ c, c ≠ Message.ConversationID m →
    conversation_messages s' c = conversation_messages s c ∧
    conversations s' !! c = conversations s !! c;
  om_agents : agents s' = agents s }.

Lemma install_one_more E a s s' :
  sinv E s → nextMessageID s < max_int64 → acceptance_ok s a → same_catalogue (install a s) s' →
  one_more s s' (SendAcceptance.message a).
Proof.
  intros Hs Hm Ha (Hms & Hc & Hcm & Hag & _). pose proof (so_msgID _ (si_structure _ _ Hs)) as H0.
  destruct Ha as [_ Hid _ Hcid _ _ _ _ _]. rewrite inc64_lt in Hid by lia.
  constructor; unfold conversation_messages; rewrite ?Hms, ?Hc, ?Hcm, ?Hag; cbn; rewrite ?Hcid.
  - done.
  - rewrite Hid. destruct (messages s !! _) eqn:Em; [|done].
    apply (so_issued _ (si_structure _ _ Hs)) in Em. by apply issued_fresh in Em.
  - done.
  - by rewrite lookup_insert_eq.
  - intros c Hne. by rewrite !lookup_insert_ne.
  - done.
Qed.

Lemma accepted_one_more E commit o now input s s' m rc :
  sinv E s → nextMessageID s < max_int64 →
  sendMessage E commit o now input s = (s', Ok (m, false), rc) →
  one_more (sweepLocked E o now s) s' m.
Proof.
  intros Hs Hm Hsend.
  pose proof (sendMessage_cases E commit o now input s) as Hcase. rewrite Hsend in Hcase.
  inversion Hcase as [| | |r t a receipt Hr Ht Hd Hp Hrc]; subst.
  apply (sweepLocked_sinv E o now) in Hs. destruct (sweepLocked_frame E o now s) as [Hn _ _ _].
  rewrite <-Hn in Hm. destruct (send_target_spec _ _ _ _ Ht) as [Htg _].
  destruct (send_plan_spec E now input r t _ a (si_structure _ _ Hs)
    (send_request_type _ _ _ Hr) Htg Hp) as (Ha & _).
  eapply install_one_more; [done..|].
  eapply same_catalogue_trans; [apply send_apply_catalogue|apply push_tail_catalogue].
Qed.

(** C8: An accepted send, exactly.  The message carries the caller's trimmed
    fields and the state its type and target call for; [send_frame] gives every
    field of the store against the swept one.  One message is added under the
    next identifier, at the end of its conversation, whose record alone changes
    (count, last message, and the parties who were not in it); the receipt for
    its request is recorded; one event is published to the stream, which drops
    a prefix only as its budget requires; an active target's inbox grows by
    exactly that message and loses only what its budget evicts, while a target
    in its grace period gets the message queued and no inbox changes; its
    waiters and the stream's are woken; the callback of a push target is queued,
    or counted as failed.  Agents, the other receipts, conversations and
    inboxes, the sweep's clock and counters and the rest of the push pool are
    unchanged.  In terms of the abstract logs: the target's grows by that
    message, every other is the same. *)
Theorem send_accepted_effect E commit o now input s s' m rc :
  sinv E s → nextMessageID s < max_int64 →
  sendMessage E commit o now input s = (s', Ok (m, false), rc) →
  let s1 := sweepLocked E o now s in
  ∃ target a receipt, agents s1 !! Message.To m = Some target ∧
    SendAcceptance.message a = m ∧ run_commit commit a = Ok receipt ∧
    message_for E now input target m ∧
    send_frame E now input target m receipt rc s1 s' ∧
    (target_expired target = true → now ≤ grace_until E target) ∧
    ∀ b L, represents s1 b L →
      represents s' b (L ++ delivered_to (Message.To m)
        (if target_expired target then None else Some (messageInboxEvent m)) b).
Proof.
  intros Hs Hm Hsend. cbv zeta.
  pose proof (sendMessage_cases E commit o now input s) as Hcase. rewrite Hsend in Hcase.
  inversion Hcase as [| | |r t a receipt Hr Ht Hd Hp Hrc]; subst.
  apply (sweepLocked_sinv E o now) in Hs. destruct (sweepLocked_frame E o now s) as [Hn _ _ _].
  rewrite <-Hn in Hm. clear Hcase Hsend Hd Hn.
  generalize dependent (sweepLocked E o now s). intros s1 Hs Hm Ht Hp.
  pose proof (accepted_frame E now input r t s1 a receipt Hs Hm Hr Ht Hp) as Hframe.
  destruct (send_target_spec _ _ _ _ Ht) as [Htg _].
  destruct (send_plan_spec E now input r t s1 a (si_structure _ _ Hs)
    (send_request_type _ _ _ Hr) Htg Hp) as (Ha & cid & conv & _ & _ & Hmsg & _ & _ & Hgr & Hev).
  assert (Message.To (SendAcceptance.message a) = sr_to r) as Hto by (by rewrite Hmsg).
  exists t, a, receipt. split_and!; [by rewrite Hto|done|done| |exact Hframe| |].
  - rewrite Hmsg. by apply send_message_for.
  - intros He. specialize (Hgr He). unfold After in Hgr. by apply Z.ltb_ge in Hgr.
  - intros b L HL. apply push_tail_inbox. rewrite <-Hev.
    apply send_apply_represents; [by apply Hs|done].
Qed.

Lemma send_accepted_effect_witness :
  ∃ target receipt, send_frame E0 (at_s 1) request1 target request_message receipt None
    (sweepLocked E0 (order_of registered.2) (at_s 1) registered.2) requested.2.
Proof.
  destruct (send_accepted_effect E0 None (order_of registered.2) (at_s 1) request1 registered.2
    requested.2 request_message None) as (target & a & receipt & _ & _ & _ & _ & H & _).
  - exact (proj1 (proj1 (reachable_ok E0 _ _ registered_reachable))).
  - vm_compute. reflexivity.
  - exact request_accepted.
  - exists target, receipt. exact H.
Defined.

(** C9: A refused send changes nothing: on every error path, a refusal by the
    durability barrier included, the store is the one the sweep left (or the
    untouched one, for requests refused before the lock), no push is scheduled
    and no receipt is dispatched; a duplicate changes nothing either. *)
Theorem send_refused_no_effect E commit o now input s s' res rc :
  sendMessage E commit o now input s = (s', res, rc) →
  (∀ m, res ≠ Ok (m, false)) →
  rc = None ∧
  s' = (if is_ok (send_request E input) then sweepLocked E o now s else s).
Proof.
  intros Hsend Hres. pose proof (sendMessage_cases E commit o now input s) as Hc.
  rewrite Hsend in Hc. inversion Hc as [e He|r e Hr|r t d Hr Ht Hd|r t a receipt]; subst.
  - by rewrite He.
  - by rewrite Hr.
  - by rewrite Hr.
  - by destruct (Hres (SendAcceptance.message a)).
Qed.

(** A barrier that refuses. *)
Definition failing : Commit := Some (λ _, Err (NewInternalError "disk full"%stdpp)).

Lemma send_refused_no_effect_witness :
  (sendMessage E0 failing (order_of registered.2) (at_s 1) request1 registered.2).1.1 =
  sweepLocked E0 (order_of registered.2) (at_s 1) registered.2.
Proof.
  destruct (send_refused_no_effect E0 failing (order_of registered.2) (at_s 1) request1 registered.2
    (sendMessage E0 failing (order_of registered.2) (at_s 1) request1 registered.2).1.1
    (Err (NewInternalError "disk full"%stdpp)) None) as [_ H].
  - vm_compute. reflexivity.
  - discriminate.
  - assert (is_ok (send_request E0 request1) = true) as Hok by (vm_compute; reflexivity).
    rewrite Hok in H. exact H.
Defined.

(** ** Who may send to whom *)

Lemma may_access_of_actor E a r :
  TrimSpace a ≠ ε → agentCanAccessName E a r = true → may_access E a r.
Proof.
  intros Ha H. apply agentCanAccessName_spec in H; [|done].
  destruct (isControlPlaneAgent E a) eqn:Ec; [by left|done].
Qed.

Lemma authorized_names E a names :
  TrimSpace a ≠ ε → authorizeActorForNames E a names = None →
  ∀ n, named names n → may_access E (TrimSpace a) n.
Proof.
  intros Ha. unfold authorizeActorForNames, is_empty. rewrite bool_decide_eq_false_2 by done.
  intros H n Hn. rewrite authorizeActorForNames_loop_spec in H. apply may_access_of_actor; [|auto].
  by rewrite TrimSpace_idemp.
Qed.

(** C10: Scope isolation.  A send succeeds, as a new message or as a duplicate,
    only for a registered, active sender whose own name is within its policy
    and who may reach the target: because the target is a control-plane queue,
    because the sender is a control-plane identity, because both names have
    the same scope, or because the target is shared and the sender holds the
    grant.  A new message in an existing conversation further requires access
    to every one of its participants; a duplicate is answered from its receipt
    before any conversation is looked at. *)
Theorem send_respects_scopes E commit o now input s s' m dup rc :
  sinv E s → sendMessage E commit o now input s = (s', Ok (m, dup), rc) →
  let s1 := sweepLocked E o now s in
  let from := TrimSpace (SendMessageInput.From input) in
  let to := TrimSpace (SendMessageInput.To input) in
  (∃ sender, agents s1 !! from = Some sender ∧ Agent.Status sender = AgentStatusActive) ∧
  may_access E from from ∧ (isControlPlaneAgent E to = true ∨ may_access E from to) ∧
  (dup = false → ∀ c n, conversations s1 !! Message.ConversationID m = Some c →
    named (Conversation.Participants c) n → may_access E from n).
Proof.
  intros Hs Hsend. cbv zeta. apply (sweepLocked_sinv E o now) in Hs.
  assert (∃ r t, send_request E input = Ok r ∧ send_target E r (sweepLocked E o now s) = Ok t ∧
    (dup = false → ∃ a, send_plan E now input r t (sweepLocked E o now s) = Ok a ∧
      m = SendAcceptance.message a)) as (r & t & Hr & Ht & Hp).
  { pose proof (sendMessage_cases E commit o now input s) as Hc. rewrite Hsend in Hc.
    inversion Hc; subst; do 2 eexists; (split_and!; [eassumption..|]); [done|eauto]. }
  clear Hsend. generalize dependent (sweepLocked E o now s). intros s1 Hs Ht Hp.
  destruct (send_target_spec _ _ _ _ Ht) as (Htg & sender & Hsd & Hact & Hself & Hto).
  destruct (send_request_fields _ _ _ Hr) as (F1 & F2 & _ & _ & Hacc & _).
  assert (TrimSpace (sr_from r) = sr_from r) as Htrim by (rewrite F1; apply TrimSpace_idemp).
  assert (sr_from r ≠ ε) as Hne.
  { unfold send_request in Hr. cbv zeta in Hr. do 2 (case_bool; [|done]).
    destruct (negb (is_empty (TrimSpace (SendMessageInput.From input)))) eqn:En; [|done].
    rewrite F1. unfold is_empty in En. by prop_bool. }
  rewrite <-F1, <-F2. pose proof (so_agent_key _ (si_structure _ _ Hs) _ _ Hsd) as Hid.
  rewrite Hid in Hself, Hto. split_and!.
  - eauto.
  - by apply authorizeAgentForName_spec.
  - unfold authorizeSendTarget in Hto. destruct (isControlPlaneAgent E (sr_to r)); [by left|right].
    by apply authorizeAgentForName_spec.
  - intros ->. destruct (Hp eq_refl) as (a & Ha & ->). intros c n Hconv Hn.
    destruct (send_plan_spec E now input r t s1 a (si_structure _ _ Hs)
      (send_request_type _ _ _ Hr) Htg Ha) as (_ & cid & conv & _ & Hsc & Hmsg & _).
    rewrite Hmsg in Hconv. cbn in Hconv. unfold send_conversation in Hsc. rewrite Hconv in Hsc.
    destruct (authorizeActorForNames E (sr_from r) (Conversation.Participants c)) eqn:Eau; [done|].
    rewrite <-Htrim. eapply authorized_names; [by rewrite Htrim|exact Eau|done].
Qed.

Lemma send_respects_scopes_witness : may_access E0 alice bob.
Proof.
  destruct (send_respects_scopes E0 None (order_of registered.2) (at_s 1) request1 registered.2
    requested.2 request_message false None) as (_ & _ & [H|H] & _).
  - exact (proj1 (proj1 (reachable_ok E0 _ _ registered_reachable))).
  - exact request_accepted.
  - exfalso. revert H. vm_compute. discriminate.
  - exact H.
Defined.

(** ** Injection *)

(** An accepted injection comes from an allowed identity (any identity
    when no allowlist is configured) and adds exactly one inform message from
    the human identity.  With a named target the target exists and is not
    beyond its grace period, and an active target's inbox log grows by exactly
    that message; without a target nothing is delivered. *)
Theorem inject_accepted_effect E commit o now input s s' m rc :
  sinv E s → nextMessageID s < max_int64 → nextConversationID s < max_int64 →
  inject E commit o now input s = (s', Ok m, rc) →
  let s1 := sweepLocked E o now s in
  let identity := TrimSpace (InjectInput.Identity input) in
  (humanAllowlist E = ∅ ∨ identity ∈ humanAllowlist E) ∧
  one_more s1 s' m ∧
  Message.Typ m = MessageTypeInform ∧ Message.From m = inject_identity identity ∧
  Message.To m = TrimSpace (InjectInput.To input) ∧
  ∃ target, inject_target E now (Message.To m) s1 = Ok target ∧
    ∀ b L, represents s1 b L →
      represents s' b (L ++ delivered_to (Message.To m)
        (match target with
         | Some t => if target_expired t then None else Some (messageInboxEvent m)
         | None => None
         end) b).
Proof.
  intros Hs Hm Hc Hinj. cbv zeta.
  pose proof (inject_cases E commit o now input s) as Hcase. rewrite Hinj in Hcase.
  inversion Hcase as [| |identity body to a receipt Hr Hp Hrc]; subst. clear Hcase Hinj Hc.
  apply (sweepLocked_sinv E o now) in Hs. destruct (sweepLocked_frame E o now s) as [Hn _ _ _].
  rewrite <-Hn in Hm. clear Hn. generalize dependent (sweepLocked E o now s). intros s1 Hs Hm Hp.
  destruct (inject_plan_spec E now input identity body to s1 a (si_structure _ _ Hs) Hp)
    as (Ha & cid & target & _ & Ht & Hmsg & _).
  assert (SendAcceptance.inboxEvent a = match target with
    | Some t => if target_expired t then None else Some (messageInboxEvent (SendAcceptance.message a))
    | None => None end) as Hev.
  { revert Hp. unfold inject_plan. destruct (choose_conversation _ s1). rewrite Ht.
    intros [= <-]. cbn. destruct target as [t|]; [|done]. by destruct (target_expired t). }
  revert Hr. unfold inject_request. cbv zeta. do 2 (case_bool; [|done]).
  destruct (bool_decide (humanAllowlist E = ∅) || _) eqn:Eal; [|done]. intros [= <- <- <-].
  rewrite Hmsg. cbn. split_and!; [|rewrite <-Hmsg|done..|].
  - prop_bool. destruct Eal; prop_bool; auto.
  - eapply install_one_more; [done..|].
    eapply same_catalogue_trans; [apply inject_apply_catalogue|apply push_tail_catalogue].
  - exists target. split; [done|]. intros b L HL. apply push_tail_inbox.
    rewrite <-Hmsg, <-Hev.
    replace (TrimSpace (InjectInput.To input)) with (Message.To (SendAcceptance.message a))
      by (by rewrite Hmsg).
    apply inject_apply_represents; [by apply Hs|done].
Qed.

Definition hello : InjectInput.t := InjectInput.mk "op"%stdpp ε bob "hello"%stdpp.

Definition injected : Store := (inject E0 None (order_of registered.2) (at_s 1) hello registered.2).1.1.

Lemma inject_accepted_effect_witness :
  ∃ m, messages injected !! message_id 1 = Some m ∧ Message.From m = inject_identity "op"%stdpp.
Proof.
  destruct (inject E0 None (order_of registered.2) (at_s 1) hello registered.2)
    as [[s' [m|e]] rc] eqn:Hi; [|exfalso; revert Hi; vm_compute; discriminate].
  destruct (inject_accepted_effect E0 None (order_of registered.2) (at_s 1) hello registered.2 s' m rc)
    as (_ & [Hid _ Hms _ _ _] & _ & Hf & _).
  - exact (proj1 (proj1 (reachable_ok E0 _ _ registered_reachable))).
  - vm_compute. reflexivity.
  - vm_compute. reflexivity.
  - exact Hi.
  - exists m. split; [|rewrite Hf; vm_compute; reflexivity].
    assert (injected = s') as -> by (unfold injected; by rewrite Hi).
    rewrite Hms. destruct (sweepLocked_frame E0 (order_of registered.2) (at_s 1) registered.2) as [Hn _ _ _].
    rewrite Hn in Hid. rewrite Hid.
    assert (nextMessageID registered.2 = 0) as -> by (vm_compute; reflexivity).
    apply lookup_insert_eq.
Defined.

(** ** Duplicate keys *)

Lemma split_at_separator (a b c d : list ascii) (x : ascii) :
  x ∉ a → x ∉ c → a ++ x :: b = c ++ x :: d → a = c ∧ b = d.
Proof.
  revert c. induction a as [|y a IH]; intros [|z c] Ha Hc H; cbn in H; simplify_eq; try done.
  - destruct Hc. by left.
  - destruct Ha. by left.
  - destruct (IH c) as [-> ->]; [set_solver..|done|done].
Qed.

(** The duplicate key identifies the request: when sender and target
    names contain no unit separator, equal keys mean equal sender, target and
    request identifier. *)
Theorem dedupeKey_injective f t r f' t' r' :
  Contains f "031"%char = false → Contains t "031"%char = false →
  Contains f' "031"%char = false → Contains t' "031"%char = false →
  dedupeKey f t r = dedupeKey f' t' r' → f = f' ∧ t = t' ∧ r = r'.
Proof.
  unfold Contains, dedupeKey, unit_separator. rewrite !bool_decide_eq_false.
  intros Hf Ht Hf' Ht' H%(f_equal bytes). rewrite !bytes_app in H. cbn in H.
  apply split_at_separator in H as [H1%bytes_inj H]; [|done..].
  apply split_at_separator in H as [H2%bytes_inj H3%bytes_inj]; [|done..]. done.
Qed.

Lemma dedupeKey_injective_witness :
  dedupeKey alice bob "r-1"%stdpp ≠ dedupeKey bob alice "r-1"%stdpp.
Proof.
  intros H. destruct (dedupeKey_injective alice bob "r-1"%stdpp bob alice "r-1"%stdpp) as [Hn _].
  - vm_compute. reflexivity.
  - vm_compute. reflexivity.
  - vm_compute. reflexivity.
  - vm_compute. reflexivity.
  - exact H.
  - discriminate Hn.
Defined.

(** Four agents, two of which have a unit separator in their names. *)
Definition odd_sender : string := "ucla.a"%stdpp +:+ unit_separator +:+ "ucla.b"%stdpp.
Definition odd_target : string := "ucla.b"%stdpp +:+ unit_separator +:+ "ucla.c"%stdpp.

Definition odd_run : Time * Store :=
  exec E0 (t0, emptyStore)
    [(t0, OpRegisterAgent (register "ucla.a"%stdpp 3600));
     (t0, OpRegisterAgent (register "ucla.c"%stdpp 3600));
     (t0, OpRegisterAgent (register odd_sender 3600));
     (t0, OpRegisterAgent (register odd_target 3600));
     (at_s 1, OpSendMessage None (send "ucla.a"%stdpp odd_target "r"%stdpp ε "secret"%stdpp))].

(** The restriction is needed, and the code does not enforce it: agents
    whose names contain a unit separator can register, and the first request
    of one pair is then answered as a duplicate of another pair's, returning
    that other message instead of delivering anything. *)
Example dedupe_collision :
  let res := SendMessage E0 (order_of odd_run.2) (at_s 2)
    (send odd_sender "ucla.c"%stdpp "r"%stdpp ε "mine"%stdpp) odd_run.2 in
  ∃ m, res.1.2 = Ok (m, true) ∧ Message.From m = "ucla.a"%stdpp ∧ Message.Body m = "secret"%stdpp.
Proof. vm_compute. eexists. split; [reflexivity|]. split; reflexivity. Qed.

(** ** Messages queued for an agent in its grace period *)

(** Only requests are ever touched after acceptance.  In particular an
    inform, a response or an injection that was queued because its target had
    just expired stays queued, exactly as it was accepted, until retention
    prunes it: no later sweep delivers it, whether or not the target comes
    back. *)
Theorem queued_inform_never_delivered E t s t' s' k m :
  inv E s → rtc (step E) (t, s) (t', s') →
  messages s !! k = Some m → Message.Typ m ≠ MessageTypeRequest →
  messages s' !! k = None ∨ messages s' !! k = Some m.
Proof.
  intros Hi Hrun Hm Hty. destruct (rtc_run_ok E (t, s) (t', s') Hi Hrun) as [_ _ _ [_ Hh] _ _].
  cbn in Hh. destruct (messages s' !! k) as [m'|] eqn:Hm'; [right|by left].
  destruct (Hh k m' Hm') as [(m0 & Hm0 & He)|Hn].
  - simplify_eq. by rewrite (ev_fixed _ _ He Hty).
  - exfalso. by apply Hn, (so_issued _ (si_structure _ _ (proj1 Hi)) _ _ Hm).
Qed.

(** Bob's registration lapses, Alice sends an inform within the grace period,
    Bob re-registers and polls. *)
Definition lapsed : Time * Store :=
  exec E0 (t0, emptyStore)
    [(t0, OpRegisterAgent (register alice 3600)); (t0, OpRegisterAgent (register bob 10));
     (at_s 20, OpSendMessage None (send alice bob "r-1"%stdpp "inform"%stdpp "news"%stdpp))].

Definition bob_returns : list (Time * Op) :=
  [(at_s 25, OpRegisterAgent (register bob 3600));
   (at_s 26, OpPollInbox None bob (PollInboxInput.mk bob 0 0 0) 0 (at_s 26))].

Definition returned : Time * Store := exec E0 lapsed bob_returns.

Definition queued_inform : option Message.t := messages lapsed.2 !! message_id 1.

Lemma queued_inform_never_delivered_witness :
  Message.QueuedForAgent <$> queued_inform = Some true ∧
  (messages returned.2 !! message_id 1 = None ∨ messages returned.2 !! message_id 1 = queued_inform) ∧
  inbox returned.2 bob = [].
Proof.
  split; [vm_compute; reflexivity|]. split; [|vm_compute; reflexivity].
  destruct queued_inform as [m|] eqn:Hm; [|exfalso; revert Hm; vm_compute; discriminate].
  apply (queued_inform_never_delivered E0 lapsed.1 lapsed.2 returned.1 returned.2).
  - eapply proj1, reachable_ok, exec_reachable. vm_compute. reflexivity.
  - rewrite <-!surjective_pairing. apply exec_steps. vm_compute. reflexivity.
  - exact Hm.
  - intros Hty. assert (Message.Typ <$> queued_inform = Some MessageTypeInform) as H by (vm_compute; reflexivity).
    rewrite Hm in H. cbn in H. congruence.
Defined.

(** ** Time to live *)

(** The deadline of an accepted send: a positive time to live that fits a
    duration is added exactly, none or a negative one means the configured
    default. *)
Theorem send_deadline E commit o now input s s' m rc :
  sendMessage E commit o now input s = (s', Ok (m, false), rc) →
  let ttl := SendMessageInput.TTLSeconds input in
  (0 < ttl ≤ 9223372036 → Message.TTLExpiresAt m = now + ttl * Second) ∧
  (ttl ≤ 0 → Message.TTLExpiresAt m =
    now + seconds (int_seconds (Config.DefaultMessageTTL (cfg E)))).
Proof.
  intros Hsend. cbv zeta.
  pose proof (sendMessage_cases E commit o now input s) as Hc. rewrite Hsend in Hc.
  inversion Hc as [| | |r t a receipt Hr Ht Hd Hp Hrc]; subst.
  assert (sr_ttl r = (if SendMessageInput.TTLSeconds input <=? 0
    then int_seconds (Config.DefaultMessageTTL (cfg E)) else SendMessageInput.TTLSeconds input)) as Httl.
  { revert Hr. unfold send_request. cbv zeta. do 6 (case_bool; [|done]). case_match; [|done].
    by intros [= <-]. }
  assert (Message.TTLExpiresAt (SendAcceptance.message a) = now + seconds (sr_ttl r)) as ->.
  { revert Hp. unfold send_plan. destruct (choose_conversation _ _).
    destruct (send_conversation _ _ _ _ _); [|done]. case_bool; [|done]. by intros [= <-]. }
  rewrite Httl. split; intros Hl.
  - rewrite (proj2 (Z.leb_gt _ _)) by lia. rewrite seconds_exact; [done|].
    unfold int64_range, min_int64, max_int64, Second. lia.
  - by rewrite (proj2 (Z.leb_le _ _)) by lia.
Qed.

Lemma send_deadline_witness : Message.TTLExpiresAt request_message = at_s 1 + 600 * Second.
Proof.
  destruct (send_deadline E0 None (order_of registered.2) (at_s 1) request1 registered.2
    requested.2 request_message None request_accepted) as [_ H].
  rewrite H; [vm_compute; reflexivity|vm_compute; discriminate].
Defined.

Definition eternal : SendMessageInput.t :=
  SendMessageInput.mk bob alice ε "r-2"%stdpp ε "ping"%stdpp JNull [] 9223372037 ε.

(** Beyond that range the multiplication wraps around: a request with a
    time to live of 9223372037 seconds is accepted with a deadline in the past
    and the next sweep fails it with a time-out. *)
Example send_deadline_overflow :
  let run := exec E0 registered [(at_s 1, OpSendMessage None eternal); (at_s 2, OpSnapshot [])] in
  ∃ m, messages run.2 !! message_id 1 = Some m ∧ Message.TTLExpiresAt m < Message.CreatedAt m ∧
    Message.State m = StateError.
Proof. vm_compute. eexists. split; [reflexivity|]. split; reflexivity. Qed.
