(* ===== verification/InboxProps.v ===== *)
(** * Properties of inboxes and of the observe stream *)
From stdpp Require Import gmap strings list relations.
From Stdlib Require Import ZArith Lia Ascii.
From S2P Require Import Prelude GoBase Json Types Config Auth Ring State Push Inbox Observe Structure Sweep SweepSpec Conversations Agents Wakeup History Send SendSpec Poll Lifecycle Queries System Scenario.

(** ** Exactly-once, in-order consumption

    A consumer and its inbox.  Events are known by their position in the log of
    everything delivered, which is what a cursor counts. *)

Section mailbox.
Context (E : Static) (a : string).

(** The store; everything delivered to [a]; the cursor the consumer holds and
    the events it received, in order; and the positions of the events that an
    append threw out of the inbox before the consumer had read them. *)
Record Mailbox := mkMailbox {
  mb_store : Store; mb_log : list InboxEvent.t;
  mb_cursor : Z; mb_received : list InboxEvent.t; mb_evicted : list nat }.

(** The positions an append threw out: the inbox had one event more before its
    trim than it had events at first. *)
Definition thrown_out (s s' : Store) : list nat :=
  seq (Z.to_nat (base s a)) (S (length (inbox s a)) - length (inbox s' a)).

(** Deliveries and polls interleave; a poll hands in the cursor the previous
    one returned, as the protocol asks. *)
Inductive mailbox_step : Mailbox → Mailbox → Prop :=
| mb_deliver s L c got ev evt :
    let s' := appendInboxLocked E a evt s in
    mailbox_step (mkMailbox s L c got ev)
      (mkMailbox s' (L ++ [evt]) c got (ev ++ filter (λ i, c ≤ Z.of_nat i) (thrown_out s s')))
| mb_poll s L c got ev limit s' c' out next :
    read_inbox None a c limit s = (s', Ok (c', Some (out, next))) →
    mailbox_step (mkMailbox s L c got ev) (mkMailbox s' L next (got ++ out) ev)
| mb_poll_empty s L c got ev limit s' c' :
    read_inbox None a c limit s = (s', Ok (c', None)) →
    mailbox_step (mkMailbox s L c got ev) (mkMailbox s' L c' got ev).

(** The events of [L] at the positions from [i] up, [n] of them, without those
    of [ev]. *)
Definition kept (L : list InboxEvent.t) (ev : list nat) (i n : nat) : list InboxEvent.t :=
  omap (λ k, L !! k) (filter (.∉ ev) (seq i n)).

(** The budget called for evicting position [i] of [L] when some event came
    in: the events from [i] up to it were too many. *)
Definition over_budget (L : list InboxEvent.t) (i : nat) : Prop :=
  ∃ n, (i < n ≤ length L)%nat ∧
    ¬ within (Config.MaxInboxEventsPerAgent (cfg E)) (Config.MaxInboxBytesPerAgent (cfg E))
        (drop i (take n L)).

Record mailbox_ok (m : Mailbox) : Prop := {
  mk_inbox : inbox_ok E (mb_store m) a;
  mk_log : represents (mb_store m) a (mb_log m);
  mk_cursor : 0 ≤ mb_cursor m ≤ Z.of_nat (length (mb_log m));
  mk_received : mb_received m = kept (mb_log m) (mb_evicted m) 0 (Z.to_nat (mb_cursor m));
  mk_evicted : ∀ i, i ∈ mb_evicted m →
    Z.of_nat i < base (mb_store m) a ∧ over_budget (mb_log m) i;
  mk_skipped : ∀ i, mb_cursor m ≤ Z.of_nat i < base (mb_store m) a → i ∈ mb_evicted m }.

Lemma read_inbox_inbox_ok c l s : inbox_ok E s a → inbox_ok E (read_inbox None a c l s).1 a.
Proof.
  intros Hs. destruct (read_inbox_cases None a c l s) as [->|[n ->]]; [done|].
  by apply dropInboxPrefixLocked_inbox_ok.
Qed.

Lemma kept_split L ev i n k : kept L ev i (n + k) = kept L ev i n ++ kept L ev (i + n) k.
Proof. unfold kept. by rewrite seq_app, filter_app, omap_app. Qed.

Lemma kept_all L ev i n :
  (∀ k, (i ≤ k < i + n)%nat → k ∉ ev) → kept L ev i n = take n (drop i L).
Proof.
  revert i. induction n as [|n IH]; intros i Hev; [done|].
  unfold kept in *. cbn [seq]. rewrite filter_cons_True by (apply Hev; lia). cbn [omap list_omap].
  rewrite IH by (intros k ?; apply Hev; lia). destruct (L !! i) as [x|] eqn:Ex.
  - by rewrite (drop_S _ _ _ Ex).
  - apply lookup_ge_None in Ex. rewrite !drop_ge by lia. by rewrite !take_nil.
Qed.

Lemma kept_none L ev i n : (∀ k, (i ≤ k < i + n)%nat → k ∈ ev) → kept L ev i n = [].
Proof.
  revert i. induction n as [|n IH]; intros i Hev; [done|].
  unfold kept in *. cbn [seq]. rewrite filter_cons_False by (intros H; apply H, Hev; lia).
  apply IH. intros k ?. apply Hev. lia.
Qed.

(** Only what lies below [i + n] matters. *)
Lemma kept_grow L L' ev ev' i n :
  (i + n ≤ length L)%nat → (∀ k, (k < i + n)%nat → k ∈ ev' → k ∈ ev) →
  kept (L ++ L') (ev ++ ev') i n = kept L ev i n.
Proof.
  intros Hn Hev. revert i Hn Hev. induction n as [|n IH]; intros i Hn Hev; [done|].
  unfold kept in *. cbn [seq]. specialize (IH (S i)).
  destruct (decide (i ∈ ev)) as [Hi|Hi].
  - rewrite !filter_cons_False; [|by intros ?|rewrite elem_of_app; intros []; auto].
    apply IH; [lia|]. intros k ?. apply Hev. lia.
  - assert (i ∉ ev ++ ev') as Hi'.
    { rewrite elem_of_app. intros [?|?]; [done|]. apply Hi, Hev; [lia|done]. }
    rewrite !filter_cons_True by done. cbn [omap list_omap].
    rewrite IH by (lia || (intros k ?; apply Hev; lia)). by rewrite lookup_app_l by lia.
Qed.

Lemma over_budget_grow L L' i : over_budget L i → over_budget (L ++ L') i.
Proof.
  intros (n & Hn & Hw). exists n. rewrite length_app. split; [lia|]. by rewrite take_app_le by lia.
Qed.

(** A delivery. *)
Lemma mailbox_deliver_ok s L c got ev evt :
  let s' := appendInboxLocked E a evt s in
  mailbox_ok (mkMailbox s L c got ev) →
  mailbox_ok (mkMailbox s' (L ++ [evt]) c got
    (ev ++ filter (λ i, c ≤ Z.of_nat i) (thrown_out s s'))).
Proof.
  intros s' [Hin Hlog Hc Hr Hev Hsk]; cbn in *.
  destruct (appendInboxLocked_spec E s a evt Hin) as (Hi' & Hb' & _). fold s' in Hi', Hb'.
  destruct (append_drop_spec E s a evt) as [Hd _]. set (d := append_drop E s a evt) in *.
  assert (thrown_out s s' = seq (Z.to_nat (base s a)) d) as Ht.
  { unfold thrown_out. rewrite Hi', length_app, length_drop. cbn. f_equal. lia. }
  pose proof Hlog as [Hb Hi].
  assert (length (inbox s a) = length L - Z.to_nat (base s a))%nat as Hlen by (by rewrite Hi, length_drop).
  constructor; cbn; rewrite ?Ht.
  - by apply appendInboxLocked_inbox_ok.
  - by apply appendInboxLocked_represents.
  - rewrite length_app. cbn. lia.
  - rewrite kept_grow; [done|lia|]. intros k Hk [Hck _]%list_elem_of_filter. cbn in Hck. lia.
  - intros i [Hi0|[Hci Hsq%elem_of_seq]%list_elem_of_filter]%elem_of_app.
    { destruct (Hev _ Hi0) as [? ?]. split; [lia|by apply over_budget_grow]. }
    cbn in Hci. split; [lia|]. exists (S (length L)). rewrite length_app. cbn. split; [lia|].
    rewrite take_ge by (rewrite length_app; cbn; lia).
    destruct (evict_count_spec (Config.MaxInboxEventsPerAgent (cfg E))
      (Config.MaxInboxBytesPerAgent (cfg E)) (inbox s a ++ [evt])) as (_ & _ & Hleast).
    { by intros [_ ?]%app_eq_nil. }
    specialize (Hleast (i - Z.to_nat (base s a))%nat). fold (append_drop E s a evt) in Hleast. fold d in Hleast.
    assert (inbox s a ++ [evt] = drop (Z.to_nat (base s a)) (L ++ [evt])) as Hall
      by (rewrite Hi, drop_app_le by lia; done).
    rewrite Hall, drop_drop in Hleast.
    replace (Z.to_nat (base s a) + (i - Z.to_nat (base s a)))%nat with i in Hleast by lia.
    apply Hleast. lia.
  - intros i Hci. apply elem_of_app. destruct (decide (Z.of_nat i < base s a)); [left; apply Hsk; lia|right].
    apply list_elem_of_filter. split; [lia|]. apply elem_of_seq. lia.
Qed.

(** A poll, whatever it returns. *)
Lemma mailbox_poll_ok s L c got ev limit :
  mailbox_ok (mkMailbox s L c got ev) →
  let s' := (read_inbox None a c limit s).1 in
  let cc := clamp_cursor c (base s a) (Z.of_nat (length L)) in
  let out := batch limit (drop (Z.to_nat cc) L) in
  (read_inbox None a c limit s).2 =
    Ok (cc, if cc <? Z.of_nat (length L) then Some (out, cc + Z.of_nat (length out)) else None) ∧
  mailbox_ok (mkMailbox s' L (cc + Z.of_nat (length out)) (got ++ out) ev).
Proof.
  intros [Hin Hlog Hc Hr Hev Hsk]; cbn in *. cbv zeta.
  destruct (read_inbox_refines a c limit s L Hlog) as (HL' & Hb' & Hres). split; [exact Hres|].
  pose proof (read_inbox_inbox_ok c limit s Hin) as Hin'.
  destruct (clamp_cursor_spec c (base s a) (Z.of_nat (length L))) as (Hcl & Hmid & Hlo & Hhi).
  { destruct Hlog; lia. }
  set (cc := clamp_cursor c (base s a) (Z.of_nat (length L))) in *.
  set (out := batch limit (drop (Z.to_nat cc) L)) in *.
  assert (c ≤ cc) by (destruct (decide (base s a ≤ c)); lia).
  assert (base s a ≤ cc) by lia.
  destruct (batch_prefix limit (drop (Z.to_nat cc) L)) as [k Hk]. fold out in Hk.
  assert (out = take (length out) (drop (Z.to_nat cc) L)) as Hout.
  { rewrite Hk at 2. rewrite length_take. rewrite Hk at 1.
    destruct (decide (k ≤ length (drop (Z.to_nat cc) L))%nat); [by rewrite Nat.min_l by done|].
    rewrite Nat.min_r by lia. by rewrite !take_ge by lia. }
  assert (length out ≤ length L - Z.to_nat cc)%nat.
  { rewrite Hk, length_take, length_drop. lia. }
  destruct Hlog as [Hb _].
  constructor; cbn; [exact Hin'|exact HL'|lia| | |].
  - replace (Z.to_nat (cc + Z.of_nat (length out)))
      with (Z.to_nat c + ((Z.to_nat cc - Z.to_nat c) + length out))%nat by lia.
    rewrite !kept_split, <-Hr, (kept_none L ev), (kept_all L ev); [|..].
    + cbn. rewrite Hout at 1. do 3 f_equal; lia.
    + intros i Hi Hx. apply Hev in Hx as [? _]. lia.
    + intros i Hi. apply Hsk. destruct (decide (base s a ≤ c)); [|lia]. rewrite Hmid in Hi by lia. lia.
  - intros i Hi. destruct (Hev i Hi) as [? ?]. split; [lia|done].
  - intros i ?. lia.
Qed.

Lemma batch_nil limit : batch limit [] = [].
Proof. unfold batch. case_bool; [apply take_nil|done]. Qed.

Lemma mailbox_step_ok m m' : mailbox_ok m → mailbox_step m m' → mailbox_ok m'.
Proof.
  intros Hm Hs. destruct Hs as [s L c got ev evt|s L c got ev limit s' c' out next Hrd
    |s L c got ev limit s' c' Hrd].
  - by apply mailbox_deliver_ok.
  - destruct (mailbox_poll_ok s L c got ev limit Hm) as [Hres Hok]. rewrite Hrd in Hres, Hok.
    cbn [fst snd] in *. destruct (_ <? _) in Hres; [|done]. by injection Hres as -> -> ->.
  - destruct (mailbox_poll_ok s L c got ev limit Hm) as [Hres Hok]. rewrite Hrd in Hres, Hok.
    cbn [fst snd] in *. destruct (_ <? _) eqn:Elt in Hres; [done|]. injection Hres as ->. prop_bool.
    rewrite drop_ge in Hok by lia. rewrite batch_nil in Hok. cbn in Hok.
    by rewrite app_nil_r, Z.add_0_r in Hok.
Qed.

Lemma mailbox_run_ok m m' : mailbox_ok m → rtc mailbox_step m m' → mailbox_ok m'.
Proof. intros Hm Hr. induction Hr; [done|]. eauto using mailbox_step_ok. Qed.

End mailbox.

(** C17: A consumer that starts on an empty inbox and hands each poll the
    cursor the previous one returned receives exactly the log up to its cursor,
    in order and once each, without the events that an append to the inbox
    threw out before it had read them, whatever limits it polls with and
    however deliveries interleave; and each of those was thrown out because
    the events from it to one that came in exceeded the inbox budget.  So while
    the log is within the budget it has received all of it. *)
Theorem consumed_exactly_once E a s m :
  inbox_ok E s a → base s a = 0 → inbox s a = [] →
  rtc (mailbox_step E a) (mkMailbox s [] 0 [] []) m →
  0 ≤ mb_cursor m ≤ Z.of_nat (length (mb_log m)) ∧
  mb_received m = kept (mb_log m) (mb_evicted m) 0 (Z.to_nat (mb_cursor m)) ∧
  (∀ i, i ∈ mb_evicted m → over_budget E (mb_log m) i) ∧
  ((∀ i, ¬ over_budget E (mb_log m) i) →
    mb_received m = take (Z.to_nat (mb_cursor m)) (mb_log m)).
Proof.
  intros Hok Hb Hi Hr. destruct (mailbox_run_ok E a (mkMailbox s [] 0 [] []) m) as [_ _ Hc Hrec Hev _];
    [|done|].
  { constructor; cbn; [done| |lia|done|by intros ? ?%not_elem_of_nil|lia].
    split; [rewrite Hb; cbn; lia|]. by rewrite Hi, drop_nil. }
  split_and!; [lia|lia|done|intros i Hx; by apply Hev|]. intros Hno. rewrite Hrec, kept_all; [done|].
  intros k _ Hx. by eapply Hno, Hev.
Qed.

Definition an_event (body : string) : InboxEvent.t :=
  InboxEvent.mk (message_id 1) MessageTypeRequest alice (conversation_id 1) body JNull [] t0.

(** Two deliveries, a poll limited to one event, and a second poll. *)
Definition one_delivered : Store := appendInboxLocked E0 bob (an_event "one"%stdpp) registered.2.
Definition two_delivered : Store := appendInboxLocked E0 bob (an_event "two"%stdpp) one_delivered.
Definition first_read : Store := (read_inbox None bob 0 1 two_delivered).1.
Definition second_read : Store := (read_inbox None bob 1 0 first_read).1.

Lemma deliver_in_room E a s L c got evt :
  thrown_out a s (appendInboxLocked E a evt s) = [] →
  mailbox_step E a (mkMailbox s L c got [])
    (mkMailbox (appendInboxLocked E a evt s) (L ++ [evt]) c got []).
Proof.
  intros H. pose proof (mb_deliver E a s L c got [] evt) as Hs. cbv zeta in Hs. rewrite H in Hs. exact Hs.
Qed.

Definition consumer : Mailbox :=
  mkMailbox second_read ([an_event "one"%stdpp] ++ [an_event "two"%stdpp]) 2
    ([an_event "one"%stdpp] ++ [an_event "two"%stdpp]) [].

Lemma consumed_exactly_once_witness :
  mb_received consumer = kept (mb_log consumer) [] 0 2.
Proof.
  destruct (consumed_exactly_once E0 bob registered.2 consumer) as (_ & H & _).
  - apply (reachable_ok E0 registered.1 registered.2 registered_reachable).
  - vm_compute. reflexivity.
  - vm_compute. reflexivity.
  - apply (rtc_l _ _ (mkMailbox one_delivered [an_event "one"%stdpp] 0 [] []));
      [apply (deliver_in_room E0 bob registered.2 [] 0 []); vm_compute; reflexivity|].
    apply (rtc_l _ _ (mkMailbox two_delivered ([an_event "one"%stdpp] ++ [an_event "two"%stdpp]) 0 [] []));
      [apply (deliver_in_room E0 bob one_delivered [an_event "one"%stdpp] 0 []); vm_compute; reflexivity|].
    apply (rtc_l _ _ (mkMailbox first_read ([an_event "one"%stdpp] ++ [an_event "two"%stdpp]) 1
      ([] ++ [an_event "one"%stdpp]) [])).
    { apply mb_poll with (limit := 1) (c' := 0). vm_compute. reflexivity. }
    apply (rtc_l _ _ consumer); [|apply rtc_refl].
    apply (mb_poll E0 bob first_read ([an_event "one"%stdpp] ++ [an_event "two"%stdpp]) 1
      ([] ++ [an_event "one"%stdpp]) [] 0 second_read 1 [an_event "two"%stdpp] 2).
    vm_compute. reflexivity.
  - exact H.
Defined.

(** ** A poll reads the log *)

Lemma inboxNotifyChanLocked_represents a s b L :
  represents s b L → represents (inboxNotifyChanLocked a s).2 b L.
Proof. unfold inboxNotifyChanLocked. by case_match. Qed.

Lemma inboxNotifyChanLocked_base a s b : base (inboxNotifyChanLocked a s).2 b = base s b.
Proof. unfold inboxNotifyChanLocked. by case_match. Qed.

(** What a poll of an active, authorised agent returns, on the log of
    everything delivered to it: from the requested cursor, clamped to the
    retained positions, the next events up to the limit with the position
    after them, never an empty batch while there is something to read; at the
    end of the log, an empty answer at once when the caller does not wait.
    Events below the cursor are reclaimed and nothing else is removed. *)
Theorem poll_reads_log E a input deadline o r s ag L :
  agents (sweepLocked E o (at_start r) s) !! a = Some ag →
  Agent.Status ag = AgentStatusActive → authorizeAgentForName E (Agent.AgentID ag) a = None →
  represents (sweepLocked E o (at_start r) s) a L →
  let c := clamp_cursor (PollInboxInput.Cursor input) (base (sweepLocked E o (at_start r) s) a)
    (Z.of_nat (length L)) in
  let out := batch (PollInboxInput.Limit input) (drop (Z.to_nat c) L) in
  let res := poll_section E None a input deadline o r s in
  represents res.1 a L ∧ base res.1 a = c ∧
  (c < Z.of_nat (length L) →
    res.2 = Returned (Ok (out, c + Z.of_nat (length out))) ∧ out ≠ []) ∧
  (c = Z.of_nat (length L) → clamp_wait E (PollInboxInput.Wait input) = 0 →
    res.2 = Returned (Ok ([], c))).
Proof.
  intros Hag Hact Hauth HL. cbv zeta. unfold poll_section. cbv zeta. rewrite Hag, Hact, Hauth.
  rewrite bool_decide_eq_true_2 by done. cbn [negb].
  generalize dependent (sweepLocked E o (at_start r) s). intros s1 Hag HL.
  destruct (read_inbox_refines a (PollInboxInput.Cursor input) (PollInboxInput.Limit input) s1 L HL)
    as (HL' & Hb & Hres).
  set (c := clamp_cursor _ _ _) in *. set (out := batch _ _) in *.
  destruct (read_inbox None a _ _ s1) as [s2 res]. cbn [fst snd] in *. subst res.
  destruct (c <? Z.of_nat (length L)) eqn:Elt; prop_bool; cbn [fst snd].
  - split_and!; [done|done| |lia]. intros _. split; [done|].
    apply batch_nonempty. intros Hd%(f_equal length). rewrite length_drop in Hd. cbn in Hd.
    pose proof (represents_end _ _ _ HL). destruct HL'. lia.
  - destruct (clamp_wait E _ =? 0) eqn:Ew; prop_bool; cbn [fst snd].
    { split_and!; [done|done|lia|done]. }
    case_bool; cbn [fst snd]; [split_and!; [done|done|lia|lia]|].
    pose proof (inboxNotifyChanLocked_represents a s2 a L HL') as HL2.
    pose proof (inboxNotifyChanLocked_base a s2 a) as Hb2.
    destruct (inboxNotifyChanLocked a s2) as [ch s3]. cbn [fst snd] in *.
    split_and!; [done|by rewrite Hb2|lia|lia].
Qed.

Lemma poll_reads_log_witness :
  (poll_section E0 None bob (PollInboxInput.mk bob 0 0 1) 0 (order_of requested.2)
     (mkReading (at_s 2) (at_s 2)) requested.2).2 =
  Returned (Ok ([messageInboxEvent request_message], 1)).
Proof.
  assert (∃ ag, agents (sweepLocked E0 (order_of requested.2) (at_s 2) requested.2) !! bob = Some ag ∧
    Agent.Status ag = AgentStatusActive ∧
    authorizeAgentForName E0 (Agent.AgentID ag) bob = None) as (ag & Hag & Hact & Hauth).
  { eexists. split; [vm_compute; reflexivity|]. split; vm_compute; reflexivity. }
  destruct (poll_reads_log E0 bob (PollInboxInput.mk bob 0 0 1) 0 (order_of requested.2)
    (mkReading (at_s 2) (at_s 2)) requested.2 ag [messageInboxEvent request_message] Hag Hact Hauth)
    as (_ & _ & H & _).
  - split; [vm_compute; split; discriminate|vm_compute; reflexivity].
  - destruct H as [-> _]; [vm_compute; reflexivity|vm_compute; reflexivity].
Defined.

(** ** Eviction *)

(** An append keeps the inbox within its budgets by evicting the least
    number of oldest events, never the new one; the base moves by exactly the
    number evicted, so positions handed to consumers keep their meaning. *)
Theorem append_evicts_least E a evt s :
  inbox_ok E s a →
  ∃ d, inbox (appendInboxLocked E a evt s) a = drop d (inbox s a) ++ [evt] ∧
    base (appendInboxLocked E a evt s) a = base s a + Z.of_nat d ∧
    (d ≤ length (inbox s a))%nat ∧
    within (Config.MaxInboxEventsPerAgent (cfg E)) (Config.MaxInboxBytesPerAgent (cfg E))
      (inbox (appendInboxLocked E a evt s) a) ∧
    ∀ k, (k < d)%nat →
      ¬ within (Config.MaxInboxEventsPerAgent (cfg E)) (Config.MaxInboxBytesPerAgent (cfg E))
          (drop k (inbox s a) ++ [evt]).
Proof.
  intros Hok. destruct (appendInboxLocked_spec E s a evt Hok) as (Hi & Hb & [_ _ Hw]).
  exists (append_drop E s a evt). destruct (append_drop_spec E s a evt) as [Hd _].
  split_and!; [done..|]. intros k Hk.
  destruct (evict_count_spec (Config.MaxInboxEventsPerAgent (cfg E))
    (Config.MaxInboxBytesPerAgent (cfg E)) (inbox s a ++ [evt])) as (_ & _ & Hl).
  { by intros [_ ?]%app_eq_nil. }
  rewrite <-drop_app_le by lia. by apply Hl.
Qed.

(** A configuration with room for two events per inbox. *)
Definition small : Static :=
  static_of (Config.mk 0 0 0 0 0 0 0 0 0 0 0 0 2 0 0 0 0 0 0 0 0 None None [] [] ∅).

Definition full_inbox : Store :=
  appendInboxLocked small bob (an_event "two"%stdpp)
    (appendInboxLocked small bob (an_event "one"%stdpp) emptyStore).

Example evicts_oldest :
  thrown_out bob full_inbox (appendInboxLocked small bob (an_event "three"%stdpp) full_inbox) = [0%nat].
Proof. vm_compute. reflexivity. Qed.

Lemma append_evicts_least_witness :
  ∃ d, inbox (appendInboxLocked small bob (an_event "three"%stdpp) full_inbox) bob =
    drop d (inbox full_inbox bob) ++ [an_event "three"%stdpp] ∧ (0 < d)%nat.
Proof.
  destruct (append_evicts_least small bob (an_event "three"%stdpp) full_inbox) as (d & Hi & _ & _ & Hw & _).
  - do 2 apply appendInboxLocked_inbox_ok; try apply appendInboxLocked_inbox_ok;
      apply (si_inbox _ _ (proj1 (emptyStore_inv small))).
  - exists d. split; [exact Hi|]. destruct d as [|d]; [|apply Nat.lt_0_succ].
    exfalso. destruct Hw as [Hw _]. specialize (Hw ltac:(vm_compute; reflexivity)).
    rewrite Hi in Hw. apply Hw. vm_compute. reflexivity.
Defined.

(** ** Observing *)

(** One look at the event stream returns, in order, every retained event
    after the given identifier that passes the filter and that the actor may
    see, and the identifier of the last of them: the bisection skips nothing
    and repeats nothing. *)
Theorem observe_is_filter E after filter s :
  observe_ok E s →
  let sel := List.filter (λ e, (after <? ObserveEvent.ID e) && eventMatchesFilter E e filter)
    (observeEvents s) in
  observe_scan E after filter s = (sel, default after (ObserveEvent.ID <$> last sel)).
Proof. apply observe_scan_spec. Qed.

Definition watch_bob_all : ObserveFilter.t := ObserveFilter.mk ε bob ε.

Lemma observe_is_filter_witness :
  length (observe_scan E0 2 watch_bob_all requested.2).1 = 1%nat.
Proof.
  rewrite (observe_is_filter E0 2 watch_bob_all requested.2).
  - vm_compute. reflexivity.
  - exact (proj2 (proj1 (reachable_ok E0 _ _ requested_reachable))).
Defined.
