(* ===== verification/SweepProps.v ===== *)
(** * Properties of the sweep

    What one pass of [sweepLocked] of [pkg/bus/store.go] delivers, that its
    outcome does not depend on the order Go ranges over its maps, and the
    deadlines and retention it enforces. *)
From stdpp Require Import gmap strings list relations.
From Stdlib Require Import ZArith Lia Ascii.
From S2P Require Import Prelude GoBase Json Types Config Auth Ring State Push Inbox Observe Structure Sweep SweepSpec Conversations Agents Wakeup History Send SendSpec Poll Lifecycle Queries System Scenario.

(** ** Conversations in a sweep *)

(** The conversation tables, which only pruning changes. *)
Definition same_conversations (s s' : Store) : Prop :=
  conversations s' = conversations s ∧ conversationMessages s' = conversationMessages s.

#[export] Instance same_conversations_preorder : PreOrder same_conversations.
Proof. split; [by intros s; split|]. intros x y z [] []. split; congruence. Qed.

Lemma observe_conversations s s' : observe_frame s s' → same_conversations s s'.
Proof. by intros []. Qed.
Lemma inbox_conversations s s' : inbox_frame s s' → same_conversations s s'.
Proof. by intros []. Qed.

Lemma sweep_agent_conversations E now s id : same_conversations s (sweep_agent E now s id).
Proof.
  unfold sweep_agent. repeat case_match; try done.
  etransitivity; [|apply observe_conversations, publishLocked_frame]. done.
Qed.

Lemma sweep_message_conversations E now s id : same_conversations s (sweep_message E now s id).
Proof.
  unfold sweep_message, time_out. repeat case_match; try done.
  all: first [ etransitivity; [|apply observe_conversations, publishLocked_frame]; done
             | etransitivity; [|apply inbox_conversations, appendInboxLocked_frame]; done ].
Qed.

Lemma prune_agent_conversations E now s id : same_conversations s (prune_agent E now s id).
Proof.
  unfold prune_agent. repeat case_match; try done.
  unfold signalInboxLocked. by case_match.
Qed.

Lemma sweep_loops_conversations E o now s : same_conversations s (sweep_loops E o now s).
Proof.
  unfold sweep_loops.
  transitivity (foldl (sweep_agent E now)
    (expire_receipts E now (set_sweepRan ((sweepRan s + 1) mod 2 ^ 64) (set_lastSweepAt now s)))
    (ord_agents o)).
  - change (same_conversations (expire_receipts E now
      (set_sweepRan ((sweepRan s + 1) mod 2 ^ 64) (set_lastSweepAt now s)))
      (foldl (sweep_agent E now) (expire_receipts E now
        (set_sweepRan ((sweepRan s + 1) mod 2 ^ 64) (set_lastSweepAt now s))) (ord_agents o))).
    apply (foldl_rel same_conversations); [done|intros ? ? ?; by etransitivity|].
    intros; apply sweep_agent_conversations.
  - apply (foldl_rel same_conversations); [done|intros ? ? ?; by etransitivity|].
    intros; apply sweep_message_conversations.
Qed.

Lemma prune_conversations_ext E now x y :
  messages x = messages y → same_conversations x y →
  same_conversations (prune_conversations E now x) (prune_conversations E now y).
Proof.
  intros Hm [Hc Hl].
  assert (∀ cid, conversation_gone E now y cid = conversation_gone E now x cid) as Hg.
  { intros cid. unfold conversation_gone, prune_conversation, conversation_live, conversation_messages.
    by rewrite Hc, Hl, Hm. }
  unfold prune_conversations. case_bool; [|by split].
  split; cbn; rewrite ?Hc, ?Hl; apply map_filter_ext; intros cid v _; by rewrite Hg.
Qed.

(** The messages after a full sweep, and the conversations as pruning leaves
    them given those messages. *)
Definition swept_messages (E : Static) (now : Time) (s : Store) : gmap string Message.t :=
  omap (message_fate E (agents s) now) (messages s).

Lemma full_sweep_all_messages E o now s :
  order_ok o s → messages (full_sweep E o now s) = swept_messages E now s.
Proof.
  intros Ho. apply map_eq. intros k. unfold swept_messages.
  by rewrite full_sweep_messages, lookup_omap.
Qed.

Lemma full_sweep_conversations E o now s :
  order_ok o s →
  same_conversations
    (prune_conversations E now (set_messages (swept_messages E now s) s)) (full_sweep E o now s).
Proof.
  intros Ho.
  assert (messages (prune_messages E now (sweep_loops E o now s)) = swept_messages E now s) as Hm.
  { rewrite <-(pruneLocked_messages E o), <-full_sweep_loops. by apply full_sweep_all_messages. }
  rewrite full_sweep_loops. unfold pruneLocked. cbv zeta.
  transitivity (prune_conversations E now (prune_messages E now (sweep_loops E o now s))).
  - apply prune_conversations_ext; [done|]. destruct (sweep_loops_conversations E o now s).
    unfold prune_messages. by case_bool.
  - case_bool; [|done]. apply (foldl_rel same_conversations); [done|intros ? ? ?; by etransitivity|].
    intros; apply prune_agent_conversations.
Qed.

(** ** Queued requests *)

(** What a sweep at [now] appends to [a]'s log, in visiting order. *)
Definition deliveries (E : Static) (o : Order) (now : Time) (s : Store) (a : string)
    : list InboxEvent.t :=
  ord_messages o ≫= λ id,
    match messages s !! id with
    | Some m => if delivers E (expire_agent now <$> agents s) now a m
                then [messageInboxEvent m] else []
    | None => []
    end.

Lemma sweep_agent_represents E now s id a L :
  represents s a L → represents (sweep_agent E now s id) a L.
Proof.
  unfold sweep_agent. repeat case_match; try done. unfold represents.
  match goal with |- context [publishLocked E ?t ?d ?c ?i ?n ?x] =>
    destruct (publishLocked_inbox E t d c i n x a) as (-> & -> & _) end. done.
Qed.

Lemma prune_agent_represents E now s id a L :
  (is_Some (agents s !! a) → represents s a L) →
  is_Some (agents (prune_agent E now s id) !! a) → represents (prune_agent E now s id) a L.
Proof.
  intros HL. rewrite prune_agent_agents. unfold prune_agent.
  destruct (agents s !! id) as [ag|] eqn:Hid.
  2: { intros H. apply HL. revert H. destruct (decide (id = a)) as [<-|];
         [by rewrite lookup_partial_alter_eq, Hid|by rewrite lookup_partial_alter_ne]. }
  destruct (decide (id = a)) as [<-|Hne].
  { rewrite lookup_partial_alter_eq, Hid. cbn. case_bool; [|by intros []]. intros _. apply HL. eauto. }
  rewrite lookup_partial_alter_ne by done. intros Ha. case_bool; [by apply HL|].
  specialize (HL Ha). unfold represents, inbox, base in *. cbn.
  rewrite !lookup_delete_ne by done. unfold signalInboxLocked. by case_match.
Qed.

Lemma pruneLocked_represents E o now s a L :
  represents s a L → is_Some (agents (pruneLocked E o now s) !! a) →
  represents (pruneLocked E o now s) a L.
Proof.
  intros HL. unfold pruneLocked. cbv zeta.
  set (s1 := prune_conversations E now (prune_messages E now s)).
  assert (represents s1 a L) as H1.
  { unfold s1, prune_conversations, prune_messages. by repeat case_bool. }
  case_bool; [|done].
  apply (foldl_inv (λ x, is_Some (agents x !! a) → represents x a L)); [done|].
  intros x id _. apply prune_agent_represents.
Qed.

(** The log of a surviving agent after a full sweep. *)
Lemma full_sweep_represents E o now s a L :
  sinv E s → order_ok o s → represents s a L → is_Some (agents (full_sweep E o now s) !! a) →
  represents (full_sweep E o now s) a (L ++ deliveries E o now s a).
Proof.
  intros Hs [Ha [Hnd Hm]] HL Hal. rewrite full_sweep_loops in *.
  apply pruneLocked_represents; [|done]. unfold sweep_loops. clear Hal.
  pose proof (sweep_start_sinv E now s Hs) as Hs1.
  set (s1 := expire_receipts _ _ _) in *.
  assert (represents s1 a L) as H1 by done.
  assert (agents s1 = agents s ∧ messages s1 = messages s) as [Ea Em] by done.
  clearbody s1.
  assert (deliveries E o now s a = ord_messages o ≫=
    delivery_of E (foldl (sweep_agent E now) s1 (ord_agents o)) now a) as ->.
  { unfold deliveries, delivery_of. apply list_bind_ext; [|done]. intros id.
    rewrite sweep_agents_messages, Em.
    enough (agents (foldl (sweep_agent E now) s1 (ord_agents o)) = expire_agent now <$> agents s)
      as -> by done.
    apply map_eq. intros k. rewrite lookup_fmap, sweep_agents_loop by by rewrite Ea.
    by rewrite Ea. }
  apply sweep_messages_represents; [done| |].
  - apply foldl_inv; [done|]. intros; by apply sweep_agent_sinv.
  - apply (foldl_inv (λ x, represents x a L)); [done|]. intros x id _. apply sweep_agent_represents.
Qed.

(** A live request to [a] that waits for [a] to come back. *)
Record queued_for (now : Time) (a : string) (m : Message.t) : Prop := {
  qf_typ : Message.Typ m = MessageTypeRequest;
  qf_state : Message.State m = StatePending;
  qf_flag : Message.QueuedForAgent m = true;
  qf_to : Message.To m = a;
  qf_ttl : Message.TTLExpiresAt m = 0 ∨ now ≤ Message.TTLExpiresAt m }.

Definition live_agent (now : Time) (ag : Agent.t) : Prop :=
  Agent.Status ag = AgentStatusActive ∧ now ≤ Agent.ExpiresAt ag.

Lemma live_agent_expire now ag : live_agent now ag → expire_agent now ag = ag.
Proof.
  intros [Hs He]. unfold expire_agent, After. rewrite (proj2 (Z.ltb_ge _ _)) by lia.
  by rewrite andb_false_r.
Qed.

Lemma live_agent_active ags now a ag :
  ags !! a = Some ag → live_agent now ag → is_active (expire_agent now <$> ags) a = true.
Proof.
  intros Ha Hl. unfold is_active. rewrite lookup_fmap, Ha. cbn.
  rewrite live_agent_expire by done. by apply bool_decide_eq_true, Hl.
Qed.

Lemma live_agent_stays E o now s a ag :
  order_ok o s → agents s !! a = Some ag → live_agent now ag →
  agents (full_sweep E o now s) !! a = Some ag.
Proof.
  intros Ho Ha Hl. rewrite full_sweep_agents by done. rewrite Ha. cbn. unfold agent_fate.
  rewrite live_agent_expire by done. destruct Hl as [Hst _]. unfold prune_agent_test.
  rewrite (bool_decide_eq_true_2 (_ ≠ _)) by by rewrite Hst. by rewrite andb_false_r.
Qed.

Lemma deadline_test t now :
  negb (negb (IsZero t) && After now t) = true ↔ t = 0 ∨ now ≤ t.
Proof.
  unfold IsZero, After. rewrite negb_true_iff, andb_false_iff, negb_false_iff, Z.ltb_ge.
  by rewrite Z.eqb_eq.
Qed.

Lemma delivers_iff E now ags a ag m :
  message_ok m → ags !! a = Some ag → live_agent now ag →
  delivers E (expire_agent now <$> ags) now a m = true ↔ queued_for now a m.
Proof.
  intros Hok Ha Hl. unfold delivers. rewrite !andb_true_iff, deadline_test. split.
  - intros [[[[[[Ht Hst] Httl] _] Hq] _] Hto]. prop_bool. constructor; try done.
    apply (mo_queued _ Hok); [done|]. congruence.
  - intros [Ht Hs Hq Hto Httl]. rewrite Hto, (live_agent_active _ _ _ _ Ha Hl), Hs, Ht, Hq.
    rewrite (bool_decide_eq_true_2 (a = a)) by done. by split_and!.
Qed.

Lemma elem_of_deliveries E o now s a e :
  order_ok o s →
  e ∈ deliveries E o now s a ↔
  ∃ k m, messages s !! k = Some m ∧ delivers E (expire_agent now <$> agents s) now a m = true ∧
    e = messageInboxEvent m.
Proof.
  intros [_ [_ Ho]]. unfold deliveries. rewrite list_elem_of_bind. split.
  - intros (k & He & _). destruct (messages s !! k) as [m|] eqn:Hm; [|by apply not_elem_of_nil in He].
    destruct (delivers _ _ _ _ _) eqn:Hd; [|by apply not_elem_of_nil in He].
    apply list_elem_of_singleton in He. eauto.
  - intros (k & m & Hm & Hd & ->). exists k. rewrite Hm, Hd. split; [left|].
    apply Ho. eauto.
Qed.

Lemma deliveries_nodup E o now s a :
  structure_ok s → order_ok o s → NoDup (InboxEvent.MessageID <$> deliveries E o now s a).
Proof.
  intros Hs [_ [Hnd _]]. unfold deliveries.
  induction Hnd as [|k l Hk Hnd IH]; [constructor|].
  rewrite bind_cons, fmap_app. apply NoDup_app. split_and!; [| |done].
  - destruct (messages s !! k) as [m|]; [|constructor].
    case_bool; [apply NoDup_singleton|constructor].
  - intros id Hid Hin. destruct (messages s !! k) as [m|] eqn:Hm; [|by apply not_elem_of_nil in Hid].
    destruct (delivers _ _ _ _ m); [|by apply not_elem_of_nil in Hid].
    apply list_elem_of_singleton in Hid. subst id. cbn in Hin.
    apply list_elem_of_fmap in Hin as (e & He & (j & Hj & Hjl)%list_elem_of_bind).
    destruct (messages s !! j) as [m'|] eqn:Hm'; [|by apply not_elem_of_nil in Hj].
    destruct (delivers _ _ _ _ m'); [|by apply not_elem_of_nil in Hj].
    apply list_elem_of_singleton in Hj. subst e. cbn in He.
    rewrite (so_msg_key _ Hs _ _ Hm), (so_msg_key _ Hs _ _ Hm') in He. by subst.
Qed.

(** The delivered version of a queued request. *)
Definition delivered_at (now : Time) (m : Message.t) : Message.t :=
  Message.set_life StateWaitingAck (Message.TerminalAt m) now (Message.LastProgressAt m) false m.

Lemma queued_for_fate E now ags a ag m :
  ags !! a = Some ag → live_agent now ag → queued_for now a m →
  message_fate E ags now m =
  if (0 <? Config.MessageMaxAge (cfg E))
     && (Config.MessageMaxAge (cfg E) <? Sub now (Message.CreatedAt m))
  then None else Some (delivered_at now m).
Proof.
  intros Ha Hl [Ht Hs Hq Hto Httl]. unfold message_fate.
  assert (sweep_result E (expire_agent now <$> ags) now m = delivered_at now m) as ->.
  { unfold sweep_result. rewrite bool_decide_eq_false_2 by (by rewrite Ht; intros []).
    rewrite Hs. cbn [isTerminal orb].
    apply deadline_test, negb_true_iff in Httl. rewrite Httl. cbn [andb].
    rewrite bool_decide_eq_false_2 by done. cbn [andb].
    by rewrite Hq, Hto, (live_agent_active _ _ _ _ Ha Hl). }
  unfold prune_message. cbn. by destruct (_ && _); rewrite ?andb_false_r.
Qed.

(** C21: A sweep delivers to an active agent every live request queued for it,
    once each, and nothing else: the log of its inbox grows by exactly those
    requests, each of which is then waiting for an acknowledgement, unless it
    is already past the maximum age and pruned in the same pass. *)
Theorem sweep_delivers_queued E o now s a ag L :
  sinv E s → order_ok o s → agents s !! a = Some ag → live_agent now ag → represents s a L →
  ∃ D, represents (full_sweep E o now s) a (L ++ D) ∧ NoDup (InboxEvent.MessageID <$> D) ∧
    (∀ e, e ∈ D ↔ ∃ k m, messages s !! k = Some m ∧ queued_for now a m ∧ e = messageInboxEvent m) ∧
    (∀ k m, messages s !! k = Some m → queued_for now a m →
      messages (full_sweep E o now s) !! k = Some (delivered_at now m) ∨
      messages (full_sweep E o now s) !! k = None ∧
        0 < Config.MessageMaxAge (cfg E) < Sub now (Message.CreatedAt m)).
Proof.
  intros Hs Ho Ha Hl HL. pose proof (si_structure _ _ Hs) as Hst.
  exists (deliveries E o now s a). split_and!.
  - apply full_sweep_represents; try done. rewrite (live_agent_stays _ _ _ _ _ _ Ho Ha Hl). eauto.
  - by apply deliveries_nodup.
  - intros e. rewrite elem_of_deliveries by done.
    split; intros (k & m & Hm & Hq & ->); exists k, m; split_and!; try done;
      by eapply (delivers_iff E now (agents s)); eauto using so_msg.
  - intros k m Hm Hq. rewrite full_sweep_messages by done. rewrite Hm. cbn.
    rewrite (queued_for_fate E now _ a ag m Ha Hl Hq).
    case_bool; [right; split; [done|]; prop_bool; lia|by left].
Qed.

(** Bob's registration lapses, Alice sends him a request within the grace
    period, and Bob registers again. *)
Definition lapsed_request : Time * Store :=
  exec E0 (t0, emptyStore)
    [(t0, OpRegisterAgent (register alice 3600)); (t0, OpRegisterAgent (register bob 10));
     (at_s 20, OpSendMessage None (send alice bob "r-1"%stdpp "request"%stdpp "ping"%stdpp));
     (at_s 25, OpRegisterAgent (register bob 3600))].

Lemma lapsed_request_ok : rtc (step E0) (t0, emptyStore) lapsed_request.
Proof. apply exec_steps. vm_compute. reflexivity. Qed.

Lemma lapsed_request_reachable : reachable E0 lapsed_request.1 lapsed_request.2.
Proof. exists t0. rewrite <-surjective_pairing. exact lapsed_request_ok. Qed.

Lemma bob_is_back :
  ∃ ag, agents lapsed_request.2 !! bob = Some ag ∧ live_agent (at_s 26) ag.
Proof. eexists. split; [vm_compute; reflexivity|]. split; vm_compute; [reflexivity|discriminate]. Qed.

Definition lapsed_message : Message.t :=
  default request_message (messages lapsed_request.2 !! message_id 1).

Lemma sweep_delivers_queued_witness :
  messages (full_sweep E0 (order_of lapsed_request.2) (at_s 26) lapsed_request.2) !! message_id 1 =
  Some (delivered_at (at_s 26) lapsed_message).
Proof.
  destruct bob_is_back as (ag & Hag & Hl).
  destruct (sweep_delivers_queued E0 (order_of lapsed_request.2) (at_s 26) lapsed_request.2 bob ag [])
    as (D & _ & _ & _ & H).
  - exact (proj1 (proj1 (reachable_ok E0 _ _ lapsed_request_reachable))).
  - apply order_of_ok.
  - exact Hag.
  - exact Hl.
  - split; [vm_compute; split; discriminate|vm_compute; reflexivity].
  - destruct (H (message_id 1) lapsed_message) as [He|[_ [_ Hb]]].
    + vm_compute. reflexivity.
    + constructor; vm_compute; [reflexivity..|]. right. discriminate.
    + exact He.
    + exfalso. revert Hb. vm_compute. discriminate.
Defined.

(** ** Order independence *)

Lemma swept_messages_order E o1 o2 now s a :
  order_ok o1 s → order_ok o2 s → deliveries E o1 now s a ≡ₚ deliveries E o2 now s a.
Proof.
  intros [_ [H1 H1']] [_ [H2 H2']]. unfold deliveries. apply bind_Permutation.
  apply NoDup_Permutation; [done..|]. intros k. by rewrite H1', H2'.
Qed.

(** The order in which the runtime ranges over the maps does not matter to
    the outcome of a sweep: agents, messages, conversations, receipts and
    counters come out the same, and each surviving agent is delivered the same
    requests.  Only their order of arrival, and that of the observer events,
    may differ. *)
Theorem sweep_order_independent E o1 o2 now s :
  sinv E s → order_ok o1 s → order_ok o2 s →
  let s1 := full_sweep E o1 now s in
  let s2 := full_sweep E o2 now s in
  agents s1 = agents s2 ∧ messages s1 = messages s2 ∧ conversations s1 = conversations s2 ∧
  conversationMessages s1 = conversationMessages s2 ∧ idempotency s1 = idempotency s2 ∧
  nextMessageID s1 = nextMessageID s2 ∧ nextConversationID s1 = nextConversationID s2 ∧
  ∀ a L, represents s a L → is_Some (agents s1 !! a) →
    ∃ D1 D2, represents s1 a (L ++ D1) ∧ represents s2 a (L ++ D2) ∧ D1 ≡ₚ D2.
Proof.
  intros Hs Ho1 Ho2. cbv zeta.
  assert (agents (full_sweep E o1 now s) = agents (full_sweep E o2 now s)) as Ha.
  { apply map_eq. intros k. by rewrite !full_sweep_agents. }
  destruct (full_sweep_conversations E o1 now s Ho1) as [C1 L1].
  destruct (full_sweep_conversations E o2 now s Ho2) as [C2 L2].
  destruct (full_sweep_same E o1 now s) as [F1 ->].
  destruct (full_sweep_same E o2 now s) as [F2 ->].
  split_and!; try congruence.
  - by rewrite !full_sweep_all_messages.
  - by rewrite (sf_msgID _ _ F1), (sf_msgID _ _ F2).
  - by rewrite (sf_convID _ _ F1), (sf_convID _ _ F2).
  - intros a L HL Hal. exists (deliveries E o1 now s a), (deliveries E o2 now s a).
    split_and!; [by apply full_sweep_represents|apply full_sweep_represents; try done; by rewrite <-Ha|].
    by apply swept_messages_order.
Qed.

(** The same state swept in the opposite order. *)
Definition reverse_order (s : Store) : Order :=
  mkOrder (reverse (elements (dom (agents s)))) (reverse (elements (dom (messages s)))).

Lemma reverse_enumerates {V} (l : list string) (m : gmap string V) :
  enumerates l m → enumerates (reverse l) m.
Proof.
  intros Hl. assert (reverse l ≡ₚ l) as Hp by apply reverse_Permutation.
  split; [by rewrite Hp; apply Hl|]. intros k. rewrite Hp. apply Hl.
Qed.

Lemma reverse_order_ok s : order_ok (reverse_order s) s.
Proof. split; apply reverse_enumerates, enumerates_elements. Qed.

Lemma sweep_order_independent_witness :
  messages (full_sweep E0 (order_of lapsed_request.2) (at_s 26) lapsed_request.2) =
  messages (full_sweep E0 (reverse_order lapsed_request.2) (at_s 26) lapsed_request.2).
Proof.
  apply (sweep_order_independent E0 (order_of lapsed_request.2) (reverse_order lapsed_request.2)
    (at_s 26) lapsed_request.2).
  - exact (proj1 (proj1 (reachable_ok E0 _ _ lapsed_request_reachable))).
  - apply order_of_ok.
  - apply reverse_order_ok.
Defined.

(** ** Deadlines *)

(** Pruning removes expired agents only. *)
Lemma prune_keeps_active E o now s id :
  order_ok o s →
  is_active (agents (full_sweep E o now s)) id = is_active (expire_agent now <$> agents s) id.
Proof.
  intros Ho. unfold is_active. rewrite full_sweep_agents by done. rewrite lookup_fmap.
  destruct (agents s !! id) as [a|]; cbn; [|done]. unfold agent_fate, prune_agent_test.
  destruct (bool_decide (Agent.Status (expire_agent now a) ≠ _)) eqn:Es; prop_bool.
  - cbn. by rewrite andb_false_r.
  - apply dec_stable in Es. case_bool; [|done]. rewrite Es. by rewrite bool_decide_eq_false_2.
Qed.

Lemma in_time_ext E ags ags' now m :
  (∀ id, is_active ags id = is_active ags' id) → in_time E ags now m → in_time E ags' now m.
Proof. intros Ha []. constructor; [done..|]. rewrite <-Ha. done. Qed.

(** After a full sweep no deadline of a live request is overdue: its time
    to live has not passed, an acknowledgement it waits for is not late, and if
    it is queued its target is not active and still within the grace period.
    No registered agent is past its lease, and every stored receipt is within
    the idempotency window. *)
Theorem sweep_leaves_nothing_overdue E o now s :
  static_ok E → order_ok o s →
  let s' := full_sweep E o now s in
  (∀ k m, messages s' !! k = Some m → Message.Typ m = MessageTypeRequest →
    isTerminal (Message.State m) = false → in_time E (agents s') now m) ∧
  (∀ k a, agents s' !! k = Some a → Agent.Status a = AgentStatusActive → now ≤ Agent.ExpiresAt a) ∧
  (∀ k r, idempotency s' !! k = Some r →
    Sub now (IdempotencyEntry.CreatedAt r) ≤ Config.IdempotencyWindow (cfg E)).
Proof.
  intros HE Ho. cbv zeta. split_and!.
  - intros k m' Hm' Hty Hl. rewrite full_sweep_messages in Hm' by done.
    destruct (messages s !! k) as [m|]; [|done]. cbn in Hm'. unfold message_fate in Hm'.
    destruct (prune_message _ _ _); [done|]. injection Hm' as <-.
    eapply in_time_ext; [intros id; symmetry; by apply prune_keeps_active|].
    apply sweep_result_in_time; [apply HE|done..].
  - intros k a' Ha' Hst. rewrite full_sweep_agents in Ha' by done.
    destruct (agents s !! k) as [a|]; [|done]. cbn in Ha'. unfold agent_fate in Ha'.
    destruct (prune_agent_test _ _ _); [done|]. injection Ha' as <-. unfold expire_agent in *.
    case_bool; [done|]. rewrite bool_decide_eq_true_2 in Eb by done. unfold After in Eb.
    cbn in Eb. prop_bool. done.
  - intros k r. rewrite (proj2 (full_sweep_same E o now s)). cbn.
    intros [_ Hw]%map_lookup_filter_Some. cbn in Hw. prop_bool. done.
Qed.

Lemma sweep_leaves_nothing_overdue_witness :
  Message.State <$> messages (full_sweep E0 (order_of lapsed_request.2) (at_s 90)
    lapsed_request.2) !! message_id 1 = Some StateWaitingAck ∧
  ∀ a, agents (full_sweep E0 (order_of lapsed_request.2) (at_s 90) lapsed_request.2) !! bob = Some a →
    Agent.Status a = AgentStatusActive → at_s 90 ≤ Agent.ExpiresAt a.
Proof.
  split; [vm_compute; reflexivity|]. intros a. 
  apply (sweep_leaves_nothing_overdue E0 (order_of lapsed_request.2) (at_s 90) lapsed_request.2).
  - eapply (NewStore_static_ok (elements (dom (Config.ControlPlaneAgentSecretHashes plain_config))) ε
      plain_config); [apply enumerates_elements|vm_compute; reflexivity].
  - apply order_of_ok.
Defined.

(** ** Retention *)

(** Past retention: too old altogether, or finished long enough ago. *)
Definition past_retention (c : Config.t) (now : Time) (m : Message.t) : Prop :=
  0 < Config.MessageMaxAge c < Sub now (Message.CreatedAt m) ∨
  0 < Config.MessageRetention c ∧ isTerminal (Message.State m) = true ∧
    Config.MessageRetention c < Sub now
      (if decide (Message.TerminalAt m = 0) then Message.CreatedAt m else Message.TerminalAt m).

Lemma prune_message_iff E now m : prune_message E now m = true ↔ past_retention (cfg E) now m.
Proof.
  unfold prune_message, past_retention, IsZero.
  assert ((if Message.TerminalAt m =? 0 then Message.CreatedAt m else Message.TerminalAt m) =
    (if decide (Message.TerminalAt m = 0) then Message.CreatedAt m else Message.TerminalAt m)) as ->.
  { destruct (Z.eqb_spec (Message.TerminalAt m) 0); by case_decide. }
  generalize (if decide (Message.TerminalAt m = 0) then Message.CreatedAt m else Message.TerminalAt m).
  intros t. destruct (_ && (_ <? Sub now (Message.CreatedAt m))) eqn:E1; prop_bool.
  - split; [intros _; left; lia|done].
  - assert (¬ 0 < Config.MessageMaxAge (cfg E) < Sub now (Message.CreatedAt m)).
    { destruct E1; prop_bool; lia. }
    destruct (_ && isTerminal _) eqn:E2; cbv zeta; rewrite ?Z.ltb_lt; prop_bool.
    + naive_solver.
    + split; [done|]. intros [?|(? & Ht & _)]; [done|]. rewrite Ht in E2.
      destruct E2; prop_bool; [lia|done].
Qed.

Lemma conversation_live_false s cid :
  conversation_live s cid = false ↔
  ∀ mid, mid ∈ conversation_messages s cid → messages s !! mid = None.
Proof.
  unfold conversation_live. rewrite <-not_true_iff_false, existsb_exists. split.
  - intros Hn mid Hin. destruct (messages s !! mid) as [m|] eqn:Hm; [|done].
    destruct Hn. exists mid. split; [by apply list_elem_of_In|].
    apply bool_decide_eq_true. rewrite Hm. eauto.
  - intros Hd (mid & Hin & [m Hm]%bool_decide_eq_true). rewrite Hd in Hm; [done|].
    by apply list_elem_of_In.
Qed.

(** A conversation survives pruning unless it is idle and empty of messages. *)
Lemma prune_conversations_exact E now s cid c :
  conversations (prune_conversations E now s) !! cid = Some c ↔
  conversations s !! cid = Some c ∧
  ¬ (0 < Config.ConversationRetention (cfg E) < Sub now (Conversation.LastMessageAt c) ∧
     ∀ mid, mid ∈ conversation_messages s cid → messages s !! mid = None).
Proof.
  destruct (decide (0 < Config.ConversationRetention (cfg E))) as [Hr|Hr].
  2: { unfold prune_conversations. rewrite (proj2 (Z.ltb_ge _ _)) by lia.
       split; [intros ?; split; [done|lia]|tauto]. }
  rewrite (proj1 (prune_conversations_unfold E now s Hr) cid c).
  rewrite <-conversation_live_false.
  enough (conversations s !! cid = Some c →
    conversation_gone E now s cid = false ↔
    ¬ (0 < Config.ConversationRetention (cfg E) < Sub now (Conversation.LastMessageAt c) ∧
       conversation_live s cid = false)) as Hiff by (split; intros [? ?]; (split; [done|by apply Hiff])).
  intros Hc.
  unfold conversation_gone, prune_conversation. rewrite Hc.
  destruct (Z.leb_spec (Sub now (Conversation.LastMessageAt c)) (Config.ConversationRetention (cfg E)));
    destruct (conversation_live s cid); cbn; split; try done; try lia; try (intros [? ?]; done).
Qed.

Lemma agent_fate_exact E now a a' :
  agent_fate E now a = Some a' ↔
  a' = expire_agent now a ∧
  ¬ (0 < Config.AgentRetention (cfg E) < Sub now (Agent.ExpiresAt a) ∧
     Agent.Status a' = AgentStatusExpired).
Proof.
  unfold agent_fate, prune_agent_test.
  assert (Agent.ExpiresAt (expire_agent now a) = Agent.ExpiresAt a) as ->.
  { unfold expire_agent. by case_bool. }
  generalize (expire_agent now a). intros b.
  destruct (Z.ltb_spec 0 (Config.AgentRetention (cfg E)));
    destruct (Z.leb_spec (Sub now (Agent.ExpiresAt a)) (Config.AgentRetention (cfg E)));
    destruct (decide (Agent.Status b = AgentStatusExpired)) as [Hb|Hb];
    rewrite ?(bool_decide_eq_true_2 (_ ≠ _)) by done;
    rewrite ?(bool_decide_eq_false_2 (_ ≠ _)) by (by intros []); cbn;
    naive_solver lia.
Qed.

(** Retention removes exactly what is past it.  A message survives a full
    sweep, rewritten as its deadlines demand, iff that version is not past
    retention; a conversation goes iff it has been idle for longer than the
    retention time and none of its messages is stored any more; an agent goes
    iff its lease ended longer ago than the retention time. *)
Theorem retention_exact E o now s :
  sinv E s → order_ok o s →
  let s' := full_sweep E o now s in
  (∀ k m', messages s' !! k = Some m' ↔
    ∃ m, messages s !! k = Some m ∧ m' = sweep_result E (expire_agent now <$> agents s) now m ∧
      ¬ past_retention (cfg E) now m') ∧
  (∀ cid c, conversations s' !! cid = Some c ↔
    conversations s !! cid = Some c ∧
    ¬ (0 < Config.ConversationRetention (cfg E) < Sub now (Conversation.LastMessageAt c) ∧
       ∀ mid, mid ∈ conversation_messages s cid → messages s' !! mid = None)) ∧
  (∀ id a', agents s' !! id = Some a' ↔
    ∃ a, agents s !! id = Some a ∧ a' = expire_agent now a ∧
      ¬ (0 < Config.AgentRetention (cfg E) < Sub now (Agent.ExpiresAt a) ∧
         Agent.Status a' = AgentStatusExpired)).
Proof.
  intros Hs Ho. cbv zeta. split_and!.
  - intros k m'. rewrite full_sweep_messages by done. unfold message_fate.
    destruct (messages s !! k) as [m|]; cbn; [|naive_solver].
    destruct (prune_message E now _) eqn:Ep.
    + apply prune_message_iff in Ep. naive_solver.
    + assert (¬ past_retention (cfg E) now (sweep_result E (expire_agent now <$> agents s) now m)).
      { rewrite <-prune_message_iff. congruence. }
      naive_solver.
  - intros cid c. destruct (full_sweep_conversations E o now s Ho) as [-> _].
    rewrite (full_sweep_all_messages E o now s Ho). apply prune_conversations_exact.
  - intros id a'. rewrite full_sweep_agents by done.
    destruct (agents s !! id) as [a|]; cbn; [|naive_solver].
    rewrite agent_fate_exact. naive_solver.
Qed.

Lemma retention_exact_witness :
  messages (full_sweep E0 (order_of lapsed_request.2) (at_s 1000) lapsed_request.2) !! message_id 1 =
  Some (to_error (at_s 1000) lapsed_message).
Proof.
  apply (retention_exact E0 (order_of lapsed_request.2) (at_s 1000) lapsed_request.2).
  - exact (proj1 (proj1 (reachable_ok E0 _ _ lapsed_request_reachable))).
  - apply order_of_ok.
  - exists lapsed_message. split_and!; [vm_compute; reflexivity..|].
    intros [[_ H]|(_ & _ & H)]; revert H; vm_compute; discriminate.
Defined.
