(* ===== verification/LifecycleProps.v ===== *)
(** * Properties of acknowledgements and events

    The outcome of [ack] and [postEvent] of [pkg/bus/store.go] on every branch:
    which version of the message is stored, which observer events follow, and
    what a refusal leaves behind. *)
From stdpp Require Import gmap strings list relations.
From Stdlib Require Import ZArith Lia Ascii.
From S2P Require Import Prelude GoBase Json Types Config Auth Ring State Push Inbox Observe Structure Sweep SweepSpec Conversations Agents Wakeup History Send SendSpec Poll Lifecycle Queries System Scenario.

(** ** The observer stream grows by given events *)

(** What one observer event says, its identifier and time apart. *)
Record Notice := mkNotice { nt_type : EventType; nt_data : json }.

Fixpoint notices_from (n : Z) (m : Message.t) (t : Time) (l : list Notice) : list ObserveEvent.t :=
  match l with
  | [] => []
  | x :: l =>
      ObserveEvent.mk (n + 1) (nt_type x) t (nt_data x) (Message.ConversationID m) (message_ids m)
        (observeEventSize (Message.ConversationID m) (message_ids m) (nt_data x))
      :: notices_from (n + 1) m t l
  end.

(** The stream of [s'] is that of [s] with [l] published about [m] at [t]; the
    budget may have evicted some of the oldest events. *)
Definition notified (s s' : Store) (m : Message.t) (t : Time) (l : list Notice) : Prop :=
  nextObserveID s' = nextObserveID s + Z.of_nat (length l) ∧
  ∃ n, (n ≤ length (observeEvents s) + pred (length l))%nat ∧
    observeEvents s' = drop n (observeEvents s ++ notices_from (nextObserveID s) m t l).

(** Everything but one message and the stream. *)
Record only_message (s s' : Store) (id : string) (m : Message.t) : Prop := {
  on_messages : messages s' = <[id := m]> (messages s);
  on_agents : agents s' = agents s;
  on_conversations : conversations s' = conversations s;
  on_listed : conversationMessages s' = conversationMessages s;
  on_receipts : idempotency s' = idempotency s;
  on_inboxes : inboxes s' = inboxes s;
  on_base : inboxBase s' = inboxBase s;
  on_push : pushQueue s' = pushQueue s;
  on_msgID : nextMessageID s' = nextMessageID s;
  on_convID : nextConversationID s' = nextConversationID s }.

Lemma notices_from_snoc n m t l x :
  notices_from n m t (l ++ [x]) =
  notices_from n m t l ++ notices_from (n + Z.of_nat (length l)) m t [x].
Proof.
  revert n. induction l as [|y l IH]; intros n; [by rewrite Z.add_0_r|].
  cbn [app notices_from]. rewrite IH. cbn [app]. do 2 f_equal.
  cbn [length]. by rewrite Nat2Z.inj_succ, <-Z.add_1_l, Z.add_assoc.
Qed.

Lemma notices_from_length n m t l : length (notices_from n m t l) = length l.
Proof. revert n. induction l as [|x l IH]; intros n; cbn; [done|by rewrite IH]. Qed.

Section lifecycle.
Context (E : Static).

Lemma notified_start s s' m t :
  nextObserveID s' = nextObserveID s → observeEvents s' = observeEvents s → notified s s' m t [].
Proof.
  intros H1 H2. split; [cbn; lia|]. exists 0%nat. split; [lia|]. by rewrite app_nil_r.
Qed.

Lemma notified_publish s s1 m t l ty d :
  roomy E 1 s1 → notified s s1 m t l →
  notified s (publish_for E ty d m t s1) m t (l ++ [mkNotice ty d]).
Proof.
  intros [Hok Hr] (Hn & n & Hle & He). unfold publish_for.
  destruct (publishLocked_spec E ty d (Message.ConversationID m) (message_ids m) t s1 Hok)
    as (_ & Hn' & n' & Hle' & He'); [lia|].
  split; [rewrite Hn', Hn, length_app; cbn; lia|].
  exists (n + n')%nat. rewrite He', He. rewrite He, length_drop, length_app, notices_from_length in Hle'.
  rewrite length_app. cbn [length]. split; [lia|].
  rewrite notices_from_snoc, app_assoc, drop_drop. set (A := observeEvents s ++ _) in *.
  assert (length A = (length (observeEvents s) + length l)%nat) as HA.
  { unfold A. by rewrite length_app, notices_from_length. }
  cbn [notices_from nt_type nt_data]. rewrite drop_app_snoc by lia. f_equal. unfold published. rewrite Hn.
  pose proof (oo_count E s1 Hok). rewrite inc64_lt by lia. done.
Qed.

Lemma only_message_store s id m : only_message s (store_message id m s) id m.
Proof. by constructor. Qed.

Lemma only_message_publish s s1 id m ty d m' t :
  only_message s s1 id m → only_message s (publish_for E ty d m' t s1) id m.
Proof.
  intros []. unfold publish_for.
  match goal with |- context [publishLocked E ?a ?b ?c ?d ?e ?x] =>
    destruct (publishLocked_frame E a b c d e x) end.
  constructor; congruence.
Qed.

Lemma swept_roomy o now s : inv E s → headroom o s → roomy E 2 (sweepLocked E o now s).
Proof.
  intros [_ Ho] [_ _ Hr]. apply sweepLocked_roomy; [lia|]. split; [done|lia].
Qed.

(** Two events in a row about the same message. *)
Lemma notified_twice s s1 m t t1 d1 t2 d2 :
  roomy E 2 s1 → notified s s1 m t [] →
  notified s (publish_for E t2 d2 m t (publish_for E t1 d1 m t s1)) m t
    [mkNotice t1 d1; mkNotice t2 d2].
Proof.
  intros Hr H0. assert (roomy E 1 s1) as Hr1 by (eapply roomy_weaken; [|done]; lia).
  apply (notified_publish s _ m t [mkNotice t1 d1]).
  - apply publishLocked_roomy; [lia|done].
  - by apply (notified_publish s _ m t []).
Qed.

(** ** Acknowledgements *)

(** Why [ack] refuses a well-formed call on the message [found]. *)
Inductive ack_refusal (commit : CommitMessage) (now : Time) (agentID : string) (st : AckStatus)
    : option Message.t → Error.t → Prop :=
| ar_missing e : Error.Code e = CodeNotFound → ack_refusal commit now agentID st None e
| ar_kind m e :
    Message.Typ m ≠ MessageTypeRequest → Error.Code e = CodeValidation →
    ack_refusal commit now agentID st (Some m) e
| ar_owner m e :
    Message.Typ m = MessageTypeRequest → Message.To m ≠ agentID → Error.Code e = CodeUnauthorized →
    ack_refusal commit now agentID st (Some m) e
| ar_barrier m e :
    Message.Typ m = MessageTypeRequest → Message.To m = agentID →
    isTerminal (Message.State m) = false →
    run_commit_message commit (ack_message now st m) = Some e →
    ack_refusal commit now agentID st (Some m) e.

(** The acknowledged version, field by field. *)
Record acknowledged (now : Time) (st : AckStatus) (m m' : Message.t) : Prop := {
  ak_evolves : evolves m m';
  ak_state : Message.State m' =
    match st with AckAccepted => StateExecuting | AckRejected => StateRejected end;
  ak_terminal : Message.TerminalAt m' =
    match st with AckAccepted => Message.TerminalAt m | AckRejected => now end;
  ak_delivered : Message.DeliveredAt m' =
    if decide (Message.DeliveredAt m = 0) then now else Message.DeliveredAt m;
  ak_progress : Message.LastProgressAt m' = Message.LastProgressAt m;
  ak_queued : Message.QueuedForAgent m' = false }.

Lemma ack_message_acknowledged now st m :
  message_ok m → Message.Typ m = MessageTypeRequest → isTerminal (Message.State m) = false →
  acknowledged now st m (ack_message now st m).
Proof.
  intros Hok Ht Hl. constructor; [by apply ack_message_evolves|..]; unfold ack_message, IsZero;
    destruct st; cbn; try done; destruct (Z.eqb_spec (Message.DeliveredAt m) 0); by case_decide.
Qed.

Lemma ack_notified o now st m agentID s id m' :
  inv E s → headroom o s → m' = ack_message now st m →
  let s1 := sweepLocked E o now s in
  notified s1 (publish_for E ObserveStateChange (state_change_data m' (Message.State m) now []) m' now
    (publish_for E ObserveAck (ack_data m' agentID (AckStatus_string st) now) m' now
      (store_message id m' s1))) m' now
    [mkNotice ObserveAck (ack_data m' agentID (AckStatus_string st) now);
     mkNotice ObserveStateChange (state_change_data m' (Message.State m) now [])].
Proof.
  intros Hi Hh _ s1. apply notified_twice; [|by apply notified_start].
  apply (roomy_ext E 2 s1); [done..|]. by apply swept_roomy.
Qed.

End lifecycle.

(** C25: The outcome of an acknowledgement.  Success means the target acked its
    own request: a finished one is left alone, a live one becomes executing or
    rejected, stamped and no longer queued, with nothing else in the store
    changed and exactly two observer events published.  A refusal, by the
    durability barrier too, leaves the swept store. *)
Theorem ack_outcome E commit o now input s s' r :
  inv E s → headroom o s → ack E commit o now input s = (s', r) →
  let s1 := sweepLocked E o now s in
  let id := TrimSpace (AckInput.MessageID input) in
  let agentID := TrimSpace (AckInput.AgentID input) in
  match parse_ack_status (TrimSpace (AckInput.Status input)), r with
  | Some st, None =>
      ∃ m, messages s1 !! id = Some m ∧ Message.Typ m = MessageTypeRequest ∧ Message.To m = agentID ∧
        if isTerminal (Message.State m) then s' = s1
        else ∃ m', run_commit_message commit m' = None ∧ acknowledged now st m m' ∧
          only_message s1 s' id m' ∧
          notified s1 s' m' now
            [mkNotice ObserveAck (ack_data m' agentID (AckStatus_string st) now);
             mkNotice ObserveStateChange (state_change_data m' (Message.State m) now [])]
  | Some st, Some e =>
      s' = s ∧ (id = ε ∨ agentID = ε) ∧ Error.Code e = CodeValidation ∨
      s' = s1 ∧ ack_refusal commit now agentID st (messages s1 !! id) e
  | None, _ => s' = s ∧ Error.Code <$> r = Some CodeValidation
  end.
Proof.
  intros Hi Hh Hack. cbv zeta. revert Hack. unfold ack, ack_request. cbv zeta.
  set (id := TrimSpace (AckInput.MessageID input)). set (agentID := TrimSpace (AckInput.AgentID input)).
  destruct (negb (is_empty agentID || is_empty id)) eqn:Eb.
  2: { intros [= <- <-]. unfold is_empty in Eb. 
       destruct (parse_ack_status _); [left|by split]. split_and!; [done| |done].
       prop_bool. destruct Eb; prop_bool; auto. }
  destruct (parse_ack_status _) as [st|] eqn:Est; [|by intros [= <- <-]].
  pose proof (so_msg _ (si_structure _ _ (sweepLocked_sinv E o now s (proj1 Hi))) id) as Hok.
  pose proof (ack_notified E o now st) as Hnote.
  destruct (messages (sweepLocked E o now s) !! id) as [m|] eqn:Hm.
  2: { intros [= <- <-]. right. split; [done|]. by constructor. }
  specialize (Hok m eq_refl). case_bool_decide as Hty.
  { intros [= <- <-]. right. split; [done|]. by constructor. }
  case_bool_decide as Hto.
  { intros [= <- <-]. right. split; [done|]. by constructor. }
  destruct (isTerminal (Message.State m)) eqn:Hl.
  { intros [= <- <-]. exists m. by rewrite Hl. }
  destruct (run_commit_message _ _) as [e|] eqn:Hc; intros [= <- <-].
  { right. split; [done|]. by apply ar_barrier. }
  exists m. rewrite Hl. split_and!; [done..|]. exists (ack_message now st m). split_and!; [done|..].
  - by apply ack_message_acknowledged.
  - by do 2 apply only_message_publish.
  - by apply Hnote.
Qed.

(** Bob accepts Alice's request. *)
Definition bob_accepts : AckInput.t := AckInput.mk bob (message_id 1) "accepted"%stdpp ε.

Definition accepted : Store := (ack E0 None (order_of requested.2) (at_s 2) bob_accepts requested.2).1.

Lemma ack_outcome_witness :
  ∃ m', messages accepted !! message_id 1 = Some m' ∧ acknowledged (at_s 2) AckAccepted request_message m'.
Proof.
  pose proof (ack_outcome E0 None (order_of requested.2) (at_s 2) bob_accepts requested.2 accepted None) as H.
  destruct H as (m & Hm & _ & _ & H).
  - exact (proj1 (reachable_ok E0 _ _ requested_reachable)).
  - apply has_headroom_ok. vm_compute. reflexivity.
  - vm_compute. reflexivity.
  - assert (messages (sweepLocked E0 (order_of requested.2) (at_s 2) requested.2) !!
      TrimSpace (AckInput.MessageID bob_accepts) = Some request_message) as Hr by (vm_compute; reflexivity).
    assert (isTerminal (Message.State request_message) = false) as Hl by (vm_compute; reflexivity).
    rewrite Hr in Hm. apply (inj Some) in Hm. subst m. rewrite Hl in H.
    destruct H as (m' & _ & Hk & Ho & _). exists m'. split; [|exact Hk].
    rewrite (on_messages _ _ _ _ Ho). apply lookup_insert_eq.
Defined.

(** ** Events *)

(** The progressed version, field by field. *)
Record progressed (now : Time) (k : EventKind) (m m' : Message.t) : Prop := {
  pg_evolves : evolves m m';
  pg_state : Message.State m' =
    match k with
    | EventProgress => if decide (Message.State m = StateWaitingAck) then StateExecuting else Message.State m
    | EventFinal => StateCompleted
    | EventError => StateError
    end;
  pg_terminal : Message.TerminalAt m' =
    match k with EventProgress => Message.TerminalAt m | _ => now end;
  pg_progress : Message.LastProgressAt m' =
    match k with EventProgress => now | _ => Message.LastProgressAt m end;
  pg_delivered : Message.DeliveredAt m' = Message.DeliveredAt m;
  pg_queued : Message.QueuedForAgent m' = Message.QueuedForAgent m }.

(** The observer events of an accepted transition: progress reports a state
    change only when it starts the execution. *)
Definition event_notices (now : Time) (k : EventKind) (body : string) (meta : json)
    (from : MessageState) (m' : Message.t) : list Notice :=
  match k with
  | EventProgress =>
      (if decide (from = Message.State m') then []
       else [mkNotice ObserveStateChange (state_change_data m' from now [])]) ++
      [mkNotice ObserveProgress (progress_data m' body meta now)]
  | _ => [mkNotice ObserveStateChange
            (state_change_data m' from now [("body"%stdpp, JString body); ("meta"%stdpp, meta)])]
  end.

(** A progress event that comes too early. *)
Definition too_frequent (E : Static) (now : Time) (k : EventKind) (m : Message.t) : Prop :=
  k = EventProgress ∧ Message.LastProgressAt m ≠ 0 ∧
  Sub now (Message.LastProgressAt m) < Config.ProgressMinInterval (cfg E).

(** Why [postEvent] refuses a well-formed call on the message [found]. *)
Inductive event_refusal (E : Static) (commit : CommitMessage) (now : Time) (actor : string)
    (k : EventKind) : option Message.t → Error.t → Prop :=
| er_missing e : Error.Code e = CodeNotFound → event_refusal E commit now actor k None e
| er_owner m e :
    Message.To m ≠ actor → Error.Code e = CodeUnauthorized →
    event_refusal E commit now actor k (Some m) e
| er_kind m e :
    Message.To m = actor → Message.Typ m ≠ MessageTypeRequest → Error.Code e = CodeValidation →
    event_refusal E commit now actor k (Some m) e
| er_rate m e :
    Message.To m = actor → Message.Typ m = MessageTypeRequest →
    isTerminal (Message.State m) = false → too_frequent E now k m →
    Error.Code e = CodeRateLimited → event_refusal E commit now actor k (Some m) e
| er_barrier m m' e :
    Message.To m = actor → Message.Typ m = MessageTypeRequest →
    (if isTerminal (Message.State m) then m' = m else progressed now k m m') →
    run_commit_message commit m' = Some e → event_refusal E commit now actor k (Some m) e.

Section events.
Context (E : Static).

Lemma event_message_progressed now k m m' :
  message_ok m → Message.Typ m = MessageTypeRequest → isTerminal (Message.State m) = false →
  event_message E now k m = Ok m' → progressed now k m m' ∧ ¬ too_frequent E now k m.
Proof.
  intros Hok Ht Hl He. pose proof (event_message_evolves E now k m m' Hok Ht Hl He) as Hev.
  revert He. unfold event_message, too_frequent, IsZero.
  destruct k; cbv zeta.
  - destruct (negb _ && _) eqn:Eb; [done|]. intros [= <-]. split.
    + constructor; [exact Hev|..]; cbn; try case_bool_decide; try case_decide; done.
    + intros (_ & Hz & Hlt). destruct (Z.eqb_spec (Message.LastProgressAt m) 0); [done|].
      cbn in Eb. prop_bool. lia.
  - intros [= <-]. split; [by constructor|]. by intros (? & _).
  - intros [= <-]. split; [by constructor|]. by intros (? & _).
Qed.

Lemma event_message_too_frequent now k m e :
  event_message E now k m = Err e →
  too_frequent E now k m ∧
  e = newError CodeRateLimited "progress event too frequent"%stdpp true
        (wrap64 (Config.ProgressMinInterval (cfg E) - Sub now (Message.LastProgressAt m))).
Proof.
  unfold event_message, too_frequent, IsZero. destruct k; cbv zeta; [|done..].
  destruct (negb _ && _) eqn:Eb; [|done]. intros [= <-]. prop_bool. done.
Qed.

Lemma publish_event_only now k body meta from m' s s1 id :
  only_message s s1 id m' → only_message s (publish_event E now k body meta from m' s1) id m'.
Proof.
  intros H. unfold publish_event. destruct k; [|by apply only_message_publish..].
  apply only_message_publish. case_bool; [by apply only_message_publish|done].
Qed.

Lemma publish_event_notified now k body meta from m' s s1 :
  roomy E 2 s1 → notified s s1 m' now [] →
  notified s (publish_event E now k body meta from m' s1) m' now
    (event_notices now k body meta from m').
Proof.
  intros Hr H0. assert (roomy E 1 s1) as Hr1 by (eapply roomy_weaken; [|done]; lia).
  unfold publish_event, event_notices. destruct k.
  2,3: by apply (notified_publish E s s1 m' now []).
  case_bool_decide as Hs; case_decide; try done; cbn [app].
  - by apply notified_twice.
  - by apply (notified_publish E s s1 m' now []).
Qed.

(** A stored live request of [actor] after an accepted event. *)
Lemma event_accepted o now k body meta s id m m' :
  inv E s → headroom o s → progressed now k m m' →
  let s1 := sweepLocked E o now s in
  let s' := publish_event E now k body meta (Message.State m) m' (store_message id m' s1) in
  only_message s1 s' id m' ∧
  notified s1 s' m' now (event_notices now k body meta (Message.State m) m').
Proof.
  intros Hi Hh _ s1. split.
  - apply publish_event_only, only_message_store.
  - apply publish_event_notified; [|by apply notified_start].
    apply (roomy_ext E 2 s1); [done..|]. by apply swept_roomy.
Qed.
End events.

(** C26: The outcome of an event report.  Success means the target reported on
    its own request: a finished one is left alone, a live one advances as the
    kind says, with nothing else in the store changed and exactly the events of
    that transition published.  A refusal, by the rate limit or the durability
    barrier too, leaves the swept store. *)
Theorem postEvent_outcome E commit o now input s s' r :
  inv E s → headroom o s → postEvent E commit o now input s = (s', r) →
  let s1 := sweepLocked E o now s in
  match event_request input, r with
  | Ok (actor, id, k, body), None =>
      ∃ m, messages s1 !! id = Some m ∧ Message.Typ m = MessageTypeRequest ∧ Message.To m = actor ∧
        if isTerminal (Message.State m) then s' = s1 ∧ run_commit_message commit m = None
        else ∃ m', run_commit_message commit m' = None ∧ progressed now k m m' ∧
          ¬ too_frequent E now k m ∧ only_message s1 s' id m' ∧
          notified s1 s' m' now
            (event_notices now k body (EventInput.Meta input) (Message.State m) m')
  | Ok (actor, id, k, _), Some e => s' = s1 ∧ event_refusal E commit now actor k (messages s1 !! id) e
  | Err e, _ => s' = s ∧ r = Some e
  end.
Proof.
  intros Hi Hh Hev. cbv zeta. revert Hev. unfold postEvent.
  destruct (event_request input) as [[[[actor id] k] body]|e]; [|by intros [= <- <-]]. cbv zeta.
  pose proof (so_msg _ (si_structure _ _ (sweepLocked_sinv E o now s (proj1 Hi))) id) as Hok.
  pose proof (event_accepted E o now k body (EventInput.Meta input) s id) as Hacc.
  destruct (messages (sweepLocked E o now s) !! id) as [m|] eqn:Hm.
  2: { intros [= <- <-]. split; [done|]. by constructor. }
  specialize (Hok m eq_refl).
  case_bool_decide as Hto; [intros [= <- <-]; split; [done|]; by apply er_owner|].
  case_bool_decide as Hty; [intros [= <- <-]; split; [done|]; by apply er_kind|].
  destruct (isTerminal (Message.State m)) eqn:Hl.
  { destruct (run_commit_message commit m) as [e|] eqn:Hc; intros [= <- <-].
    - split; [done|]. apply (er_barrier _ _ _ _ _ m m); [done..|by rewrite Hl|done].
    - exists m. by rewrite Hl. }
  destruct (event_message E now k m) as [m'|e] eqn:Em.
  2: { intros [= <- <-]. apply event_message_too_frequent in Em as [Hf ->].
       split; [done|]. by apply er_rate. }
  destruct (event_message_progressed E now k m m' Hok Hty Hl Em) as [Hp Hf].
  destruct (run_commit_message commit m') as [e|] eqn:Hc; intros [= <- <-].
  { split; [done|]. apply (er_barrier _ _ _ _ _ m m'); [done..|by rewrite Hl|done]. }
  exists m. rewrite Hl. split_and!; [done..|]. exists m'.
  destruct (Hacc m m' Hi Hh Hp) as [Ho Hn]. done.
Qed.

(** Bob reports progress on the request he accepted. *)
Definition bob_progress : EventInput.t :=
  EventInput.mk bob (message_id 1) "progress"%stdpp "half"%stdpp JNull.

Definition accepted_run : Time * Store := exec E0 requested [(at_s 2, OpAck None bob_accepts)].

Lemma accepted_run_reachable : reachable E0 accepted_run.1 accepted_run.2.
Proof.
  change accepted_run with (exec E0 (t0, emptyStore)
    (register_calls ++ request_calls ++ [(at_s 2, OpAck None bob_accepts)])).
  apply exec_reachable. vm_compute. reflexivity.
Qed.

Definition halfway : Store :=
  (postEvent E0 None (order_of accepted_run.2) (at_s 3) bob_progress accepted_run.2).1.

Lemma postEvent_outcome_witness :
  ∃ m', messages halfway !! message_id 1 = Some m' ∧ Message.LastProgressAt m' = at_s 3.
Proof.
  pose proof (postEvent_outcome E0 None (order_of accepted_run.2) (at_s 3) bob_progress
    accepted_run.2 halfway None) as H.
  assert (event_request bob_progress = Ok (bob, message_id 1, EventProgress, "half"%stdpp)) as Hr
    by (vm_compute; reflexivity).
  cbv zeta in H. rewrite Hr in H. destruct H as (m & Hm & _ & _ & H).
  - exact (proj1 (reachable_ok E0 _ _ accepted_run_reachable)).
  - apply has_headroom_ok. vm_compute. reflexivity.
  - vm_compute. reflexivity.
  - assert (isTerminal ∘ Message.State <$> messages (sweepLocked E0 (order_of accepted_run.2)
      (at_s 3) accepted_run.2) !! message_id 1 = Some false) as Hl by (vm_compute; reflexivity).
    rewrite Hm in Hl. apply (inj Some) in Hl. unfold compose in Hl. rewrite Hl in H.
    destruct H as (m' & _ & Hp & _ & Ho & _). exists m'. split; [|exact (pg_progress _ _ _ _ Hp)].
    rewrite (on_messages _ _ _ _ Ho). apply lookup_insert_eq.
Defined.

(** ** The rate limit *)

(** Progress on a live request is accepted iff the previous report is at
    least the configured interval old.  A caller that is too early is told so
    with a transient rate-limit error and a positive number of seconds to wait,
    and the request keeps its state. *)
Theorem progress_rate_limited E commit o now input s s' r actor id body m :
  inv E s → int64_range (Config.ProgressMinInterval (cfg E)) →
  event_request input = Ok (actor, id, EventProgress, body) →
  messages (sweepLocked E o now s) !! id = Some m → Message.To m = actor →
  Message.Typ m = MessageTypeRequest → isTerminal (Message.State m) = false →
  Message.LastProgressAt m ≤ now → postEvent E commit o now input s = (s', r) →
  let elapsed := Sub now (Message.LastProgressAt m) in
  if decide (Message.LastProgressAt m = 0 ∨ Config.ProgressMinInterval (cfg E) ≤ elapsed) then
    ∃ m', progressed now EventProgress m m' ∧ r = run_commit_message commit m'
  else
    s' = sweepLocked E o now s ∧
    ∃ e, r = Some e ∧ Error.Code e = CodeRateLimited ∧ Error.Transient e = true ∧
      Error.Status e = 429 ∧ 1 ≤ Error.RetryAfter e.
Proof.
  intros Hi Hint Hreq Hm Hto Hty Hl Hpast Hev. cbv zeta.
  pose proof (so_msg _ (si_structure _ _ (sweepLocked_sinv E o now s (proj1 Hi))) id m Hm) as Hok.
  revert Hev. unfold postEvent. rewrite Hreq, Hm. cbv zeta.
  rewrite !(bool_decide_eq_false_2 (_ ≠ _)) by auto. rewrite Hl.
  destruct (event_message E now EventProgress m) as [m'|e] eqn:Em.
  - destruct (event_message_progressed E now _ m m' Hok Hty Hl Em) as [Hp Hf].
    intros Hev. rewrite decide_True.
    + exists m'. split; [done|]. destruct (run_commit_message commit m'); congruence.
    + unfold too_frequent in Hf. destruct (decide (Message.LastProgressAt m = 0)); [by left|right].
      destruct (decide (Config.ProgressMinInterval (cfg E) ≤ Sub now (Message.LastProgressAt m))); [done|].
      destruct Hf. split_and!; [done..|lia].
  - apply event_message_too_frequent in Em as [(_ & Hz & Hlt) ->].
    intros [= <- <-]. rewrite decide_False by lia. split; [done|]. eexists. split_and!; [done..|].
    apply newError_RetryAfter_pos. revert Hint Hlt. unfold int64_range, Sub, min_int64, max_int64.
    intros. rewrite wrap64_id; [|unfold int64_range, min_int64, max_int64]; lia.
Qed.

Definition halfway_run : Time * Store :=
  exec E0 accepted_run [(at_s 3, OpPostEvent None bob_progress)].

Lemma halfway_run_reachable : reachable E0 halfway_run.1 halfway_run.2.
Proof.
  change halfway_run with (exec E0 (t0, emptyStore) (register_calls ++ request_calls ++
    [(at_s 2, OpAck None bob_accepts); (at_s 3, OpPostEvent None bob_progress)])).
  apply exec_reachable. vm_compute. reflexivity.
Qed.

Definition halfway_message : Message.t :=
  default request_message (messages halfway_run.2 !! message_id 1).

(** A second report one second after the first. *)
Definition too_early : Store * option Error.t :=
  postEvent E0 None (order_of halfway_run.2) (at_s 4) bob_progress halfway_run.2.

Lemma progress_rate_limited_witness :
  ∃ e, too_early.2 = Some e ∧
    Error.Code e = CodeRateLimited ∧ 1 ≤ Error.RetryAfter e.
Proof.
  pose proof (progress_rate_limited E0 None (order_of halfway_run.2) (at_s 4) bob_progress
    halfway_run.2 too_early.1 too_early.2 bob (message_id 1) "half"%stdpp halfway_message) as H.
  cbv zeta in H. rewrite decide_False in H.
  - edestruct H as (_ & e & He & Hc & _ & _ & Hra).
    + exact (proj1 (reachable_ok E0 _ _ halfway_run_reachable)).
    + split; vm_compute; discriminate.
    + vm_compute. reflexivity.
    + vm_compute. reflexivity.
    + vm_compute. reflexivity.
    + vm_compute. reflexivity.
    + vm_compute. reflexivity.
    + vm_compute. discriminate.
    + apply surjective_pairing.
    + exists e. exact (conj He (conj Hc Hra)).
  - intros [Hz|Hle]; [revert Hz|revert Hle]; vm_compute; [discriminate|intros Hle; by apply Hle].
Defined.

(** The advice is rounded down to whole seconds: a caller told to wait one
    second when a second and a half is left is refused again. *)
Definition half_second_late : Time := at_s 3 + 500 * Millisecond.

Example retry_hint_rounds_down :
  let first := postEvent E0 None (order_of halfway_run.2) half_second_late bob_progress halfway_run.2 in
  let again := postEvent E0 None (order_of first.1) (half_second_late + 1 * Second) bob_progress first.1 in
  Error.RetryAfter <$> first.2 = Some 1 ∧ Error.Code <$> again.2 = Some CodeRateLimited.
Proof. vm_compute. split; reflexivity. Qed.
