(* ===== verification/AccessProps.v ===== *)
(** * Properties of registration, access control and listings

    Who may register under which name and with which rights, who may reach
    which resource, and what [ListAgents] and [ListConversationMessages] of
    [pkg/bus/store.go] return. *)
From stdpp Require Import gmap strings list relations sorting.
From Stdlib Require Import ZArith Lia Ascii.
From S2P Require Import Prelude GoBase Sha256 Json Types Scope Config Auth Ring State Push Inbox Observe Structure Sweep SweepSpec Conversations Agents Wakeup History Send SendSpec Poll Lifecycle Queries System Scenario.

(** ** Registration *)

(** Only the agent table, the agent's inbox and the stream differ: an inbox that
    exists is kept, a first registration opens an empty one. *)
Record only_agent (s s' : Store) (a : Agent.t) : Prop := {
  oa_agents : agents s' = <[Agent.AgentID a := a]> (agents s);
  oa_messages : messages s' = messages s;
  oa_conversations : conversations s' = conversations s;
  oa_listed : conversationMessages s' = conversationMessages s;
  oa_receipts : idempotency s' = idempotency s;
  oa_kept : ∀ b L, b ≠ Agent.AgentID a ∨ is_Some (agents s !! b) →
    represents s b L → represents s' b L;
  oa_opened : agents s !! Agent.AgentID a = None → represents s' (Agent.AgentID a) [] }.

Lemma only_agent_store E s a ty d c ids t :
  structure_ok s →
  only_agent s (publishLocked E ty d c ids t
    (ensure_inbox (Agent.AgentID a) (set_agents (<[Agent.AgentID a := a]> (agents s)) s))) a.
Proof.
  intros Hs. set (s1 := ensure_inbox _ _).
  assert (∀ b, inbox (publishLocked E ty d c ids t s1) b = inbox s1 b ∧
    base (publishLocked E ty d c ids t s1) b = base s1 b) as Hpub.
  { intros b. by destruct (publishLocked_inbox E ty d c ids t s1 b) as (? & ? & _). }
  assert (∀ b L, represents s1 b L → represents (publishLocked E ty d c ids t s1) b L) as Hrep.
  { intros b L. unfold represents. by destruct (Hpub b) as [-> ->]. }
  destruct (publishLocked_frame E ty d c ids t s1).
  assert (inboxes s !! Agent.AgentID a = None ↔ agents s !! Agent.AgentID a = None) as Hdom.
  { by rewrite <-!not_elem_of_dom, (so_inboxes _ Hs). }
  constructor; rewrite ?of_agents, ?of_messages, ?of_conversations, ?of_convmsgs, ?of_idem;
    try (unfold s1, ensure_inbox; by case_match).
  - intros b L Hb HL. apply Hrep. unfold s1, ensure_inbox. cbn.
    destruct (inboxes s !! Agent.AgentID a) eqn:Ei; [done|].
    assert (Agent.AgentID a ≠ b).
    { intros <-. destruct Hb as [?|[x Hx]]; [done|]. rewrite (proj1 Hdom) in Hx; done. }
    unfold represents, inbox, base in *. cbn. by rewrite !lookup_insert_ne.
  - intros Hn%Hdom. apply Hrep. unfold s1, ensure_inbox. cbn. rewrite Hn.
    unfold represents, inbox, base. cbn. by rewrite !lookup_insert_eq.
Qed.

(** The effect of a registration.  A refusal leaves the swept store or the
    untouched one.  Success stores the agent under its trimmed name, active
    until the lease asked for (or the default one) ends, keeps the time of its
    first registration and its inbox, and changes nothing else; its scopes and
    grants are the server's, whatever the caller claimed. *)
Theorem RegisterAgent_effect E o now input s s' r :
  sinv E s → RegisterAgent E o now input s = (s', r) →
  let s1 := sweepLocked E o now s in
  match r with
  | Err _ => s' = s ∨ s' = s1
  | Ok a =>
      let ttl := RegisterAgentInput.TTLSeconds input in
      Agent.AgentID a = TrimSpace (RegisterAgentInput.AgentID input) ∧
      Agent.AllowedScopes a = agentAllowedScopes E (Agent.AgentID a) ∧
      Agent.SharedGrants a = agentSharedGrants E (Agent.AgentID a) ∧
      Agent.Status a = AgentStatusActive ∧
      Agent.ExpiresAt a = now + seconds (Agent.TTLSeconds a) ∧
      Agent.TTLSeconds a =
        (if decide (0 < ttl) then ttl else int_seconds (Config.DefaultRegistrationTTL (cfg E))) ∧
      Agent.RegisteredAt a = from_option Agent.RegisteredAt now (agents s1 !! Agent.AgentID a) ∧
      only_agent s1 s' a
  end.
Proof.
  intros Hs. cbv zeta. unfold RegisterAgent.
  destruct (registration E now input) as [a|e] eqn:Er; [|intros [= <- <-]; by left].
  cbv zeta. apply (sweepLocked_sinv E o now) in Hs.
  generalize dependent (sweepLocked E o now s). intros s1 Hs.
  destruct (authorizeAgentForName _ _ _); intros [= <- <-]; [by right|].
  pose proof (registration_id _ _ _ _ Er) as Hid.
  destruct (registration_policy _ _ _ _ Er) as (_ & _ & Hsc & Hgr & _).
  assert (Agent.Status a = AgentStatusActive ∧ Agent.RegisteredAt a = now ∧
    Agent.ExpiresAt a = now + seconds (Agent.TTLSeconds a) ∧ Agent.TTLSeconds a =
      (if decide (0 < RegisterAgentInput.TTLSeconds input) then RegisterAgentInput.TTLSeconds input
       else int_seconds (Config.DefaultRegistrationTTL (cfg E)))) as (H1 & H2 & H3 & H4).
  { revert Er. unfold registration. cbv zeta. intros H.
    repeat (case_match; try done); injection H as <-; cbn; split_and!; try done;
      case_decide; prop_bool; done || lia. }
  pose proof (only_agent_store E s1) as Ho.
  destruct (agents s1 !! Agent.AgentID a) as [old|] eqn:Eo; cbn; rewrite ?Eo; split_and!; try done.
  - by apply (Ho (Agent.set_RegisteredAt (Agent.RegisteredAt old) a)), Hs.
  - by apply (Ho a), Hs.
Qed.

(** Bob registers again, ten seconds later. *)
Definition bob_again : Store * result Error.t Agent.t :=
  RegisterAgent E0 (order_of requested.2) (at_s 10) (register bob 60) requested.2.

Lemma RegisterAgent_effect_witness :
  ∃ a, bob_again.2 = Ok a ∧ Agent.RegisteredAt a = t0 ∧ Agent.ExpiresAt a = at_s 70 ∧
    represents bob_again.1 bob [messageInboxEvent request_message].
Proof.
  pose proof (RegisterAgent_effect E0 (order_of requested.2) (at_s 10) (register bob 60) requested.2
    bob_again.1 bob_again.2) as H. cbv zeta in H.
  destruct bob_again.2 as [a|e] eqn:Er; [|exfalso; revert Er; vm_compute; discriminate].
  destruct H as (Hid & _ & _ & _ & He & Ht & Hr & Ho).
  - exact (proj1 (proj1 (reachable_ok E0 _ _ requested_reachable))).
  - rewrite <-Er. apply surjective_pairing.
  - exists a. split; [done|]. rewrite He, Ht, Hr, Hid. split; [vm_compute; reflexivity|].
    split; [vm_compute; reflexivity|]. apply (oa_kept _ _ _ Ho).
    + right. eexists. vm_compute. reflexivity.
    + split; [vm_compute; split; discriminate|vm_compute; reflexivity].
Defined.

(** ** Control-plane identities *)

Lemma static_control_plane E a : static_ok E → a ∈ controlPlaneAgents E ↔ a ∈ Config.ControlPlaneAgents (cfg E).
Proof. intros HE. rewrite (st_set _ HE). apply elem_of_list_to_set. Qed.

Lemma one_scope E a :
  isControlPlaneAgent E a = false → (length (agentAllowedScopes E a) ≤ 1)%nat.
Proof. intros H. unfold agentAllowedScopes. rewrite H. by case_match; cbn; lia. Qed.

(** The record a successful registration returns and the one it computed. *)
Lemma RegisterAgent_Ok E o now input s s' a :
  RegisterAgent E o now input s = (s', Ok a) →
  ∃ a0, registration E now input = Ok a0 ∧ Agent.AgentID a = Agent.AgentID a0.
Proof.
  unfold RegisterAgent. destruct (registration E now input) as [a0|]; [|done].
  cbv zeta. case_match; [done|]. intros [= _ <-]. exists a0. split; [done|]. by case_match.
Qed.

Lemma credential_checked E a secret :
  static_ok E → a ∈ Config.ControlPlaneAgents (cfg E) → TrimSpace a = a →
  credential_accepted E a secret = true →
  Config.ControlPlaneAgentSecretHashes (cfg E) !! a = Some (Sum256 secret).
Proof.
  intros HE Ha Ht. unfold credential_accepted. generalize (Sum256 secret). intros digest Hc.
  destruct (proj1 (st_hashes _ HE a) Ha) as [h Hh]. rewrite Hh in *.
  assert (isConfiguredControlPlaneAgent E a = true) as Hcp.
  { apply bool_decide_eq_true. rewrite Ht. by apply static_control_plane. }
  rewrite Hcp in Hc. cbn in Hc. apply bool_decide_eq_true in Hc. by rewrite Hc.
Qed.

Lemma NewStore_static_hashes order human c E :
  NewStore_static order human c = Ok E →
  Config.ControlPlaneAgentSecretHashes (cfg E) = Config.ControlPlaneAgentSecretHashes c.
Proof. unfold NewStore_static. repeat (case_match; try done). by intros [= <-]. Qed.

(** C29: Rights across scopes are guarded.  In a store that started, an identity
    configured as control plane registers only with the secret whose SHA-256 is
    configured for it; and in every reachable state an agent holding more than
    one scope is such an identity, in strict mode. *)
Theorem control_plane_guarded E order human c :
  enumerates order (Config.ControlPlaneAgentSecretHashes c) →
  NewStore_static order human c = Ok E →
  (∀ o now input s s' a,
    RegisterAgent E o now input s = (s', Ok a) → Agent.AgentID a ∈ Config.ControlPlaneAgents (cfg E) →
    Config.ControlPlaneAgentSecretHashes c !! Agent.AgentID a =
      Some (Sum256 (RegisterAgentInput.Secret input))) ∧
  (∀ now s k a, reachable E now s → agents s !! k = Some a →
    (1 < length (Agent.AllowedScopes a))%nat →
    Config.Mode (cfg E) = Some NamespaceModeStrict ∧
    TrimSpace k ∈ Config.ControlPlaneAgents (cfg E)).
Proof.
  intros Ho HE. pose proof (NewStore_static_ok order human c E Ho HE) as Hst.
  rewrite <-(NewStore_static_hashes _ _ _ _ HE). split.
  - intros o now input s s' a Hreg Hcp.
    destruct (RegisterAgent_Ok _ _ _ _ _ _ _ Hreg) as (a0 & Er & Ha). rewrite Ha in *.
    destruct (registration_policy _ _ _ _ Er) as (_ & Hcr & _).
    apply credential_checked; [done|done| |done].
    by rewrite (registration_id _ _ _ _ Er), TrimSpace_idemp.
  - intros now s k a Hr Ha Hlen. destruct (reachable_ok E now s Hr) as [Hi Hp].
    rewrite <-(so_agent_key _ (si_structure _ _ (proj1 Hi)) k a Ha).
    specialize (Hp k a Ha). rewrite (ap_scopes _ _ Hp) in Hlen.
    destruct (isControlPlaneAgent E (Agent.AgentID a)) eqn:Hcp.
    2: { apply one_scope in Hcp. lia. }
    unfold isControlPlaneAgent, isConfiguredControlPlaneAgent in Hcp. prop_bool.
    split; [done|]. by apply (static_control_plane E _ Hst).
Qed.

Definition hub : string := "hub"%stdpp.

(** The configured identity registers with its secret. *)
Definition register_hub : RegisterAgentInput.t :=
  RegisterAgentInput.mk hub "s3cret"%stdpp [] [] [] ε ε ε ε None None ε ε 60.

Definition hub_registered : Store * result Error.t Agent.t :=
  RegisterAgent E1 (order_of emptyStore) t0 register_hub emptyStore.

Lemma strict_config_starts :
  NewStore_static (elements (dom (Config.ControlPlaneAgentSecretHashes strict_config))) ε strict_config
  = Ok E1.
Proof. vm_compute. reflexivity. Qed.

Lemma control_plane_guarded_witness :
  ∃ a, hub_registered.2 = Ok a ∧ length (Agent.AllowedScopes a) = 3%nat ∧
    Config.ControlPlaneAgentSecretHashes strict_config !! Agent.AgentID a =
      Some (Sum256 (RegisterAgentInput.Secret register_hub)).
Proof.
  assert (∃ a, hub_registered.2 = Ok a ∧ length (Agent.AllowedScopes a) = 3%nat ∧
    Agent.AgentID a ∈ Config.ControlPlaneAgents (cfg E1)) as (a & Ha & Hl & Hin).
  { assert (match hub_registered.2 with
            | Ok a => (length (Agent.AllowedScopes a) =? 3)%nat && bool_decide (Agent.AgentID a = hub)
            | Err _ => false
            end = true) as Hc by (vm_compute; reflexivity).
    destruct hub_registered.2 as [a|e]; [|discriminate Hc]. prop_bool. exists a.
    split; [reflexivity|]. split; [by apply Nat.eqb_eq|].
    match goal with H : Agent.AgentID a = hub |- _ => rewrite H end.
    vm_compute. left. }
  exists a. split; [exact Ha|]. split; [exact Hl|].
  destruct (control_plane_guarded E1 _ ε strict_config (enumerates_elements _) strict_config_starts)
    as [H _].
  apply (H (order_of emptyStore) t0 register_hub emptyStore hub_registered.1 a); [|exact Hin].
  rewrite <-Ha. exact (surjective_pairing hub_registered).
Defined.

(** ** Isolation of the scopes *)

(** The trimmed name starts with the scope's prefix. *)
Definition in_scope (sc : Scope) (name : string) : Prop :=
  ∃ rest, TrimSpace name = Scope_string sc +:+ "."%stdpp +:+ rest.

Lemma scopeOfName_strict E n sc :
  Config.Mode (cfg E) = Some NamespaceModeStrict → scopeOfName E n = Some sc ↔ in_scope sc n.
Proof.
  intros Hm. unfold in_scope. rewrite <-ScopeOfName_Some. unfold scopeOfName. rewrite Hm.
  destruct (ScopeOfName n); [done|]. by rewrite bool_decide_eq_true_2.
Qed.

Lemma agentHasSharedGrant_iff E a :
  isControlPlaneAgent E a = false →
  agentHasSharedGrant E a = true ↔
  TrimSpace a ≠ ε ∧ TrimSpace a ∈ (TrimSpace <$> Config.SharedGrantAgents (cfg E)).
Proof.
  intros Hcp. unfold agentHasSharedGrant, agentSharedGrants, is_empty.
  rewrite isControlPlaneAgent_TrimSpace, Hcp. case_bool_decide as Ht; [cbn; naive_solver|].
  assert (existsb (λ raw, bool_decide (TrimSpace raw = TrimSpace a)) (Config.SharedGrantAgents (cfg E))
    = true ↔ TrimSpace a ∈ (TrimSpace <$> Config.SharedGrantAgents (cfg E))) as Hex.
  { rewrite existsb_exists, list_elem_of_fmap. setoid_rewrite bool_decide_eq_true.
    setoid_rewrite <-list_elem_of_In. naive_solver. }
  destruct (existsb _ _); cbn; naive_solver.
Qed.

(** C30: Namespaces are isolated.  In strict mode an identity that is not
    control plane may use a name exactly when both lie in the same scope, other
    than the shared one, or the name is shared and the identity is granted it;
    the check on conversations agrees for every named caller, and a refusal is
    a validation error for an unscoped name and unauthorized otherwise. *)
Theorem namespace_isolation E a r :
  Config.Mode (cfg E) = Some NamespaceModeStrict → TrimSpace a ∉ controlPlaneAgents E →
  (authorizeAgentForName E a r = None ↔
    (∃ sc, sc ≠ ScopeShared ∧ in_scope sc a ∧ in_scope sc r) ∨
    (in_scope ScopeShared r ∧ TrimSpace a ≠ ε ∧
      TrimSpace a ∈ (TrimSpace <$> Config.SharedGrantAgents (cfg E)))) ∧
  (TrimSpace a ≠ ε → agentCanAccessName E a r = true ↔ authorizeAgentForName E a r = None) ∧
  (∀ e, authorizeAgentForName E a r = Some e →
    Error.Code e = if decide (is_Some (ScopeOfName r)) then CodeUnauthorized else CodeValidation).
Proof.
  intros Hm Ha.
  assert (isControlPlaneAgent E a = false) as Hcp.
  { unfold isControlPlaneAgent, isConfiguredControlPlaneAgent.
    by rewrite (bool_decide_eq_false_2 (TrimSpace a ∈ _)), andb_false_r. }
  split_and!.
  - rewrite authorizeAgentForName_spec. unfold may_access. rewrite agentHasSharedGrant_iff by done.
    rewrite Hcp. setoid_rewrite (scopeOfName_strict E _ _ Hm). naive_solver.
  - intros Hn. rewrite agentCanAccessName_spec, Hcp by done. symmetry. apply authorizeAgentForName_spec.
  - intros e. unfold authorizeAgentForName. rewrite Hcp. cbn.
    assert (scopeOfName E r = ScopeOfName r) as ->.
    { unfold scopeOfName. rewrite Hm. destruct (ScopeOfName r); [done|]. by rewrite bool_decide_eq_true_2. }
    destruct (ScopeOfName r) as [sc|].
    + rewrite decide_True by eauto. by repeat case_match; intros [= <-].
    + rewrite decide_False by (by intros []). by intros [= <-].
Qed.

Lemma namespace_isolation_witness :
  authorizeAgentForName E1 alice bob = None ∧
  authorizeAgentForName E1 alice "shared.news"%stdpp = None ∧
  authorizeAgentForName E1 alice "personal.diary"%stdpp ≠ None.
Proof.
  assert (Config.Mode (cfg E1) = Some NamespaceModeStrict) as Hm by (vm_compute; reflexivity).
  assert (TrimSpace alice ∉ controlPlaneAgents E1) as Ha.
  { apply (bool_decide_unpack _). vm_compute. exact I. }
  split_and!.
  - apply (proj1 (namespace_isolation E1 alice bob Hm Ha)). left. exists ScopeUCLA. split; [discriminate|].
    split; [exists "alice"%stdpp|exists "bob"%stdpp]; vm_compute; reflexivity.
  - apply (proj1 (namespace_isolation E1 alice _ Hm Ha)). right. split; [exists "news"%stdpp|split].
    + vm_compute. reflexivity.
    + vm_compute. discriminate.
    + vm_compute. left.
  - intros H. apply (proj1 (namespace_isolation E1 alice _ Hm Ha)) in H.
    destruct H as [(sc & Hs & [r1 H1] & [r2 H2])|([r2 H2] & _)].
    + destruct sc; [revert H1|revert H2|done]; vm_compute; discriminate.
    + revert H2. vm_compute. discriminate.
Defined.

(** ** Listing agents *)

Lemma List_filter_perm {A} (f : A → bool) l1 l2 :
  l1 ≡ₚ l2 → List.filter f l1 ≡ₚ List.filter f l2.
Proof.
  induction 1 as [|x l1 l2 _ IH|x y l|l1 l2 l3 _ IH1 _ IH2]; cbn; [done| | |by etransitivity].
  - case_bool; [by constructor|done].
  - repeat case_bool; try done. apply Permutation_swap.
Qed.

(** [ListAgents] returns every active agent with the capability asked for,
    each once, in ascending order of identifier; the result does not depend on
    the order the runtime ranges over the agent table, and nothing but the
    sweep happens to the store. *)
Theorem ListAgents_exact E o order order' now capability s :
  sinv E s →
  let s1 := sweepLocked E o now s in
  enumerates order (agents s1) → enumerates order' (agents s1) →
  let l := (ListAgents E o order now capability s).2 in
  (ListAgents E o order now capability s).1 = s1 ∧
  (ListAgents E o order' now capability s).2 = l ∧
  StronglySorted id_before l ∧ NoDup (Agent.AgentID <$> l) ∧
  ∀ a, a ∈ l ↔
    agents s1 !! Agent.AgentID a = Some a ∧ Agent.Status a = AgentStatusActive ∧
    (TrimSpace capability = ε ∨ TrimSpace capability ∈ Agent.Capabilities a).
Proof.
  intros Hs. cbv zeta. intros Ho Ho'.
  apply (sweepLocked_sinv E o now) in Hs. pose proof (so_agent_key _ (si_structure _ _ Hs)) as Hkey.
  destruct (ListAgents_spec E o order now capability s Ho) as (H1 & H2 & H3).
  unfold ListAgents in *. cbv zeta in *. cbn [fst snd] in *. clear H1.
  generalize dependent (sweepLocked E o now s). intros s1 Ho Ho' Hs Hkey Hsort Hin.
  assert (∀ ord, enumerates ord (agents s1) →
    NoDup (Agent.AgentID <$> List.filter (agent_listed (TrimSpace capability)) (in_order (agents s1) ord)))
    as Hnd.
  { intros ord [Hnd _]. induction Hnd as [|k l Hk Hnd IH]; [constructor|].
    unfold in_order in *. cbn [omap list_omap].
    destruct (agents s1 !! k) as [a|] eqn:Ha; [|exact IH]. cbn [List.filter].
    case_bool; [|exact IH]. rewrite fmap_cons. apply NoDup_cons. split; [|exact IH].
    intros (b & Hb & [_ Hbl]%List_filter_elem)%list_elem_of_fmap.
    apply list_elem_of_omap in Hbl as (j & Hj & Hbj).
    apply Hkey in Ha. apply Hkey in Hbj. congruence. }
  split_and!; [done| |exact Hsort| |].
  - apply (StronglySorted_unique_strong id_before).
    + intros a b Ha Hb Hab Hba. rewrite !merge_sort_Permutation in Ha, Hb.
      apply List_filter_elem in Ha as [_ (ka & Ha)%in_order_elem]; [|done].
      apply List_filter_elem in Hb as [_ (kb & Hb)%in_order_elem]; [|done].
      pose proof (Hkey _ _ Ha). pose proof (Hkey _ _ Hb).
      assert (Agent.AgentID a = Agent.AgentID b) by by apply (anti_symm String.le).
      congruence.
    + apply (StronglySorted_merge_sort id_before).
    + exact Hsort.
    + rewrite !merge_sort_Permutation. apply List_filter_perm. by apply in_order_perm.
  - rewrite merge_sort_Permutation. by apply Hnd.
  - intros a. rewrite Hin. unfold agent_listed, is_empty.
    rewrite andb_true_iff, orb_true_iff, !bool_decide_eq_true. split.
    + intros [[? ?] [k Hk]]. pose proof (Hkey _ _ Hk). subst k. done.
    + intros (? & ? & ?). split; [done|eauto].
Qed.

Lemma ListAgents_exact_witness :
  Agent.AgentID <$> (ListAgents E0 (order_of registered.2) [alice; bob] (at_s 1) "chat"%stdpp
    registered.2).2 = [alice; bob] ∧
  (ListAgents E0 (order_of registered.2) [bob; alice] (at_s 1) "chat"%stdpp registered.2).2 =
  (ListAgents E0 (order_of registered.2) [alice; bob] (at_s 1) "chat"%stdpp registered.2).2.
Proof.
  split; [vm_compute; reflexivity|].
  apply (ListAgents_exact E0 (order_of registered.2) [alice; bob] [bob; alice]).
  - exact (proj1 (proj1 (reachable_ok E0 _ _ registered_reachable))).
  - apply (bool_decide_unpack _). vm_compute. exact I.
  - apply (bool_decide_unpack _). vm_compute. exact I.
Defined.

(** ** Paging through a conversation *)

(** The stored messages behind a list of identifiers. *)
Definition stored (s : Store) (ids : list string) : list Message.t :=
  omap (λ id, messages s !! id) ids.

(** What one call may see: the conversation exists and the caller, if named,
    may access all its participants. *)
Definition may_read (E : Static) (s : Store) (cid actor : string) : Prop :=
  ∃ conv, conversations s !! cid = Some conv ∧
    (TrimSpace actor = ε ∨
     (∀ n, named (Conversation.Participants conv) n → agentCanAccessName E (TrimSpace actor) n = true) ∧
     ∃ n, named (Conversation.Participants conv) n).

Lemma actorCanAccessConversation_iff E actor conv :
  actorCanAccessConversation E (TrimSpace actor) (Some conv) = true ↔
  TrimSpace actor = ε ∨
  (∀ n, named (Conversation.Participants conv) n → agentCanAccessName E (TrimSpace actor) n = true) ∧
  ∃ n, named (Conversation.Participants conv) n.
Proof.
  unfold actorCanAccessConversation, actorCanAccessAllNames, is_empty. rewrite TrimSpace_idemp.
  case_bool_decide as Ha; [tauto|].
  rewrite actorCanAccessAllNames_loop_spec. naive_solver.
Qed.

Lemma clamp_limit_range limit : 1 ≤ clamp_limit limit ≤ 200.
Proof. unfold clamp_limit. repeat case_bool; prop_bool; lia. Qed.

(** The positions one page covers. *)
Record page_bounds (n cursor next limit : Z) : Prop := {
  pb_order : cursor ≤ next ≤ n;
  pb_size : next - cursor ≤ limit;
  pb_progress : cursor < n → cursor < next }.

Lemma page_bounds_clamp n cursor limit :
  0 ≤ n → 1 ≤ limit →
  let c := if cursor <? 0 then 0 else cursor in
  let c := if n <? c then n else c in
  let next := if n <? c + limit then n else c + limit in
  c = Z.max 0 (Z.min cursor n) ∧ page_bounds n c next limit.
Proof.
  intros Hn Hl. cbv zeta.
  destruct (Z.ltb_spec cursor 0), (Z.ltb_spec n (if cursor <? 0 then 0 else cursor));
    repeat (case_bool; prop_bool); split; try constructor; lia.
Qed.

(** Paging through a conversation misses nothing and repeats nothing.  A
    page for a caller who may read the conversation starts at the cursor,
    clamped to the list, and covers the next positions up to the limit, at
    least one when any is left; the messages returned are exactly the stored
    ones among them, so pages at successive cursors concatenate to the
    conversation.  Anyone else gets the same answer as for a conversation that
    does not exist. *)
Theorem conversation_paging E o now input s s' r :
  let cid := ListConversationMessagesInput.ConversationID input in
  let actor := ListConversationMessagesInput.ActorAgentID input in
  let s1 := sweepLocked E o now s in
  sinv E s → TrimSpace cid ≠ ε → ListConversationMessages E o now input s = (s', r) →
  s' = s1 ∧
  (¬ may_read E s1 cid actor →
    r = Err (fail CodeNotFound "conversation not found"%stdpp)) ∧
  (may_read E s1 cid actor →
    ∃ page next, r = Ok (cid, page, next) ∧
      let ids := conversation_messages s1 cid in
      let cursor := Z.max 0 (Z.min (ListConversationMessagesInput.Cursor input) (Z.of_nat (length ids))) in
      page_bounds (Z.of_nat (length ids)) cursor next 200 ∧
      stored s1 (take (Z.to_nat next) ids) = stored s1 (take (Z.to_nat cursor) ids) ++ page ∧
      Forall (λ m, Message.ConversationID m = cid) page).
Proof.
  cbv zeta. intros Hs Hcid. unfold ListConversationMessages, is_empty.
  rewrite bool_decide_eq_false_2 by done. cbv zeta. apply (sweepLocked_sinv E o now) in Hs.
  generalize dependent (sweepLocked E o now s). intros s1 Hs. unfold may_read.
  destruct (conversations s1 !! _) as [conv|] eqn:Hc.
  2: { intros [= <- <-]. split_and!; [done..|]. by intros (? & ? & _). }
  rewrite (so_conv_key _ (si_structure _ _ Hs) _ _ Hc).
  destruct (actorCanAccessConversation _ _ _) eqn:Ha; cbn [negb]; intros [= <- <-];
    (split; [done|]).
  2: { split; [done|]. intros (c & [= <-] & Hr%actorCanAccessConversation_iff). congruence. }
  apply actorCanAccessConversation_iff in Ha. split; [intros Hn; destruct Hn; eauto|].
  intros _. do 2 eexists. split; [reflexivity|].
  set (ids := conversation_messages s1 _).
  set (n := Z.of_nat (length ids)).
  pose proof (clamp_limit_range (ListConversationMessagesInput.Limit input)) as Hl.
  destruct (page_bounds_clamp n (ListConversationMessagesInput.Cursor input)
    (clamp_limit (ListConversationMessagesInput.Limit input))) as [Hcur Hb]; [lia|lia|].
  cbv zeta in Hcur, Hb. rewrite Hcur in Hb |- *.
  set (cur := Z.max 0 _) in *. set (next := if n <? cur + _ then _ else _) in *.
  destruct Hb as [Ho Hsz Hp]. split_and!.
  - constructor; [done|lia|done].
  - unfold stored. rewrite <-omap_app. f_equal.
    replace (Z.to_nat next) with (Z.to_nat cur + Z.to_nat (next - cur))%nat by lia.
    symmetry. apply take_take_drop.
  - apply Forall_forall. intros m (id & Hid & Hm)%list_elem_of_omap.
    apply (so_owner _ (si_structure _ _ Hs) _ id); [|done].
    fold ids. rewrite <-(take_drop (Z.to_nat cur) ids), elem_of_app. right.
    rewrite <-(take_drop (Z.to_nat (next - cur)) (drop _ ids)), elem_of_app. by left.
Qed.

(** Alice reads her conversation from the start. *)
Definition alice_reads (cursor : Z) : ListConversationMessagesInput.t :=
  ListConversationMessagesInput.mk (conversation_id 1) cursor 0 alice.

Definition first_page : Store * result Error.t (string * list Message.t * Z) :=
  ListConversationMessages E0 (order_of requested.2) (at_s 2) (alice_reads 0) requested.2.

Definition requested_conversation : option Conversation.t :=
  conversations (sweepLocked E0 (order_of requested.2) (at_s 2) requested.2) !! conversation_id 1.

Lemma conversation_paging_witness :
  ∃ page next, first_page.2 = Ok (conversation_id 1, page, next) ∧
    stored (sweepLocked E0 (order_of requested.2) (at_s 2) requested.2) [message_id 1] = page.
Proof.
  destruct (conversation_paging E0 (order_of requested.2) (at_s 2) (alice_reads 0) requested.2
    first_page.1 first_page.2) as (_ & _ & H).
  - exact (proj1 (proj1 (reachable_ok E0 _ _ requested_reachable))).
  - vm_compute. discriminate.
  - exact (surjective_pairing first_page).
  - destruct H as (page & next & Hr & Hb & Hst & _).
    + destruct requested_conversation as [c|] eqn:Hc; [|exfalso; revert Hc; vm_compute; discriminate].
      exists c. split; [exact Hc|]. apply actorCanAccessConversation_iff. rewrite <-Hc. 
      vm_compute. reflexivity.
    + exists page, next. split; [exact Hr|].
      assert (conversation_messages (sweepLocked E0 (order_of requested.2) (at_s 2) requested.2)
        (ListConversationMessagesInput.ConversationID (alice_reads 0)) = [message_id 1]) as Hids
        by (vm_compute; reflexivity).
      rewrite Hids in Hb, Hst. destruct Hb as [Ho _ Hp].
      change (ListConversationMessagesInput.Cursor (alice_reads 0)) with 0 in *.
      change (Z.of_nat (length [message_id 1])) with 1 in *. change (Z.max 0 (Z.min 0 1)) with 0 in *.
      assert (next = 1) as -> by (destruct Ho; specialize (Hp eq_refl); lia). exact Hst.
Defined.
