(* ===== verification/PushProps.v ===== *)
(** * Properties of push delivery

    The outcome of one callback ([sendPushCallback]) and the life of the worker
    pool ([enqueuePushJobLocked], the workers, [closePushWorkers]) of
    [pkg/bus/store.go]. *)
From stdpp Require Import gmap strings list relations.
From Stdlib Require Import ZArith Lia Ascii.
From S2P Require Import Prelude GoBase Json Types Config State Push Scenario.

(** ** One callback *)

(** The attempt failed in a way that is tried again. *)
Definition retried (a : Attempt) : Prop :=
  result_of a ≠ BuildError ∧ success_status (result_of a) = false ∧
  cancelled_after a = false ∧ cancelled_waiting a = false.

Lemma doubled_exact i b : 0 ≤ b → b * 2 ^ Z.of_nat i ≤ max_int64 → doubled i b = b * 2 ^ Z.of_nat i.
Proof.
  revert b. induction i as [|i IH]; intros b Hb Hm; cbn [doubled]; [cbn; lia|].
  assert (b * 2 ^ Z.of_nat (S i) = b * 2 * 2 ^ Z.of_nat i) as He.
  { rewrite Nat2Z.inj_succ, Z.pow_succ_r by lia. lia. }
  rewrite He in *. pose proof (Z.pow_pos_nonneg 2 (Z.of_nat i)).
  rewrite wrap64_id by (unfold int64_range, min_int64, max_int64 in *; nia).
  by apply IH; [lia|].
Qed.

Section push.
Context (E : Static).

Lemma decisive_None net k :
  k < Config.PushMaxAttempts (cfg E) → decisive E net k = None ↔ retried (net k).
Proof.
  intros Hk. unfold decisive, retried. cbv zeta.
  destruct (result_of (net k)) as [|st|]; cbn;
    try destruct (_ && _); destruct (cancelled_after (net k)), (cancelled_waiting (net k));
    rewrite ?(proj2 (Z.eqb_neq k _)) by lia; naive_solver.
Qed.

Lemma decisive_Delivered net k j :
  decisive E net k = Some (Delivered j) ↔ j = k ∧ success_status (result_of (net k)) = true.
Proof.
  unfold decisive. cbv zeta. destruct (result_of (net k)) as [|st|]; cbn [success_status];
    repeat case_bool; naive_solver.
Qed.

(** The receipt of a verdict. *)
Definition receipt_of (v : Verdict) : Receipt :=
  match v with
  | Delivered k => OnSuccess k
  | GaveUp k failure => OnFailure k failure
  | Exhausted => OnFailure (Config.PushMaxAttempts (cfg E)) "callback retries exhausted"%stdpp
  end.

Lemma sendPushCallback_verdict net job s :
  0 < Config.PushMaxAttempts (cfg E) → is_Some (marshal_len (PushJob.payload job)) →
  ∃ n v m, 1 ≤ n ≤ Config.PushMaxAttempts (cfg E) ∧ decisive E net n = Some v ∧
    (∀ i, 1 ≤ i < n → decisive E net i = None) ∧ (m ≤ Z.to_nat n)%nat ∧
    sendPushCallback E net job s =
      (receipt_of v, (λ i, doubled i (Config.PushBaseBackoff (cfg E))) <$> seq 0 m,
       match v with
       | Delivered _ => set_pushSuccesses (inc64 (pushSuccesses s)) s
       | GaveUp _ _ => s
       | Exhausted => set_pushFailures (inc64 (pushFailures s)) s
       end).
Proof.
  intros Hmax [len Hlen].
  destruct (attempt_loop_spec E (Z.to_nat (Config.PushMaxAttempts (cfg E))) net 1
    (Config.PushBaseBackoff (cfg E))) as (n & v & m & Hn & Hv & Hlt & Hrun & Hm); [lia|lia|].
  exists n, v, m. split; [done|]. split; [done|]. split; [done|]. split.
  - destruct Hm as [->|[-> _]]; lia.
  - unfold sendPushCallback. rewrite Hlen, Hrun. by destruct v.
Qed.
End push.

(** A callback is attempted until it succeeds, at most the configured
    number of times, and answered with exactly one receipt.  It reports success
    at attempt [k] iff that attempt got a 2xx answer and every earlier one
    failed and was retried; the pauses double from the base backoff; only a
    success counts as one, and only running out of attempts as a failure. *)
Theorem sendPushCallback_outcome E net job s receipt pauses s' :
  0 < Config.PushMaxAttempts (cfg E) → 0 ≤ Config.PushBaseBackoff (cfg E) →
  is_Some (marshal_len (PushJob.payload job)) →
  sendPushCallback E net job s = (receipt, pauses, s') →
  (∀ k, receipt = OnSuccess k ↔
    1 ≤ k ≤ Config.PushMaxAttempts (cfg E) ∧ success_status (result_of (net k)) = true ∧
    ∀ i, 1 ≤ i < k → retried (net i)) ∧
  Z.of_nat (length pauses) ≤ Config.PushMaxAttempts (cfg E) ∧
  (∀ i p, pauses !! i = Some p → Config.PushBaseBackoff (cfg E) * 2 ^ Z.of_nat i ≤ max_int64 →
    p = Config.PushBaseBackoff (cfg E) * 2 ^ Z.of_nat i) ∧
  match receipt with
  | OnSuccess _ => s' = set_pushSuccesses (inc64 (pushSuccesses s)) s
  | OnFailure k _ => 1 ≤ k ≤ Config.PushMaxAttempts (cfg E) ∧
      (s' = s ∨ s' = set_pushFailures (inc64 (pushFailures s)) s ∧ k = Config.PushMaxAttempts (cfg E))
  end.
Proof.
  intros Hmax Hbase Hlen Hsend.
  destruct (sendPushCallback_verdict E net job s Hmax Hlen) as (n & v & m & Hn & Hv & Hlt & Hm & Hs).
  rewrite Hs in Hsend. injection Hsend as <- <- <-. split_and!.
  - intros k. split.
    + intros Hr. destruct v as [j| |]; try done. injection Hr as ->.
      apply decisive_Delivered in Hv as [-> Hok]. split_and!; [lia|lia|done|].
      intros i Hi. apply (decisive_None E); [lia|]. by apply Hlt.
    + intros (Hk & Hok & Hre). assert (decisive E net k = Some (Delivered k)) as Hd.
      { by apply decisive_Delivered. }
      destruct (Z.lt_trichotomy n k) as [?|[->|?]].
      * assert (decisive E net n = None) by (apply decisive_None; [lia|apply Hre; lia]). congruence.
      * rewrite Hd in Hv. by injection Hv as <-.
      * rewrite Hlt in Hd by lia. done.
  - rewrite length_fmap, length_seq. lia.
  - intros i p Hp Hfit. rewrite list_lookup_fmap in Hp.
    destruct (seq 0 m !! i) as [j|] eqn:Hj; [|done].
    apply lookup_seq in Hj as [-> _]. injection Hp as <-. by apply doubled_exact.
  - destruct v as [j|j f|]; cbn; [done| |split; [lia|by right]].
    split; [|by left]. revert Hv. unfold decisive. cbv zeta.
    repeat case_match; intros [= -> ?]; lia.
Qed.

(** The second attempt succeeds. *)
Definition flaky (k : Z) : Attempt :=
  {| result_of := if k =? 2 then Response 200 else Response 503;
     cancelled_after := false; cancelled_waiting := false |}.

Definition a_job : PushJob.t := PushJob.mk "http://bob"%stdpp JNull (Some "m-000001"%stdpp).

Definition flaky_run : Receipt * list Duration * Store := sendPushCallback E0 flaky a_job emptyStore.

Lemma sendPushCallback_outcome_witness : flaky_run.1.1 = OnSuccess 2.
Proof.
  apply (sendPushCallback_outcome E0 flaky a_job emptyStore flaky_run.1.1 flaky_run.1.2 flaky_run.2).
  - vm_compute. reflexivity.
  - vm_compute. discriminate.
  - eexists. vm_compute. reflexivity.
  - vm_compute. reflexivity.
  - split; [vm_compute; split; discriminate|]. split; [vm_compute; reflexivity|].
    intros i Hi. assert (i = 1) as -> by lia. repeat split; vm_compute; discriminate.
Defined.

(** ** The pool *)

Lemma pool_run_ok E p p' : pool_ok E p → rtc (pool_step E) p p' → pool_ok E p'.
Proof. intros Hp Hr. induction Hr; eauto using pool_step_ok. Qed.

Lemma pool_run_closed E p p' :
  pool_ok E p → pushClosed (store p) = true → rtc (pool_step E) p p' →
  pushClosed (store p') = true ∧ pushWG (store p') ≤ pushWG (store p).
Proof.
  intros Hp Hc Hr. induction Hr as [p|p1 p2 p3 Hs Hr IH]; [done|].
  destruct (pool_closed_step E p1 p2 Hp Hc Hs) as [Hc2 Hw].
  destruct IH as [? ?]; [by eapply pool_step_ok|done|]. split; [done|lia].
Qed.

(** The workers can always finish what is outstanding. *)
Lemma pool_can_drain E p :
  pool_ok E p → ∃ p', rtc (pool_step E) p p' ∧ pushWG (store p') = 0.
Proof.
  remember (length (pushQueue (store p)) + length (pushQueue (store p)) + inflight p)%nat as k eqn:Hk.
  revert p Hk. induction (lt_wf k) as [k _ IH]. intros p -> Hok.
  destruct (decide (0 < pushWG (store p))) as [Hpos|Hz].
  - destruct (pool_progress E p Hok Hpos) as (p1 & Hs & Hok1 & Hlt).
    destruct (IH _ Hlt p1 eq_refl Hok1) as (p' & Hr & H0). exists p'. split; [by eapply rtc_l|done].
  - exists p. split; [done|]. destruct Hok as [-> _] in Hz |- *. lia.
Qed.

(** C34: The worker pool, from an empty store on: the queue never exceeds its
    configured size, and the wait group counts exactly the jobs queued and the
    work in flight.  Once shutdown has begun no work is added; the workers can
    drain what is left; and when the wait group reaches zero nothing is queued
    or running, so closing the queue drops no job. *)
Theorem pool_shutdown_drains E p p' :
  0 ≤ Config.PushQueueSize (cfg E) →
  rtc (pool_step E) (mkPool emptyStore 0) p → pushClosed (store p) = true →
  rtc (pool_step E) p p' →
  Z.of_nat (length (pushQueue (store p'))) ≤ Config.PushQueueSize (cfg E) ∧
  pushWG (store p') = Z.of_nat (length (pushQueue (store p')) + inflight p') ∧
  pushWG (store p') ≤ pushWG (store p) ∧
  (pushWG (store p') = 0 → pushQueue (store p') = [] ∧ inflight p' = 0%nat) ∧
  ∃ q, rtc (pool_step E) p' q ∧ pushWG (store q) = 0 ∧ pushQueue (store q) = [].
Proof.
  intros Hq Hr Hc Hr'.
  assert (pool_ok E p) as Hok by (eapply pool_run_ok; [|exact Hr]; by split).
  pose proof (pool_run_ok E p p' Hok Hr') as Hok'.
  destruct (pool_run_closed E p p' Hok Hc Hr') as [_ Hle].
  split_and!; [apply Hok'|apply Hok'|done|by apply (pool_drained E)|].
  destruct (pool_can_drain E p' Hok') as (q & Hrq & H0). exists q. split_and!; [done|done|].
  apply (pool_drained E); [|done]. by eapply pool_run_ok.
Qed.

(** A job is queued, shutdown begins, the worker takes the job. *)
Definition one_queued : Store := (enqueuePushJobLocked E0 a_job emptyStore).2.
Definition closing : Store := (closePushWorkers false one_queued).1.
Definition taken : Store := set_pushQueue [] closing.

Lemma pool_shutdown_drains_witness : pushWG taken = 1 ∧ pushWG taken ≤ pushWG closing.
Proof.
  split; [vm_compute; reflexivity|].
  apply (pool_shutdown_drains E0 (mkPool closing 0) (mkPool taken 1)).
  - vm_compute. discriminate.
  - apply (rtc_l _ _ (mkPool one_queued 0)); [apply pool_enqueue|].
    apply (rtc_l _ _ (mkPool closing 0)); [apply pool_close|apply rtc_refl].
  - vm_compute. reflexivity.
  - apply (rtc_l _ _ (mkPool taken 1)); [apply (pool_take E0 closing 0 a_job [])|apply rtc_refl].
    vm_compute. reflexivity.
Defined.
