(* ===== verification/Manifest.v ===== *)
(** * The namespace-migration manifest: [internal/nsmigrate/manifest.go]

    A manifest is a CSV table of identity renames that an operator reviews.
    [ParseManifest] refuses everything outside a narrow contract and
    [InvertManifest] produces the undo plan.

    The CSV codec is the standard library's: the parser works on what
    successive [Read] calls yield, and [reread] is what reading back yields for
    records that were written.  [Quote] is [strconv.Quote], which only words
    refusals.  The order in which [validateSplitPairs] ranges over its map is
    the argument [range]. *)
From stdpp Require Import gmap strings list.
From Stdlib Require Import ZArith Lia Ascii.
From S2P Require Import Prelude GoBase Utf8.

(** ** Data *)

Inductive Authority := AuthorityJK | AuthorityUCLA.
#[export] Instance Authority_eq_dec : EqDecision Authority.
Proof. solve_decision. Defined.

Definition Authority_string (a : Authority) : string :=
  match a with AuthorityJK => "jk" | AuthorityUCLA => "ucla" end%stdpp.

Inductive Disposition :=
| DispositionMigrate | DispositionRetire | DispositionSplit | DispositionUnchanged.
#[export] Instance Disposition_eq_dec : EqDecision Disposition.
Proof. solve_decision. Defined.

Definition Disposition_string (d : Disposition) : string :=
  match d with
  | DispositionMigrate => "migrate"
  | DispositionRetire => "retire"
  | DispositionSplit => "split"
  | DispositionUnchanged => "unchanged"
  end%stdpp.

Definition parse_disposition (raw : string) : option Disposition :=
  if bool_decide (raw = "migrate"%stdpp) then Some DispositionMigrate
  else if bool_decide (raw = "retire"%stdpp) then Some DispositionRetire
  else if bool_decide (raw = "split"%stdpp) then Some DispositionSplit
  else if bool_decide (raw = "unchanged"%stdpp) then Some DispositionUnchanged
  else None.

Definition manifestHeader : list string :=
  ["source_authority"; "source_id"; "target_id"; "disposition"; "owner_repo"; "evidence";
   "control_plane"]%stdpp.

Record ManifestRow := mkRow {
  SourceAuthority : Authority;
  SourceID : string;
  TargetID : string;
  row_disposition : Disposition;
  OwnerRepo : string;
  Evidence : string;
  ControlPlane : bool;
  Line : Z }.

Record Refusal := mkRefusal { r_code : string; r_location : string; r_detail : string }.

(** The byte [\x00] that separates the parts of a key. *)
Definition nul : string := String "000"%char ε.

Definition at_line (line : Z) : string := "manifest:"%stdpp +:+ FormatInt line.

(** ** Scopes *)

Definition explicitScope (id : string) : option string :=
  let '(prefix, _, ok) := Cut id "."%char in
  if ok && bool_decide (prefix ∈ ["personal"; "ucla"; "shared"]%stdpp) then Some prefix else None.

Definition hasExplicitScope (id : string) : bool := bool_decide (is_Some (explicitScope id)).

Definition foreignAuthorityScope (authority : Authority) (id : string) : bool :=
  match explicitScope id with
  | None => false
  | Some scope =>
      match authority with
      | AuthorityJK => bool_decide (scope = "ucla"%stdpp)
      | AuthorityUCLA => bool_decide (scope = "personal"%stdpp)
      end
  end.

(** ** Validation *)

Section manifest.
Context (Quote : string → string).

Definition schema (location detail : string) : Refusal :=
  mkRefusal "manifest_schema"%stdpp location detail.

Definition ParseAuthority (raw : string) : result string Authority :=
  if bool_decide (raw = "jk"%stdpp) then Ok AuthorityJK
  else if bool_decide (raw = "ucla"%stdpp) then Ok AuthorityUCLA
  else Err ("authority must be jk or ucla, got "%stdpp +:+ Quote raw).

(** The columns are compared from position [i] on. *)
Fixpoint check_columns (i : Z) (header expected : list string) : option Refusal :=
  match header, expected with
  | h :: header, e :: expected =>
      if bool_decide (h = e) then check_columns (i + 1) header expected
      else Some (schema "manifest:1"%stdpp
                   ("column "%stdpp +:+ FormatInt (i + 1) +:+ " must be "%stdpp +:+ Quote e))
  | _, _ => None
  end.

Definition validateHeader (header : list string) : option Refusal :=
  if (length manifestHeader <? length header)%nat then
    Some (mkRefusal "outside_rewrite_surface"%stdpp "manifest:1"%stdpp
            "manifest contains columns outside the seven-column contract"%stdpp)
  else if negb (length header =? length manifestHeader)%nat then
    Some (schema "manifest:1"%stdpp
            ("header must contain exactly "%stdpp +:+ FormatInt (Z.of_nat (length manifestHeader))
             +:+ " columns"%stdpp))
  else check_columns 0 header manifestHeader.

(** The first loop of [parseManifestRow]. *)
Fixpoint check_fields (line : Z) (record names : list string) : option Refusal :=
  match record, names with
  | value :: record, name :: names =>
      if negb (ValidString value) then
        Some (schema (at_line line) "field is not valid UTF-8"%stdpp)
      else if negb (bool_decide (TrimSpace value = value)) then
        Some (schema (at_line line) (name +:+ " must not have surrounding whitespace"%stdpp))
      else if is_empty value then
        Some (schema (at_line line) (name +:+ " must be non-empty"%stdpp))
      else check_fields line record names
  | _, _ => None
  end.

Definition authority_prefix (a : Authority) : string :=
  match a with AuthorityUCLA => "ucla." | AuthorityJK => "personal." end%stdpp.

Definition validateMapping (row : ManifestRow) : option Refusal :=
  let location := at_line (Line row) in
  let moved := negb (bool_decide (row_disposition row = DispositionUnchanged))
               || negb (bool_decide (SourceID row = TargetID row)) in
  if ControlPlane row && moved then
    Some (schema location "control_plane requires an unchanged row"%stdpp)
  else if ControlPlane row && Contains (SourceID row) "."%char then
    Some (schema location "control_plane identity must be unprefixed"%stdpp)
  else if (foreignAuthorityScope (SourceAuthority row) (SourceID row)
           || foreignAuthorityScope (SourceAuthority row) (TargetID row)) && moved then
    Some (mkRefusal "foreign_authority_mutation"%stdpp location
            "foreign-authority identities may only be declared unchanged with target_id equal to source_id"%stdpp)
  else if bool_decide (row_disposition row = DispositionUnchanged) then
    if negb (bool_decide (SourceID row = TargetID row)) then
      Some (schema location "unchanged requires source_id == target_id"%stdpp)
    else if negb (hasExplicitScope (SourceID row)) && negb (ControlPlane row) then
      Some (schema location "unchanged identity must already have an explicit namespace"%stdpp)
    else None
  else if bool_decide (SourceID row = TargetID row) then
    Some (schema location "rename dispositions require source_id != target_id"%stdpp)
  else
    let prefix := authority_prefix (SourceAuthority row) in
    let forward := negb (hasExplicitScope (SourceID row))
                   && bool_decide (TargetID row = prefix +:+ SourceID row) in
    let inverse := negb (hasExplicitScope (TargetID row))
                   && bool_decide (SourceID row = prefix +:+ TargetID row) in
    if negb forward && negb inverse then
      Some (schema location
        ("mapping must preserve the complete legacy ID with the "%stdpp +:+ Quote prefix
         +:+ " authority prefix, in either direction"%stdpp))
    else None.

Definition parseManifestRow (record : list string) (line : Z) : result Refusal ManifestRow :=
  match check_fields line record manifestHeader with
  | Some e => Err e
  | None =>
      if existsb has_control (take 3 record) then
        Err (schema (at_line line) "identity fields must not contain control characters"%stdpp)
      else
      match record with
      | [authority; source; target; disposition; owner; evidence; control] =>
          match ParseAuthority authority with
          | Err detail => Err (schema (at_line line) detail)
          | Ok authority =>
              match parse_disposition disposition with
              | None =>
                  Err (mkRefusal "invalid_disposition"%stdpp (at_line line)
                         "disposition must be migrate, retire, split, or unchanged"%stdpp)
              | Some disposition =>
                  let row := mkRow authority source target disposition owner evidence
                               (bool_decide (control = "true"%stdpp)) line in
                  if negb (bool_decide (control = "true"%stdpp))
                     && negb (bool_decide (control = "false"%stdpp)) then
                    Err (schema (at_line line) "control_plane must be true or false"%stdpp)
                  else match validateMapping row with Some e => Err e | None => Ok row end
              end
          end
      | _ => Err (schema (at_line line) ε)
      end
  end.

(** *** Split identities *)

Record pair := mkPair { jkLine : Z; uclaLine : Z }.

(** The identity before the split, whichever direction the row has. *)
Definition legacyID (row : ManifestRow) : string :=
  if hasExplicitScope (SourceID row) then TargetID row else SourceID row.

Definition add_pair (pairs : gmap string pair) (row : ManifestRow) : gmap string pair :=
  if negb (bool_decide (row_disposition row = DispositionSplit)) then pairs else
  let current := default (mkPair 0 0) (pairs !! legacyID row) in
  <[legacyID row :=
      match SourceAuthority row with
      | AuthorityJK => mkPair (Line row) (uclaLine current)
      | AuthorityUCLA => mkPair (jkLine current) (Line row)
      end]> pairs.

Fixpoint check_pairs (pairs : gmap string pair) (order : list string) : option Refusal :=
  match order with
  | [] => None
  | id :: order =>
      let current := default (mkPair 0 0) (pairs !! id) in
      if (jkLine current =? 0) || (uclaLine current =? 0) then
        let line := if jkLine current =? 0 then uclaLine current else jkLine current in
        Some (schema (at_line line) ("split identity "%stdpp +:+ Quote id
                +:+ " requires one jk row and one ucla row"%stdpp))
      else check_pairs pairs order
  end.

Context (range : gmap string pair → list string).

Definition validateSplitPairs (rows : list ManifestRow) : option Refusal :=
  let pairs := foldl add_pair ∅ rows in check_pairs pairs (range pairs).

(** ** Parsing *)

Definition source_key (row : ManifestRow) : string :=
  Authority_string (SourceAuthority row) +:+ nul +:+ SourceID row.
Definition target_key (row : ManifestRow) : string :=
  Authority_string (SourceAuthority row) +:+ nul +:+ TargetID row.

(** What successive [Read] calls of the CSV reader yield before [io.EOF]; an
    error is its text. *)
Definition CsvInput : Type := list (result string (list string)).

Definition duplicate_target (owners : gmap string ManifestRow) (row : ManifestRow)
    : option ManifestRow :=
  match owners !! target_key row with
  | Some previous => if bool_decide (SourceID previous ≠ SourceID row) then Some previous else None
  | None => None
  end.

Fixpoint parse_rows (line : Z) (seenSources : gmap string Z)
    (targetOwners : gmap string ManifestRow) (rows : list ManifestRow) (input : CsvInput)
    : result Refusal (list ManifestRow) :=
  match input with
  | [] => Ok rows
  | Err err :: _ => Err (schema (at_line line) ("read CSV row: "%stdpp +:+ err))
  | Ok record :: input =>
      if negb (length record =? length manifestHeader)%nat then
        Err (schema (at_line line)
               ("expected "%stdpp +:+ FormatInt (Z.of_nat (length manifestHeader))
                +:+ " fields, got "%stdpp +:+ FormatInt (Z.of_nat (length record))))
      else
      match parseManifestRow record line with
      | Err e => Err e
      | Ok row =>
          match seenSources !! source_key row with
          | Some previous =>
              Err (mkRefusal "duplicate_source"%stdpp (at_line line)
                     ("duplicate (source_authority, source_id); first declared on line "%stdpp
                      +:+ FormatInt previous))
          | None =>
              match duplicate_target targetOwners row with
              | Some previous =>
                  Err (mkRefusal "duplicate_target"%stdpp (at_line line)
                         ("target_id is already mapped from a different source on line "%stdpp
                          +:+ FormatInt (Line previous)))
              | None =>
                  parse_rows (line + 1) (<[source_key row := line]> seenSources)
                    (<[target_key row := row]> targetOwners) (rows ++ [row]) input
              end
          end
      end
  end.

Definition ParseManifest (input : CsvInput) : result Refusal (list ManifestRow) :=
  match input with
  | [] => Err (schema "manifest"%stdpp "manifest is empty"%stdpp)
  | Err err :: _ => Err (schema "manifest"%stdpp ("read CSV header: "%stdpp +:+ err))
  | Ok header :: input =>
      match validateHeader header with
      | Some e => Err e
      | None =>
          match parse_rows 2 ∅ ∅ [] input with
          | Err e => Err e
          | Ok rows =>
              if (length rows =? 0)%nat then
                Err (schema "manifest"%stdpp "manifest has no data rows"%stdpp)
              else match validateSplitPairs rows with Some e => Err e | None => Ok rows end
          end
      end
  end.

(** ** Writing and inverting *)

Definition record_of (row : ManifestRow) : list string :=
  [Authority_string (SourceAuthority row); SourceID row; TargetID row;
   Disposition_string (row_disposition row); OwnerRepo row; Evidence row;
   (if ControlPlane row then "true" else "false")%stdpp].

(** The records [WriteManifest] hands to the CSV writer. *)
Definition WriteManifest (rows : list ManifestRow) : list (list string) :=
  manifestHeader :: (record_of <$> rows).

Definition invert_row (row : ManifestRow) : ManifestRow :=
  mkRow (SourceAuthority row) (TargetID row) (SourceID row) (row_disposition row)
    (OwnerRepo row) (Evidence row) (ControlPlane row) (Line row).

Context (reread : list (list string) → CsvInput).

Definition InvertManifest (rows : list ManifestRow) : result Refusal (list ManifestRow) :=
  ParseManifest (reread (WriteManifest (invert_row <$> rows))).

End manifest.
