(* ===== verification/ManifestProps.v ===== *)
(** * Properties of the migration manifest

    [ParseManifest] of [internal/nsmigrate/manifest.go] accepts exactly the
    tables [WriteManifest] writes for manifests within the contract, stated
    declaratively as [manifest_ok]; the contract is closed under inversion. *)
From stdpp Require Import gmap strings list.
From Stdlib Require Import ZArith Lia Ascii.
From S2P Require Import Prelude GoBase Utf8 Manifest.

(** ** The contract *)

Definition field_ok (s : string) : Prop := ValidString s = true ∧ trimmed s ∧ s ≠ ε.

(** A row keeps an identity, or renames it by adding or removing the prefix of
    its authority. *)
Definition kept (row : ManifestRow) : Prop :=
  row_disposition row = DispositionUnchanged ∧ SourceID row = TargetID row ∧
  (hasExplicitScope (SourceID row) = true ∨ ControlPlane row = true) ∧
  (ControlPlane row = true → Contains (SourceID row) "."%char = false).

Definition prefixes (a : Authority) (legacy scoped : string) : Prop :=
  hasExplicitScope legacy = false ∧ scoped = authority_prefix a +:+ legacy.

Definition renamed (row : ManifestRow) : Prop :=
  row_disposition row ≠ DispositionUnchanged ∧ ControlPlane row = false ∧
  (prefixes (SourceAuthority row) (SourceID row) (TargetID row) ∨
   prefixes (SourceAuthority row) (TargetID row) (SourceID row)).

Record row_ok (row : ManifestRow) : Prop := {
  ro_fields : Forall field_ok [SourceID row; TargetID row; OwnerRepo row; Evidence row];
  ro_control : has_control (SourceID row) = false ∧ has_control (TargetID row) = false;
  ro_mapping : kept row ∨ renamed row }.

(** Every split identity is split for both authorities. *)
Definition split_ok (rows : list ManifestRow) : Prop :=
  ∀ row, row ∈ rows → row_disposition row = DispositionSplit →
    ∃ row', row' ∈ rows ∧ row_disposition row' = DispositionSplit ∧
      legacyID row' = legacyID row ∧ SourceAuthority row' ≠ SourceAuthority row.

Record manifest_ok (rows : list ManifestRow) : Prop := {
  mk_nonempty : rows ≠ [];
  mk_lines : ∀ i row, rows !! i = Some row → Line row = 2 + Z.of_nat i;
  mk_rows : Forall row_ok rows;
  mk_sources : NoDup ((λ row, (SourceAuthority row, SourceID row)) <$> rows);
  mk_targets : NoDup ((λ row, (SourceAuthority row, TargetID row)) <$> rows);
  mk_splits : split_ok rows }.

(** ** Scopes of prefixed names *)

Lemma Cut_prefix p rest :
  "."%char ∉ bytes p → Cut (p +:+ "."%stdpp +:+ rest) "."%char = (p, rest, true).
Proof.
  intros Hp. unfold Cut. rewrite !bytes_app. cbn [bytes String.list_ascii_of_string app].
  rewrite cut_bytes_app by done. by rewrite !of_bytes_bytes.
Qed.

Definition authority_scope (a : Authority) : string :=
  match a with AuthorityUCLA => "ucla" | AuthorityJK => "personal" end%stdpp.

Lemma explicitScope_prefix a rest :
  explicitScope (authority_prefix a +:+ rest) = Some (authority_scope a).
Proof.
  unfold explicitScope.
  assert (authority_prefix a +:+ rest = authority_scope a +:+ "."%stdpp +:+ rest) as -> by by destruct a.
  rewrite Cut_prefix by (destruct a; vm_compute; set_solver). by destruct a.
Qed.

Lemma hasExplicitScope_prefix a rest : hasExplicitScope (authority_prefix a +:+ rest) = true.
Proof. apply bool_decide_eq_true. rewrite explicitScope_prefix. eauto. Qed.

Lemma foreign_prefix a rest : foreignAuthorityScope a (authority_prefix a +:+ rest) = false.
Proof. unfold foreignAuthorityScope. rewrite explicitScope_prefix. by destruct a. Qed.

Lemma foreign_unscoped a id : hasExplicitScope id = false → foreignAuthorityScope a id = false.
Proof.
  unfold hasExplicitScope, foreignAuthorityScope. destruct (explicitScope id); [|done].
  intros H%bool_decide_eq_false. destruct H. eauto.
Qed.

(** A legacy name differs from the scoped one. *)
Lemma prefixes_spec a legacy scoped :
  prefixes a legacy scoped →
  legacy ≠ scoped ∧ hasExplicitScope scoped = true ∧
  foreignAuthorityScope a legacy = false ∧ foreignAuthorityScope a scoped = false.
Proof.
  intros [Hn ->]. split_and!; [|apply hasExplicitScope_prefix|by apply foreign_unscoped|apply foreign_prefix].
  intros Heq. rewrite Heq, hasExplicitScope_prefix in Hn. done.
Qed.

Lemma validateMapping_iff Quote row :
  validateMapping Quote row = None ↔ kept row ∨ renamed row.
Proof.
  unfold validateMapping, kept, renamed. cbv zeta.
  assert (∀ small big : string,
    negb (hasExplicitScope small) && bool_decide (big = authority_prefix (SourceAuthority row) +:+ small) = true
    ↔ prefixes (SourceAuthority row) small big) as Hp.
  { intros small big. unfold prefixes. by rewrite andb_true_iff, negb_true_iff, bool_decide_eq_true. }
  destruct (decide (row_disposition row = DispositionUnchanged)) as [Hd|Hd].
  - rewrite !(bool_decide_eq_true_2 (row_disposition row = _)) by done. cbn [negb orb].
    destruct (bool_decide (SourceID row = TargetID row)) eqn:Es; prop_bool; cbn [negb orb];
      rewrite ?andb_false_r, ?andb_true_r.
    + destruct (ControlPlane row), (Contains _ _), (hasExplicitScope (SourceID row)); cbn; naive_solver.
    + repeat case_bool; naive_solver.
  - rewrite !(bool_decide_eq_false_2 (row_disposition row = _)) by done. cbn [negb orb].
    rewrite !andb_true_r. destruct (ControlPlane row); [naive_solver|]. cbn [andb].
    pose proof (Hp (SourceID row) (TargetID row)) as H1.
    pose proof (Hp (TargetID row) (SourceID row)) as H2.
    pose proof (prefixes_spec (SourceAuthority row) (SourceID row) (TargetID row)) as P1.
    pose proof (prefixes_spec (SourceAuthority row) (TargetID row) (SourceID row)) as P2.
    split.
    + intros H. right. split_and!; [done..|].
      destruct (negb (hasExplicitScope (SourceID row)) && _) eqn:Ef; [left; by apply H1|].
      destruct (negb (hasExplicitScope (TargetID row)) && _) eqn:Eg; [right; by apply H2|].
      exfalso. revert H. repeat case_bool; done.
    + intros [(? & _)|(_ & _ & [Hl|Hl])]; [done| |].
      * destruct (P1 Hl) as (Hne & _ & -> & ->). rewrite bool_decide_eq_false_2 by done.
        rewrite (proj2 H1 Hl). done.
      * destruct (P2 Hl) as (Hne & _ & -> & ->). rewrite bool_decide_eq_false_2 by done.
        rewrite (proj2 H2 Hl). by rewrite andb_false_r.
Qed.

(** ** One row *)

Lemma check_fields_None line record names :
  length record = length names → check_fields line record names = None ↔ Forall field_ok record.
Proof.
  revert names. induction record as [|v record IH]; intros [|n names]; cbn; try done.
  intros [= Hl]. rewrite Forall_cons, <-(IH names Hl). unfold field_ok, trimmed, is_empty.
  repeat case_bool; prop_bool; naive_solver congruence.
Qed.

Lemma ParseAuthority_Ok Quote raw a : ParseAuthority Quote raw = Ok a ↔ raw = Authority_string a.
Proof.
  unfold ParseAuthority. repeat case_bool_decide; subst; destruct a; naive_solver.
Qed.

Lemma parse_disposition_Some raw d : parse_disposition raw = Some d ↔ raw = Disposition_string d.
Proof.
  unfold parse_disposition. repeat case_bool_decide; subst; destruct d; naive_solver.
Qed.

Lemma keyword_ok s :
  s ∈ ["jk"; "ucla"; "migrate"; "retire"; "split"; "unchanged"; "true"; "false"]%stdpp →
  field_ok s ∧ has_control s = false.
Proof.
  intros Hs. unfold field_ok, trimmed.
  repeat (apply elem_of_cons in Hs as [->|Hs]; [by vm_compute; split_and!|]).
  by apply not_elem_of_nil in Hs.
Qed.

Lemma Authority_keyword a : field_ok (Authority_string a) ∧ has_control (Authority_string a) = false.
Proof. apply keyword_ok. destruct a; set_solver. Qed.
Lemma Disposition_keyword d : field_ok (Disposition_string d).
Proof. apply keyword_ok. destruct d; set_solver. Qed.
Lemma bool_keyword (b : bool) : field_ok (if b then "true" else "false")%stdpp.
Proof. apply keyword_ok. destruct b; set_solver. Qed.

(** A record is accepted as a row iff it is the row's record and the row is
    within the contract. *)
Lemma parseManifestRow_Ok Quote record line row :
  length record = length manifestHeader →
  parseManifestRow Quote record line = Ok row ↔
  record = record_of row ∧ Line row = line ∧ row_ok row.
Proof.
  intros Hlen. pose proof (check_fields_None line record manifestHeader Hlen) as Hf.
  destruct record as [|a [|src [|tgt [|d [|own [|ev [|c [|? ?]]]]]]]]; try done.
  unfold parseManifestRow. cbn [take existsb].
  split.
  - destruct (check_fields _ _ _); [done|]. destruct Hf as [Hf _]. specialize (Hf eq_refl).
    destruct (has_control a || _) eqn:Ec; [done|].
    destruct (ParseAuthority Quote a) as [auth|] eqn:Ea; [|done]. apply ParseAuthority_Ok in Ea as ->.
    destruct (parse_disposition d) as [disp|] eqn:Ed; [|done]. apply parse_disposition_Some in Ed as ->.
    destruct (negb _ && negb _) eqn:Eb; [done|].
    destruct (validateMapping _ _) eqn:Em; [done|]. intros [= <-].
    apply validateMapping_iff in Em. split_and!; [|done|].
    + unfold record_of. cbn [SourceAuthority SourceID TargetID row_disposition OwnerRepo Evidence ControlPlane].
      enough (c = if bool_decide (c = "true"%stdpp) then "true"%stdpp else "false"%stdpp) as <- by done.
      case_bool_decide; [done|]. cbn in Eb. by prop_bool.
    + rewrite !Forall_cons in Hf. prop_bool. constructor; cbn; [|done|done].
      rewrite !Forall_cons. naive_solver.
  - intros (Hrec & <- & [Hfs [Hc1 Hc2] Hm]). injection Hrec as -> -> -> -> -> -> ->.
    rewrite !Forall_cons in Hfs. destruct Hfs as (?&?&?&?&_).
    destruct (Authority_keyword (SourceAuthority row)) as [Ha Hca].
    destruct (check_fields _ _ _) eqn:Ecf.
    { exfalso. enough (Some r = None) by done. rewrite <-Ecf. apply check_fields_None; [done|].
      rewrite !Forall_cons. split_and!; auto using Disposition_keyword, bool_keyword, Forall_nil_2. }
    rewrite Hca, Hc1, Hc2. cbn [orb].
    rewrite (proj2 (ParseAuthority_Ok Quote _ _) eq_refl).
    rewrite (proj2 (parse_disposition_Some _ _) eq_refl).
    assert (bool_decide ((if ControlPlane row then "true" else "false")%stdpp = "true"%stdpp)
      = ControlPlane row) as -> by by destruct (ControlPlane row).
    assert (negb (ControlPlane row) && negb (bool_decide ((if ControlPlane row then "true" else "false")%stdpp
      = "false"%stdpp)) = false) as -> by by destruct (ControlPlane row).
    assert (mkRow (SourceAuthority row) (SourceID row) (TargetID row) (row_disposition row)
      (OwnerRepo row) (Evidence row) (ControlPlane row) (Line row) = row) as -> by by destruct row.
    by rewrite (proj2 (validateMapping_iff Quote row) Hm).
Qed.

(** ** The rows *)

Lemma key_inj a b x y :
  Authority_string a +:+ nul +:+ x = Authority_string b +:+ nul +:+ y → a = b ∧ x = y.
Proof. destruct a, b; cbn; intros H; try done; do 2 apply append_inj_r in H; done. Qed.

Lemma source_keys rows :
  NoDup (source_key <$> rows) ↔ NoDup ((λ row, (SourceAuthority row, SourceID row)) <$> rows).
Proof.
  assert (source_key <$> rows = (λ '(a, x), Authority_string a +:+ nul +:+ x) <$>
    ((λ row, (SourceAuthority row, SourceID row)) <$> rows)) as -> by by rewrite <-list_fmap_compose.
  apply NoDup_fmap. intros [a x] [b y] [-> ->]%key_inj. done.
Qed.

Lemma target_keys rows :
  NoDup (target_key <$> rows) ↔ NoDup ((λ row, (SourceAuthority row, TargetID row)) <$> rows).
Proof.
  assert (target_key <$> rows = (λ '(a, x), Authority_string a +:+ nul +:+ x) <$>
    ((λ row, (SourceAuthority row, TargetID row)) <$> rows)) as -> by by rewrite <-list_fmap_compose.
  apply NoDup_fmap. intros [a x] [b y] [-> ->]%key_inj. done.
Qed.

(** What the two maps record about the rows parsed so far. *)
Record tables_ok (seen : gmap string Z) (owners : gmap string ManifestRow)
    (rows : list ManifestRow) : Prop := {
  tb_seen : ∀ k, is_Some (seen !! k) ↔ k ∈ (source_key <$> rows);
  tb_owners : ∀ k r, owners !! k = Some r → r ∈ rows ∧ target_key r = k;
  tb_covers : ∀ k, k ∈ (target_key <$> rows) → is_Some (owners !! k) }.

Lemma tables_ok_nil : tables_ok ∅ ∅ [].
Proof.
  constructor.
  - intros k. rewrite lookup_empty. split; [by intros []|by intros ?%not_elem_of_nil].
  - done.
  - by intros k ?%not_elem_of_nil.
Qed.

Lemma tables_ok_snoc seen owners rows row line :
  tables_ok seen owners rows →
  tables_ok (<[source_key row := line]> seen) (<[target_key row := row]> owners) (rows ++ [row]).
Proof.
  intros [H1 H2 H3]. constructor.
  - intros k. rewrite fmap_app, elem_of_app, <-H1, lookup_insert_is_Some'. cbn.
    rewrite list_elem_of_singleton. naive_solver.
  - intros k r [[<- <-]|[_ Hr]]%lookup_insert_Some; rewrite elem_of_app.
    + split; [right; by left|done].
    + destruct (H2 k r Hr). auto.
  - intros k. rewrite fmap_app, elem_of_app, lookup_insert_is_Some'. cbn.
    rewrite list_elem_of_singleton. naive_solver.
Qed.

(** With distinct sources, the test for a foreign owner is a test for any. *)
Lemma duplicate_target_None seen owners rows row :
  tables_ok seen owners rows → source_key row ∉ (source_key <$> rows) →
  duplicate_target owners row = None ↔ target_key row ∉ (target_key <$> rows).
Proof.
  intros [_ H2 H3] Hs. unfold duplicate_target.
  destruct (owners !! target_key row) as [r|] eqn:Ho.
  - destruct (H2 _ _ Ho) as [Hr Hk]. rewrite bool_decide_eq_true_2.
    + split; [done|]. intros Hn. destruct Hn. rewrite <-Hk. by apply list_elem_of_fmap_2.
    + intros Heq. apply Hs. assert (SourceAuthority r = SourceAuthority row) as Ha by by apply key_inj in Hk as [-> _].
      assert (source_key row = source_key r) as ->; [unfold source_key; congruence|].
      by apply list_elem_of_fmap_2.
  - split; [|done]. intros _ Hin. destruct (H3 _ Hin). congruence.
Qed.

(** ** Split identities *)

(** Some split row of authority [a] declares the legacy identity [id]. *)
Definition declares (rows : list ManifestRow) (a : Authority) (id : string) : Prop :=
  ∃ row, row ∈ rows ∧ row_disposition row = DispositionSplit ∧ legacyID row = id ∧
    SourceAuthority row = a.

Lemma declares_snoc rows row a id :
  declares (rows ++ [row]) a id ↔
  declares rows a id ∨
    row_disposition row = DispositionSplit ∧ legacyID row = id ∧ SourceAuthority row = a.
Proof.
  unfold declares. split.
  - intros (r & [Hr|Hr]%elem_of_app & ?); [left; eauto|right].
    by apply list_elem_of_singleton in Hr as ->.
  - intros [(r & Hr & ?)|?]; [exists r|exists row]; rewrite elem_of_app, list_elem_of_singleton; auto.
Qed.

(** What the pass over the rows collects. *)
Record pairs_ok (pairs : gmap string pair) (rows : list ManifestRow) : Prop := {
  po_dom : ∀ id, is_Some (pairs !! id) ↔ ∃ a, declares rows a id;
  po_jk : ∀ id, jkLine (default (mkPair 0 0) (pairs !! id)) ≠ 0 ↔ declares rows AuthorityJK id;
  po_ucla : ∀ id, uclaLine (default (mkPair 0 0) (pairs !! id)) ≠ 0 ↔ declares rows AuthorityUCLA id }.

Lemma add_pair_ok pairs rows row :
  Line row ≠ 0 → pairs_ok pairs rows → pairs_ok (add_pair pairs row) (rows ++ [row]).
Proof.
  intros Hl [Hd Hj Hu]. unfold add_pair.
  case_bool_decide as Hs; cbn [negb].
  2: { constructor; intros id; rewrite ?Hd, ?Hj, ?Hu; setoid_rewrite declares_snoc; naive_solver. }
  constructor; intros id; setoid_rewrite declares_snoc.
  - rewrite lookup_insert_is_Some', Hd. naive_solver.
  - destruct (decide (legacyID row = id)) as [<-|Hne].
    + rewrite lookup_insert_eq. cbn. rewrite <-Hj. destruct (SourceAuthority row); cbn; naive_solver.
    + rewrite lookup_insert_ne, Hj by done. naive_solver.
  - destruct (decide (legacyID row = id)) as [<-|Hne].
    + rewrite lookup_insert_eq. cbn. rewrite <-Hu. destruct (SourceAuthority row); cbn; naive_solver.
    + rewrite lookup_insert_ne, Hu by done. naive_solver.
Qed.

Lemma collected_pairs rows :
  Forall (λ row, Line row ≠ 0) rows → pairs_ok (foldl add_pair ∅ rows) rows.
Proof.
  induction rows as [|row rows IH] using rev_ind; intros Hl.
  - change (foldl add_pair ∅ []) with (∅ : gmap string pair).
    assert (∀ a id, ¬ declares [] a id) as Hn by by intros a id (r & ?%not_elem_of_nil & _).
    constructor; intros id.
    + split; [by intros [? H]|by intros [a ?%Hn]].
    + split; [done|by intros ?%Hn].
    + split; [done|by intros ?%Hn].
  - apply Forall_app in Hl as [Hl [Hr _]%Forall_cons].
    rewrite foldl_app. cbn. apply add_pair_ok; auto.
Qed.

Lemma check_pairs_None Quote pairs order :
  check_pairs Quote pairs order = None ↔
  ∀ id, id ∈ order → jkLine (default (mkPair 0 0) (pairs !! id)) ≠ 0 ∧
    uclaLine (default (mkPair 0 0) (pairs !! id)) ≠ 0.
Proof.
  induction order as [|id order IH]; cbn.
  { split; [|done]. by intros _ id ?%not_elem_of_nil. }
  cbv zeta. setoid_rewrite elem_of_cons.
  destruct (_ || _) eqn:E; prop_bool.
  - split; [done|]. intros H. destruct (H id) as [? ?]; [by left|].
    destruct E as [E|E]; by apply Z.eqb_eq in E.
  - rewrite IH. naive_solver.
Qed.

Lemma validateSplitPairs_None Quote range rows :
  (∀ m, enumerates (range m) m) → Forall (λ row, Line row ≠ 0) rows →
  validateSplitPairs Quote range rows = None ↔ split_ok rows.
Proof.
  intros Hr Hl. destruct (collected_pairs rows Hl) as [Hd Hj Hu].
  unfold validateSplitPairs. cbv zeta. rewrite check_pairs_None.
  setoid_rewrite Hj. setoid_rewrite Hu. destruct (Hr (foldl add_pair ∅ rows)) as [_ Henum].
  setoid_rewrite Henum. setoid_rewrite Hd. unfold split_ok, declares. split.
  - intros H row Hin Hs. destruct (H (legacyID row)) as [(r1 & ? & ? & ? & ?) (r2 & ? & ? & ? & ?)];
      [by exists (SourceAuthority row), row|].
    destruct (SourceAuthority row); [exists r2|exists r1]; split_and!; congruence.
  - intros H id (a & row & Hin & Hs & <- & <-). destruct (H row Hin Hs) as (r' & ? & ? & ? & ?).
    destruct (SourceAuthority row) eqn:Ea, (SourceAuthority r') eqn:Ea'; try done; split; eauto 6.
Qed.

(** ** The CSV codec

    A record of at least two fields is read back as written, unless a field
    holds a carriage return before a line feed, which the reader drops. *)

Definition crlf_free (s : string) : Prop :=
  ∀ before after, bytes s ≠ before ++ ["013"; "010"]%char ++ after.

Definition no_cr (s : string) : bool := negb (bool_decide ("013"%char ∈ bytes s)).

Lemma no_cr_crlf_free s : no_cr s = true → crlf_free s.
Proof. unfold no_cr. intros Hn before after H. prop_bool. apply Hn. rewrite H. set_solver. Qed.

Lemma crlf_free_header : Forall crlf_free manifestHeader.
Proof. repeat (apply Forall_cons; split); [apply no_cr_crlf_free; by vm_compute..|done]. Qed.

Lemma no_cr_records (rows : list ManifestRow) :
  forallb (λ row, forallb no_cr (record_of row)) rows = true → Forall (Forall crlf_free ∘ record_of) rows.
Proof.
  intros H. apply Forall_forall. intros row Hin. apply Forall_forall. intros field Hf.
  apply no_cr_crlf_free. rewrite forallb_forall in H. apply list_elem_of_In in Hin, Hf.
  specialize (H row Hin). rewrite forallb_forall in H. by apply H.
Qed.

Section props.
Context (Quote : string → string).

Lemma parse_rows_Ok input : ∀ line seen owners rows out,
  tables_ok seen owners rows → NoDup (source_key <$> rows) → NoDup (target_key <$> rows) →
  parse_rows Quote line seen owners rows input = Ok out ↔
  ∃ new, out = rows ++ new ∧ input = Ok <$> (record_of <$> new) ∧
    (∀ i r, new !! i = Some r → Line r = line + Z.of_nat i) ∧ Forall row_ok new ∧
    NoDup (source_key <$> out) ∧ NoDup (target_key <$> out).
Proof.
  induction input as [|[record|err] input IH]; intros line seen owners rows out Ht Hs Hg; cbn [parse_rows].
  - split.
    + intros [= <-]. exists []. rewrite app_nil_r. split_and!; done.
    + intros ([|] & -> & Hin & _); [by rewrite app_nil_r|done].
  - destruct (length record =? length manifestHeader)%nat eqn:El; cbn [negb].
    2: { split; [done|]. intros ([|r new] & -> & Hin & _); [done|]. rewrite !fmap_cons in Hin.
         assert (record = record_of r) as -> by congruence. by cbn in El. }
    apply Nat.eqb_eq in El. pose proof (parseManifestRow_Ok Quote record line) as Hrow.
    destruct (parseManifestRow Quote record line) as [row|e].
    2: { split; [done|]. intros ([|r new] & -> & Hin & Hl & Hf & _); [done|].
         rewrite !fmap_cons in Hin. assert (record = record_of r) as -> by congruence.
         specialize (Hrow r El). destruct Hrow as [_ Hrow].
         apply Forall_cons in Hf as [Hf _]. specialize (Hl 0%nat r eq_refl).
         rewrite Z.add_0_r in Hl. by discriminate Hrow. }
    destruct (proj1 (Hrow row El) eq_refl) as (-> & Hline & Hok).
    pose proof (tb_seen _ _ _ Ht (source_key row)) as Hseen.
    pose proof (duplicate_target_None seen owners rows row Ht) as Hdup.
    assert (∀ r new, Ok (record_of row) :: input = Ok <$> (record_of <$> (r :: new)) →
      (∀ i r', (r :: new) !! i = Some r' → Line r' = line + Z.of_nat i) → Forall row_ok (r :: new) → r = row) as Hsame.
    { intros r new Hin Hl Hf. rewrite !fmap_cons in Hin.
      assert (record_of row = record_of r) as Hr by congruence. apply Forall_cons in Hf as [Hf _].
      specialize (Hl 0%nat r eq_refl). rewrite Z.add_0_r in Hl.
      destruct (Hrow r El) as [_ Hback]. rewrite Hr in Hback.
      assert (@Ok Refusal _ row = Ok r) as Heq by (apply Hback; done).
      by injection Heq. }
    destruct (seen !! source_key row) as [prev|].
    { split; [done|]. intros ([|r new] & -> & Hin & Hl & Hf & Hs' & _); [done|].
      rewrite (Hsame r new Hin Hl Hf) in *. rewrite fmap_app in Hs'.
      apply NoDup_app in Hs' as (_ & Hd & _). exfalso. apply (Hd (source_key row)); [apply Hseen; eauto|left]. }
    assert (source_key row ∉ (source_key <$> rows)) as Hns.
    { rewrite <-Hseen. by intros []. }
    specialize (Hdup Hns). destruct (duplicate_target owners row) as [prev|].
    { split; [done|]. intros ([|r new] & -> & Hin & Hl & Hf & _ & Hg'); [done|].
      rewrite (Hsame r new Hin Hl Hf) in *. rewrite fmap_app in Hg'.
      apply NoDup_app in Hg' as (_ & Hd & _). exfalso.
      enough (Some prev = None) by done. apply Hdup. intros Hin'. apply (Hd _ Hin'). left. }
    destruct Hdup as [Hng _]. specialize (Hng eq_refl).
    rewrite (IH (line + 1) _ _ (rows ++ [row]) out (tables_ok_snoc _ _ _ row line Ht)).
    2,3: rewrite fmap_app; apply NoDup_app; split_and!; [done| |apply NoDup_singleton];
      intros x Hx ->%list_elem_of_singleton; done.
    split.
    + intros (new & -> & -> & Hl & Hf & ? & ?). exists (row :: new). rewrite <-app_assoc in *.
      split_and!; [done..| |by constructor|done|done].
      intros [|i] r; cbn; [intros [= <-]; lia|]. intros Hr. rewrite (Hl i r Hr). lia.
    + intros ([|r new] & -> & Hin & Hl & Hf & ? & ?); [done|].
      rewrite (Hsame r new Hin Hl Hf) in *. exists new. rewrite <-app_assoc. cbn [app].
      rewrite !fmap_cons in Hin. assert (input = Ok <$> (record_of <$> new)) by congruence.
      apply Forall_cons in Hf as [_ Hf].
      split_and!; [done..| |done|done|done].
      intros i r' Hr'. specialize (Hl (S i) r' Hr'). lia.
  - split; [done|]. by intros ([|r new] & -> & Hin & _).
Qed.

Context (range : gmap string pair → list string) (range_ok : ∀ m, enumerates (range m) m).

Lemma validateHeader_None header : validateHeader Quote header = None ↔ header = manifestHeader.
Proof.
  split.
  - unfold validateHeader. destruct (_ <? _)%nat; [done|].
    destruct (length header =? length manifestHeader)%nat eqn:El; [|done]. cbn [negb].
    apply Nat.eqb_eq in El. generalize 0. revert El. generalize manifestHeader.
    induction header as [|h header IH]; intros [|e expected] El i; try done.
    cbn [check_columns]. case_bool_decide as Hh; [|done]. intros Hc. f_equal; [done|].
    injection El as El. by eapply IH.
  - intros ->. vm_compute. done.
Qed.

Lemma lines_nonzero (rows : list ManifestRow) :
  (∀ i row, rows !! i = Some row → Line row = 2 + Z.of_nat i) → Forall (λ row, Line row ≠ 0) rows.
Proof. intros H. apply Forall_lookup. intros i row Hr. rewrite (H i row Hr). lia. Qed.

(** The rows pass, from the empty tables the parser starts with. *)
Lemma parse_rows_start input out :
  parse_rows Quote 2 ∅ ∅ [] input = Ok out ↔
  input = Ok <$> (record_of <$> out) ∧
    (∀ i r, out !! i = Some r → Line r = 2 + Z.of_nat i) ∧ Forall row_ok out ∧
    NoDup (source_key <$> out) ∧ NoDup (target_key <$> out).
Proof.
  rewrite (parse_rows_Ok input 2 ∅ ∅ [] out tables_ok_nil NoDup_nil_2 NoDup_nil_2). split.
  - by intros (new & -> & ?).
  - intros ?. by exists out.
Qed.

Lemma ParseManifest_sound input rows :
  ParseManifest Quote range input = Ok rows → input = Ok <$> WriteManifest rows ∧ manifest_ok rows.
Proof.
  unfold ParseManifest, WriteManifest. rewrite fmap_cons.
  destruct input as [|[header|err] input]; [done| |done].
  destruct (validateHeader Quote header) as [e|] eqn:Eh; [done|]. apply validateHeader_None in Eh as ->.
  destruct (parse_rows _ _ _ _ _ _) as [out|] eqn:Ep; [|done].
  apply parse_rows_start in Ep as (-> & Hl & Hf & Hs & Ht).
  destruct out as [|r out]; [done|]. cbn [length Nat.eqb].
  pose proof (validateSplitPairs_None Quote range (r :: out) range_ok (lines_nonzero _ Hl)) as Hsp.
  destruct (validateSplitPairs _ _ _); [done|]. intros [= <-]. split; [done|].
  constructor; [done|done|done|by apply source_keys|by apply target_keys|by apply Hsp].
Qed.

Lemma ParseManifest_complete rows :
  manifest_ok rows → ParseManifest Quote range (Ok <$> WriteManifest rows) = Ok rows.
Proof.
  intros [Hne Hl Hf Hs Ht Hsp]. unfold ParseManifest, WriteManifest. rewrite fmap_cons.
  rewrite (proj2 (validateHeader_None _) eq_refl).
  rewrite (proj2 (parse_rows_start (Ok <$> (record_of <$> rows)) rows)).
  2: split_and!; [done..|by apply source_keys|by apply target_keys].
  destruct rows as [|r rows]; [done|]. cbn [length Nat.eqb].
  by rewrite (proj2 (validateSplitPairs_None Quote range (r :: rows) range_ok (lines_nonzero _ Hl)) Hsp).
Qed.

(** C35: The parser accepts exactly the tables written for manifests within
    the contract, and returns the manifest that was written. *)
Theorem ParseManifest_Ok input rows :
  ParseManifest Quote range input = Ok rows ↔ input = Ok <$> WriteManifest rows ∧ manifest_ok rows.
Proof.
  split; [apply ParseManifest_sound|]. intros [-> Hok]. by apply ParseManifest_complete.
Qed.

(** ** Inversion *)

Lemma invert_row_involutive row : invert_row (invert_row row) = row.
Proof. by destruct row. Qed.

Lemma invert_rows_involutive (rows : list ManifestRow) : invert_row <$> (invert_row <$> rows) = rows.
Proof.
  rewrite <-list_fmap_compose. rewrite <-(list_fmap_id rows) at 2.
  apply list_fmap_ext. intros _ row _. apply invert_row_involutive.
Qed.

Lemma row_ok_invert row : row_ok row → row_ok (invert_row row).
Proof.
  intros [Hf [Hs Ht] Hm]. rewrite !Forall_cons in Hf. destruct Hf as (?&?&?&?&_).
  constructor; [|done|]; [rewrite !Forall_cons; auto|].
  destruct Hm as [(?&Heq&?&?)|(?&?&?)]; [left|right; split_and!; [done..|tauto]].
  unfold kept. cbn. rewrite <-Heq. auto.
Qed.

(** Both directions of a rename have the same legacy identity. *)
Lemma legacyID_invert row : renamed row → legacyID (invert_row row) = legacyID row.
Proof.
  intros (_ & _ & [H|H]); unfold legacyID; cbn;
    pose proof (prefixes_spec _ _ _ H) as (_ & -> & _); destruct H as [-> _]; done.
Qed.

Lemma manifest_ok_invert rows : manifest_ok rows → manifest_ok (invert_row <$> rows).
Proof.
  intros [Hne Hl Hf Hs Ht Hsp].
  assert (∀ row, row ∈ rows → row_disposition row = DispositionSplit → renamed row) as Hren.
  { intros row Hin Hd. rewrite Forall_forall in Hf.
    destruct (Hf row Hin) as [_ _ [[? _]|?]]; [congruence|done]. }
  constructor.
  - by destruct rows.
  - intros i row. rewrite list_lookup_fmap. intros (r & Hr & ->)%fmap_Some. apply (Hl i r Hr).
  - apply Forall_fmap. eapply Forall_impl; [done|]. apply row_ok_invert.
  - by rewrite <-list_fmap_compose.
  - by rewrite <-list_fmap_compose.
  - intros row (r & -> & Hin)%list_elem_of_fmap Hd. destruct (Hsp r Hin Hd) as (r' & Hin' & Hd' & Hid & Ha).
    exists (invert_row r'). split_and!; [by apply list_elem_of_fmap_2|done| |done].
    rewrite !legacyID_invert by auto. done.
Qed.

Context (reread : list (list string) → CsvInput).
Context (reread_ok : ∀ records,
  Forall (λ record, (2 <= length record)%nat ∧ Forall crlf_free record) records →
  reread records = Ok <$> records).

Lemma InvertManifest_written rows :
  Forall (Forall crlf_free ∘ record_of) rows → manifest_ok rows →
  InvertManifest Quote range reread rows = Ok (invert_row <$> rows).
Proof.
  intros Hc Hok. unfold InvertManifest. rewrite reread_ok.
  - by apply ParseManifest_complete, manifest_ok_invert.
  - unfold WriteManifest. apply Forall_cons. split; [split; [cbn; lia|apply crlf_free_header]|].
    apply Forall_fmap, Forall_fmap. eapply Forall_impl; [done|]. intros row Hr.
    split; [cbn; lia|]. revert Hr. unfold compose, record_of. cbn. rewrite !Forall_cons. tauto.
Qed.

(** The undo plan of a manifest is itself within the contract, has every
    rename swapped, and its own undo plan is the manifest. *)
Theorem InvertManifest_undo rows :
  Forall (Forall crlf_free ∘ record_of) rows → manifest_ok rows →
  ∃ undo, InvertManifest Quote range reread rows = Ok undo ∧ manifest_ok undo ∧
    InvertManifest Quote range reread undo = Ok rows ∧
    Forall2 (λ row back, SourceAuthority back = SourceAuthority row ∧
      SourceID back = TargetID row ∧ TargetID back = SourceID row) rows undo.
Proof.
  intros Hc Hok. exists (invert_row <$> rows). split_and!.
  - by apply InvertManifest_written.
  - by apply manifest_ok_invert.
  - rewrite InvertManifest_written; [by rewrite invert_rows_involutive| |by apply manifest_ok_invert].
    apply Forall_fmap. eapply Forall_impl; [done|]. intros row. unfold compose, record_of. cbn.
    rewrite !Forall_cons. tauto.
  - clear Hc Hok. apply Forall2_fmap_r, Forall_Forall2_diag, Forall_forall. done.
Qed.

End props.

(** ** Concrete manifests *)

Definition plan_row (a : Authority) (source target : string) (d : Disposition) (control : bool) (line : Z) :=
  mkRow a source target d "ops"%stdpp "ticket 12"%stdpp control line.

(** A split for both authorities, a control-plane identity, a retirement. *)
Definition plan : list ManifestRow :=
  [plan_row AuthorityJK "planner" "personal.planner" DispositionSplit false 2;
   plan_row AuthorityUCLA "planner" "ucla.planner" DispositionSplit false 3;
   plan_row AuthorityJK "hub" "hub" DispositionUnchanged true 4;
   plan_row AuthorityUCLA "ucla.old" "old" DispositionRetire false 5]%stdpp.

Definition in_map_order (m : gmap string pair) : list string := elements (dom m).

Lemma ParseManifest_Ok_witness :
  (∀ m, enumerates (in_map_order m) m) ∧
  ParseManifest id in_map_order (Ok <$> WriteManifest plan) = Ok plan ∧ manifest_ok plan.
Proof.
  assert (∀ m, enumerates (in_map_order m) m) as Hr by (intros m; apply enumerates_elements).
  assert (ParseManifest id in_map_order (Ok <$> WriteManifest plan) = Ok plan) as Hp by (vm_compute; reflexivity).
  split; [exact Hr|split; [exact Hp|]].
  exact (proj2 (proj1 (ParseManifest_Ok id in_map_order Hr _ plan) Hp)).
Defined.

Lemma InvertManifest_undo_witness :
  (∀ m, enumerates (in_map_order m) m) ∧
  Forall (Forall crlf_free ∘ record_of) plan ∧ manifest_ok plan ∧
  InvertManifest id in_map_order (fmap Ok) plan = Ok (invert_row <$> plan).
Proof.
  assert (∀ m, enumerates (in_map_order m) m) as Hr by (intros m; apply enumerates_elements).
  assert (InvertManifest id in_map_order (fmap Ok) plan = Ok (invert_row <$> plan)) as Hi by (vm_compute; reflexivity).
  assert (manifest_ok plan) as Hok.
  { apply (ParseManifest_sound id in_map_order Hr (Ok <$> WriteManifest plan)). vm_compute. reflexivity. }
  assert (Forall (Forall crlf_free ∘ record_of) plan) as Hc.
  { apply no_cr_records. vm_compute. reflexivity. }
  split_and!; [exact Hr|exact Hc|exact Hok|].
  destruct (InvertManifest_undo id in_map_order Hr (fmap Ok) ltac:(intros; reflexivity) plan Hc Hok)
    as (undo & Hu & _). exact Hi.
Defined.
