(* ===== verification/Persistent.v ===== *)
(** * The snapshot store: [pkg/bus/persistent.go]

    [PersistentStore] wraps the in-memory store and rewrites one JSON file
    after every accepted mutation: the snapshot is written to a temporary file
    that is then renamed over the state file.

    [encoding/json] is [Codec].  The file system is a finite map from paths to
    contents; [save_calls] are the calls of one [persist], [Faults] says which of
    them fails, and [crash_in] what a crash while they run may leave.  Each wrapper is
    the inner operation followed by [persist]: the two are separate critical
    sections, and the snapshot is what the store holds when [persist] locks it. *)
From stdpp Require Import gmap strings list.
From Stdlib Require Import ZArith Lia Ascii.
From S2P Require Import Prelude GoBase Json Types Config Ring State Inbox Sweep Conversations Agents Send Poll Lifecycle Queries.

(** ** The state file *)

Module PersistedMessage.
Record t := mk {
  Message : Message.t;
  DeliveredAt : Time;
  LastProgressAt : Time;
  TTLExpiresAt : Time;
  GraceUntil : Time;
  QueuedForAgent : bool }.
End PersistedMessage.

Definition toPersistedMessage (m : Message.t) : PersistedMessage.t :=
  PersistedMessage.mk m (Message.DeliveredAt m) (Message.LastProgressAt m)
    (Message.TTLExpiresAt m) (Message.GraceUntil m) (Message.QueuedForAgent m).

(** The message with the five fields hidden from API responses assigned. *)
Definition with_hidden (delivered progress ttl grace : Time) (queued : bool) (m : Message.t)
    : Message.t :=
  Message.mk (Message.MessageID m) (Message.Typ m) (Message.From m) (Message.To m)
    (Message.ConversationID m) (Message.RequestID m) (Message.InReplyTo m) (Message.Body m)
    (Message.Meta m) (Message.Attachments m) (Message.State m) (Message.CreatedAt m)
    (Message.TerminalAt m) delivered progress ttl grace queued.

Definition toMessage (pm : PersistedMessage.t) : Message.t :=
  with_hidden (PersistedMessage.DeliveredAt pm) (PersistedMessage.LastProgressAt pm)
    (PersistedMessage.TTLExpiresAt pm) (PersistedMessage.GraceUntil pm)
    (PersistedMessage.QueuedForAgent pm) (PersistedMessage.Message pm).

Module PersistentState.
Record t := mk {
  NextConversationID : Z;
  NextMessageID : Z;
  NextObserveID : Z;
  PushFailures : Z;
  PushSuccesses : Z;
  Agents : gmap string Agent.t;
  AgentSecrets : gmap string string;
  Conversations : gmap string Conversation.t;
  Messages : gmap string PersistedMessage.t;
  ConversationMessages : gmap string (list string);
  Inboxes : gmap string (list InboxEvent.t);
  InboxBase : gmap string Z;
  ObserveEvents : list ObserveEvent.t;
  Idempotency : gmap string IdempotencyEntry.t }.
End PersistentState.

(** What the struct tags let through: a field tagged [json:"-"] is read back
    as zero.  The five fields of the embedded message are shadowed by those of
    [persistedMessage], which are written. *)
Definition shown_agent (a : Agent.t) : Agent.t :=
  Agent.mk (Agent.AgentID a) (Agent.AllowedScopes a) (Agent.SharedGrants a)
    (Agent.Capabilities a) (Agent.Version a) (Agent.Description a) (Agent.AgentClass a)
    (Agent.MutationClass a) (Agent.Build a) (Agent.Meta a) (Agent.Mode a) (Agent.CallbackURL a)
    (Agent.Status a) (Agent.RegisteredAt a) (Agent.ExpiresAt a) 0.

Definition shown_message (m : Message.t) : Message.t := with_hidden 0 0 0 0 false m.

Definition shown_persisted (pm : PersistedMessage.t) : PersistedMessage.t :=
  PersistedMessage.mk (shown_message (PersistedMessage.Message pm))
    (PersistedMessage.DeliveredAt pm) (PersistedMessage.LastProgressAt pm)
    (PersistedMessage.TTLExpiresAt pm) (PersistedMessage.GraceUntil pm)
    (PersistedMessage.QueuedForAgent pm).

Definition shown_event (e : ObserveEvent.t) : ObserveEvent.t :=
  ObserveEvent.mk (ObserveEvent.ID e) (ObserveEvent.Typ e) (ObserveEvent.At e)
    (ObserveEvent.Data e) ε [] 0.

Definition shown (st : PersistentState.t) : PersistentState.t :=
  PersistentState.mk (PersistentState.NextConversationID st) (PersistentState.NextMessageID st)
    (PersistentState.NextObserveID st) (PersistentState.PushFailures st)
    (PersistentState.PushSuccesses st) (shown_agent <$> PersistentState.Agents st)
    (PersistentState.AgentSecrets st) (PersistentState.Conversations st)
    (shown_persisted <$> PersistentState.Messages st) (PersistentState.ConversationMessages st)
    (PersistentState.Inboxes st) (PersistentState.InboxBase st)
    (shown_event <$> PersistentState.ObserveEvents st) (PersistentState.Idempotency st).

(** [json.Marshal] and [json.Unmarshal] at [persistentState]; an error is its
    text. *)
Class Codec := {
  Marshal : PersistentState.t → result string string;
  Unmarshal : string → result string PersistentState.t }.

(** The codec reads back what it wrote, up to the hidden fields. *)
Definition reads_back `{Codec} (st : PersistentState.t) : Prop :=
  ∃ blob, Marshal st = Ok blob ∧ Unmarshal blob = Ok (shown st).

(** ** The store *)

Record PersistentStore := mkPS {
  inner : Store;
  agentSecrets : gmap string string;
  lastPersistErr : string }.

Definition set_inner (s : Store) (p : PersistentStore) : PersistentStore :=
  mkPS s (agentSecrets p) (lastPersistErr p).
Definition set_lastPersistErr (err : string) (p : PersistentStore) : PersistentStore :=
  mkPS (inner p) (agentSecrets p) err.

Definition stateSnapshot (p : PersistentStore) : PersistentState.t :=
  let s := inner p in
  PersistentState.mk (nextConversationID s) (nextMessageID s) 0 (pushFailures s) (pushSuccesses s)
    (agents s) (agentSecrets p) (conversations s) (toPersistedMessage <$> messages s)
    (conversationMessages s) (inboxes s) (inboxBase s) [] (idempotency s).

(** The loop over the secrets, in the order the map is ranged over. *)
Definition restore_secret (secrets acc : gmap string string) (k : string) : gmap string string :=
  match secrets !! k with
  | Some v =>
      let agentID := TrimSpace k in
      if negb (is_empty agentID) && negb (is_empty (TrimSpace v)) then <[agentID := v]> acc else acc
  | None => acc
  end.

Definition restore_secrets (order : list string) (secrets : gmap string string)
    : gmap string string := foldl (restore_secret secrets) ∅ order.

Definition applyState (order : list string) (st : PersistentState.t) (p : PersistentStore)
    : PersistentStore :=
  let s := inner p in
  mkPS (mkStore (PersistentState.NextConversationID st) (PersistentState.NextMessageID st) 0
          (PersistentState.Agents st) (PersistentState.Conversations st)
          (toMessage <$> PersistentState.Messages st)
          (PersistentState.ConversationMessages st) (PersistentState.Inboxes st)
          (PersistentState.InboxBase st) (zsum inboxEventSize <$> PersistentState.Inboxes st)
          [] 0 (PersistentState.Idempotency st)
          (lastSweepAt s) (inboxNotify s) (observeNotify s) (sweepSkipped s) (sweepRan s)
          (PersistentState.PushFailures st) (PersistentState.PushSuccesses st)
          (pushQueue s) (pushWG s) (pushClosed s) (channels s))
    (restore_secrets order (PersistentState.AgentSecrets st)) (lastPersistErr p).

(** ** Files *)

Abbreviation Disk := (gmap string string).

(** The failing call of one [persist], with its error.  A failed [WriteFile]
    leaves the temporary file absent, unchanged or truncated: [leftover] is what
    it leaves. *)
Inductive Faults :=
| NoFault
| MkdirFails (err : string)
| WriteFails (err : string) (leftover : option string)
| RenameFails (err : string).

(** The calls to the file system.  [os.MkdirAll] makes directories, which hold
    no contents. *)
Inductive FileCall :=
| MkdirAll
| WriteFile (name blob : string)
| FileRename (old new : string).

(** A call that succeeds.  A rename replaces its target. *)
Definition call_done (c : FileCall) (d : Disk) : Disk :=
  match c with
  | MkdirAll => d
  | WriteFile name blob => <[name := blob]> d
  | FileRename old new =>
      match d !! old with Some blob => <[new := blob]> (delete old d) | None => d end
  end.

(** The error of a call, if it fails, and what it leaves. *)
Definition call_result (f : Faults) (c : FileCall) (d : Disk) : option string * Disk :=
  match c, f with
  | MkdirAll, MkdirFails err => (Some err, d)
  | WriteFile name _, WriteFails err leftover => (Some err, partial_alter (λ _, leftover) name d)
  | FileRename _ _, RenameFails err => (Some err, d)
  | _, _ => (None, call_done c d)
  end.

(** Calls in order, up to the first that fails. *)
Fixpoint run_calls (f : Faults) (calls : list FileCall) (d : Disk) : option string * Disk :=
  match calls with
  | [] => (None, d)
  | c :: calls =>
      match call_result f c d with
      | (Some err, d) => (Some err, d)
      | (None, d) => run_calls f calls d
      end
  end.

(** What the death of the process in the middle of a call may leave: a file that
    is written may be absent, unchanged or hold anything, a rename has happened or
    has not.  The death of the machine is not modelled: nothing is synced. *)
Definition torn (c : FileCall) (d d' : Disk) : Prop :=
  match c with
  | WriteFile name _ => ∃ leftover, d' = partial_alter (λ _, leftover) name d
  | _ => d' = d ∨ d' = call_done c d
  end.

(** The disks a crash may leave while the calls run: before or after any of
    them, or in the middle of one. *)
Inductive crash_in (f : Faults) : list FileCall → Disk → Disk → Prop :=
| crash_here calls d : crash_in f calls d d
| crash_torn c calls d d' : torn c d d' → crash_in f (c :: calls) d d'
| crash_failed c calls d err d' : call_result f c d = (Some err, d') → crash_in f (c :: calls) d d'
| crash_later c calls d d1 d' :
    call_result f c d = (None, d1) → crash_in f calls d1 d' → crash_in f (c :: calls) d d'.

Lemma run_calls_crash f calls d : crash_in f calls d (run_calls f calls d).2.
Proof.
  revert d. induction calls as [|c calls IH]; intros d; [apply crash_here|]. cbn [run_calls].
  destruct (call_result f c d) as [[err|] d1] eqn:Ec; [by eapply crash_failed|].
  by eapply crash_later.
Qed.

Section persistent.
Context `{Codec} (E : Static) (path : string).

Definition tmp : string := path +:+ ".tmp"%stdpp.

(** The calls that save a snapshot, in order. *)
Definition save_calls (blob : string) : list FileCall :=
  [MkdirAll; WriteFile tmp blob; FileRename tmp path].

Definition persist (f : Faults) (d : Disk) (p : PersistentStore)
    : option string * Disk * PersistentStore :=
  if is_empty path then (None, d, p) else
  match Marshal (stateSnapshot p) with
  | Err err => (Some err, d, set_lastPersistErr err p)
  | Ok blob =>
      match run_calls f (save_calls blob) d with
      | (Some err, d) => (Some err, d, set_lastPersistErr err p)
      | (None, d) => (None, d, set_lastPersistErr ε p)
      end
  end.

(** [os.ReadFile] and [os.Chmod] may fail too. *)
Inductive LoadFaults := LoadOk | ReadFails (err : string) | ChmodFails (err : string).

Definition load (order : PersistentState.t → list string) (f : LoadFaults) (d : Disk)
    (p : PersistentStore) : result string PersistentStore :=
  if is_empty path then Ok p else
  match f, d !! path with
  | ReadFails err, _ => Err err
  | _, None => Ok p
  | ChmodFails err, Some _ => Err err
  | LoadOk, Some blob =>
      match Unmarshal blob with
      | Err err => Err err
      | Ok st => Ok (applyState (order st) st p)
      end
  end.

(** ** Secrets *)

Definition AgentSecrets (p : PersistentStore) : gmap string string := agentSecrets p.

Definition SetAgentSecret (f : Faults) (agentID secret : string) (d : Disk) (p : PersistentStore)
    : option string * Disk * PersistentStore :=
  let agentID := TrimSpace agentID in
  if is_empty agentID || is_empty (TrimSpace secret) then (None, d, p)
  else persist f d (mkPS (inner p) (<[agentID := secret]> (agentSecrets p)) (lastPersistErr p)).

(** ** The operations *)

(** The error of a wrapper: the bus's or the one of [persist]. *)
Inductive PersistError := BusError (e : Error.t) | NotPersisted (err : string).

(** [if err == nil { if perr := p.persist(); perr != nil { return nil, perr } }] *)
Definition then_persist {A} (f : Faults) (d : Disk) (p : PersistentStore)
    (r : Store * result Error.t A) : Disk * PersistentStore * result PersistError A :=
  let p := set_inner r.1 p in
  match r.2 with
  | Err e => (d, p, Err (BusError e))
  | Ok a =>
      match persist f d p with
      | (Some err, d, p) => (d, p, Err (NotPersisted err))
      | (None, d, p) => (d, p, Ok a)
      end
  end.

(** The result of an operation that only returns an error. *)
Definition error_only (r : Store * option Error.t) : Store * result Error.t unit :=
  (r.1, match r.2 with Some e => Err e | None => Ok () end).

Definition PRegisterAgent f o now input d p :=
  then_persist f d p (RegisterAgent E o now input (inner p)).

Definition PCreateConversation f o now input d p :=
  then_persist f d p (CreateConversation E o now input (inner p)).

Definition PSendMessage f o now input d p :=
  then_persist f d p (SendMessage E o now input (inner p)).1.

Definition PInject f o now input d p :=
  then_persist f d p (Inject E o now input (inner p)).1.

Definition PAck f o now input d p :=
  then_persist f d p (error_only (Ack E o now input (inner p))).

Definition PPostEvent f o now input d p :=
  then_persist f d p (error_only (PostEvent E o now input (inner p))).

(** The poll persists only when it delivered events or reclaimed some, and
    ignores a failure to. *)
Definition PPollInbox (f : Faults) started o r wakes (input : PollInboxInput.t) (d : Disk)
    (p : PersistentStore)
    : Disk * PersistentStore * result Error.t (list InboxEvent.t * Z) :=
  let agentID := TrimSpace (PollInboxInput.AgentID input) in
  let before := base (inner p) agentID in
  let '(s, out) := PollInbox E started o r wakes input (inner p) in
  let p := set_inner s p in
  let after := base s agentID in
  match out with
  | Err e => (d, p, Err e)
  | Ok (events, cursor) =>
      if (0 <? length events)%nat || (before <? after) then
        let '(_, d, p) := persist f d p in (d, p, Ok (events, cursor))
      else (d, p, Ok (events, cursor))
  end.

(** *** Those that only read *)

(** The inner operation, run on the inner store. *)
Definition pass {A} (r : Store * A) (p : PersistentStore) : PersistentStore * A :=
  (set_inner r.1 p, r.2).

Definition PListAgents o order now capability p :=
  pass (ListAgents E o order now capability (inner p)) p.
Definition PListConversations o order now filter p :=
  pass (ListConversations E o order now filter (inner p)) p.
Definition PListConversationMessages o now input p :=
  pass (ListConversationMessages E o now input (inner p)) p.
Definition PObserveSince started o r wakes afterID filter wait p :=
  pass (ObserveSince E started o r wakes afterID filter wait (inner p)) p.
Definition PMetrics o order now p := pass (Metrics E o order now (inner p)) p.

(** [out["persist_error"] = msg] *)
Definition add_persist_error (msg : string) (out : json) : json :=
  match out with
  | JObj fields =>
      if is_empty msg then out else JObj (fields ++ [("persist_error"%stdpp, JString msg)])
  | _ => out
  end.

Definition PHealth o order now p :=
  let '(p, out) := pass (Health E o order now (inner p)) p in
  (p, add_persist_error (lastPersistErr p) out).
Definition PSystemStatus o order now p :=
  let '(p, out) := pass (SystemStatus E o order now (inner p)) p in
  (p, add_persist_error (lastPersistErr p) out).

End persistent.

(** ** Construction *)

Inductive StartError := InvalidConfiguration (e : ConfigError) | NotLoaded (err : string).

Definition NewPersistentStore `{Codec} (path : string) (hash_order : list string) (human : string)
    (c : Config.t) (order : PersistentState.t → list string) (f : LoadFaults) (d : Disk)
    : result StartError (Static * PersistentStore) :=
  match NewStore hash_order human c with
  | Err e => Err (InvalidConfiguration e)
  | Ok (E, s) =>
      match load path order f d (mkPS s ∅ ε) with
      | Err err => Err (NotLoaded err)
      | Ok p => Ok (E, p)
      end
  end.
