(* ===== verification/PersistentProps.v ===== *)
(** * Properties of the snapshot store

    A crash at any point of [persist] leaves a complete snapshot on disk, the
    earlier or the later one, and a restart from it satisfies the invariants
    of the store; an operation whose answer the caller received survives. *)
From stdpp Require Import gmap strings list.
From Stdlib Require Import ZArith Lia Ascii.
From S2P Require Import Prelude GoBase Json Types Scope Config Auth Ring State Inbox Observe Structure Sweep Agents Send SendSpec Poll System Scenario RunProps SendProps Persistent.

(** ** What a restart keeps *)

(** The store a process has after loading a snapshot of [s]: the observe
    stream, the channels and the callback queue are those of a new process. *)
Definition restarted (s : Store) : Store :=
  mkStore (nextConversationID s) (nextMessageID s) 0 (shown_agent <$> agents s) (conversations s)
    (messages s) (conversationMessages s) (inboxes s) (inboxBase s)
    (zsum inboxEventSize <$> inboxes s) [] 0 (idempotency s)
    (lastSweepAt emptyStore) (inboxNotify emptyStore) (observeNotify emptyStore)
    (sweepSkipped emptyStore) (sweepRan emptyStore) (pushFailures s) (pushSuccesses s)
    (pushQueue emptyStore) (pushWG emptyStore) (pushClosed emptyStore) (channels emptyStore).

Lemma toMessage_shown m : toMessage (shown_persisted (toPersistedMessage m)) = m.
Proof. by destruct m. Qed.

Lemma messages_restored (ms : gmap string Message.t) :
  toMessage <$> (shown_persisted <$> (toPersistedMessage <$> ms)) = ms.
Proof.
  rewrite <-!map_fmap_compose. rewrite <-(map_fmap_id ms) at 2.
  apply map_fmap_ext. intros k m _. apply toMessage_shown.
Qed.

(** The secrets [SetAgentSecret] stores. *)
Definition secret_ok (k v : string) : Prop := trimmed k ∧ k ≠ ε ∧ TrimSpace v ≠ ε.
Definition secrets_ok (m : gmap string string) : Prop := map_Forall secret_ok m.

Lemma restore_secrets_ok order m :
  enumerates order m → secrets_ok m → restore_secrets order m = m.
Proof.
  intros [Hnd Hdom] Hok. unfold restore_secrets.
  assert (∀ ks acc, (∀ k, k ∈ ks → is_Some (m !! k)) →
    ∀ j, foldl (restore_secret m) acc ks !! j = if decide (j ∈ ks) then m !! j else acc !! j) as Hfold.
  { induction ks as [|k ks IH]; intros acc Hks j; cbn [foldl].
    { rewrite decide_False; [done|]. apply not_elem_of_nil. }
    rewrite IH by (intros; apply Hks; by right).
    assert (restore_secret m acc k = match m !! k with Some v => <[k:=v]> acc | None => acc end) as ->.
    { unfold restore_secret. destruct (m !! k) as [v|] eqn:Hv; [|done].
      destruct (Hok k v Hv) as (Ht & Hne & Hb). cbv zeta. unfold trimmed in Ht. rewrite Ht.
      unfold is_empty. by rewrite !bool_decide_eq_false_2. }
    destruct (Hks k) as [v Hv]; [by left|]. rewrite Hv.
    destruct (decide (j ∈ ks)) as [Hj|Hj].
    - by rewrite decide_True by by right.
    - destruct (decide (j = k)) as [->|Hne].
      + rewrite lookup_insert_eq, decide_True by by left. done.
      + rewrite lookup_insert_ne, decide_False by (rewrite ?elem_of_cons; naive_solver). done. }
  apply map_eq. intros j. rewrite Hfold by (intros k; apply Hdom).
  case_decide as Hj; [done|]. rewrite lookup_empty. destruct (m !! j) eqn:Hm; [|done].
  destruct Hj. apply Hdom. eauto.
Qed.

Lemma secrets_ok_insert m k v :
  secrets_ok m → TrimSpace k ≠ ε → TrimSpace v ≠ ε → secrets_ok (<[TrimSpace k := v]> m).
Proof.
  intros Hm Hk Hv. apply map_Forall_insert_2; [|done]. split_and!; [|done|done].
  apply TrimSpace_trimmed.
Qed.

Section restart.
Context (E : Static).

Lemma shown_agent_policy a : agent_policy E a → agent_policy E (shown_agent a).
Proof. intros []. by constructor. Qed.

Lemma restarted_structure s : structure_ok s → structure_ok (restarted s).
Proof.
  intros []. constructor; try done.
  - cbn. intros k a. rewrite lookup_fmap. intros (b & Hb & ->)%fmap_Some. cbn. eauto.
  - cbn. by rewrite dom_fmap_L.
Qed.

(** A restart re-establishes every invariant. *)
Lemma restarted_inv s : inv E s → inv E (restarted s).
Proof.
  intros [[Hs Hi Hc] Ho]. split; [split|].
  - by apply restarted_structure.
  - intros a. destruct (Hi a) as [Hb Hn Hw]. constructor; [|done|done].
    unfold inbox_size, inbox, restarted. cbn. rewrite lookup_fmap.
    by destruct (inboxes s !! a).
  - apply (chan_ok_ext emptyStore); [done|]. exact (si_chan E _ (proj1 (emptyStore_inv E))).
  - destruct (emptyStore_inv E) as [_ Ho0]. by apply (observe_ok_ext E emptyStore).
Qed.

Lemma restarted_policy s : policy_ok E s → policy_ok E (restarted s).
Proof.
  intros Hp k a. cbn. rewrite lookup_fmap. intros (b & Hb & ->)%fmap_Some.
  apply shown_agent_policy. by apply (Hp k).
Qed.

(** Consumers go on where they were: the pages of an inbox are the same for
    every cursor and limit. *)
Lemma restarted_read_inbox s advance agentID cursor limit :
  (read_inbox advance agentID cursor limit (restarted s)).2 =
  (read_inbox advance agentID cursor limit s).2.
Proof.
  unfold read_inbox. cbv zeta.
  change (base (restarted s) agentID) with (base s agentID).
  change (inbox (restarted s) agentID) with (inbox s agentID).
  set (n := clamp_cursor _ _ _ - base s agentID).
  assert (inbox (dropInboxPrefixLocked agentID n (restarted s)) agentID =
    inbox (dropInboxPrefixLocked agentID n s) agentID) as ->.
  { unfold dropInboxPrefixLocked. change (inbox (restarted s) agentID) with (inbox s agentID).
    cbv zeta. case_match; [done|]. unfold inbox. cbn. by rewrite !lookup_insert_eq. }
  repeat case_match; done.
Qed.

(** Retries are recognised as before. *)
Lemma restarted_duplicate s now r : Send.send_duplicate E now r (restarted s) = Send.send_duplicate E now r s.
Proof. done. Qed.

End restart.

(** ** Snapshots on disk *)

Section disk.
Context `{Codec} (E : Static) (path : string) (order : PersistentState.t → list string).
Context (named : path ≠ ε).
Context (order_ok : ∀ st, enumerates (order st) (PersistentState.AgentSecrets st)).

Lemma tmp_neq : tmp path ≠ path.
Proof.
  unfold tmp. clear. induction path as [|c rest IH]; cbn; [done|]. by intros [= ?].
Qed.

(** The state file holds a snapshot of [p]. *)
Definition saved_in (d : Disk) (p : PersistentStore) : Prop :=
  ∃ blob, Marshal (stateSnapshot p) = Ok blob ∧ d !! path = Some blob.

(** The disk a crash in the middle of [persist] leaves, of the calls it makes. *)
Inductive crashed (f : Faults) (d : Disk) (p : PersistentStore) : Disk → Prop :=
| crash_before : crashed f d p d
| crash_saving blob d' :
    Marshal (stateSnapshot p) = Ok blob → crash_in f (save_calls path blob) d d' → crashed f d p d'.

(** What [persist] leaves when it returns, whatever fails, is among them. *)
Lemma persist_crashed f d p : crashed f d p (persist path f d p).1.2.
Proof.
  unfold persist. destruct (is_empty path); [apply crash_before|].
  destruct (Marshal _) as [blob|err] eqn:Em; [|apply crash_before].
  pose proof (run_calls_crash f (save_calls path blob) d) as Hc.
  destruct (run_calls f (save_calls path blob) d) as [[err|] d']; by eapply crash_saving.
Qed.

Lemma call_result_done f c d d1 : call_result f c d = (None, d1) → d1 = call_done c d.
Proof. destruct c, f; cbn; congruence. Qed.

(** No call but the rename touches the state file, and the rename puts the
    complete snapshot there. *)
Lemma save_calls_crash f blob d d' :
  crash_in f (save_calls path blob) d d' → d' !! path = d !! path ∨ d' !! path = Some blob.
Proof.
  pose proof tmp_neq as Hne. intros Hc. unfold save_calls in Hc.
  inv Hc as [| ? ? ? ? Ht| ? ? ? ? ? Hf| ? ? ? ? ? Hd Hc']; [by left|by destruct Ht as [->| ->]; left
    |destruct f; inv Hf; by left|].
  apply call_result_done in Hd as ->. cbn [call_done] in Hc'.
  inv Hc' as [| ? ? ? ? Ht| ? ? ? ? ? Hf| ? ? ? ? ? Hd Hc]; [by left| | |].
  { destruct Ht as [leftover ->]. left. by apply lookup_partial_alter_ne. }
  { destruct f; inv Hf. left. by apply lookup_partial_alter_ne. }
  apply call_result_done in Hd as ->. cbn [call_done] in Hc.
  assert ((<[tmp path := blob]> d : Disk) !! path = d !! path) as Hold by by apply lookup_insert_ne.
  assert (call_done (FileRename (tmp path) path) (<[tmp path := blob]> d) !! path = Some blob) as Hnew.
  { cbn [call_done]. rewrite lookup_insert_eq. apply lookup_insert_eq. }
  inv Hc as [| ? ? ? ? Ht| ? ? ? ? ? Hf| ? ? ? ? ? Hd Hc']; [by left| | |].
  { destruct Ht as [->| ->]; [by left|by right]. }
  { destruct f; inv Hf; by left. }
  apply call_result_done in Hd as ->. inv Hc'. by right.
Qed.

Lemma save_calls_done f blob d d' : run_calls f (save_calls path blob) d = (None, d') → d' !! path = Some blob.
Proof.
  unfold save_calls. cbn [run_calls].
  destruct (call_result f MkdirAll d) as [[?|] d1] eqn:E1; [done|]. apply call_result_done in E1 as ->.
  destruct (call_result f (WriteFile _ _) _) as [[?|] d2] eqn:E2; [done|]. apply call_result_done in E2 as ->.
  destruct (call_result f (FileRename _ _) _) as [[?|] d3] eqn:E3; [done|]. apply call_result_done in E3 as ->.
  intros [= <-]. cbn [call_done]. rewrite lookup_insert_eq. apply lookup_insert_eq.
Qed.

Lemma crashed_saved f d p p0 d' :
  saved_in d p0 → crashed f d p d' → ∃ q, (q = p0 ∨ q = p) ∧ saved_in d' q.
Proof.
  intros (blob0 & Hm0 & Hd) Hc. destruct Hc as [|blob d' Hm Hc].
  - exists p0. split; [by left|]. by exists blob0.
  - apply save_calls_crash in Hc as [He|He].
    + exists p0. split; [by left|]. exists blob0. by rewrite He.
    + exists p. split; [by right|]. by exists blob.
Qed.

(** A store fit to be saved. *)
Record savable (p : PersistentStore) : Prop := {
  sv_inv : inv E (inner p);
  sv_policy : policy_ok E (inner p);
  sv_secrets : secrets_ok (agentSecrets p);
  sv_codec : reads_back (stateSnapshot p) }.

(** A new process before it loads. *)
Definition fresh : PersistentStore := mkPS emptyStore ∅ ε.

Lemma load_saved d p :
  saved_in d p → savable p →
  load path order LoadOk d fresh = Ok (mkPS (restarted (inner p)) (agentSecrets p) ε).
Proof.
  intros (blob & Hm & Hd) [_ _ Hs (blob' & Hm' & Hu)].
  assert (blob' = blob) as -> by congruence.
  unfold load, is_empty. rewrite bool_decide_eq_false_2 by done. rewrite Hd, Hu. f_equal.
  unfold applyState, restarted. cbn. rewrite messages_restored. f_equal.
  apply restore_secrets_ok; [|done]. apply (order_ok (shown (stateSnapshot p))).
Qed.

(** C37: Atomic saving.  Whichever of the calls [persist] makes fails, and at
    whatever point of them the process dies, between two calls or in the middle
    of one, a write leaving anything in its file, or after [persist] returned, a
    new process starts from exactly the state saved before or the one being
    saved: the invariants hold, the secrets are there, and messages, receipts
    and inbox pages are those of that state. *)
Theorem crash_recovery hash_order human c s0 f d p p0 d' :
  NewStore hash_order human c = Ok (E, s0) →
  saved_in d p0 → savable p0 → savable p →
  crashed f d p d' ∨ d' = (persist path f d p).1.2 →
  ∃ q r, (q = p0 ∨ q = p) ∧
    NewPersistentStore path hash_order human c order LoadOk d' = Ok (E, r) ∧
    inv E (inner r) ∧ policy_ok E (inner r) ∧ agentSecrets r = agentSecrets q ∧
    messages (inner r) = messages (inner q) ∧ idempotency (inner r) = idempotency (inner q) ∧
    conversations (inner r) = conversations (inner q) ∧
    ∀ advance agentID cursor limit,
      (read_inbox advance agentID cursor limit (inner r)).2 =
      (read_inbox advance agentID cursor limit (inner q)).2.
Proof.
  intros Hn Hd Hp0 Hp Hc.
  assert (crashed f d p d') as Hc' by (destruct Hc as [?| ->]; [done|apply persist_crashed]). clear Hc.
  destruct (crashed_saved f d p p0 d' Hd Hc') as (q & Hq & Hs).
  assert (savable q) as Hsv by by destruct Hq as [->| ->].
  assert (s0 = emptyStore) as ->.
  { revert Hn. unfold NewStore. destruct (NewStore_static _ _ _); [|done]. by intros [= _ <-]. }
  exists q, (mkPS (restarted (inner q)) (agentSecrets q) ε). split; [done|].
  unfold NewPersistentStore. rewrite Hn. change (mkPS emptyStore ∅ ε) with fresh.
  rewrite (load_saved d' q Hs Hsv). split; [done|].
  split_and!; [apply restarted_inv, Hsv|apply restarted_policy, Hsv|done..|].
  intros. apply restarted_read_inbox.
Qed.

(** An answered mutation is on disk. *)
Lemma then_persist_saved {A} f d p (r : Store * result Error.t A) d' p' a :
  then_persist path f d p r = (d', p', Ok a) →
  r.2 = Ok a ∧ inner p' = r.1 ∧ agentSecrets p' = agentSecrets p ∧ saved_in d' p'.
Proof.
  unfold then_persist. destruct r as [s [b|e]]; cbn [fst snd]; [|done].
  unfold persist, is_empty. rewrite bool_decide_eq_false_2 by done.
  destruct (Marshal _) as [blob|err] eqn:Em; [|done].
  destruct (run_calls f (save_calls path blob) d) as [[err|] d1] eqn:Er; [done|].
  intros [= <- <- ->]. split_and!; [done..|].
  exists blob. split; [done|]. by eapply save_calls_done.
Qed.

(** C38: At most once, across restarts.  When a send has been answered, a
    process started from the file it left has the message, and for as long as
    the idempotency window lasts every successful repetition, whatever happens
    in between, is answered as a duplicate with the same identifier and adds
    nothing. *)
Theorem answered_send_survives f o t input d p d1 p1 m o' t' now s2 commit' input' s3 m' dup rc :
  inv E (inner p) → headroom o (inner p) → policy_ok E (inner p) → secrets_ok (agentSecrets p) →
  PSendMessage E path f o t input d p = (d1, p1, Ok (m, false)) → reads_back (stateSnapshot p1) →
  ∃ q, load path order LoadOk d1 fresh = Ok q ∧
    messages (inner q) !! Message.MessageID m = Some m ∧
    (rtc (step E) (t, inner q) (t', s2) →
     TrimSpace (SendMessageInput.From input') = TrimSpace (SendMessageInput.From input) →
     TrimSpace (SendMessageInput.To input') = TrimSpace (SendMessageInput.To input) →
     TrimSpace (SendMessageInput.RequestID input') = TrimSpace (SendMessageInput.RequestID input) →
     t' ≤ now → Sub now t ≤ Config.IdempotencyWindow (cfg E) →
     sendMessage E commit' o' now input' s2 = (s3, Ok (m', dup), rc) →
     dup = true ∧ Message.MessageID m' = Message.MessageID m ∧ s3 = sweepLocked E o' now s2).
Proof.
  intros Hi Hh Hp Hs Hsend Hc. unfold PSendMessage, SendMessage in Hsend.
  destruct (sendMessage E None o t input (inner p)) as [[s1 res] rc1] eqn:Hin.
  apply then_persist_saved in Hsend as (Hres & Hst & Hsec & Hsv). cbn in Hres, Hst. subst res.
  pose proof (run_step E o t (OpSendMessage None input) (inner p) (proj1 Hi) Hh) as Hstep.
  pose proof (run_inv E o t (OpSendMessage None input) (inner p) Hi Hh) as Hi1.
  cbn [run] in Hi1, Hstep. rewrite Hin in Hi1, Hstep. cbn [fst] in Hi1, Hstep.
  assert (savable p1) as Hsav.
  { constructor; rewrite ?Hst, ?Hsec; try done. by apply Hstep. }
  exists (mkPS (restarted (inner p1)) (agentSecrets p1) ε).
  split; [by apply load_saved|]. cbn [inner]. rewrite Hst.
  split.
  { pose proof (accepted_one_more _ _ _ _ _ _ _ _ _ (proj1 Hi) (hr_msg _ _ Hh) Hin) as Hmore.
    cbn [restarted messages]. rewrite (om_messages _ _ _ Hmore). apply lookup_insert_eq. }
  intros Hrun Hf Hto Hreq Ht' Hw Hsend'.
  destruct (rtc_run_ok E (t, restarted s1) (t', s2) (restarted_inv E _ Hi1) Hrun) as [_ Hi2 _ _ Hk _]. cbn in Hk, Hi2.
  destruct (accepted_receipt _ _ _ _ _ _ _ _ _ (proj1 Hi) Hin) as (r & Hr & Hrec).
  eapply (repeat_answered E input input' r); eauto.
  apply Hk; [done|]. revert Hw. unfold Sub, min_int64, max_int64. cbn. lia.
Qed.

End disk.

(** ** A concrete run

    The codec distinguishes the two snapshots at hand. *)

Definition state_path : string := "state.json"%stdpp.
Definition secrets : gmap string string := {[alice := "s3cret"%stdpp]}.
Definition before_send : PersistentStore := mkPS registered.2 secrets ε.
Definition after_send : PersistentStore := mkPS requested.2 secrets ε.

Definition toy_codec : Codec := {|
  Marshal st := Ok (FormatInt (PersistentState.NextMessageID st));
  Unmarshal blob := if bool_decide (blob = "0"%stdpp) then Ok (shown (stateSnapshot before_send))
                    else Ok (shown (stateSnapshot after_send)) |}.

Definition secret_order (st : PersistentState.t) : list string :=
  elements (dom (PersistentState.AgentSecrets st)).

Lemma secret_order_ok st : enumerates (secret_order st) (PersistentState.AgentSecrets st).
Proof. apply enumerates_elements. Qed.

Lemma secrets_fine : secrets_ok secrets.
Proof.
  apply map_Forall_singleton. unfold secret_ok, trimmed.
  split_and!; [vm_compute; reflexivity|vm_compute; discriminate|vm_compute; discriminate].
Qed.

Lemma reads_back_intro (codec : Codec) st blob :
  Marshal st = Ok blob → Unmarshal blob = Ok (shown st) → reads_back st.
Proof. intros H1 H2. by exists blob. Qed.

Lemma before_send_savable : savable (H:=toy_codec) E0 before_send.
Proof.
  destruct (reachable_ok E0 registered.1 registered.2 registered_reachable) as [Hi Hp].
  constructor; [exact Hi|exact Hp|exact secrets_fine|].
  apply (reads_back_intro toy_codec _ "0"%stdpp); vm_compute; reflexivity.
Qed.

Lemma after_send_savable : savable (H:=toy_codec) E0 after_send.
Proof.
  destruct (reachable_ok E0 requested.1 requested.2 requested_reachable) as [Hi Hp].
  constructor; [exact Hi|exact Hp|exact secrets_fine|].
  apply (reads_back_intro toy_codec _ "1"%stdpp); vm_compute; reflexivity.
Qed.

Lemma plain_start : NewStore [] ε plain_config = Ok (E0, emptyStore).
Proof. vm_compute. reflexivity. Qed.

(** The process dies while the snapshot of the send is written. *)
Definition disk_before : Disk := {[state_path := "0"%stdpp]}.
Definition disk_torn : Disk := partial_alter (λ _, Some "{"%stdpp) (tmp state_path) disk_before.

Lemma crash_recovery_witness :
  ∃ q r, (q = before_send ∨ q = after_send) ∧
    NewPersistentStore (H:=toy_codec) state_path [] ε plain_config secret_order LoadOk disk_torn
      = Ok (E0, r) ∧ messages (inner r) = messages (inner q).
Proof.
  destruct (crash_recovery (H:=toy_codec) E0 state_path secret_order ltac:(vm_compute; discriminate)
    secret_order_ok [] ε plain_config emptyStore NoFault disk_before after_send before_send disk_torn plain_start)
    as (q & r & Hq & Hr & _ & _ & _ & Hm & _).
  - exists "0"%stdpp. split; vm_compute; reflexivity.
  - exact before_send_savable.
  - exact after_send_savable.
  - left. apply (crash_saving state_path NoFault disk_before after_send "1"%stdpp); [vm_compute; reflexivity|].
    eapply crash_later; [reflexivity|]. apply crash_torn. exists (Some "{"%stdpp). reflexivity.
  - exists q, r. exact (conj Hq (conj Hr Hm)).
Defined.

(** After a restart alice repeats her request, two seconds after the first. *)
Definition disk_after : Disk := {[state_path := "1"%stdpp]}.
Definition answered : Disk * PersistentStore * result PersistError (Message.t * bool) :=
  PSendMessage (H:=toy_codec) E0 state_path NoFault (order_of registered.2) (at_s 1) request1
    disk_before before_send.
Definition retried : Store * result Error.t (Message.t * bool) * option (string * string) :=
  sendMessage E0 None (order_of (restarted requested.2)) (at_s 3) request1 (restarted requested.2).

Lemma answered_eq : answered = (disk_after, after_send, Ok (request_message, false)).
Proof. vm_compute. reflexivity. Qed.

Lemma answered_send_survives_witness :
  match retried with
  | (_, Ok (m', dup), _) => dup = true ∧ Message.MessageID m' = Message.MessageID request_message
  | _ => False
  end.
Proof.
  destruct retried as [[s3 [[m' dup]|e]] rc] eqn:Hr; [|exfalso; revert Hr; vm_compute; discriminate].
  destruct (answered_send_survives (H:=toy_codec) E0 state_path secret_order ltac:(vm_compute; discriminate)
    secret_order_ok NoFault (order_of registered.2) (at_s 1) request1 disk_before before_send disk_after
    after_send request_message (order_of (restarted requested.2)) (at_s 1) (at_s 3) (restarted requested.2)
    None request1 s3 m' dup rc) as (q & Hq & _ & Hrest).
  - exact (sv_inv _ _ before_send_savable).
  - apply has_headroom_ok. vm_compute. reflexivity.
  - exact (sv_policy _ _ before_send_savable).
  - exact secrets_fine.
  - exact answered_eq.
  - exact (sv_codec _ _ after_send_savable).
  - assert (inner q = restarted requested.2) as Hin.
    { assert (load (H:=toy_codec) state_path secret_order LoadOk disk_after fresh =
        Ok (mkPS (restarted requested.2) secrets ε)) as Hl by (vm_compute; reflexivity).
      rewrite Hl in Hq. by injection Hq as <-. }
    rewrite Hin in Hrest. destruct Hrest as (Hd & Hid & _); try reflexivity.
    + vm_compute. discriminate.
    + vm_compute. discriminate.
    + exact Hr.
    + exact (conj Hd Hid).
Defined.
