(* ===== verification/Text.v ===== *)
(** * Text: what the HTTP layer and the utilities use of [strings],
    [strconv] and [net/url]

    [strings.EqualFold] is only used against a word without [k] and [s], the
    ASCII letters that non-ASCII ones fold to: it is a comparison of ASCII
    lower cases. *)
From stdpp Require Import gmap strings list.
From Stdlib Require Import ZArith Lia Ascii.
From S2P Require Import Prelude GoBase Utf8.

(** ** Prefixes and suffixes *)

Definition HasPrefix (s prefix : string) : bool := bool_decide (bytes prefix `prefix_of` bytes s).
Definition HasSuffix (s suffix : string) : bool := bool_decide (bytes suffix `suffix_of` bytes s).

Definition TrimPrefix (s prefix : string) : string :=
  if HasPrefix s prefix then of_bytes (drop (length (bytes prefix)) (bytes s)) else s.
Definition TrimSuffix (s suffix : string) : string :=
  if HasSuffix s suffix
  then of_bytes (take (length (bytes s) - length (bytes suffix)) (bytes s)) else s.

Definition EqualFold (s t : string) : bool := bool_decide (ToLower s = ToLower t).

Lemma TrimPrefix_app p s : TrimPrefix (p +:+ s) p = s.
Proof.
  unfold TrimPrefix, HasPrefix. rewrite bytes_app, bool_decide_eq_true_2 by by exists (bytes s).
  by rewrite drop_app_length, of_bytes_bytes.
Qed.

Lemma TrimSuffix_app s p : TrimSuffix (s +:+ p) p = s.
Proof.
  unfold TrimSuffix, HasSuffix. rewrite bytes_app, bool_decide_eq_true_2 by by exists (bytes s).
  rewrite length_app, Nat.add_sub, take_app_length. apply of_bytes_bytes.
Qed.

(** ** Text without white space *)

(** Graphic ASCII. *)
Definition graphic (c : ascii) : bool := (32 <? byte c) && (byte c <? 128).

Lemma lead_space_graphic s2 s3 l :
  (∀ a b, graphic a = true → graphic b = true → s2 a b = false) →
  (∀ a b c, graphic a = true → graphic b = true → graphic c = true → s3 a b c = false) →
  Forall (λ c, graphic c = true) l → lead_space s2 s3 l = false.
Proof.
  intros H2 H3 Hl. destruct l as [|a l]; [done|]. apply Forall_cons in Hl as [Ha Hl]. cbn [lead_space].
  assert (ascii_space a = false) as ->.
  { unfold graphic, ascii_space in *. prop_bool. cbn. repeat case_bool; prop_bool; lia. }
  destruct l as [|b l]; [done|]. apply Forall_cons in Hl as [Hb Hl]. rewrite H2 by done.
  destruct l as [|c l]; [done|]. apply Forall_cons in Hl as [Hc Hl]. by rewrite H3.
Qed.

Lemma space_graphic a b c :
  graphic a = true → graphic b = true → graphic c = true → space2 a b = false ∧ space3 a b c = false.
Proof.
  unfold graphic, space2, space3. cbv zeta. intros Ha Hb Hc. prop_bool.
  split; rewrite ?orb_false_iff, ?andb_false_iff, ?Z.eqb_neq; repeat split; left; try left; lia.
Qed.

Lemma TrimSpace_graphic s : Forall (λ c, graphic c = true) (bytes s) → TrimSpace s = s.
Proof.
  intros Hs. unfold TrimSpace, trim_left.
  rewrite trim_by_id by (apply lead_space_graphic; [..|done]; intros; by eapply space_graphic).
  unfold trim_right.
  rewrite trim_by_id.
  - by rewrite rev_involutive, of_bytes_bytes.
  - apply lead_space_graphic; [intros; by apply (space_graphic b a b)|intros; by eapply space_graphic|].
    by apply Forall_rev.
Qed.

(** ** [strconv.ParseInt(s, 10, 64)] *)

Inductive NumError := ErrSyntax | ErrRange.

Definition max_uint64 : Z := 2 ^ 64 - 1.

Definition is_digit (c : ascii) : bool := (48 <=? byte c) && (byte c <=? 57).

(** [ParseUint] from the digits read so far: a digit that overflows stops the
    scan before a later syntax error. *)
Fixpoint parse_digits (n : Z) (l : list ascii) : result NumError Z :=
  match l with
  | [] => Ok n
  | c :: l =>
      if negb (is_digit c) then Err ErrSyntax
      else if max_uint64 / 10 + 1 <=? n then Err ErrRange
      else
        let n := 10 * n + digit_value c in
        if max_uint64 <? n then Err ErrRange else parse_digits n l
  end.

Definition ParseUint (l : list ascii) : result NumError Z :=
  match l with [] => Err ErrSyntax | _ => parse_digits 0 l end.

Definition ParseInt (s : string) : result NumError Z :=
  let '(neg, digits) :=
    match bytes s with
    | "+"%char :: l => (false, l)
    | "-"%char :: l => (true, l)
    | l => (false, l)
    end in
  match ParseUint digits with
  | Err e => Err e
  | Ok un =>
      if negb neg && (2 ^ 63 <=? un) then Err ErrRange
      else if neg && (2 ^ 63 <? un) then Err ErrRange
      else Ok (if neg then - un else un)
  end.

(** [int] has 64 bits. *)
Definition Atoi := ParseInt.

Lemma is_digit_digit n : 0 ≤ n < 10 → is_digit (digit n) = true.
Proof.
  intros Hn. pose proof (digit_value_digit n Hn) as Hd. unfold digit_value in Hd.
  unfold is_digit. apply andb_true_iff. rewrite !Z.leb_le. lia.
Qed.

Lemma dec_digits_all fuel n acc :
  0 ≤ n → Forall (λ c, is_digit c = true) acc → Forall (λ c, is_digit c = true) (dec_digits fuel n acc).
Proof.
  revert n acc. induction fuel as [|fuel IH]; intros n acc Hn Ha; [done|]. cbn [dec_digits].
  assert (Forall (λ c, is_digit c = true) (digit (n mod 10) :: acc)).
  { constructor; [|done]. apply is_digit_digit, Z.mod_pos_bound. lia. }
  case_bool; [done|]. apply IH; [apply Z.div_pos; lia|done].
Qed.

Lemma decimal_value_ge l : ∀ v, 0 ≤ v → Forall (λ c, is_digit c = true) l → v ≤ decimal_value v l.
Proof.
  induction l as [|c l IH]; intros v Hv Hl; [cbn; lia|]. apply Forall_cons in Hl as [Hc Hl].
  change (decimal_value v (c :: l)) with (decimal_value (10 * v + digit_value c) l).
  assert (0 ≤ digit_value c) as Hd.
  { unfold is_digit in Hc. unfold digit_value. apply andb_true_iff in Hc. rewrite !Z.leb_le in Hc. lia. }
  etransitivity; [|apply IH; [lia|done]]. lia.
Qed.

Lemma parse_digits_value l : ∀ n,
  0 ≤ n → Forall (λ c, is_digit c = true) l → decimal_value n l ≤ max_uint64 →
  parse_digits n l = Ok (decimal_value n l).
Proof.
  induction l as [|c l IH]; intros n Hn Hl Hmax; [done|].
  apply Forall_cons in Hl as [Hc Hl]. cbn [parse_digits]. rewrite Hc. cbn [negb].
  change (decimal_value n (c :: l)) with (decimal_value (10 * n + digit_value c) l) in *.
  assert (0 ≤ digit_value c) as Hd.
  { unfold is_digit in Hc. unfold digit_value. apply andb_true_iff in Hc. rewrite !Z.leb_le in Hc. lia. }
  pose proof (decimal_value_ge l (10 * n + digit_value c) ltac:(lia) Hl) as Hge.
  assert (10 * n ≤ max_uint64) as H10 by lia.
  apply (Z.div_le_mono _ _ 10) in H10; [|lia]. rewrite Z.mul_comm, Z.div_mul in H10 by lia.
  rewrite (proj2 (Z.leb_gt _ _)) by lia. rewrite (proj2 (Z.ltb_ge _ _)) by lia.
  apply IH; [lia|done|done].
Qed.

Lemma decimal_head n : 0 ≤ n → ∃ c l, decimal n = c :: l ∧ is_digit c = true.
Proof.
  intros Hn. pose proof (dec_digits_all (S (Z.to_nat (Z.log2 n))) n [] Hn (Forall_nil_2 _)) as Hall.
  unfold decimal. destruct (dec_digits _ n []) as [|c l] eqn:E.
  - exfalso. assert (∀ fuel m acc, acc ≠ [] → dec_digits fuel m acc ≠ []) as Hne.
    { induction fuel as [|fuel IH]; intros m acc Ha; [done|]. cbn [dec_digits].
      case_bool; [done|]. by apply IH. }
    revert E. cbn [dec_digits]. case_bool; [done|]. by apply Hne.
  - apply Forall_cons in Hall as [Hc _]. eauto.
Qed.

Lemma ParseUint_decimal n : 0 ≤ n ≤ max_uint64 → ParseUint (decimal n) = Ok n.
Proof.
  intros [Hn Hmax]. destruct (decimal_head n Hn) as (c & l & Hd & _).
  assert (parse_digits 0 (decimal n) = Ok n) as Hp.
  { rewrite parse_digits_value; [by rewrite decimal_value_decimal|done| |by rewrite decimal_value_decimal].
    by apply dec_digits_all. }
  unfold ParseUint. rewrite Hd in *. exact Hp.
Qed.

(** What [strconv.Itoa] writes, [strconv.Atoi] reads back. *)
Lemma ParseInt_FormatInt n : int64_range n → ParseInt (FormatInt n) = Ok n.
Proof.
  unfold int64_range, min_int64, max_int64. intros Hn. unfold ParseInt, FormatInt. rewrite bytes_of_bytes.
  destruct (n <? 0) eqn:E; prop_bool.
  - rewrite ParseUint_decimal by (unfold max_uint64; lia). cbn [negb andb].
    rewrite (proj2 (Z.ltb_ge _ _)) by lia. f_equal. lia.
  - destruct (decimal_head n) as (c & l & Hd & Hc); [lia|].
    assert (∀ A (x y z : A), match decimal n with "+"%char :: l => x | "-"%char :: l => y | _ => z end = z) as Hsign.
    { intros. rewrite Hd. revert Hc. by destruct c as [[] [] [] [] [] [] [] []]. }
    assert (match decimal n with
            | "+"%char :: l => (false, l) | "-"%char :: l => (true, l) | l => (false, l) end
      = (false, decimal n)) as ->.
    { rewrite Hd. revert Hc. clear. by destruct c as [[] [] [] [] [] [] [] []]. }
    rewrite ParseUint_decimal by (unfold max_uint64; lia). cbn [negb andb].
    by rewrite (proj2 (Z.leb_gt _ _)) by lia.
Qed.

Lemma TrimSpace_FormatInt n : TrimSpace (FormatInt n) = FormatInt n.
Proof.
  apply TrimSpace_graphic. unfold FormatInt. rewrite bytes_of_bytes.
  assert (∀ m, 0 ≤ m → Forall (λ c, graphic c = true) (decimal m)) as Hd.
  { intros m Hm. eapply Forall_impl; [by apply dec_digits_all|].
    intros c. unfold is_digit, graphic. intros H. apply andb_true_iff in H. rewrite !Z.leb_le in H.
    apply andb_true_iff. rewrite !Z.ltb_lt. lia. }
  destruct (n <? 0) eqn:E; prop_bool; [|apply Hd; lia].
  apply Forall_cons. split; [reflexivity|apply Hd; lia].
Qed.

Example ParseInt_limits :
  ParseInt "9223372036854775807"%stdpp = Ok max_int64 ∧
  ParseInt "9223372036854775808"%stdpp = Err ErrRange ∧
  ParseInt "-9223372036854775808"%stdpp = Ok min_int64 ∧
  ParseInt "99999999999999999999x"%stdpp = Err ErrRange ∧ ParseInt "1x"%stdpp = Err ErrSyntax ∧
  ParseInt ε = Err ErrSyntax ∧ ParseInt "+7"%stdpp = Ok 7.
Proof. vm_compute. done. Qed.

(** ** [url.ParseQuery] and [url.Values] *)

(** [url.QueryUnescape] *)
Fixpoint unescape (l : list ascii) : option (list ascii) :=
  match l with
  | [] => Some []
  | "%"%char :: l =>
      match l with
      | a :: b :: l =>
          match hex_value a, hex_value b, unescape l with
          | Some x, Some y, Some r => Some (ascii_of_N (Z.to_N (16 * x + y)) :: r)
          | _, _, _ => None
          end
      | _ => None
      end
  | "+"%char :: l => cons " "%char <$> unescape l
  | c :: l => cons c <$> unescape l
  end.

Definition QueryUnescape (s : string) : option string := of_bytes <$> unescape (bytes s).

(** [url.PathUnescape]: a plus sign is itself. *)
Fixpoint unescape_path (l : list ascii) : option (list ascii) :=
  match l with
  | [] => Some []
  | "%"%char :: l =>
      match l with
      | a :: b :: l =>
          match hex_value a, hex_value b, unescape_path l with
          | Some x, Some y, Some r => Some (ascii_of_N (Z.to_N (16 * x + y)) :: r)
          | _, _, _ => None
          end
      | _ => None
      end
  | c :: l => cons c <$> unescape_path l
  end.

Definition PathUnescape (s : string) : option string := of_bytes <$> unescape_path (bytes s).

(** One setting between two ampersands; a malformed one is skipped. *)
Definition query_setting (setting : string) : option (string * string) :=
  if Contains setting ";"%char || is_empty setting then None
  else
    let '(key, value, _) := Cut setting "="%char in
    match QueryUnescape key, QueryUnescape value with
    | Some key, Some value => Some (key, value)
    | _, _ => None
    end.

Definition ParseQuery (raw : string) : list (string * string) :=
  omap query_setting (Split raw "&"%char).

(** [r.URL.Query().Get(key)]: the first value, or the empty string. *)
Definition query_get (raw key : string) : string :=
  match List.find (λ '(k, _), bool_decide (k = key)) (ParseQuery raw) with
  | Some (_, v) => v
  | None => ε
  end.

Example query_get_ex :
  query_get "agent_id=ucla.bob&cursor=12&x=%zz&wait=%31+0&cursor=9"%stdpp "cursor"%stdpp = "12"%stdpp ∧
  query_get "agent_id=ucla.bob&cursor=12&x=%zz&wait=%31+0"%stdpp "wait"%stdpp = "1 0"%stdpp ∧
  query_get "x=%zz&a;b=1"%stdpp "x"%stdpp = ε.
Proof. vm_compute. done. Qed.

(** *** Encoding *)

(** The bytes [url.QueryEscape] leaves alone. *)
Definition unreserved (c : ascii) : bool :=
  is_digit c || ((65 <=? byte c) && (byte c <=? 90)) || ((97 <=? byte c) && (byte c <=? 122))
  || bool_decide (c ∈ ["-"; "_"; "."; "~"]%char).

Definition upper_hex (n : Z) : ascii := ascii_of_N (Z.to_N (if n <? 10 then 48 + n else 55 + n)).

Definition escape_byte (c : ascii) : list ascii :=
  if unreserved c then [c]
  else if bool_decide (c = " "%char) then ["+"%char]
  else ["%"%char; upper_hex (byte c / 16); upper_hex (byte c mod 16)].

Definition QueryEscape (s : string) : string := of_bytes (bytes s ≫= escape_byte).

(** [url.Values.Encode] of one value per key, the keys in order. *)
Definition encode_setting (kv : string * string) : string :=
  QueryEscape kv.1 +:+ "="%stdpp +:+ QueryEscape kv.2.

Fixpoint join (sep : string) (l : list string) : string :=
  match l with
  | [] => ε
  | [s] => s
  | s :: l => s +:+ sep +:+ join sep l
  end.

Definition Encode (values : list (string * string)) : string := join "&"%stdpp (encode_setting <$> values).

Lemma hex_value_upper n : 0 ≤ n < 16 → hex_value (upper_hex n) = Some n.
Proof.
  intros Hn.
  assert (forallb (λ n, bool_decide (hex_value (upper_hex n) = Some n)) (seqZ 0 16) = true) as Hall
    by (vm_compute; reflexivity).
  rewrite forallb_forall in Hall. apply (bool_decide_eq_true_1 (hex_value (upper_hex n) = Some n)), Hall.
  apply list_elem_of_In, elem_of_seqZ. lia.
Qed.

Lemma unescape_escape_byte c l : unescape (escape_byte c ++ l) = cons c <$> unescape l.
Proof.
  unfold escape_byte. destruct (unreserved c) eqn:Hu.
  - cbn [app]. destruct c as [[] [] [] [] [] [] [] []]; try done; by vm_compute in Hu.
  - case_bool_decide as Hs; [by subst|]. cbn [app unescape].
    pose proof (byte_range c). rewrite !hex_value_upper;
      [|apply Z.mod_pos_bound; lia|split; [apply Z.div_pos; lia|apply Z.div_lt_upper_bound; lia]].
    rewrite <-Z.div_mod by lia. rewrite ascii_of_byte. by destruct (unescape l).
Qed.

Lemma QueryUnescape_Escape s : QueryUnescape (QueryEscape s) = Some s.
Proof.
  unfold QueryUnescape, QueryEscape. rewrite bytes_of_bytes.
  assert (unescape (bytes s ≫= escape_byte) = Some (bytes s)) as ->; [|cbn; by rewrite of_bytes_bytes].
  induction (bytes s) as [|c l IH]; [done|]. rewrite bind_cons, unescape_escape_byte, IH. done.
Qed.

(** Escaped text holds none of the separators. *)
Lemma escape_plain c x : x ∈ escape_byte c → x ∉ ["&"; "="; ";"]%char.
Proof.
  unfold escape_byte. destruct (unreserved c) eqn:Hu.
  - intros ->%list_elem_of_singleton Hx.
    repeat (apply elem_of_cons in Hx; destruct Hx as [Hx|Hx]; [by rewrite Hx in Hu|]).
    by apply not_elem_of_nil in Hx.
  - case_bool_decide; [by intros ->%list_elem_of_singleton; vm_compute; set_solver|].
    assert (∀ n, 0 ≤ n < 16 → upper_hex n ∉ ["&"; "="; ";"]%char) as Hh.
    { intros n Hn Hx. pose proof (hex_value_upper n Hn) as Hv.
      repeat (apply elem_of_cons in Hx; destruct Hx as [Hx|Hx]; [by rewrite Hx in Hv|]). by apply not_elem_of_nil in Hx. }
    pose proof (byte_range c).
    intros Hx. rewrite !elem_of_cons in Hx. destruct Hx as [->|[->|[->|Hx]]].
    + by vm_compute; set_solver.
    + apply Hh. split; [apply Z.div_pos; lia|apply Z.div_lt_upper_bound; lia].
    + apply Hh, Z.mod_pos_bound. lia.
    + by apply not_elem_of_nil in Hx.
Qed.

Lemma QueryEscape_plain s x : x ∈ bytes (QueryEscape s) → x ∉ ["&"; "="; ";"]%char.
Proof.
  unfold QueryEscape. rewrite bytes_of_bytes. intros (c & Hc & _)%list_elem_of_bind.
  by apply escape_plain in Hc.
Qed.

(** *** Reading back an encoded query *)

Lemma split_bytes_free sep l : sep ∉ l → split_bytes sep l = [l].
Proof.
  induction l as [|c l IH]; intros Hl; cbn; [done|]. apply not_elem_of_cons in Hl as [? Hl].
  rewrite bool_decide_eq_false_2 by done. by rewrite IH.
Qed.

Lemma split_bytes_app sep l r : sep ∉ l → split_bytes sep (l ++ sep :: r) = l :: split_bytes sep r.
Proof.
  induction l as [|c l IH]; intros Hl; cbn; [by rewrite bool_decide_eq_true_2|].
  apply not_elem_of_cons in Hl as [? Hl]. rewrite bool_decide_eq_false_2 by done. by rewrite IH.
Qed.

Lemma Split_join sep l :
  l ≠ [] → Forall (λ s, sep ∉ bytes s) l → Split (join (String sep ε) l) sep = l.
Proof.
  intros Hne Hl. induction l as [|s l IH]; [done|]. apply Forall_cons in Hl as [Hs Hl].
  unfold Split in *. destruct l as [|s' l].
  - cbn [join]. rewrite split_bytes_free by done. cbn. by rewrite of_bytes_bytes.
  - change (join (String sep ε) (s :: s' :: l)) with (s +:+ String sep ε +:+ join (String sep ε) (s' :: l)).
    rewrite !bytes_app. change (bytes (String sep ε)) with [sep]. cbn [app].
    rewrite split_bytes_app by done. cbn [map]. rewrite of_bytes_bytes. f_equal. by apply IH.
Qed.

Lemma encode_setting_plain kv : "&"%char ∉ bytes (encode_setting kv) ∧ ";"%char ∉ bytes (encode_setting kv).
Proof.
  unfold encode_setting. rewrite !bytes_app, !elem_of_app. change (bytes "="%stdpp) with ["="%char].
  split; intros [Hx|[Hx|Hx]]; (by apply QueryEscape_plain in Hx; set_solver) || (by apply list_elem_of_singleton in Hx).
Qed.

Lemma query_setting_encode kv : query_setting (encode_setting kv) = Some kv.
Proof.
  unfold query_setting, Contains. destruct (encode_setting_plain kv) as [_ Hsemi].
  rewrite bool_decide_eq_false_2 by done. cbn [orb].
  assert (is_empty (encode_setting kv) = false) as ->.
  { unfold is_empty. apply bool_decide_eq_false. intros He. apply (f_equal bytes) in He.
    unfold encode_setting in He. rewrite !bytes_app in He. by apply app_eq_nil in He as [_ He]. }
  unfold Cut, encode_setting. rewrite !bytes_app. change (bytes "="%stdpp) with ["="%char]. cbn [app].
  rewrite cut_bytes_app by (intros Hx; apply QueryEscape_plain in Hx; set_solver).
  rewrite !of_bytes_bytes, !QueryUnescape_Escape. by destruct kv.
Qed.

(** What [Encode] writes, [ParseQuery] reads. *)
Lemma ParseQuery_Encode values : values ≠ [] → ParseQuery (Encode values) = values.
Proof.
  intros Hne. unfold ParseQuery, Encode. change "&"%stdpp with (String "&"%char ε).
  rewrite Split_join; [|by destruct values|].
  - clear Hne. induction values as [|kv values IH]; [done|]. rewrite fmap_cons. cbn [omap list_omap].
    rewrite query_setting_encode. by f_equal.
  - apply Forall_fmap, Forall_forall. intros kv _. apply encode_setting_plain.
Qed.

Lemma query_get_Encode values key :
  values ≠ [] →
  query_get (Encode values) key =
    match List.find (λ '(k, _), bool_decide (k = key)) values with Some (_, v) => v | None => ε end.
Proof. intros Hne. unfold query_get. by rewrite ParseQuery_Encode. Qed.
