(* ===== verification/Rfc3339.v ===== *)
(** * Timestamps as text: [timeToString] and [parseSQLiteTime]

    The SQLite backend stores an instant as its RFC 3339 text in UTC, with the
    fraction of the second cut after its last non-zero digit
    ([time.RFC3339Nano]), the zero instant as the empty text, and compares
    columns as byte strings.  Here: the calendar of package [time], the format,
    its reader, that the reader undoes the format, and how far the order of the
    texts is the order of the instants. *)
From stdpp Require Import gmap strings list.
From Stdlib Require Import ZArith Lia Ascii.
From S2P Require Import Prelude GoBase Text.

(** ** The calendar

    Days are counted from January 1 of year 1, in the proleptic Gregorian
    calendar. *)

Definition leap (year : Z) : bool :=
  (year mod 4 =? 0) && (negb (year mod 100 =? 0) || (year mod 400 =? 0)).

(** Days before the year. *)
Definition days_before (year : Z) : Z :=
  let y := year - 1 in 365 * y + y / 4 - y / 100 + y / 400.

(** The year of a day and the day's index in it: 400-year cycles, then
    centuries, four-year cycles and years, the last of which may be one day
    longer. *)
Definition year_day (day : Z) : Z * Z :=
  let n400 := day / 146097 in
  let d := day mod 146097 in
  let n100 := Z.min (d / 36524) 3 in
  let d := d - 36524 * n100 in
  let n4 := d / 1461 in
  let d := d - 1461 * n4 in
  let n1 := Z.min (d / 365) 3 in
  (400 * n400 + 100 * n100 + 4 * n4 + n1 + 1, d - 365 * n1).

Definition month_lengths (year : Z) : list Z :=
  [31; if leap year then 29 else 28; 31; 30; 31; 30; 31; 31; 30; 31; 30; 31].

(** The month, from 1, and the day of the month, from 1. *)
Fixpoint month_day (month : Z) (d : Z) (lengths : list Z) : Z * Z :=
  match lengths with
  | [] => (month, d + 1)
  | l :: lengths => if d <? l then (month, d + 1) else month_day (month + 1) (d - l) lengths
  end.

Module Civil.
Record t := mk { Year : Z; Month : Z; Day : Z }.
End Civil.

Definition civil_of_day (day : Z) : Civil.t :=
  let '(year, yday) := year_day day in
  let '(month, mday) := month_day 1 yday (month_lengths year) in
  Civil.mk year month mday.

Definition day_of_civil (c : Civil.t) : Z :=
  days_before (Civil.Year c)
  + zsum id (take (Z.to_nat (Civil.Month c - 1)) (month_lengths (Civil.Year c)))
  + (Civil.Day c - 1).

(** The month is one of the twelve and has the day. *)
Definition civil_ok (c : Civil.t) : Prop :=
  ∃ l, 0 < Civil.Month c ∧
       month_lengths (Civil.Year c) !! Z.to_nat (Civil.Month c - 1) = Some l ∧
       1 ≤ Civil.Day c ≤ l.

Lemma leap_days year : days_before (year + 1) = days_before year + (if leap year then 366 else 365).
Proof.
  unfold days_before, leap. replace (year + 1 - 1) with year by lia.
  destruct (year mod 4 =? 0) eqn:E4, (year mod 100 =? 0) eqn:E100, (year mod 400 =? 0) eqn:E400;
    cbn [andb orb negb]; prop_bool; Z.div_mod_to_equations; lia.
Qed.

Lemma year_length year : zsum id (month_lengths year) = if leap year then 366 else 365.
Proof. unfold month_lengths. by destruct (leap year). Qed.

Lemma year_day_spec day year yday :
  year_day day = (year, yday) →
  day = days_before year + yday ∧ 0 ≤ yday < (if leap year then 366 else 365).
Proof.
  unfold year_day. cbv zeta.
  set (d := day mod 146097). assert (0 ≤ d < 146097) by (apply Z.mod_pos_bound; lia).
  set (n100 := Z.min (d / 36524) 3). set (d1 := d - 36524 * n100).
  assert (0 ≤ n100 ≤ 3 ∧ 0 ≤ d1 ∧ (n100 < 3 → d1 < 36524) ∧ d1 ≤ 36524) as (H100 & Hd1 & Hd1' & Hd1'').
  { unfold d1, n100. pose proof (Z.div_mod d 36524). pose proof (Z.mod_pos_bound d 36524). lia. }
  set (n4 := d1 / 1461). set (d2 := d1 - 1461 * n4).
  assert (0 ≤ n4 ≤ 24 ∧ 0 ≤ d2 < 1461 ∧ (n4 = 24 → n100 < 3 → d2 < 1460)) as (H4 & Hd2 & Hd2').
  { unfold d2, n4. pose proof (Z.div_mod d1 1461). pose proof (Z.mod_pos_bound d1 1461). lia. }
  set (n1 := Z.min (d2 / 365) 3). set (d3 := d2 - 365 * n1).
  assert (0 ≤ n1 ≤ 3 ∧ 0 ≤ d3 ≤ 365 ∧ (d3 = 365 → n1 = 3 ∧ d2 = 1460)) as (H1 & Hd3 & Hd3').
  { unfold d3, n1. pose proof (Z.div_mod d2 365). pose proof (Z.mod_pos_bound d2 365). lia. }
  intros [= <- <-]. fold d3. set (n400 := day / 146097).
  assert (day = 146097 * n400 + d) as Hday by (apply Z.div_mod; lia).
  set (year := 400 * n400 + 100 * n100 + 4 * n4 + n1 + 1).
  assert (year - 1 = 4 * (100 * n400 + 25 * n100 + n4) + n1) as Y4 by lia.
  assert ((year - 1) / 4 = 100 * n400 + 25 * n100 + n4) as Q4 by (rewrite Y4; Z.div_mod_to_equations; lia).
  assert ((year - 1) / 100 = 4 * n400 + n100) as Q100 by (unfold year; Z.div_mod_to_equations; lia).
  assert ((year - 1) / 400 = n400) as Q400 by (unfold year; Z.div_mod_to_equations; lia).
  split. { unfold days_before. cbv zeta. rewrite Q4, Q100, Q400. unfold year. lia. }
  destruct (decide (d3 = 365)) as [Hl|]; [|case_bool; lia].
  destruct (Hd3' Hl) as [-> ?].
  assert (leap year = true) as ->; [|lia].
  unfold leap. apply andb_true_iff; split; [|apply orb_true_iff; rewrite negb_true_iff].
  - apply Z.eqb_eq. Z.div_mod_to_equations. lia.
  - destruct (decide (n4 = 24)) as [H24|].
    + right. apply Z.eqb_eq. assert (n100 = 3) by lia. Z.div_mod_to_equations. lia.
    + left. apply Z.eqb_neq. unfold year in *. Z.div_mod_to_equations. lia.
Qed.

Lemma month_lengths_pos year : Forall (λ l, 28 ≤ l ≤ 31) (month_lengths year).
Proof. unfold month_lengths. destruct (leap year); repeat constructor; lia. Qed.

Lemma month_day_spec lengths : ∀ month d m md,
  Forall (λ l, 0 < l) lengths → 0 ≤ d < zsum id lengths → month_day month d lengths = (m, md) →
  ∃ (i : nat) l, m = month + Z.of_nat i ∧ lengths !! i = Some l ∧ 1 ≤ md ≤ l ∧
        d = zsum id (take i lengths) + (md - 1).
Proof.
  induction lengths as [|l lengths IH]; intros month d m md Hall Hd; cbn [month_day].
  { cbn in Hd. lia. }
  apply Forall_cons in Hall as [Hl Hall]. rewrite zsum_cons in Hd. unfold id at 1 in Hd.
  case_bool; prop_bool.
  - intros [= <- <-]. exists 0%nat, l. cbn. split_and!; [lia|done|lia|lia|lia].
  - intros Hm. apply IH in Hm as (i & l' & -> & Hi & Hmd & Hd'); [|done|lia].
    exists (S i), l'. rewrite firstn_cons, zsum_cons. unfold id at 1.
    split_and!; [lia|done|lia|lia|lia].
Qed.

(** Every day has a date, and the date names the day. *)
Lemma civil_of_day_spec day : civil_ok (civil_of_day day) ∧ day_of_civil (civil_of_day day) = day.
Proof.
  unfold civil_of_day. destruct (year_day day) as [year yday] eqn:Ey.
  apply year_day_spec in Ey as [-> Hd]. rewrite <-year_length in Hd.
  destruct (month_day 1 yday (month_lengths year)) as [m md] eqn:Em.
  apply month_day_spec in Em as (i & l & -> & Hi & Hmd & ->); [|
    eapply Forall_impl; [apply month_lengths_pos|cbn; lia]|done].
  unfold civil_ok, day_of_civil; cbn [Civil.Year Civil.Month Civil.Day].
  replace (Z.to_nat (1 + Z.of_nat i - 1)) with i by lia.
  split; [exists l; split_and!; [lia|done|lia|lia]|lia].
Qed.

(** Later dates name later days. *)
Lemma zsum_months_nonneg i k year : 0 ≤ zsum id (take k (drop i (month_lengths year))).
Proof.
  pose proof (month_lengths_pos year) as Hall.
  apply (Forall_drop _ i), (Forall_take _ k) in Hall.
  induction Hall as [|x l Hx _ IH]; [done|]. rewrite zsum_cons. unfold id at 1. lia.
Qed.

Lemma take_month_lt year i j l :
  (i < j)%nat → month_lengths year !! i = Some l →
  zsum id (take i (month_lengths year)) + l ≤ zsum id (take j (month_lengths year)).
Proof.
  intros Hij Hl. replace j with (S i + (j - S i))%nat by lia.
  rewrite <-(take_take_drop _ (S i)), zsum_app, (take_S_r _ i l) by done.
  rewrite zsum_app, zsum_cons. pose proof (zsum_months_nonneg (S i) (j - S i) year).
  change (zsum id []) with 0. change (id l) with l. lia.
Qed.

Lemma day_in_year c :
  civil_ok c → days_before (Civil.Year c) ≤ day_of_civil c < days_before (Civil.Year c + 1).
Proof.
  intros (l & Hm & Hl & Hd). rewrite leap_days, <-year_length. unfold day_of_civil.
  pose proof (lookup_lt_Some _ _ _ Hl) as Hlt.
  pose proof (take_month_lt _ _ _ _ Hlt Hl) as Hle. rewrite firstn_all in Hle.
  pose proof (zsum_months_nonneg 0 (Z.to_nat (Civil.Month c - 1)) (Civil.Year c)) as Hp.
  rewrite drop_0 in Hp. lia.
Qed.

Lemma days_before_mono y z : y ≤ z → days_before y ≤ days_before z.
Proof. unfold days_before. cbv zeta. intros. Z.div_mod_to_equations. lia. Qed.

Definition civil_compare (c d : Civil.t) : comparison :=
  match Civil.Year c ?= Civil.Year d with
  | Eq => match Civil.Month c ?= Civil.Month d with
          | Eq => Civil.Day c ?= Civil.Day d
          | r => r
          end
  | r => r
  end.

Lemma civil_compare_opp c d : civil_compare d c = CompOpp (civil_compare c d).
Proof.
  unfold civil_compare. rewrite (Z.compare_antisym (Civil.Year c)).
  destruct (Civil.Year c ?= Civil.Year d); cbn; [|done|done].
  rewrite (Z.compare_antisym (Civil.Month c)).
  destruct (Civil.Month c ?= Civil.Month d); cbn; [|done|done]. apply Z.compare_antisym.
Qed.

Lemma civil_compare_lt c d :
  civil_ok c → civil_ok d → civil_compare c d = Lt → day_of_civil c < day_of_civil d.
Proof.
  intros Hc Hd. pose proof (day_in_year _ Hc). pose proof (day_in_year _ Hd).
  destruct Hc as (l & Hm & Hl & Hday), Hd as (l' & Hm' & Hl' & Hday'). unfold civil_compare.
  destruct (Z.compare_spec (Civil.Year c) (Civil.Year d)) as [Hy|Hy|]; [| |done].
  - destruct c as [y m dd], d as [y' m' dd']; cbn in *. subst y'.
    destruct (Z.compare_spec m m') as [<-|Hmm|]; [| |done].
    + rewrite Z.compare_lt_iff. unfold day_of_civil; cbn. lia.
    + intros _. unfold day_of_civil; cbn [Civil.Year Civil.Month Civil.Day].
      pose proof (take_month_lt y (Z.to_nat (m - 1)) (Z.to_nat (m' - 1)) l ltac:(lia) Hl). lia.
  - intros _. pose proof (days_before_mono (Civil.Year c + 1) (Civil.Year d) ltac:(lia)). lia.
Qed.

(** The order of dates is the order of days. *)
Lemma civil_of_day_compare a b : civil_compare (civil_of_day a) (civil_of_day b) = (a ?= b).
Proof.
  destruct (civil_of_day_spec a) as [Ha Da], (civil_of_day_spec b) as [Hb Db].
  destruct (civil_compare (civil_of_day a) (civil_of_day b)) eqn:E; symmetry.
  - apply Z.compare_eq_iff. unfold civil_compare in E.
    destruct (Z.compare_spec (Civil.Year (civil_of_day a)) (Civil.Year (civil_of_day b))) as [Ey|?|?];
      [|done..].
    destruct (Z.compare_spec (Civil.Month (civil_of_day a)) (Civil.Month (civil_of_day b))) as [Em|?|?];
      [|done..].
    apply Z.compare_eq_iff in E. rewrite <-Da, <-Db. unfold day_of_civil. by rewrite Ey, Em, E.
  - apply Z.compare_lt_iff. rewrite <-Da, <-Db. by apply civil_compare_lt.
  - apply Z.compare_gt_iff. rewrite <-Da, <-Db. apply civil_compare_lt; [done..|].
    by rewrite civil_compare_opp, E.
Qed.

(** ** Formatting *)

(** The last [w] decimal digits. *)
Fixpoint digits (w : nat) (n : Z) : list ascii :=
  match w with
  | O => []
  | S w => digits w (n / 10) ++ [digit (n mod 10)]
  end.

(** [appendInt(b, n, w)]: at least [w] digits. *)
Definition append_int (w : nat) (n : Z) : list ascii :=
  let pad n := if n <? 10 ^ Z.of_nat w then digits w n else decimal n in
  if n <? 0 then "-"%char :: pad (- n) else pad n.

(** The fraction after the point without its trailing zeros. *)
Fixpoint strip_zeros (l : list ascii) : list ascii :=
  match l with
  | [] => []
  | c :: l =>
      match strip_zeros l with
      | [] => if bool_decide (c = "0"%char) then [] else [c]
      | l => c :: l
      end
  end.

Definition append_nano (nsec : Z) : list ascii :=
  match strip_zeros (digits 9 nsec) with
  | [] => []
  | l => "."%char :: l
  end.

Module Clock.
Record t := mk { Date : Civil.t; Hour : Z; Minute : Z; Sec : Z }.
End Clock.

(** The date and time of day of a count of seconds. *)
Definition clock_of (sec : Z) : Clock.t :=
  let s := sec mod 86400 in
  Clock.mk (civil_of_day (sec / 86400)) (s / 3600) (s mod 3600 / 60) (s mod 60).

Definition seconds_of (c : Clock.t) : Z :=
  86400 * day_of_civil (Clock.Date c) + 3600 * Clock.Hour c + 60 * Clock.Minute c + Clock.Sec c.

(** [2006-01-02T15:04:05] *)
Definition append_clock (c : Clock.t) : list ascii :=
  append_int 4 (Civil.Year (Clock.Date c)) ++ "-"%char
  :: append_int 2 (Civil.Month (Clock.Date c)) ++ "-"%char
  :: append_int 2 (Civil.Day (Clock.Date c)) ++ "T"%char
  :: append_int 2 (Clock.Hour c) ++ ":"%char
  :: append_int 2 (Clock.Minute c) ++ ":"%char
  :: append_int 2 (Clock.Sec c).

(** [t.UTC().Format(time.RFC3339Nano)] *)
Definition Format (t : Time) : list ascii :=
  append_clock (clock_of (t / Second)) ++ append_nano (t mod Second) ++ ["Z"%char].

Definition timeToString (t : Time) : string :=
  if IsZero t then ε else of_bytes (Format t).

(** ** Parsing

    The strict parser [time.Parse] tries first for this layout.  Texts it
    rejects and the general parser of package [time] accepts, such as one with
    a comma before the fraction, are not written by the store; here they are
    errors. *)

Definition take_uint (w : nat) (lo hi : Z) (l : list ascii) : option (Z * list ascii) :=
  let d := take w l in
  let n := decimal_value 0 d in
  if bool_decide (length d = w) && forallb is_digit d && (lo <=? n) && (n <=? hi)
  then Some (n, drop w l) else None.

Definition expect (c : ascii) (l : list ascii) : option (list ascii) :=
  match l with
  | c' :: l => if bool_decide (c' = c) then Some l else None
  | [] => None
  end.

Fixpoint span_digits (l : list ascii) : list ascii * list ascii :=
  match l with
  | c :: l' => if is_digit c then let '(d, r) := span_digits l' in (c :: d, r) else ([], l)
  | [] => ([], [])
  end.

(** At most nine digits count, scaled to nanoseconds. *)
Definition take_nano (l : list ascii) : Z * list ascii :=
  match l with
  | c :: l' =>
      if bool_decide (c = "."%char) then
        match span_digits l' with
        | ([], _) => (0, l)
        | (d, r) => let d := take 9 d in
                    (decimal_value 0 d * 10 ^ Z.of_nat (9 - length d), r)
        end
      else (0, l)
  | [] => (0, [])
  end.

(** The offset of the zone, in seconds. *)
Definition take_zone (l : list ascii) : option Z :=
  if bool_decide (l = ["Z"%char]) then Some 0 else
  match l with
  | sign :: l =>
      '(h, l) ← take_uint 2 0 23 l;
      l ← expect ":"%char l;
      '(m, l) ← take_uint 2 0 59 l;
      if negb (bool_decide (l = [])) then None
      else if bool_decide (sign = "+"%char) then Some (60 * (60 * h + m))
      else if bool_decide (sign = "-"%char) then Some (- (60 * (60 * h + m)))
      else None
  | [] => None
  end.

(** [daysIn] *)
Definition days_in (month year : Z) : Z := default 0 (month_lengths year !! Z.to_nat (month - 1)).

Definition take_clock (l : list ascii) : option (Clock.t * list ascii) :=
  '(year, l) ← take_uint 4 0 9999 l;
  l ← expect "-"%char l;
  '(month, l) ← take_uint 2 1 12 l;
  l ← expect "-"%char l;
  '(day, l) ← take_uint 2 1 (days_in month year) l;
  l ← expect "T"%char l;
  '(hour, l) ← take_uint 2 0 23 l;
  l ← expect ":"%char l;
  '(minute, l) ← take_uint 2 0 59 l;
  l ← expect ":"%char l;
  '(sec, l) ← take_uint 2 0 59 l;
  Some (Clock.mk (Civil.mk year month day) hour minute sec, l).

Definition Parse (l : list ascii) : option Time :=
  '(c, l) ← take_clock l;
  let '(nsec, l) := take_nano l in
  offset ← take_zone l;
  Some ((seconds_of c - offset) * Second + nsec).

Definition parseSQLiteTime (raw : string) : option Time :=
  if is_empty (TrimSpace raw) then Some 0 else Parse (bytes raw).

Example Format_epoch : timeToString (unix_epoch * Second) = "1970-01-01T00:00:00Z"%stdpp.
Proof. reflexivity. Qed.
Example Format_leap :
  timeToString ((unix_epoch + 951782400) * Second + 120 * Millisecond)
  = "2000-02-29T00:00:00.12Z"%stdpp.
Proof. reflexivity. Qed.
Example Parse_offset :
  parseSQLiteTime "2024-12-31T23:59:59.5-08:00"%stdpp
  = Some ((unix_epoch + 1735718399) * Second + 500 * Millisecond).
Proof. reflexivity. Qed.
Example Parse_no_such_day : parseSQLiteTime "2023-02-29T00:00:00Z"%stdpp = None.
Proof. reflexivity. Qed.

(** ** Digits *)

Lemma length_digits w n : length (digits w n) = w.
Proof. revert n. induction w as [|w IH]; intros n; cbn; [done|]. rewrite length_app, IH. cbn. lia. Qed.

Lemma digits_all w n : 0 ≤ n → Forall (λ c, is_digit c = true) (digits w n).
Proof.
  revert n. induction w as [|w IH]; intros n Hn; cbn; [constructor|].
  apply Forall_app; split; [by apply IH, Z.div_pos|].
  repeat constructor. apply is_digit_digit. apply Z.mod_pos_bound. lia.
Qed.

Lemma decimal_value_snoc v l c : decimal_value v (l ++ [c]) = 10 * decimal_value v l + digit_value c.
Proof. unfold decimal_value. by rewrite foldl_app. Qed.

Lemma digits_value w n : 0 ≤ n < 10 ^ Z.of_nat w → decimal_value 0 (digits w n) = n.
Proof.
  revert n. induction w as [|w IH]; intros n Hn; cbn [digits].
  - cbn in *. lia.
  - rewrite Nat2Z.inj_succ, Z.pow_succ_r in Hn by lia. rewrite decimal_value_snoc, IH.
    + rewrite digit_value_digit by (apply Z.mod_pos_bound; lia). pose proof (Z.div_mod n 10). lia.
    + split; [apply Z.div_pos; lia|]. apply Z.div_lt_upper_bound; lia.
Qed.

Lemma append_int_digits w n : 0 ≤ n < 10 ^ Z.of_nat w → append_int w n = digits w n.
Proof.
  intros Hn. unfold append_int. rewrite (proj2 (Z.ltb_ge _ _)) by lia.
  by rewrite (proj2 (Z.ltb_lt _ _)) by lia.
Qed.

Lemma take_uint_digits w lo hi n l :
  0 ≤ n < 10 ^ Z.of_nat w → lo ≤ n ≤ hi → take_uint w lo hi (digits w n ++ l) = Some (n, l).
Proof.
  intros Hn Hb. unfold take_uint. cbv zeta.
  rewrite take_app_length', drop_app_length' by (symmetry; apply length_digits).
  rewrite digits_value, length_digits by done. rewrite bool_decide_eq_true_2 by done.
  rewrite (proj2 (Z.leb_le _ _)), (proj2 (Z.leb_le _ _)) by lia.
  assert (forallb is_digit (digits w n) = true) as ->; [|done].
  apply Is_true_true, forallb_True. eapply Forall_impl; [apply digits_all; lia|]. by intros c ->.
Qed.

(** ** The reader undoes the format *)

Definition clock_ok (c : Clock.t) : Prop :=
  civil_ok (Clock.Date c) ∧ 0 ≤ Clock.Hour c < 24 ∧ 0 ≤ Clock.Minute c < 60 ∧ 0 ≤ Clock.Sec c < 60.

Lemma clock_of_spec sec : clock_ok (clock_of sec) ∧ seconds_of (clock_of sec) = sec.
Proof.
  unfold clock_of, clock_ok, seconds_of; cbn [Clock.Date Clock.Hour Clock.Minute Clock.Sec].
  destruct (civil_of_day_spec (sec / 86400)) as [Hc ->].
  split; [split; [done|]|]; Z.div_mod_to_equations; lia.
Qed.

Lemma civil_fields c : civil_ok c → 1 ≤ Civil.Month c ≤ 12 ∧ 1 ≤ Civil.Day c ≤ 31 ∧
  Civil.Day c ≤ days_in (Civil.Month c) (Civil.Year c).
Proof.
  intros (l & Hm & Hl & Hd). pose proof (lookup_lt_Some _ _ _ Hl) as Hlen.
  unfold month_lengths in Hlen; cbn in Hlen.
  pose proof (proj1 (Forall_lookup _ _) (month_lengths_pos (Civil.Year c)) _ _ Hl) as Hb. cbn in Hb.
  unfold days_in. rewrite Hl. cbn. lia.
Qed.

(** The years with four digits. *)
Definition year_ok (c : Clock.t) : Prop := 0 ≤ Civil.Year (Clock.Date c) ≤ 9999.

Lemma append_clock_digits c :
  clock_ok c → year_ok c →
  append_clock c =
  digits 4 (Civil.Year (Clock.Date c)) ++ "-"%char :: digits 2 (Civil.Month (Clock.Date c))
  ++ "-"%char :: digits 2 (Civil.Day (Clock.Date c)) ++ "T"%char :: digits 2 (Clock.Hour c)
  ++ ":"%char :: digits 2 (Clock.Minute c) ++ ":"%char :: digits 2 (Clock.Sec c).
Proof.
  intros (Hc & Hh & Hm & Hs) Hy. pose proof (civil_fields _ Hc). unfold year_ok in Hy.
  unfold append_clock. by rewrite !append_int_digits by (cbn; lia).
Qed.

Lemma expect_eq c l : expect c (c :: l) = Some l.
Proof. cbn. by rewrite bool_decide_eq_true_2. Qed.

Lemma take_clock_append c l :
  clock_ok c → year_ok c → take_clock (append_clock c ++ l) = Some (c, l).
Proof.
  intros Hc Hy. rewrite append_clock_digits by done.
  destruct Hc as (Hc & Hh & Hm & Hs). pose proof (civil_fields _ Hc). unfold year_ok in Hy.
  unfold take_clock.
  repeat (rewrite <-app_assoc; cbn [app]).
  repeat (first [rewrite take_uint_digits by (cbn; lia) | rewrite expect_eq]; cbn [mbind option_bind]).
  by destruct c as [[]].
Qed.

Lemma strip_zeros_app l : ∃ k, l = strip_zeros l ++ replicate k "0"%char.
Proof.
  induction l as [|c l [k IH]]; cbn; [by exists 0%nat|].
  destruct (strip_zeros l) as [|d r] eqn:E.
  - case_bool_decide as Hc.
    + exists (S k). subst c. cbn. by rewrite IH.
    + exists k. by rewrite IH.
  - exists k. by rewrite IH.
Qed.

Lemma decimal_value_zeros v k : decimal_value v (replicate k "0"%char) = v * 10 ^ Z.of_nat k.
Proof.
  induction k as [|k IH]; [cbn; lia|]. rewrite replicate_S_end, decimal_value_snoc, IH.
  rewrite Nat2Z.inj_succ, Z.pow_succ_r by lia. change (digit_value "0") with 0. lia.
Qed.

Lemma span_digits_app d l :
  Forall (λ c, is_digit c = true) d → (∀ c l', l = c :: l' → is_digit c = false) →
  span_digits (d ++ l) = (d, l).
Proof.
  intros Hd Hl. induction Hd as [|c d Hc _ IH]; cbn.
  - destruct l as [|c l]; [done|]. cbn. by rewrite (Hl c l).
  - by rewrite Hc, IH.
Qed.

Lemma take_nano_append nsec :
  0 ≤ nsec < Second → take_nano (append_nano nsec ++ ["Z"%char]) = (nsec, ["Z"%char]).
Proof.
  intros Hn. change Second with (10 ^ Z.of_nat 9) in Hn. unfold append_nano.
  destruct (strip_zeros_app (digits 9 nsec)) as [k Hk].
  pose proof (digits_value 9 nsec Hn) as Hv. pose proof (length_digits 9 nsec) as Hlen.
  pose proof (digits_all 9 nsec (proj1 Hn)) as Hall.
  rewrite Hk in Hv, Hlen, Hall. unfold decimal_value in Hv. rewrite foldl_app in Hv.
  fold (decimal_value 0 (strip_zeros (digits 9 nsec))) in Hv.
  fold (decimal_value (decimal_value 0 (strip_zeros (digits 9 nsec))) (replicate k "0"%char)) in Hv.
  rewrite decimal_value_zeros in Hv. rewrite length_app, length_replicate in Hlen.
  apply Forall_app in Hall as [Hall _].
  destruct (strip_zeros (digits 9 nsec)) as [|c l] eqn:E.
  - cbn in *. by rewrite <-Hv.
  - cbn [app take_nano]. rewrite bool_decide_eq_true_2 by done.
    change (c :: l ++ ["Z"%char]) with ((c :: l) ++ ["Z"%char]).
    rewrite span_digits_app by (done || by intros ?? [= <- <-]).
    cbv zeta. rewrite (take_ge (c :: l)) by lia. f_equal. rewrite <-Hv. do 2 f_equal. lia.
Qed.

(** *** The range of the format *)

(** Instants before year 10000, the zero instant included. *)
Definition max_time : Z := 86400 * days_before 10000 * Second.
Definition time_ok (t : Time) : Prop := 0 ≤ t < max_time.

#[export] Instance time_ok_dec t : Decision (time_ok t).
Proof. unfold time_ok. apply _. Defined.

Lemma clock_of_year t : time_ok t → year_ok (clock_of (t / Second)).
Proof.
  intros [Hlo Hhi]. unfold year_ok. destruct (clock_of_spec (t / Second)) as [(Hc & _) _].
  pose proof (day_in_year _ Hc) as Hd.
  assert (day_of_civil (Clock.Date (clock_of (t / Second))) = t / Second / 86400) as Hday.
  { unfold clock_of; cbn [Clock.Date]. apply civil_of_day_spec. }
  rewrite Hday in Hd.
  assert (0 ≤ t / Second / 86400 < days_before 10000).
  { unfold max_time, Second in *. set (b := days_before 10000) in *.
    split; [by do 2 (apply Z.div_pos; [|lia])|]. do 2 (apply Z.div_lt_upper_bound; [lia|]). lia. }
  set (y := Civil.Year _) in *. split.
  - destruct (decide (0 ≤ y)); [done|].
    pose proof (days_before_mono (y + 1) 0 ltac:(lia)). change (days_before 0) with (-366) in *. lia.
  - destruct (decide (y ≤ 9999)); [done|].
    pose proof (days_before_mono 10000 y ltac:(lia)). lia.
Qed.

Lemma Parse_Format t : time_ok t → Parse (Format t) = Some t.
Proof.
  intros Ht. unfold Parse, Format. destruct (clock_of_spec (t / Second)) as [Hc Hs].
  rewrite take_clock_append by (done || by apply clock_of_year). cbn [mbind option_bind].
  rewrite take_nano_append by (apply Z.mod_pos_bound; done).
  change (take_zone ["Z"%char]) with (Some 0). cbn [mbind option_bind]. rewrite Hs. f_equal.
  pose proof (Z.div_mod t Second ltac:(done)). unfold Second in *. lia.
Qed.

Lemma Format_head t : time_ok t → ∃ c l, Format t = c :: l ∧ is_digit c = true.
Proof.
  intros Ht. unfold Format. destruct (clock_of_spec (t / Second)) as [Hc _].
  pose proof (clock_of_year t Ht) as Hy. rewrite append_clock_digits by done.
  pose proof (digits_all 4 _ (proj1 Hy)) as Hd.
  pose proof (length_digits 4 (Civil.Year (Clock.Date (clock_of (t / Second))))) as Hlen.
  destruct (digits 4 _) as [|c l]; [done|]. apply Forall_cons in Hd as [Hd _].
  repeat eexists. done.
Qed.

Lemma digits_graphic w n : 0 ≤ n → Forall (λ c, graphic c = true) (digits w n).
Proof.
  intros Hn. eapply Forall_impl; [by apply digits_all|]. intros c Hc. cbn beta in *.
  unfold is_digit, graphic in *. prop_bool. apply andb_true_iff. rewrite !Z.ltb_lt. lia.
Qed.

Lemma Format_graphic t : time_ok t → Forall (λ c, graphic c = true) (Format t).
Proof.
  intros Ht. unfold Format. destruct (clock_of_spec (t / Second)) as [Hc _].
  pose proof (clock_of_year t Ht) as Hy. rewrite append_clock_digits by done.
  destruct Hc as (Hc & Hh & Hm & Hs). pose proof (civil_fields _ Hc) as (? & ? & _).
  unfold year_ok in Hy.
  repeat first [apply digits_graphic; lia | apply Forall_app; split | apply Forall_cons; split
               | apply Forall_nil; done | reflexivity].
  unfold append_nano. pose proof (Z.mod_pos_bound t Second ltac:(done)) as Hn.
  destruct (strip_zeros_app (digits 9 (t mod Second))) as [k Hk].
  pose proof (digits_graphic 9 (t mod Second) ltac:(lia)) as Hg. rewrite Hk in Hg.
  apply Forall_app in Hg as [Hg _]. destruct (strip_zeros _); [constructor|]. by constructor.
Qed.

(** The reader undoes the format; the zero instant is the empty text. *)
Lemma parse_timeToString t : time_ok t → parseSQLiteTime (timeToString t) = Some t.
Proof.
  intros Ht. unfold timeToString, IsZero. destruct (t =? 0) eqn:E; prop_bool; [by subst|].
  unfold parseSQLiteTime. rewrite TrimSpace_graphic by (rewrite bytes_of_bytes; by apply Format_graphic).
  destruct (Format_head t Ht) as (c & l & Hf & _).
  unfold is_empty. rewrite bool_decide_eq_false_2 by (by rewrite Hf).
  rewrite bytes_of_bytes. by apply Parse_Format.
Qed.

(** ** The order of the texts

    [BINARY], the collation of the columns: byte by byte, a proper prefix
    first. *)

Definition then_compare (c d : comparison) : comparison := match c with Eq => d | _ => c end.

Fixpoint compare_bytes (l k : list ascii) : comparison :=
  match l, k with
  | [], [] => Eq
  | [], _ => Lt
  | _, [] => Gt
  | c :: l, d :: k => then_compare (byte c ?= byte d) (compare_bytes l k)
  end.

Definition text_lt (s t : string) : bool :=
  match compare_bytes (bytes s) (bytes t) with Lt => true | _ => false end.

(** [s <= t] in SQL. *)
Definition text_le (s t : string) : bool := negb (text_lt t s).

Lemma then_compare_assoc a b c : then_compare (then_compare a b) c = then_compare a (then_compare b c).
Proof. by destruct a. Qed.

Lemma compare_bytes_refl l : compare_bytes l l = Eq.
Proof. induction l as [|c l IH]; cbn; [done|]. by rewrite Z.compare_refl. Qed.

Lemma compare_bytes_opp l : ∀ k, compare_bytes k l = CompOpp (compare_bytes l k).
Proof.
  induction l as [|c l IH]; intros [|d k]; cbn; [done..|].
  rewrite (Z.compare_antisym (byte c)), IH. by destruct (byte c ?= byte d).
Qed.

Lemma compare_bytes_app l l' : ∀ k k',
  length l = length k →
  compare_bytes (l ++ l') (k ++ k') = then_compare (compare_bytes l k) (compare_bytes l' k').
Proof.
  induction l as [|c l IH]; intros [|d k] k' Hlen; cbn in *; [done..|].
  rewrite IH by lia. by rewrite then_compare_assoc.
Qed.

Lemma text_lt_irrefl s : text_lt s s = false.
Proof. unfold text_lt. by rewrite compare_bytes_refl. Qed.

Lemma text_le_empty s : text_le s ε = is_empty s.
Proof.
  unfold text_le, text_lt, is_empty. destruct s as [|c s]; [done|]. cbn.
  by rewrite bool_decide_eq_false_2.
Qed.

Lemma byte_digit n : 0 ≤ n < 10 → byte (digit n) = 48 + n.
Proof. intros H. pose proof (digit_value_digit n H). unfold digit_value in *. lia. Qed.

Lemma Zcompare_ext x y x' y' : (x < y ↔ x' < y') → (x = y ↔ x' = y') → (x ?= y) = (x' ?= y').
Proof.
  intros Hl He. destruct (Z.compare_spec x' y') as [H|H|H].
  - apply Z.compare_eq_iff. by apply He.
  - apply Z.compare_lt_iff. by apply Hl.
  - apply Z.compare_gt_iff. lia.
Qed.

(** Fixed-width numbers are ordered as numbers. *)
Lemma compare_digits w : ∀ m n,
  0 ≤ m < 10 ^ Z.of_nat w → 0 ≤ n < 10 ^ Z.of_nat w →
  compare_bytes (digits w m) (digits w n) = (m ?= n).
Proof.
  induction w as [|w IH]; intros m n Hm Hn.
  - cbn in *. by replace n with m by lia; rewrite Z.compare_refl.
  - rewrite Nat2Z.inj_succ, Z.pow_succ_r in Hm, Hn by lia. cbn [digits].
    rewrite compare_bytes_app by (by rewrite !length_digits).
    rewrite IH by (split; [apply Z.div_pos; lia|apply Z.div_lt_upper_bound; lia]).
    pose proof (Z.mod_pos_bound m 10 ltac:(lia)). pose proof (Z.mod_pos_bound n 10 ltac:(lia)).
    cbn [compare_bytes]. rewrite !byte_digit by done.
    pose proof (Z.div_mod m 10 ltac:(lia)). pose proof (Z.div_mod n 10 ltac:(lia)).
    destruct (Z.compare_spec (m / 10) (n / 10)) as [Hq|Hq|Hq]; cbn [then_compare].
    + rewrite (Zcompare_ext _ _ m n) by lia. by destruct (m ?= n).
    + symmetry. apply Z.compare_lt_iff. lia.
    + symmetry. apply Z.compare_gt_iff. lia.
Qed.

Definition clock_compare (c d : Clock.t) : comparison :=
  then_compare (civil_compare (Clock.Date c) (Clock.Date d))
    (then_compare (Clock.Hour c ?= Clock.Hour d)
      (then_compare (Clock.Minute c ?= Clock.Minute d) (Clock.Sec c ?= Clock.Sec d))).

Lemma clock_of_compare a b : clock_compare (clock_of a) (clock_of b) = (a ?= b).
Proof.
  unfold clock_compare, clock_of; cbn [Clock.Date Clock.Hour Clock.Minute Clock.Sec].
  rewrite civil_of_day_compare.
  destruct (Z.compare_spec (a / 86400) (b / 86400)) as [H1|H1|H1]; cbn [then_compare];
    [|symmetry; apply Z.compare_lt_iff; Z.div_mod_to_equations; lia
     |symmetry; apply Z.compare_gt_iff; Z.div_mod_to_equations; lia].
  set (s := a mod 86400). set (r := b mod 86400).
  rewrite (Zcompare_ext a b s r) by (unfold s, r; Z.div_mod_to_equations; lia).
  destruct (Z.compare_spec (s / 3600) (r / 3600)) as [H2|H2|H2]; cbn [then_compare];
    [|symmetry; apply Z.compare_lt_iff; Z.div_mod_to_equations; lia
     |symmetry; apply Z.compare_gt_iff; Z.div_mod_to_equations; lia].
  destruct (Z.compare_spec (s mod 3600 / 60) (r mod 3600 / 60)) as [H3|H3|H3]; cbn [then_compare].
  - apply Zcompare_ext; Z.div_mod_to_equations; lia.
  - symmetry. apply Z.compare_lt_iff. Z.div_mod_to_equations; lia.
  - symmetry. apply Z.compare_gt_iff. Z.div_mod_to_equations; lia.
Qed.

Lemma append_clock_compare c d l k :
  clock_ok c → year_ok c → clock_ok d → year_ok d →
  compare_bytes (append_clock c ++ l) (append_clock d ++ k)
  = then_compare (clock_compare c d) (compare_bytes l k).
Proof.
  intros Hc Hyc Hd Hyd. rewrite !append_clock_digits by done.
  destruct Hc as (Hc & Hhc & Hmc & Hsc), Hd as (Hd & Hhd & Hmd & Hsd).
  pose proof (civil_fields _ Hc). pose proof (civil_fields _ Hd). unfold year_ok in *.
  repeat (rewrite <-app_assoc; cbn [app]).
  rewrite compare_bytes_app, compare_digits by (by rewrite ?length_digits || cbn; lia).
  unfold clock_compare, civil_compare.
  repeat (cbn [compare_bytes]; rewrite Z.compare_refl; cbn [then_compare];
    rewrite compare_bytes_app, compare_digits by (by rewrite ?length_digits || cbn; lia)).
  unfold then_compare. by do 5 (case_match; try done).
Qed.

(** *** At most a second of error

    Texts are ordered as the seconds of the instants; within one second they
    may not be, because the letter that ends the text is above the point that
    starts a fraction. *)

Lemma timeToString_seconds t u :
  time_ok t → time_ok u → t / Second < u / Second → text_lt (timeToString t) (timeToString u) = true.
Proof.
  intros Ht Hu Hlt. unfold timeToString, IsZero, text_lt.
  destruct (u =? 0) eqn:Eu; prop_bool.
  { subst. assert (0 ≤ t / Second) by (apply Z.div_pos; [apply Ht|done]). by change (0 / Second) with 0 in Hlt; lia. }
  rewrite bytes_of_bytes. destruct (t =? 0) eqn:Et; prop_bool.
  { destruct (Format_head u Hu) as (c & l & -> & _). done. }
  rewrite bytes_of_bytes. unfold Format.
  destruct (clock_of_spec (t / Second)) as [Hc _], (clock_of_spec (u / Second)) as [Hd _].
  rewrite append_clock_compare by (done || by apply clock_of_year).
  rewrite clock_of_compare. by rewrite (proj2 (Z.compare_lt_iff _ _)).
Qed.

Lemma text_lt_asym s t : text_lt s t = true → text_lt t s = false.
Proof. unfold text_lt. rewrite (compare_bytes_opp (bytes s)). by destruct (compare_bytes _ _). Qed.

Lemma timeToString_lt t u :
  time_ok t → time_ok u → t + Second ≤ u → text_lt (timeToString t) (timeToString u) = true.
Proof.
  intros Ht Hu Hle. apply timeToString_seconds; [done..|].
  pose proof (Z.div_add t 1 Second ltac:(done)). pose proof (Z.div_le_mono (t + 1 * Second) u Second ltac:(done) ltac:(lia)). lia.
Qed.

Lemma timeToString_le t u :
  time_ok t → time_ok u → text_le (timeToString t) (timeToString u) = true → t < u + Second.
Proof.
  intros Ht Hu Hle. destruct (decide (t < u + Second)); [done|].
  unfold text_le in Hle. rewrite timeToString_lt in Hle by (done || lia). done.
Qed.

Lemma timeToString_not_lt t u :
  time_ok t → time_ok u → text_lt (timeToString t) (timeToString u) = false → u < t + Second.
Proof.
  intros Ht Hu Hlt. destruct (decide (u < t + Second)); [done|].
  rewrite timeToString_lt in Hlt by (done || lia). done.
Qed.

(** Half a second later and yet smaller. *)
Example texts_out_of_order :
  let t := unix_epoch * Second in
  text_lt (timeToString (t + 500 * Millisecond)) (timeToString t) = true.
Proof. reflexivity. Qed.

Lemma timeToString_empty t : time_ok t → timeToString t = ε ↔ t = 0.
Proof.
  intros Ht. unfold timeToString, IsZero. destruct (t =? 0) eqn:E; prop_bool; [done|].
  destruct (Format_head t Ht) as (c & l & -> & _). done.
Qed.
