(* ===== verification/Sqlite.v ===== *)
(** * The database behind the SQLite store ([pkg/bus/sqlite.go])

    The tables of [sqliteSchema] as finite maps from their primary keys, the
    SQL statements the code executes on them, and a small monad in which the Go
    code calls the engine: a call can fail, a transaction that does not commit
    leaves no trace.

    Text columns that hold an instant are texts ([Rfc3339.timeToString]) and are
    compared as texts.  A column that holds a JSON document or one of the string
    enumerations of [types.go] has the value it encodes; a nullable one is an
    option. *)
From stdpp Require Import gmap strings list sorting.
From Stdlib Require Import ZArith Lia Ascii.
From S2P Require Import Prelude GoBase Json Types Config State Send Rfc3339.

(** ** Tables *)

Module AgentRow.
Record t := mk {
  allowed_scopes : list string;
  shared_grants : list string;
  capabilities : list string;
  secret : string;
  version : string;
  description : string;
  agent_class : string;
  mutation_class : string;
  build : option (option BuildInfo.t);
  meta : option (option AgentMeta.t);
  mode : AgentMode;
  callback_url : string;
  status : AgentStatus;
  registered_at : string;
  expires_at : string;
  ttl_seconds : Z }.
End AgentRow.

Module ConversationRow.
Record t := mk {
  title : string;
  participants : list string;
  status : string;
  message_count : Z;
  created_at : string;
  last_message_at : string;
  meta : option json }.
End ConversationRow.

Module MessageRow.
Record t := mk {
  typ : MessageType;
  from_agent : string;
  to_agent : string;
  conversation_id : string;
  request_id : string;
  in_reply_to : string;
  body : string;
  meta : option json;
  attachments : list Attachment.t;
  state : MessageState;
  created_at : string;
  terminal_at : string;
  delivered_at : string;
  last_progress_at : string;
  ttl_expires_at : string;
  grace_until : string;
  queued_for_agent : Z }.
End MessageRow.

Module CursorRow.
Record t := mk { next_seq : Z; acknowledged_cursor : Z }.
End CursorRow.

Inductive DeliveryStatus := Pending | Attempting | Received | Failed.

#[export] Instance DeliveryStatus_eq_dec : EqDecision DeliveryStatus.
Proof. solve_decision. Defined.

Module DeliveryRow.
Record t := mk {
  message_id : string;
  status : DeliveryStatus;
  next_attempt_at : string;
  attempt_count : Z;
  received_at : string;
  expires_at : string;
  last_error : string }.
End DeliveryRow.

Module ReceiptRow.
Record t := mk { message_id : string; accepted_at : string; expires_at : string }.
End ReceiptRow.

Record Tables := mkTables {
  t_agents : gmap string AgentRow.t;
  t_conversations : gmap string ConversationRow.t;
  t_messages : gmap string MessageRow.t;
  (** Keyed by conversation and position. *)
  t_conversation_messages : gmap (string * Z) string;
  t_counters : gmap string Z;
  t_delivery_cursors : gmap string CursorRow.t;
  (** Keyed by target and sequence number. *)
  t_deliveries : gmap (string * Z) DeliveryRow.t;
  (** Keyed by sender, target and request id. *)
  t_idempotency : gmap (string * string * string) ReceiptRow.t;
  t_schema_migrations : gmap string string }.

Definition emptyTables : Tables := mkTables ∅ ∅ ∅ ∅ ∅ ∅ ∅ ∅ ∅.

Definition with_agents v t := mkTables v (t_conversations t) (t_messages t)
  (t_conversation_messages t) (t_counters t) (t_delivery_cursors t) (t_deliveries t)
  (t_idempotency t) (t_schema_migrations t).
Definition with_conversations v t := mkTables (t_agents t) v (t_messages t)
  (t_conversation_messages t) (t_counters t) (t_delivery_cursors t) (t_deliveries t)
  (t_idempotency t) (t_schema_migrations t).
Definition with_messages v t := mkTables (t_agents t) (t_conversations t) v
  (t_conversation_messages t) (t_counters t) (t_delivery_cursors t) (t_deliveries t)
  (t_idempotency t) (t_schema_migrations t).
Definition with_conversation_messages v t := mkTables (t_agents t) (t_conversations t)
  (t_messages t) v (t_counters t) (t_delivery_cursors t) (t_deliveries t) (t_idempotency t)
  (t_schema_migrations t).
Definition with_counters v t := mkTables (t_agents t) (t_conversations t) (t_messages t)
  (t_conversation_messages t) v (t_delivery_cursors t) (t_deliveries t) (t_idempotency t)
  (t_schema_migrations t).
Definition with_delivery_cursors v t := mkTables (t_agents t) (t_conversations t) (t_messages t)
  (t_conversation_messages t) (t_counters t) v (t_deliveries t) (t_idempotency t)
  (t_schema_migrations t).
Definition with_deliveries v t := mkTables (t_agents t) (t_conversations t) (t_messages t)
  (t_conversation_messages t) (t_counters t) (t_delivery_cursors t) v (t_idempotency t)
  (t_schema_migrations t).
Definition with_idempotency v t := mkTables (t_agents t) (t_conversations t) (t_messages t)
  (t_conversation_messages t) (t_counters t) (t_delivery_cursors t) (t_deliveries t) v
  (t_schema_migrations t).
Definition with_schema_migrations v t := mkTables (t_agents t) (t_conversations t) (t_messages t)
  (t_conversation_messages t) (t_counters t) (t_delivery_cursors t) (t_deliveries t)
  (t_idempotency t) v.

(** ** Calling the engine *)

Inductive DBError :=
| EngineError (text : string)
| UniqueViolation (table : string)
| ForeignKeyViolation (table : string)
| NoRows
| BadTime (text : string)
| AgentNotFound (agentID : string).

(** What can go wrong with one call: it fails without effect, or the rows of a
    query end early with the error only [rows.Err()] reports. *)
Inductive Fault := CallFails (text : string) | RowsStop (n : nat) (text : string).

(** The fault of the [n]-th call of an operation. *)
Abbreviation Faults := (nat → option Fault).

Definition no_faults : Faults := λ _, None.

(** A computation on the open database: the calls made so far and the tables. *)
Definition Db (A : Type) : Type := Faults → nat * Tables → result DBError A * (nat * Tables).

#[export] Instance Db_ret : MRet Db := λ A a f w, (Ok a, w).
#[export] Instance Db_bind : MBind Db := λ A B k m f w,
  match m f w with
  | (Err e, w) => (Err e, w)
  | (Ok a, w) => k a f w
  end.

Lemma bind_run {A B} (m : Db A) (k : A → Db B) f w :
  (m ≫= k) f w = match m f w with (Err e, w) => (Err e, w) | (Ok a, w) => k a f w end.
Proof. done. Qed.

Lemma ret_run {A} (a : A) f w : (mret a : Db A) f w = (Ok a, w).
Proof. done. Qed.

Definition throw {A} (e : DBError) : Db A := λ f w, (Err e, w).

(** One statement. *)
Definition call {A} (stmt : Tables → result DBError (A * Tables)) : Db A := λ f w,
  match f w.1 with
  | Some (CallFails e) | Some (RowsStop _ e) => (Err (EngineError e), (S w.1, w.2))
  | None =>
      match stmt w.2 with
      | Ok (a, t) => (Ok a, (S w.1, t))
      | Err e => (Err e, (S w.1, w.2))
      end
  end.

Definition exec (update : Tables → Tables) : Db () := call (λ t, Ok ((), update t)).

(** A query whose rows are read to the end, [rows.Err()] included. *)
Definition query {A} (select : Tables → A) : Db A := call (λ t, Ok (select t, t)).

(** A query whose loop over the rows is not followed by [rows.Err()]: rows that
    end early pass for the end. *)
Definition query_unchecked {A} (select : Tables → list A) : Db (list A) := λ f w,
  match f w.1 with
  | Some (CallFails e) => (Err (EngineError e), (S w.1, w.2))
  | Some (RowsStop n _) => (Ok (take n (select w.2)), (S w.1, w.2))
  | None => (Ok (select w.2), (S w.1, w.2))
  end.

(** [tx.Get]: the first row. *)
Definition query_row {A} (select : Tables → option A) : Db A :=
  call (λ t, match select t with Some a => Ok (a, t) | None => Err NoRows end).

(** The body of an open transaction and its [Commit]; anything but a commit
    rolls back. *)
Definition commit {A} (body : Db A) : Db A := λ f w,
  match body f w with
  | (Err e, (k, _)) => (Err e, (k, w.2))
  | (Ok a, w1) =>
      match exec id f w1 with
      | (Err e, (k, _)) => (Err e, (k, w.2))
      | (Ok _, w2) => (Ok a, w2)
      end
  end.

(** From [Beginx] on. *)
Definition transaction {A} (body : Db A) : Db A := exec id ;; commit body.

(** [_, _ = db.Exec(...)] *)
Definition ignore {A} (m : Db A) : Db () := λ f w, (Ok (), (m f w).2).

(** The result or the error as a value. *)
Definition try {A} (m : Db A) : Db (result DBError A) := λ f w, let '(r, w) := m f w in (Ok r, w).

Fixpoint for_each {A} (body : A → Db ()) (l : list A) : Db () :=
  match l with
  | [] => mret ()
  | a :: l => body a ;; for_each body l
  end.

(** One operation, from its first call. *)
Definition run_db {A} (m : Db A) (f : Faults) (t : Tables) : result DBError A * Tables :=
  let '(r, (_, t)) := m f (O, t) in (r, t).

(** ** Saving *)

(** [nullableJSON] of an [any]: nil is NULL. *)
Definition nullable_any (v : json) : option json := match v with JNull => None | v => Some v end.

(** [nullableJSON] of a pointer: the interface holds a typed nil, which is not
    nil, so a nil pointer is stored as the document [null]. *)
Definition nullable_pointer {A} (v : option A) : option (option A) := Some v.

Definition boolToInt (b : bool) : Z := if b then 1 else 0.

Definition agent_row (secret : string) (a : Agent.t) : AgentRow.t :=
  AgentRow.mk (Agent.AllowedScopes a) (Agent.SharedGrants a) (Agent.Capabilities a) secret
    (Agent.Version a) (Agent.Description a) (Agent.AgentClass a) (Agent.MutationClass a)
    (nullable_pointer (Agent.Build a)) (nullable_pointer (Agent.Meta a)) (Agent.Mode a)
    (Agent.CallbackURL a) (Agent.Status a) (timeToString (Agent.RegisteredAt a))
    (timeToString (Agent.ExpiresAt a)) (Agent.TTLSeconds a).

(** The upsert does not touch the secret; a new row has the empty one. *)
Definition saveAgentTo (a : Agent.t) : Db () := exec (λ t,
  let secret := match t_agents t !! Agent.AgentID a with
                | Some row => AgentRow.secret row
                | None => ε
                end in
  with_agents (<[Agent.AgentID a := agent_row secret a]> (t_agents t)) t).

Definition conversation_row (c : Conversation.t) : ConversationRow.t :=
  ConversationRow.mk (Conversation.Title c) (Conversation.Participants c) (Conversation.Status c)
    (Conversation.MessageCount c) (timeToString (Conversation.CreatedAt c))
    (timeToString (Conversation.LastMessageAt c)) (nullable_any (Conversation.Meta c)).

Definition saveConversationTo (c : Conversation.t) : Db () := exec (λ t,
  with_conversations (<[Conversation.ConversationID c := conversation_row c]> (t_conversations t)) t).

Definition message_row (m : Message.t) : MessageRow.t :=
  MessageRow.mk (Message.Typ m) (Message.From m) (Message.To m) (Message.ConversationID m)
    (Message.RequestID m) (Message.InReplyTo m) (Message.Body m) (nullable_any (Message.Meta m))
    (Message.Attachments m) (Message.State m) (timeToString (Message.CreatedAt m))
    (timeToString (Message.TerminalAt m)) (timeToString (Message.DeliveredAt m))
    (timeToString (Message.LastProgressAt m)) (timeToString (Message.TTLExpiresAt m))
    (timeToString (Message.GraceUntil m)) (boolToInt (Message.QueuedForAgent m)).

Definition saveMessageTo (m : Message.t) : Db () := exec (λ t,
  with_messages (<[Message.MessageID m := message_row m]> (t_messages t)) t).

Definition saveConversationMessageTo (cid mid : string) (position : Z) : Db () := exec (λ t,
  with_conversation_messages (<[(cid, position) := mid]> (t_conversation_messages t)) t).

Definition key_conversation : string := "next_conversation_id"%stdpp.
Definition key_message : string := "next_message_id"%stdpp.

Definition saveCountersTo (nextConv nextMsg : Z) : Db () := exec (λ t,
  with_counters (<[key_message := nextMsg]> (<[key_conversation := nextConv]> (t_counters t))) t).

(** ** Loading a row *)

(** [t, _ = time.Parse(time.RFC3339Nano, raw)] *)
Definition parse_or_zero (raw : string) : Time := default 0 (Parse (bytes raw)).

(** [json.Unmarshal] into a new struct: the document [null] leaves it zero. *)
Definition scan_pointer {A} (zero : A) (column : option (option A)) : option A :=
  match column with Some v => Some (default zero v) | None => None end.

Definition scan_agent (id : string) (r : AgentRow.t) : Agent.t :=
  Agent.mk id (AgentRow.allowed_scopes r) (AgentRow.shared_grants r) (AgentRow.capabilities r)
    (AgentRow.version r) (AgentRow.description r) (AgentRow.agent_class r)
    (AgentRow.mutation_class r) (scan_pointer (BuildInfo.mk ε false) (AgentRow.build r))
    (scan_pointer (AgentMeta.mk ε ε ε []) (AgentRow.meta r)) (AgentRow.mode r)
    (AgentRow.callback_url r) (AgentRow.status r) (parse_or_zero (AgentRow.registered_at r))
    (parse_or_zero (AgentRow.expires_at r)) (AgentRow.ttl_seconds r).

Definition scan_conversation (id : string) (r : ConversationRow.t) : Conversation.t :=
  Conversation.mk id (ConversationRow.title r) (ConversationRow.participants r)
    (ConversationRow.status r) (ConversationRow.message_count r)
    (parse_or_zero (ConversationRow.created_at r)) (parse_or_zero (ConversationRow.last_message_at r))
    (default JNull (ConversationRow.meta r)).

Definition scanSQLiteMessage (id : string) (r : MessageRow.t) : Message.t :=
  Message.mk id (MessageRow.typ r) (MessageRow.from_agent r) (MessageRow.to_agent r)
    (MessageRow.conversation_id r) (MessageRow.request_id r) (MessageRow.in_reply_to r)
    (MessageRow.body r) (default JNull (MessageRow.meta r)) (MessageRow.attachments r)
    (MessageRow.state r) (parse_or_zero (MessageRow.created_at r))
    (parse_or_zero (MessageRow.terminal_at r)) (parse_or_zero (MessageRow.delivered_at r))
    (parse_or_zero (MessageRow.last_progress_at r)) (parse_or_zero (MessageRow.ttl_expires_at r))
    (parse_or_zero (MessageRow.grace_until r)) (negb (MessageRow.queued_for_agent r =? 0)).

(** *** Round trips *)

Lemma parse_or_zero_time u : time_ok u → parse_or_zero (timeToString u) = u.
Proof.
  intros Hu. unfold parse_or_zero, timeToString, IsZero. destruct (u =? 0) eqn:E; prop_bool; [by subst|].
  by rewrite bytes_of_bytes, Parse_Format.
Qed.

(** The instants of a message can be written. *)
Record message_times_ok (m : Message.t) : Prop := {
  mt_created : time_ok (Message.CreatedAt m);
  mt_terminal : time_ok (Message.TerminalAt m);
  mt_delivered : time_ok (Message.DeliveredAt m);
  mt_progress : time_ok (Message.LastProgressAt m);
  mt_ttl : time_ok (Message.TTLExpiresAt m);
  mt_grace : time_ok (Message.GraceUntil m) }.

Lemma nullable_any_default v : default JNull (nullable_any v) = v.
Proof. by destruct v. Qed.

Lemma scan_message_row m :
  message_times_ok m → scanSQLiteMessage (Message.MessageID m) (message_row m) = m.
Proof.
  intros []. destruct m. unfold scanSQLiteMessage, message_row; cbn in *.
  rewrite nullable_any_default, !parse_or_zero_time by done. by destruct QueuedForAgent.
Qed.

Lemma scan_conversation_row c :
  time_ok (Conversation.CreatedAt c) → time_ok (Conversation.LastMessageAt c) →
  scan_conversation (Conversation.ConversationID c) (conversation_row c) = c.
Proof.
  intros. destruct c. unfold scan_conversation, conversation_row; cbn in *.
  by rewrite nullable_any_default, !parse_or_zero_time.
Qed.

(** An agent comes back with empty build information and metadata where it had
    none. *)
Definition reloaded_agent (a : Agent.t) : Agent.t :=
  Agent.mk (Agent.AgentID a) (Agent.AllowedScopes a) (Agent.SharedGrants a) (Agent.Capabilities a)
    (Agent.Version a) (Agent.Description a) (Agent.AgentClass a) (Agent.MutationClass a)
    (Some (default (BuildInfo.mk ε false) (Agent.Build a)))
    (Some (default (AgentMeta.mk ε ε ε []) (Agent.Meta a))) (Agent.Mode a) (Agent.CallbackURL a)
    (Agent.Status a) (Agent.RegisteredAt a) (Agent.ExpiresAt a) (Agent.TTLSeconds a).

Lemma scan_agent_row secret a :
  time_ok (Agent.RegisteredAt a) → time_ok (Agent.ExpiresAt a) →
  scan_agent (Agent.AgentID a) (agent_row secret a) = reloaded_agent a.
Proof.
  intros. destruct a. unfold scan_agent, agent_row, reloaded_agent; cbn in *.
  by rewrite !parse_or_zero_time.
Qed.

(** ** Updates of several rows *)

(** [UPDATE deliveries SET ... WHERE ...] *)
Definition update_deliveries (f : string * Z → DeliveryRow.t → DeliveryRow.t) (t : Tables) : Tables :=
  with_deliveries (map_imap (λ k d, Some (f k d)) (t_deliveries t)) t.

(** [status IN ('pending', 'attempting')] *)
Definition in_transport (d : DeliveryRow.t) : bool :=
  match DeliveryRow.status d with Pending | Attempting => true | Received | Failed => false end.

Definition deadline_error : string := "transport deadline expired"%stdpp.

Definition fail_delivery (d : DeliveryRow.t) : DeliveryRow.t :=
  DeliveryRow.mk (DeliveryRow.message_id d) Failed ε (DeliveryRow.attempt_count d)
    (DeliveryRow.received_at d) (DeliveryRow.expires_at d) deadline_error.

(** The update that fails what is past its transport deadline. *)
Definition fail_expired (now : string) : Tables → Tables := update_deliveries (λ _ d,
  if in_transport d && text_le (DeliveryRow.expires_at d) now then fail_delivery d else d).

(** [DELETE FROM messages WHERE gone]; the deliveries of a deleted message go
    with it ([ON DELETE CASCADE]). *)
Definition delete_messages (gone : string → MessageRow.t → bool) (t : Tables) : Tables :=
  let kept := filter (λ '(id, m), gone id m = false) (t_messages t) in
  with_deliveries (filter (λ '(_, d), is_Some (kept !! DeliveryRow.message_id d)) (t_deliveries t))
    (with_messages kept t).

(** [message_id IN (SELECT message_id FROM deliveries WHERE status IN ('pending',
    'attempting'))] *)
Definition awaits_transport (t : Tables) (id : string) : bool :=
  bool_decide (map_Exists (λ _ d, DeliveryRow.message_id d = id ∧ in_transport d = true) (t_deliveries t)).

(** ** Retention *)

Section prune.
Context (E : Static).

Definition delete_receipts (now : string) (t : Tables) : Tables :=
  with_idempotency
    (filter (λ '(_, r), text_lt (ReceiptRow.expires_at r) now = false) (t_idempotency t)) t.

Definition delete_aged (cutoff : string) (t : Tables) : Tables :=
  delete_messages (λ id m,
    negb (is_empty (MessageRow.created_at m)) && text_lt (MessageRow.created_at m) cutoff
    && negb (awaits_transport t id)) t.

Definition delete_finished (cutoff : string) (t : Tables) : Tables :=
  delete_messages (λ id m,
    isTerminal (MessageRow.state m)
    && text_lt (if is_empty (MessageRow.terminal_at m) then MessageRow.created_at m
                else MessageRow.terminal_at m) cutoff
    && negb (awaits_transport t id)) t.

Definition delete_conversations (cutoff : string) (t : Tables) : Tables :=
  with_conversations
    (filter (λ '(cid, c),
       (negb (is_empty (ConversationRow.last_message_at c))
        && text_lt (ConversationRow.last_message_at c) cutoff
        && negb (bool_decide (map_Exists (λ _ m, MessageRow.conversation_id m = cid) (t_messages t))))
       = false) (t_conversations t)) t.

Definition delete_orphans (t : Tables) : Tables :=
  with_conversation_messages
    (filter (λ '(_, mid), is_Some (t_messages t !! mid)) (t_conversation_messages t)) t.

(** [if cfg.X > 0 { ... }] *)
Definition when (c : bool) (m : Db ()) : Db () := if c then m else mret ().

Definition pruneDB (now : Time) : Db () :=
  let c := cfg E in
  exec (fail_expired (timeToString now)) ;;
  exec (delete_receipts (timeToString now)) ;;
  when (0 <? Config.MessageMaxAge c)
    (exec (delete_aged (timeToString (Add now (- Config.MessageMaxAge c))))) ;;
  when (0 <? Config.MessageRetention c)
    (exec (delete_finished (timeToString (Add now (- Config.MessageRetention c))))) ;;
  when (0 <? Config.ConversationRetention c)
    (exec (delete_conversations (timeToString (Add now (- Config.ConversationRetention c))))) ;;
  exec delete_orphans ;;
  exec id (* PRAGMA incremental_vacuum *).

End prune.

(** ** Start and shutdown *)

Definition set_status (st : DeliveryStatus) (d : DeliveryRow.t) : DeliveryRow.t :=
  DeliveryRow.mk (DeliveryRow.message_id d) st (DeliveryRow.next_attempt_at d)
    (DeliveryRow.attempt_count d) (DeliveryRow.received_at d) (DeliveryRow.expires_at d)
    (DeliveryRow.last_error d).

(** What was being pushed when the last process ended is due again. *)
Definition recover_attempts : Tables → Tables := update_deliveries (λ _ d,
  if bool_decide (DeliveryRow.status d = Attempting) then set_status Pending d else d).

Definition shutdown_error : string := "shutdown recovery"%stdpp.

(** The same on [Close]. *)
Definition shutdown_attempts (now : string) : Tables → Tables := update_deliveries (λ _ d,
  if bool_decide (DeliveryRow.status d = Attempting) then
    DeliveryRow.mk (DeliveryRow.message_id d) Pending
      (if is_empty (DeliveryRow.next_attempt_at d) then now else DeliveryRow.next_attempt_at d)
      (DeliveryRow.attempt_count d) (DeliveryRow.received_at d) (DeliveryRow.expires_at d)
      (if is_empty (DeliveryRow.last_error d) then shutdown_error else DeliveryRow.last_error d)
  else d).

(** ** Secrets *)

(** The rows in the order the engine returns them. *)
Definition agent_secrets (order : list string) (t : Tables) : gmap string string :=
  foldl (λ out id,
    match t_agents t !! id with
    | Some row =>
        let agentID := TrimSpace id in
        if negb (is_empty (AgentRow.secret row)) && negb (is_empty agentID)
           && negb (is_empty (TrimSpace (AgentRow.secret row)))
        then <[agentID := AgentRow.secret row]> out else out
    | None => out
    end) ∅ order.

Definition AgentSecrets (order : list string) : Db (gmap string string) := query (agent_secrets order).

Definition set_secret (secret : string) (r : AgentRow.t) : AgentRow.t :=
  AgentRow.mk (AgentRow.allowed_scopes r) (AgentRow.shared_grants r) (AgentRow.capabilities r) secret
    (AgentRow.version r) (AgentRow.description r) (AgentRow.agent_class r)
    (AgentRow.mutation_class r) (AgentRow.build r) (AgentRow.meta r) (AgentRow.mode r)
    (AgentRow.callback_url r) (AgentRow.status r) (AgentRow.registered_at r)
    (AgentRow.expires_at r) (AgentRow.ttl_seconds r).

Definition SetAgentSecret (agentID secret : string) : Db () :=
  let agentID := TrimSpace agentID in
  if is_empty agentID || is_empty (TrimSpace secret) then mret () else
  call (λ t, match t_agents t !! agentID with
             | Some row => Ok ((), with_agents (<[agentID := set_secret secret row]> (t_agents t)) t)
             | None => Err (AgentNotFound agentID)
             end).

(** ** Loading everything *)

Section load.

(** The messages of a conversation by position. *)
Definition position_le (a b : string * Z * string) : Prop :=
  let '(c, p, _) := a in let '(d, q, _) := b in
  match compare_bytes (bytes c) (bytes d) with Lt => True | Eq => p ≤ q | Gt => False end.

#[local] Instance position_le_dec a b : Decision (position_le a b).
Proof.
  destruct a as [[c p] m], b as [[d q] n]. unfold position_le.
  destruct (compare_bytes (bytes c) (bytes d)); apply _.
Defined.

Definition load_conversation_messages (t : Tables) : gmap string (list string) :=
  foldl (λ acc '(cid, _, mid), <[cid := default [] (acc !! cid) ++ [mid]]> acc) ∅
    (merge_sort position_le (map_to_list (t_conversation_messages t))).

(** Receipts that have not expired, in the order of the rows. *)
Fixpoint load_receipts (now : string) (order : list (string * string * string)) (t : Tables)
    (acc : gmap string IdempotencyEntry.t) : result DBError (gmap string IdempotencyEntry.t) :=
  match order with
  | [] => Ok acc
  | (from, to, requestID) :: order =>
      match t_idempotency t !! (from, to, requestID) with
      | Some r =>
          if text_le now (ReceiptRow.expires_at r) then
            match parseSQLiteTime (ReceiptRow.accepted_at r) with
            | Some accepted =>
                load_receipts now order t
                  (<[dedupeKey from to requestID
                     := IdempotencyEntry.mk (ReceiptRow.message_id r) accepted]> acc)
            | None => Err (BadTime (ReceiptRow.accepted_at r))
            end
          else load_receipts now order t acc
      | None => load_receipts now order t acc
      end
  end.

Definition loadIdempotency (now : Time) (order : list (string * string * string))
    : Db (gmap string IdempotencyEntry.t) :=
  call (λ t, match load_receipts (timeToString now) order t ∅ with
             | Ok m => Ok (m, t)
             | Err e => Err e
             end).

(** [loadAll], on the store [NewStore] made. *)
Definition loadAll (now : Time) (order : list (string * string * string)) (s : Store) : Db Store :=
  counters ← query t_counters;
  ags ← query t_agents;
  convs ← query t_conversations;
  msgs ← query t_messages;
  cm ← query load_conversation_messages;
  receipts ← loadIdempotency now order;
  mret (mkStore (default (nextConversationID s) (counters !! key_conversation))
          (default (nextMessageID s) (counters !! key_message)) (nextObserveID s)
          (map_imap (λ id r, Some (scan_agent id r)) ags)
          (map_imap (λ id r, Some (scan_conversation id r)) convs)
          (map_imap (λ id r, Some (scanSQLiteMessage id r)) msgs)
          cm ((λ _, []) <$> ags) ((λ _, 0) <$> ags) (inboxBytes s) (observeEvents s)
          (observeBytes s) receipts (lastSweepAt s) (inboxNotify s) (observeNotify s)
          (sweepSkipped s) (sweepRan s) (pushFailures s) (pushSuccesses s) (pushQueue s) (pushWG s)
          (pushClosed s) (channels s)).

End load.
