(* ===== verification/Schema.v ===== *)
(** * The schema of the database: [sqliteSchema], [ensureAgentColumns] and
    [ensureMessageColumns] of [pkg/bus/sqlite.go]

    The other files take the tables with all their columns.  Here a file is what
    it is before that: tables with the columns they have, and rows that give
    values to them.  A start creates the tables that are missing and adds the
    columns an older process did not know; each call of the engine may fail. *)
From stdpp Require Import gmap strings list.
From Stdlib Require Import ZArith Lia Ascii.
From S2P Require Import Prelude GoBase.

Inductive Value := VText (s : string) | VInt (n : Z) | VNull.

(** A column and the value of its DEFAULT clause; without one it is null. *)
Record Column := mkColumn { col_name : string; col_default : Value }.

#[export] Instance Value_eq_dec : EqDecision Value.
Proof. solve_decision. Defined.
#[export] Instance Column_eq_dec : EqDecision Column.
Proof. solve_decision. Defined.

Definition text (name : string) : Column := mkColumn name (VText ε).
Definition array (name : string) : Column := mkColumn name (VText "[]"%stdpp).
Definition null (name : string) : Column := mkColumn name VNull.
Definition number (name : string) (n : Z) : Column := mkColumn name (VInt n).

Module Table.
Record t := mk { Columns : list string; Rows : list (gmap string Value) }.
End Table.

Abbreviation File := (gmap string Table.t).

(** ** The schema *)

Definition agents_columns : list Column :=
  [null "agent_id"; array "allowed_scopes"; array "shared_grants"; array "capabilities"; text "secret"; text "version";
   text "description"; text "agent_class"; text "mutation_class"; null "build"; null "meta";
   mkColumn "mode" (VText "pull"); text "callback_url"; mkColumn "status" (VText "active"); null "registered_at";
   null "expires_at"; number "ttl_seconds" 60]%stdpp.

Definition conversations_columns : list Column :=
  [null "conversation_id"; text "title"; array "participants"; mkColumn "status" (VText "active");
   number "message_count" 0; null "created_at"; null "last_message_at"; null "meta"]%stdpp.

Definition messages_columns : list Column :=
  [null "message_id"; null "type"; null "from_agent"; text "to_agent"; text "conversation_id"; text "request_id";
   text "in_reply_to"; text "body"; null "meta"; array "attachments"; mkColumn "state" (VText "pending");
   null "created_at"; text "terminal_at"; text "delivered_at"; text "last_progress_at"; text "ttl_expires_at";
   text "grace_until"; number "queued_for_agent" 0]%stdpp.

Definition sqliteSchema : list (string * list Column) :=
  [("agents", agents_columns); ("conversations", conversations_columns); ("messages", messages_columns);
   ("conversation_messages", [null "conversation_id"; null "message_id"; null "position"]);
   ("counters", [null "key"; number "value" 0]);
   ("delivery_cursors", [null "target_agent_id"; number "next_seq" 0; number "acknowledged_cursor" 0]);
   ("deliveries", [null "target_agent_id"; null "delivery_seq"; null "message_id"; mkColumn "status" (VText "pending");
                   text "next_attempt_at"; number "attempt_count" 0; text "received_at"; null "expires_at";
                   text "last_error"]);
   ("idempotency", [null "from_agent"; null "to_agent"; null "request_id"; null "message_id"; null "accepted_at";
                    null "expires_at"]);
   ("schema_migrations", [null "key"; null "applied_at"])]%stdpp.

(** [CREATE TABLE IF NOT EXISTS] *)
Definition create_table (f : File) (t : string * list Column) : File :=
  match f !! t.1 with
  | Some _ => f
  | None => <[t.1 := Table.mk (col_name <$> t.2) []]> f
  end.

(** ** Calls *)

Definition Sq (A : Type) : Type := (nat → option string) → nat * File → result string A * (nat * File).

#[export] Instance Sq_ret : MRet Sq := λ A a _ w, (Ok a, w).
#[export] Instance Sq_bind : MBind Sq := λ A B k m f w,
  match m f w with
  | (Err e, w) => (Err e, w)
  | (Ok a, w) => k a f w
  end.

Definition statement {A} (run : File → result string (A * File)) : Sq A := λ f w,
  match f w.1 with
  | Some e => (Err e, (S w.1, w.2))
  | None =>
      match run w.2 with
      | Ok (a, t) => (Ok a, (S w.1, t))
      | Err e => (Err e, (S w.1, w.2))
      end
  end.

(** [PRAGMA table_info], read to the end. *)
Definition table_info (table : string) : Sq (list string) :=
  statement (λ f, Ok (match f !! table with Some t => Table.Columns t | None => [] end, f)).

(** [ALTER TABLE ... ADD COLUMN] *)
Definition add_column (table : string) (c : Column) : Sq () :=
  statement (λ f,
    match f !! table with
    | None => Err ("no such table: "%stdpp +:+ table)
    | Some t =>
        if bool_decide (col_name c ∈ Table.Columns t) then Err ("duplicate column name: "%stdpp +:+ col_name c)
        else Ok ((), <[table := Table.mk (Table.Columns t ++ [col_name c])
                                  ((λ r, <[col_name c := col_default c]> r) <$> Table.Rows t)]> f)
    end).

(** The statements of the schema, each committed by itself; the index has no
    columns of its own. *)
Fixpoint create_tables (l : list (string * list Column)) : Sq () :=
  match l with
  | [] => statement (λ f, Ok ((), f))
  | t :: l => statement (λ f, Ok ((), create_table f t)) ;; create_tables l
  end.

(** ** Added columns *)

Definition agent_migrations : list Column :=
  [text "secret"; array "allowed_scopes"; array "shared_grants"; text "version"; text "agent_class";
   text "mutation_class"; null "build"; null "meta"]%stdpp.

Fixpoint add_missing (table : string) (cols : list string) (migrations : list Column) : Sq () :=
  match migrations with
  | [] => mret ()
  | c :: migrations =>
      if bool_decide (col_name c ∈ cols) then add_missing table cols migrations
      else add_column table c ;; add_missing table cols migrations
  end.

Definition ensureAgentColumns : Sq () :=
  cols ← table_info "agents"%stdpp; add_missing "agents"%stdpp cols agent_migrations.

Definition message_migrations : list Column := [text "terminal_at"%stdpp].

Definition ensureMessageColumns : Sq () :=
  cols ← table_info "messages"%stdpp; add_missing "messages"%stdpp cols message_migrations.

(** The part of [NewSQLiteStore] between the pragmas and the backfill. *)
Definition upgrade_schema : Sq () :=
  create_tables sqliteSchema ;; ensureAgentColumns ;; ensureMessageColumns.

Definition run_sq {A} (m : Sq A) (f : nat → option string) (file : File) : result string A * File :=
  let '(r, w) := m f (O, file) in (r, w.2).

(** ** What an upgrade does *)

Definition added (table : string) : list Column :=
  if bool_decide (table = "agents"%stdpp) then agent_migrations
  else if bool_decide (table = "messages"%stdpp) then message_migrations else [].

(** Columns are only added, those of the migrations, and rows keep their values
    and get the default in the new ones. *)
Record grows (table : string) (t u : Table.t) : Prop := {
  g_columns : Table.Columns t `prefix_of` Table.Columns u;
  g_added : ∀ c, c ∈ Table.Columns u → c ∉ Table.Columns t → c ∈ col_name <$> added table;
  g_rows : Forall2 (λ r r' : gmap string Value,
    (∀ c, c ∈ Table.Columns t → r' !! c = r !! c) ∧
    ∀ c, c ∈ added table → col_name c ∈ Table.Columns u → col_name c ∉ Table.Columns t →
      r' !! col_name c = Some (col_default c)) (Table.Rows t) (Table.Rows u) }.

Definition grown (f g : File) : Prop :=
  ∀ name t, f !! name = Some t → ∃ u, g !! name = Some u ∧ grows name t u.

Lemma grows_refl name t : grows name t t.
Proof. split; [done|done|]. by apply Forall2_same_length_lookup_2; [|intros i r r' Hr Hr'; simplify_eq]. Qed.

Lemma grows_trans name t u v : grows name t u → grows name u v → grows name t v.
Proof.
  intros [Hc Ha Hr] [Hc' Ha' Hr']. split; [by etransitivity| |].
  - intros c Hin Hn. destruct (decide (c ∈ Table.Columns u)); [by apply Ha|by apply Ha'].
  - assert (∀ c, c ∈ Table.Columns t → c ∈ Table.Columns u) as Hsub.
    { intros c. destruct Hc as [k ->]. rewrite elem_of_app. by left. }
    eapply Forall2_trans; [|exact Hr|exact Hr']. intros r r1 r2 [H1 H2] [H3 H4]. split.
    + intros c Hin. rewrite H3 by auto. auto.
    + intros c Hin Hv Ht. destruct (decide (col_name c ∈ Table.Columns u)); [rewrite H3 by done; auto|auto].
Qed.

#[export] Instance grown_preorder : PreOrder grown.
Proof.
  split.
  - intros f name t Ht. exists t. split; [done|apply grows_refl].
  - intros f g h Hfg Hgh name t (u & Hu & Hg)%Hfg. destruct (Hgh _ _ Hu) as (v & Hv & Hg'). exists v.
    split; [done|by eapply grows_trans].
Qed.

Definition growing {A} (m : Sq A) : Prop := ∀ f w, grown w.2 (m f w).2.2.

Lemma growing_ret {A} (a : A) : growing (mret a).
Proof. intros f w. cbn. reflexivity. Qed.

Lemma growing_bind {A B} (m : Sq A) (k : A → Sq B) : growing m → (∀ a, growing (k a)) → growing (m ≫= k).
Proof.
  intros Hm Hk f w. specialize (Hm f w). unfold mbind, Sq_bind. destruct (m f w) as [[a|e] w1]; [|done].
  etransitivity; [exact Hm|apply Hk].
Qed.

Lemma growing_statement {A} (run : File → result string (A * File)) :
  (∀ f a g, run f = Ok (a, g) → grown f g) → growing (statement run).
Proof.
  intros H f [n g]. unfold statement. cbn. destruct (f n); [cbn; reflexivity|].
  destruct (run g) as [[a h]|e] eqn:Hr; cbn; [by eapply H|reflexivity].
Qed.

Lemma create_table_grown f t : grown f (create_table f t).
Proof.
  unfold create_table. destruct (f !! t.1) eqn:Ht; [reflexivity|]. intros name u Hu. exists u.
  rewrite lookup_insert_ne by congruence. split; [done|apply grows_refl].
Qed.

Lemma create_tables_grows l : growing (create_tables l).
Proof.
  induction l as [|t l IH]; cbn [create_tables].
  - apply growing_statement. intros f a g [= _ <-]. reflexivity.
  - apply growing_bind; [|done]. apply growing_statement. intros f a g [= _ <-]. apply create_table_grown.
Qed.

Lemma table_info_grows table : growing (table_info table).
Proof. apply growing_statement. intros f a g [= _ <-]. reflexivity. Qed.

Lemma add_column_grows table c : c ∈ added table → NoDup (col_name <$> added table) → growing (add_column table c).
Proof.
  intros Hc Hnd. apply growing_statement. intros f [] g. destruct (f !! table) as [t|] eqn:Ht; [|done].
  case_bool_decide as Hdup; [done|]. intros [= <-] name u Hu. destruct (decide (name = table)) as [->|Hne].
  2: { exists u. rewrite lookup_insert_ne by done. split; [done|apply grows_refl]. }
  rewrite Hu in Ht. injection Ht as ->. eexists. split; [apply lookup_insert_eq|]. split; cbn.
  - by eexists.
  - intros d [?|Hd]%elem_of_app Hn; [done|]. apply list_elem_of_singleton in Hd as ->. by apply list_elem_of_fmap_2.
  - apply Forall2_fmap_r, Forall2_same_length_lookup_2; [done|]. intros i r r' Hr Hr'. simplify_eq. split.
    + intros d Hd. apply lookup_insert_ne. intros He. apply Hdup. by rewrite He.
    + intros d Hd Hin Hn. apply elem_of_app in Hin as [?|Heq%list_elem_of_singleton]; [done|].
      assert (d = c) as ->; [|apply lookup_insert_eq].
      apply list_elem_of_lookup in Hd as [i1 H1], Hc as [i2 H2].
      assert (i1 = i2) as ->; [|congruence].
      apply (NoDup_lookup (col_name <$> added table) i1 i2 (col_name c)); [exact Hnd|..];
        rewrite list_lookup_fmap; [rewrite H1; cbn; congruence|by rewrite H2].
Qed.

Lemma added_NoDup table : NoDup (col_name <$> added table).
Proof. unfold added. repeat case_bool_decide; apply (bool_decide_unpack _); vm_compute; done. Qed.

Lemma add_missing_grows table cols migrations :
  (∀ c, c ∈ migrations → c ∈ added table) → growing (add_missing table cols migrations).
Proof.
  induction migrations as [|c l IH]; intros Hl; cbn [add_missing]; [apply growing_ret|].
  case_bool_decide; [apply IH; intros d Hd; apply Hl; by right|].
  apply growing_bind; [apply add_column_grows; [apply Hl; by left|apply added_NoDup]|].
  intros _. apply IH. intros d Hd. apply Hl. by right.
Qed.

Lemma ensureAgentColumns_grows : growing ensureAgentColumns.
Proof. apply growing_bind; [apply table_info_grows|intros cols]. apply add_missing_grows. by intros c. Qed.

Lemma ensureMessageColumns_grows : growing ensureMessageColumns.
Proof. apply growing_bind; [apply table_info_grows|intros cols]. apply add_missing_grows. by intros c. Qed.

Lemma upgrade_grows : growing upgrade_schema.
Proof.
  apply growing_bind; [apply create_tables_grows|intros _].
  apply growing_bind; [apply ensureAgentColumns_grows|intros _; apply ensureMessageColumns_grows].
Qed.

(** ** What it leaves *)

(** A file of an older process: its tables have the columns the schema names,
    except those the migrations add. *)
Definition legacy (f : File) : Prop :=
  ∀ name cols t c, (name, cols) ∈ sqliteSchema → f !! name = Some t → c ∈ cols →
    col_name c ∈ Table.Columns t ∨ col_name c ∈ col_name <$> added name.

(** Every table is there with every column the schema names and the statements
    use. *)
Definition complete (f : File) : Prop :=
  ∀ name cols, (name, cols) ∈ sqliteSchema →
    ∃ t, f !! name = Some t ∧ ∀ c, c ∈ cols → col_name c ∈ Table.Columns t.

Definition has_columns (table : string) (l : list Column) (f : File) : Prop :=
  ∃ t, f !! table = Some t ∧ ∀ c, c ∈ l → col_name c ∈ Table.Columns t.

Lemma grows_columns name t u c : grows name t u → c ∈ Table.Columns t → c ∈ Table.Columns u.
Proof. intros [[k ->] _ _]. rewrite elem_of_app. by left. Qed.

Lemma has_columns_grown table l f g : grown f g → has_columns table l f → has_columns table l g.
Proof.
  intros Hg (t & Ht & Hl). destruct (Hg _ _ Ht) as (u & Hu & Hgr). exists u. split; [done|].
  intros c Hc. by eapply grows_columns, Hl.
Qed.

(** A statement that succeeds. *)
Lemma statement_Ok {A} (run : File → result string (A * File)) f n g a w :
  statement run f (n, g) = (Ok a, w) → run g = Ok (a, w.2).
Proof. unfold statement. cbn. destruct (f n); [done|]. by destruct (run g) as [[b h]|e]; intros [= <- <-]. Qed.

Lemma bind_Ok {A B} (m : Sq A) (k : A → Sq B) f w b w' :
  (m ≫= k) f w = (Ok b, w') → ∃ a w1, m f w = (Ok a, w1) ∧ k a f w1 = (Ok b, w').
Proof. unfold mbind, Sq_bind. destruct (m f w) as [[a|e] w1]; [eauto|done]. Qed.

Lemma create_table_has f t : is_Some (create_table f t !! t.1).
Proof. unfold create_table. destruct (f !! t.1) eqn:Ht; [by rewrite Ht|]. by rewrite lookup_insert_eq. Qed.

Lemma create_table_legacy f t : t ∈ sqliteSchema → legacy f → legacy (create_table f t).
Proof.
  intros Hin Hf. unfold create_table. destruct (f !! t.1) eqn:Ht; [done|]. intros name cols u c Hs Hu Hc.
  destruct (decide (name = t.1)) as [->|Hne]; [|rewrite lookup_insert_ne in Hu by done; by eapply Hf].
  rewrite lookup_insert_eq in Hu. injection Hu as <-. left. cbn. apply list_elem_of_fmap_2.
  assert (cols = t.2) as ->; [|done].
  assert (∀ p q, p ∈ sqliteSchema → q ∈ sqliteSchema → p.1 = q.1 → p = q) as Hinj.
  { intros p q [i Hi]%list_elem_of_lookup [j Hj]%list_elem_of_lookup He.
    assert (i = j) as ->; [|congruence].
    apply (NoDup_lookup (fst <$> sqliteSchema) i j p.1); [apply (bool_decide_unpack _); vm_compute; done|..];
      rewrite list_lookup_fmap; [by rewrite Hi|rewrite Hj; cbn; congruence]. }
  by rewrite <-(Hinj _ _ Hs Hin eq_refl).
Qed.

Lemma create_tables_legacy l f w :
  (∀ t, t ∈ l → t ∈ sqliteSchema) → legacy w.2 → legacy (create_tables l f w).2.2.
Proof.
  revert w. induction l as [|t l IH]; intros [n g] Hl Hg; cbn [create_tables].
  - unfold statement. cbn. by destruct (f n).
  - unfold mbind, Sq_bind. destruct (statement _ f (n, g)) as [[[]|e] w1] eqn:Hs.
    + apply statement_Ok in Hs. injection Hs as Hs. apply IH; [intros u Hu; apply Hl; by right|].
      rewrite <-Hs. apply create_table_legacy; [apply Hl; by left|done].
    + revert Hs. unfold statement. cbn. destruct (f n); by intros [= _ <-].
Qed.

Lemma create_tables_Ok l f w u w' :
  create_tables l f w = (Ok u, w') → ∀ t, t ∈ l → is_Some (w'.2 !! t.1).
Proof.
  revert w. induction l as [|t l IH]; intros [n g] Hr t' Ht; [by apply elem_of_nil in Ht|].
  apply bind_Ok in Hr as ([] & w1 & Hs & Hr). apply elem_of_cons in Ht as [->|Ht]; [|by eapply IH].
  apply statement_Ok in Hs. injection Hs as Hs. destruct (create_table_has g t) as [v Hv]. rewrite Hs in Hv.
  pose proof (create_tables_grows l f w1) as Hk. change (create_tables l f w1 = (Ok u, w')) in Hr.
  rewrite Hr in Hk. destruct (Hk _ _ Hv) as (v' & Hv' & _). by exists v'.
Qed.

Lemma add_column_legacy table c f w : legacy w.2 → legacy (add_column table c f w).2.2.
Proof.
  destruct w as [n g]. intros Hg. unfold add_column, statement. cbn. destruct (f n); [done|].
  destruct (g !! table) as [t|] eqn:Ht; [|done]. case_bool_decide; [done|]. cbn.
  intros name cols u d Hs Hu Hd. destruct (decide (name = table)) as [->|Hne].
  - rewrite lookup_insert_eq in Hu. injection Hu as <-. destruct (Hg _ _ _ _ Hs Ht Hd) as [?|?]; [left|by right].
    cbn. apply elem_of_app. by left.
  - rewrite lookup_insert_ne in Hu by done. by eapply Hg.
Qed.

Lemma bind_legacy {A B} (m : Sq A) (k : A → Sq B) f w :
  legacy (m f w).2.2 → (∀ a w1, legacy w1.2 → legacy (k a f w1).2.2) → legacy ((m ≫= k) f w).2.2.
Proof. unfold mbind, Sq_bind. destruct (m f w) as [[a|e] w1]; cbn; auto. Qed.

Lemma add_missing_legacy table cols l : ∀ f w, legacy w.2 → legacy (add_missing table cols l f w).2.2.
Proof.
  induction l as [|c l IH]; intros f w Hw; cbn [add_missing]; [done|]. case_bool_decide; [by apply IH|].
  apply bind_legacy; [by apply add_column_legacy|]. intros [] w1. apply IH.
Qed.

Lemma table_info_same table f w : (table_info table f w).2.2 = w.2.
Proof. unfold table_info, statement. by destruct (f w.1). Qed.

Lemma upgrade_legacy f w : legacy w.2 → legacy (upgrade_schema f w).2.2.
Proof.
  intros Hw. apply bind_legacy; [by apply create_tables_legacy|]. intros [] w1 H1.
  apply bind_legacy; [|intros [] w2 H2]; (apply bind_legacy; [by rewrite table_info_same|]; intros cols w3 H3);
    by apply add_missing_legacy.
Qed.

(** What the columns read at first lack is added. *)
Lemma add_missing_Ok table cols l : ∀ f w u w' t,
  add_missing table cols l f w = (Ok u, w') → w.2 !! table = Some t →
  (∀ c, c ∈ cols → c ∈ Table.Columns t) → (∀ c, c ∈ l → c ∈ added table) →
  has_columns table l w'.2.
Proof.
  induction l as [|c l IH]; intros f w u w' t Hr Ht Hcols Hl; cbn [add_missing] in Hr.
  { injection Hr as _ <-. exists t. split; [done|]. intros c Hc. by apply elem_of_nil in Hc. }
  assert (∀ d, d ∈ l → d ∈ added table) as Hl' by (intros d Hd; apply Hl; by right).
  pose proof (add_missing_grows table cols l Hl' f) as Hk.
  case_bool_decide as Hin.
  - specialize (Hk w). destruct (IH _ _ _ _ _ Hr Ht Hcols Hl') as (t' & Ht' & Hall). rewrite Hr in Hk.
    exists t'. split; [done|]. intros d [->|Hd]%elem_of_cons; [|by apply Hall].
    destruct (Hk _ _ Ht) as (t2 & Ht2 & Hg). simplify_eq/=. by eapply grows_columns, Hcols.
  - apply bind_Ok in Hr as ([] & w1 & Hs & Hr). destruct w as [n g].
    apply statement_Ok in Hs. cbn in Ht. rewrite Ht in Hs. case_bool_decide; [done|]. injection Hs as Hs.
    specialize (Hk w1). rewrite Hr in Hk.
    assert (w1.2 !! table = Some (Table.mk (Table.Columns t ++ [col_name c])
      ((λ r, <[col_name c := col_default c]> r) <$> Table.Rows t))) as Ht1 by (rewrite <-Hs; apply lookup_insert_eq).
    destruct (IH _ _ _ _ _ Hr Ht1) as (t' & Ht' & Hall); [|done|].
    + intros d Hd. cbn. apply elem_of_app. left. by apply Hcols.
    + exists t'. split; [done|]. intros d [->|Hd]%elem_of_cons; [|by apply Hall].
      destruct (Hk _ _ Ht1) as (t2 & Ht2 & Hg). simplify_eq/=. eapply grows_columns; [exact Hg|].
      cbn. apply elem_of_app. right. by apply list_elem_of_singleton.
Qed.

Lemma ensure_Ok table l f w u w' :
  (cols ← table_info table; add_missing table cols l) f w = (Ok u, w') → is_Some (w.2 !! table) →
  (∀ c, c ∈ l → c ∈ added table) → has_columns table l w'.2.
Proof.
  intros (cols & w1 & Hs & Hr)%bind_Ok [t Ht] Hl. destruct w as [n g]. cbn in Ht. apply statement_Ok in Hs.
  rewrite Ht in Hs. injection Hs as <- Hs. eapply add_missing_Ok; [exact Hr|by rewrite <-Hs|done|done].
Qed.

Lemma upgrade_complete f w u w' :
  legacy w.2 → upgrade_schema f w = (Ok u, w') → complete w'.2.
Proof.
  intros Hw Hr. pose proof (upgrade_legacy f w Hw) as Hleg. rewrite Hr in Hleg. cbn in Hleg.
  apply bind_Ok in Hr as ([] & w1 & Hc & Hr). apply bind_Ok in Hr as ([] & w2 & Ha & Hm).
  pose proof (create_tables_Ok _ _ _ _ _ Hc) as Hall.
  assert (grown w1.2 w2.2) as Hk1.
  { pose proof (ensureAgentColumns_grows f w1) as Hk. by rewrite Ha in Hk. }
  assert (grown w2.2 w'.2) as Hk2.
  { pose proof (ensureMessageColumns_grows f w2) as Hk. by rewrite Hm in Hk. }
  assert (∀ name cols, (name, cols) ∈ sqliteSchema → is_Some (w1.2 !! name)) as Hsome.
  { intros name cols Hin. exact (Hall _ Hin). }
  assert (has_columns "agents"%stdpp agent_migrations w'.2) as Hag.
  { apply (has_columns_grown _ _ w2.2); [done|]. eapply ensure_Ok; [exact Ha| |by intros c].
    eapply Hsome. by left. }
  assert (has_columns "messages"%stdpp message_migrations w'.2) as Hme.
  { eapply ensure_Ok; [exact Hm| |by intros c]. destruct (Hsome "messages"%stdpp messages_columns) as [t Ht].
    { do 2 right. by left. }
    destruct (Hk1 _ _ Ht) as (t' & Ht' & _). by exists t'. }
  intros name cols Hin. destruct (Hsome _ _ Hin) as [t Ht].
  destruct (Hk1 _ _ Ht) as (t1 & Ht1 & _), (Hk2 _ _ Ht1) as (t2 & Ht2 & _). exists t2. split; [done|].
  intros c Hcol. destruct (Hleg _ _ _ _ Hin Ht2 Hcol) as [?|Hadd]; [done|].
  unfold added in Hadd. repeat case_bool_decide; subst; apply list_elem_of_fmap in Hadd as (d & -> & Hd).
  - destruct Hag as (t3 & Ht3 & Hd3). simplify_eq. by apply Hd3.
  - destruct Hme as (t3 & Ht3 & Hd3). simplify_eq. by apply Hd3.
  - by apply elem_of_nil in Hd.
Qed.

(** ** Runs without faults *)

Definition calm_calls (n : nat) : option string := None.

Lemma add_missing_clean table cols l : ∀ w t,
  w.2 !! table = Some t → NoDup (col_name <$> l) →
  (∀ c, c ∈ l → col_name c ∈ Table.Columns t → col_name c ∈ cols) →
  ∃ n g, add_missing table cols l calm_calls w = (Ok (), (n, g)) ∧
    ((∀ c, c ∈ l → col_name c ∈ cols) → g = w.2).
Proof.
  induction l as [|c l IH]; intros [n g] t Ht Hnd Hin; cbn [add_missing]; [by exists n, g|].
  apply NoDup_cons in Hnd as [Hc Hnd]. case_bool_decide as Hcols.
  - destruct (IH (n, g) t) as (n' & g' & Hr & Hsame); [done..|intros d Hd; apply Hin; by right|].
    exists n', g'. split; [done|]. intros Hall. apply Hsame. intros d Hd. apply Hall. by right.
  - unfold mbind, Sq_bind. unfold add_column at 1, statement. cbn in Ht |- *. rewrite Ht.
    rewrite bool_decide_eq_false_2; [|intros ?; apply Hcols, Hin; [by left|done]].
    match goal with |- context [<[table := ?t']> g] => set (u := t') end.
    destruct (IH (S n, <[table := u]> g) u (lookup_insert_eq g table u)) as (n' & g' & Hr & _); [done| |].
    2: { exists n', g'. split; [exact Hr|]. intros Hall. destruct Hcols. apply Hall. by left. }
    intros d Hd. cbn. intros [?|Heq%list_elem_of_singleton]%elem_of_app; [apply Hin; [by right|done]|].
    destruct Hc. rewrite <-Heq. by apply list_elem_of_fmap_2.
Qed.

Lemma ensure_clean table l w :
  is_Some (w.2 !! table) → NoDup (col_name <$> l) →
  ∃ n g, (cols ← table_info table; add_missing table cols l) calm_calls w = (Ok (), (n, g)) ∧
    (has_columns table l w.2 → g = w.2).
Proof.
  destruct w as [n g]. intros [t Ht] Hnd. cbn in Ht. unfold mbind, Sq_bind. unfold table_info, statement. cbn. rewrite Ht.
  destruct (add_missing_clean table (Table.Columns t) l (S n, g) t) as (n' & g' & Hr & Hsame); [done..|].
  exists n', g'. split; [done|]. intros (t' & Ht' & Hall). cbn in Ht'. simplify_eq. by apply Hsame.
Qed.

Lemma create_tables_clean l : ∀ w, ∃ n g,
  create_tables l calm_calls w = (Ok (), (n, g)) ∧ ((∀ t, t ∈ l → is_Some (w.2 !! t.1)) → g = w.2).
Proof.
  induction l as [|t l IH]; intros [n g]; cbn [create_tables]; [by exists (S n), g|].
  unfold mbind, Sq_bind. unfold statement at 1. cbn.
  destruct (IH (S n, create_table g t)) as (n' & g' & Hr & Hsame). exists n', g'. split; [done|]. intros Hall.
  assert (create_table g t = g) as Hg.
  { unfold create_table. destruct (Hall t (list_elem_of_here _ _)) as [u ->]. done. }
  rewrite Hsame; cbn; rewrite ?Hg; [done|]. intros u Hu. apply Hall. by right.
Qed.

Lemma upgrade_clean w :
  ∃ n g, upgrade_schema calm_calls w = (Ok (), (n, g)) ∧ (complete w.2 → g = w.2).
Proof.
  destruct (create_tables_clean sqliteSchema w) as (n1 & g1 & H1 & Hs1).
  pose proof (create_tables_Ok _ _ _ _ _ H1) as Hall.
  assert (is_Some (g1 !! "agents"%stdpp)) as Ha by (apply (Hall ("agents"%stdpp, agents_columns)); by left).
  assert (is_Some (g1 !! "messages"%stdpp)) as Hm.
  { apply (Hall ("messages"%stdpp, messages_columns)). do 2 right. by left. }
  destruct (ensure_clean "agents"%stdpp agent_migrations (n1, g1) Ha (added_NoDup "agents"%stdpp)) as (n2 & g2 & H2 & Hs2).
  assert (is_Some (g2 !! "messages"%stdpp)) as Hm2.
  { pose proof (ensureAgentColumns_grows calm_calls (n1, g1)) as Hk. unfold ensureAgentColumns in Hk. rewrite H2 in Hk. destruct Hm as [t Ht].
    destruct (Hk _ _ Ht) as (t' & Ht' & _). by exists t'. }
  destruct (ensure_clean "messages"%stdpp message_migrations (n2, g2) Hm2 (added_NoDup "messages"%stdpp)) as (n3 & g3 & H3 & Hs3).
  exists n3, g3. split.
  { unfold upgrade_schema, ensureAgentColumns, ensureMessageColumns. unfold mbind, Sq_bind in H2, H3 |- *.
    rewrite H1. cbn -[add_missing] in H2 |- *. rewrite H2. exact H3. }
  intros Hc. assert (g1 = w.2) as ->.
  { apply Hs1. intros [name cols] Hin. destruct (Hc _ _ Hin) as (t & Ht & _). by exists t. }
  assert (g2 = w.2) as ->.
  { apply Hs2. destruct (Hc "agents"%stdpp agents_columns) as (t & Ht & Hcols); [by left|]. exists t. split; [done|].
    intros c Hin. apply Hcols. revert c Hin. refine (proj1 (Forall_forall _ _) _). apply (bool_decide_unpack (Forall (λ c, c ∈ agents_columns) agent_migrations)). vm_compute. done. }
  apply Hs3. destruct (Hc "messages"%stdpp messages_columns) as (t & Ht & Hcols); [do 2 right; by left|]. exists t.
  split; [done|]. intros c ->%list_elem_of_singleton. apply Hcols, (bool_decide_unpack _). vm_compute. done.
Qed.

(** A start on the file of an older process.  Whatever call fails, no table,
    column or value is lost, and what is added holds its default; a start that
    succeeds has every column the statements name, so that the next one changes
    nothing; and a start without failures succeeds, whatever starts failed on the
    file before. *)
Theorem schema_upgrade faults f :
  legacy f →
  let '(r, g) := run_sq upgrade_schema faults f in
  grown f g ∧ legacy g ∧
  (r = Ok () → complete g ∧ run_sq upgrade_schema calm_calls g = (Ok (), g)) ∧
  ∃ h, run_sq upgrade_schema calm_calls g = (Ok (), h) ∧ complete h.
Proof.
  intros Hf. unfold run_sq at 1. pose proof (upgrade_grows faults (0%nat, f)) as Hk.
  pose proof (upgrade_legacy faults (0%nat, f) Hf) as Hleg.
  destruct (upgrade_schema faults (0%nat, f)) as [r [n g]] eqn:Hr. cbn [fst snd] in Hk, Hleg |- *.
  destruct (upgrade_clean (0%nat, g)) as (n' & h & Hc & Hsame). unfold run_sq. rewrite Hc.
  split_and!; [done|done| |].
  - intros ->. pose proof (upgrade_complete faults (0%nat, f) _ _ Hf Hr) as Hg. split; [done|]. by rewrite (Hsame Hg).
  - exists h. split; [done|]. by apply (upgrade_complete calm_calls (0%nat, g) _ _ Hleg Hc).
Qed.

(** *** A file from before the namespaces, and a disk that fills up *)

Definition old_agents : Table.t :=
  Table.mk ["agent_id"; "capabilities"; "description"; "mode"; "callback_url"; "status"; "registered_at"; "expires_at";
            "ttl_seconds"]%stdpp
    [{["agent_id"%stdpp := VText "bob"%stdpp; "mode"%stdpp := VText "push"%stdpp]}].
Definition old_file : File := {["agents"%stdpp := old_agents]}.

Lemma old_file_legacy : legacy old_file.
Proof.
  intros name cols t c Hin Ht Hc. unfold old_file in Ht. apply lookup_singleton_Some in Ht as [<- <-].
  assert (cols = agents_columns) as ->.
  { clear Hc. repeat (apply elem_of_cons in Hin as [Hin|Hin]; [first [by injection Hin|done]|]). by apply elem_of_nil in Hin. }
  assert (Forall (λ c, col_name c ∈ Table.Columns old_agents ∨ col_name c ∈ col_name <$> added "agents"%stdpp)
    agents_columns) as Hall by (apply (bool_decide_unpack _); vm_compute; done).
  by apply (proj1 (Forall_forall _ _) Hall).
Qed.

Lemma schema_upgrade_witness :
  let first := run_sq upgrade_schema (λ n, if bool_decide (n = 13%nat) then Some "database or disk is full"%stdpp else None)
                 old_file in
  first.1 = Err "database or disk is full"%stdpp ∧
  (∃ h, run_sq upgrade_schema calm_calls first.2 = (Ok (), h) ∧ complete h) ∧
  (λ t, (λ r : gmap string Value, (r !! "mode", r !! "allowed_scopes", r !! "meta")%stdpp) <$> Table.Rows t)
    <$> (run_sq upgrade_schema calm_calls first.2).2 !! "agents"%stdpp
  = Some [(Some (VText "push"), Some (VText "[]"), Some VNull)]%stdpp.
Proof.
  cbv zeta. split; [vm_compute; reflexivity|]. split; [|vm_compute; reflexivity].
  generalize (schema_upgrade (λ n, if bool_decide (n = 13%nat) then Some "database or disk is full"%stdpp else None)
    old_file old_file_legacy).
  destruct (run_sq _ _ old_file) as [r g]. intros (_ & _ & _ & Hh). exact Hh.
Defined.
