(* ===== verification/Delivery.v ===== *)
(** * The durable delivery ledger ([pkg/bus/sqlite_delivery.go])

    The acceptance and acknowledgement barriers, the durable inbox, and the
    receipts and claims of push deliveries, over the tables of [Sqlite].  A
    store is the in-memory store, the tables and the receipt writes that
    failed; the functions that lock both stores one after the other are given
    whole, their critical sections in order. *)
From stdpp Require Import gmap strings list sorting.
From Stdlib Require Import ZArith Lia Ascii.
From S2P Require Import Prelude GoBase Json Types Config Auth Ring State Push Inbox Observe Structure Sweep Conversations Agents Wakeup History Send Poll Rfc3339 Sqlite.

Record SQLiteStore := mkSQL {
  inner : Store;
  db : Tables;
  deliveryPersistErrors : gmap string DBError }.

Definition set_inner (s : Store) (q : SQLiteStore) : SQLiteStore :=
  mkSQL s (db q) (deliveryPersistErrors q).
Definition set_db (t : Tables) (q : SQLiteStore) : SQLiteStore :=
  mkSQL (inner q) t (deliveryPersistErrors q).

(** Runs a computation on the database of a store. *)
Definition on_db {A} (m : Db A) (f : Faults) (q : SQLiteStore) : result DBError A * SQLiteStore :=
  let '(r, t) := run_db m f (db q) in (r, set_db t q).

(** A row of the durable inbox ([sequencedMessage]). *)
Module Sequenced.
Record t := mk { seq : Z; message : Message.t }.
End Sequenced.

(** The rows the upgrade of an old database reads. *)
Module Legacy.
Record t := mk {
  messageID : string; target : string; createdAt : string; expiresAt : string; graceUntil : string }.
Record receipt := mkReceipt {
  from : string; to : string; requestID : string; message : string; acceptedAt : string }.
End Legacy.

Section delivery.
Context (E : Static).

(** The transport deadline of a message. *)
Definition deliveryExpiry (m : Message.t) : Time :=
  let expiresAt := Message.TTLExpiresAt m in
  if negb (IsZero (Message.GraceUntil m))
     && (IsZero expiresAt || Before (Message.GraceUntil m) expiresAt)
  then Message.GraceUntil m else expiresAt.

(** ** Statements *)

(** [INSERT INTO delivery_cursors ... ON CONFLICT DO NOTHING] *)
Definition new_cursor (agentID : string) (t : Tables) : Tables :=
  match t_delivery_cursors t !! agentID with
  | Some _ => t
  | None => with_delivery_cursors (<[agentID := CursorRow.mk 0 0]> (t_delivery_cursors t)) t
  end.

Definition insert_cursor (agentID : string) : Db () := exec (new_cursor agentID).

Definition select_cursor (agentID : string) : Db CursorRow.t :=
  query_row (λ t, t_delivery_cursors t !! agentID).

Definition update_cursor (agentID : string) (f : CursorRow.t → CursorRow.t) : Db () := exec (λ t,
  with_delivery_cursors (alter f agentID (t_delivery_cursors t)) t).

Definition set_next_seq (n : Z) (c : CursorRow.t) : CursorRow.t :=
  CursorRow.mk n (CursorRow.acknowledged_cursor c).
Definition set_acknowledged (n : Z) (c : CursorRow.t) : CursorRow.t :=
  CursorRow.mk (CursorRow.next_seq c) n.

Definition delivery_exists (t : Tables) (messageID : string) : bool :=
  bool_decide (map_Exists (λ _ d, DeliveryRow.message_id d = messageID) (t_deliveries t)).

(** The primary key, the unique message and the reference to [messages]. *)
Definition insert_delivery (agentID : string) (seq : Z) (d : DeliveryRow.t) : Db () := call (λ t,
  if bool_decide (is_Some (t_deliveries t !! (agentID, seq)))
     || delivery_exists t (DeliveryRow.message_id d) then Err (UniqueViolation "deliveries"%stdpp)
  else if bool_decide (t_messages t !! DeliveryRow.message_id d = None)
  then Err (ForeignKeyViolation "deliveries"%stdpp)
  else Ok ((), with_deliveries (<[(agentID, seq) := d]> (t_deliveries t)) t)).

Definition insert_receipt (key : string * string * string) (r : ReceiptRow.t) : Db () := call (λ t,
  if bool_decide (is_Some (t_idempotency t !! key)) then Err (UniqueViolation "idempotency"%stdpp)
  else Ok ((), with_idempotency (<[key := r]> (t_idempotency t)) t)).

(** A new row at the end of the agent's queue. *)
Definition append_delivery (agentID : string) (row : DeliveryRow.t) : Db () :=
  insert_cursor agentID ;;
  c ← select_cursor agentID;
  insert_delivery agentID (CursorRow.next_seq c) row ;;
  update_cursor agentID (set_next_seq (CursorRow.next_seq c + 1)).

(** ** The acceptance barrier *)

Definition new_delivery (m : Message.t) (st : DeliveryStatus) : DeliveryRow.t :=
  DeliveryRow.mk (Message.MessageID m) st (timeToString (Message.CreatedAt m)) 0 ε
    (timeToString (deliveryExpiry m)) ε.

Definition acceptance_key (a : SendAcceptance.t) : string * string * string :=
  let m := SendAcceptance.message a in (Message.From m, Message.To m, Message.RequestID m).

Definition new_receipt (a : SendAcceptance.t) : ReceiptRow.t :=
  let created := match SendAcceptance.idempotency a with
                 | Some i => IdempotencyEntry.CreatedAt i
                 | None => 0
                 end in
  ReceiptRow.mk (Message.MessageID (SendAcceptance.message a)) (timeToString created)
    (timeToString (Add created (Config.IdempotencyWindow (cfg E)))).

(** The message whose push receipts are to be recorded, if any. *)
Definition acceptance_receipt (a : SendAcceptance.t) : option string :=
  if is_empty (SendAcceptance.pushURL a) then None
  else Some (Message.MessageID (SendAcceptance.message a)).

Definition persistAcceptance (a : SendAcceptance.t) : Db (option string) :=
  let m := SendAcceptance.message a in
  let conv := SendAcceptance.conversation a in
  transaction (
    saveConversationTo conv ;;
    saveMessageTo m ;;
    saveConversationMessageTo (Conversation.ConversationID conv) (Message.MessageID m)
      (SendAcceptance.conversationPos a) ;;
    saveCountersTo (SendAcceptance.nextConversationID a) (SendAcceptance.nextMessageID a) ;;
    when (negb (is_empty (Message.To m)))
      (append_delivery (Message.To m)
        (new_delivery m (if is_empty (SendAcceptance.pushURL a) then Pending else Attempting))) ;;
    when (negb (is_empty (SendAcceptance.idempotencyKey a)))
      (insert_receipt (acceptance_key a) (new_receipt a))) ;;
  mret (acceptance_receipt a).

(** ** The acknowledgement barrier *)

Definition receive (now : string) (d : DeliveryRow.t) : DeliveryRow.t :=
  DeliveryRow.mk (DeliveryRow.message_id d) Received (DeliveryRow.next_attempt_at d)
    (DeliveryRow.attempt_count d) now (DeliveryRow.expires_at d) ε.

Definition persistAck (now : Time) (m : Message.t) : Db () :=
  transaction (
    saveMessageTo m ;;
    exec (update_deliveries (λ _ d,
      if bool_decide (DeliveryRow.message_id d = Message.MessageID m) && in_transport d
      then receive (timeToString now) d else d))).

(** ** Push receipts *)

Definition recordDeliveryPersistenceResult (messageID : string) (r : result DBError ())
    (q : SQLiteStore) : SQLiteStore :=
  mkSQL (inner q) (db q)
    (match r with
     | Ok _ => delete messageID (deliveryPersistErrors q)
     | Err e => <[messageID := e]> (deliveryPersistErrors q)
     end).

Definition attempting (messageID : string) (d : DeliveryRow.t) : bool :=
  bool_decide (DeliveryRow.message_id d = messageID) && bool_decide (DeliveryRow.status d = Attempting).

Definition push_succeeded (messageID : string) (attempts : Z) (now : string) : Tables → Tables :=
  update_deliveries (λ _ d,
    if attempting messageID d then
      DeliveryRow.mk (DeliveryRow.message_id d) Received ε (DeliveryRow.attempt_count d + attempts) now
        (DeliveryRow.expires_at d) ε
    else d).

Definition recordPushSuccess (f : Faults) (now : Time) (messageID : string) (attempts : Z)
    (q : SQLiteStore) : SQLiteStore :=
  let '(r, q) := on_db (exec (push_succeeded messageID attempts (timeToString now))) f q in
  recordDeliveryPersistenceResult messageID r q.

(** [backoff *= 2] until the bound, once per attempt after the first. *)
Fixpoint double_backoff (n : nat) (backoff : Duration) : Duration :=
  match n with
  | O => backoff
  | S n =>
      let backoff := wrap64 (backoff * 2) in
      if 30 * Second <=? backoff then 30 * Second else double_backoff n backoff
  end.

Definition pushCycleBackoff (attempts : Z) : Duration :=
  let backoff := Config.PushBaseBackoff (cfg E) in
  let backoff := if backoff <=? 0 then 500 * Millisecond else backoff in
  double_backoff (Z.to_nat (attempts - 1)) backoff.

(** [failure[:200]] *)
Definition clip (failure : string) : string :=
  if 200 <? len failure then of_bytes (take 200 (bytes failure)) else failure.

Definition push_failed (messageID : string) (attempts : Z) (failure now next : string)
    : Tables → Tables :=
  update_deliveries (λ _ d,
    if attempting messageID d then
      let expired := text_le (DeliveryRow.expires_at d) now in
      DeliveryRow.mk (DeliveryRow.message_id d) (if expired then Failed else Pending)
        (if expired then ε else next) (DeliveryRow.attempt_count d + attempts)
        (DeliveryRow.received_at d) (DeliveryRow.expires_at d) failure
    else d).

Definition recordPushFailure (f : Faults) (now : Time) (messageID : string) (attempts : Z)
    (failure : string) (q : SQLiteStore) : SQLiteStore :=
  let next := Add now (pushCycleBackoff attempts) in
  let '(r, q) := on_db (exec (push_failed messageID attempts (clip failure) (timeToString now)
                                (timeToString next))) f q in
  recordDeliveryPersistenceResult messageID r q.

(** The receipt of a finished delivery ([Push.Receipt]). *)
Definition record_receipt (f : Faults) (now : Time) (messageID : string) (r : Receipt)
    (q : SQLiteStore) : SQLiteStore :=
  match r with
  | OnSuccess attempts => recordPushSuccess f now messageID attempts q
  | OnFailure attempts failure => recordPushFailure f now messageID attempts failure q
  end.

(** ** Claims *)

Record claimedPush := mkClaimed { messageID : string; callbackURL : string }.

(** What offering a message to its target does to its row and to the stored
    message. *)
Definition offer_row (now : string) (m : MessageRow.t) : MessageRow.t :=
  MessageRow.mk (MessageRow.typ m) (MessageRow.from_agent m) (MessageRow.to_agent m)
    (MessageRow.conversation_id m) (MessageRow.request_id m) (MessageRow.in_reply_to m)
    (MessageRow.body m) (MessageRow.meta m) (MessageRow.attachments m)
    (if bool_decide (MessageRow.typ m = MessageTypeRequest) && bool_decide (MessageRow.state m = StatePending)
     then StateWaitingAck else MessageRow.state m)
    (MessageRow.created_at m) (MessageRow.terminal_at m)
    (if is_empty (MessageRow.delivered_at m) then now else MessageRow.delivered_at m)
    (MessageRow.last_progress_at m) (MessageRow.ttl_expires_at m) (MessageRow.grace_until m) 0.

Definition offer_message (at_ : Time) (m : Message.t) : Message.t :=
  Message.set_life
    (if bool_decide (Message.Typ m = MessageTypeRequest) && bool_decide (Message.State m = StatePending)
     then StateWaitingAck else Message.State m)
    (Message.TerminalAt m)
    (if IsZero (Message.DeliveredAt m) then at_ else Message.DeliveredAt m)
    (Message.LastProgressAt m) false m.

Definition offer_in_db (now : string) (id : string) (t : Tables) : Tables :=
  with_messages (alter (offer_row now) id (t_messages t)) t.

(** [if existing := s.inner.messages[id]; existing != nil { ... }] *)
Definition offer_in_memory (at_ : Time) (id : string) (s : Store) : Store :=
  match messages s !! id with
  | Some m => set_messages (<[id := offer_message at_ m]> (messages s)) s
  | None => s
  end.

(** The agent, at its callback, of a delivery that is due. *)
Definition due_push (now : string) (t : Tables) (key : string * Z) : option (DeliveryRow.t * string) :=
  d ← t_deliveries t !! key;
  _ ← t_messages t !! DeliveryRow.message_id d;
  a ← t_agents t !! key.1;
  if bool_decide (DeliveryRow.status d = Pending)
     && (is_empty (DeliveryRow.next_attempt_at d) || text_le (DeliveryRow.next_attempt_at d) now)
     && text_lt now (DeliveryRow.expires_at d)
     && bool_decide (AgentRow.mode a = AgentModePush)
     && bool_decide (AgentRow.status a = AgentStatusActive)
     && text_lt now (AgentRow.expires_at a) && negb (is_empty (AgentRow.callback_url a))
  then Some (d, AgentRow.callback_url a) else None.

(** [ORDER BY d.next_attempt_at, d.delivery_seq] *)
Definition attempt_le (a b : Z * DeliveryRow.t * string) : Prop :=
  match compare_bytes (bytes (DeliveryRow.next_attempt_at a.1.2))
          (bytes (DeliveryRow.next_attempt_at b.1.2)) with
  | Lt => True | Eq => a.1.1 ≤ b.1.1 | Gt => False
  end.

#[local] Instance attempt_le_dec a b : Decision (attempt_le a b).
Proof. unfold attempt_le. destruct (compare_bytes _ _); apply _. Defined.

(** [order] is the order the engine visits the deliveries in, which decides
    between rows the [ORDER BY] leaves equal. *)
Definition due_pushes (now : string) (order : list (string * Z)) (t : Tables) : list claimedPush :=
  take 32 ((λ r : Z * DeliveryRow.t * string, mkClaimed (DeliveryRow.message_id r.1.2) r.2)
    <$> merge_sort attempt_le
          (omap (λ key, (λ p : DeliveryRow.t * string, (key.2, p.1, p.2)) <$> due_push now t key) order)).

(** Claims a pending delivery; the result is the number of rows changed. *)
Definition claim (id : string) : Db nat := call (λ t,
  let mine (d : DeliveryRow.t) :=
    bool_decide (DeliveryRow.message_id d = id) && bool_decide (DeliveryRow.status d = Pending) in
  Ok (size (filter (λ '(_, d), mine d = true) (t_deliveries t)),
      update_deliveries (λ _ d, if mine d then set_status Attempting d else d) t)).

Fixpoint claim_each (now : string) (candidates : list claimedPush) : Db (list claimedPush) :=
  match candidates with
  | [] => mret []
  | c :: candidates =>
      r ← try (claim (messageID c));
      match r with
      | Ok 1%nat =>
          ignore (exec (offer_in_db now (messageID c))) ;;
          out ← claim_each now candidates;
          mret (c :: out)
      | _ => claim_each now candidates
      end
  end.

Definition claim_due (order : list (string * Z)) (now : string) : Db (list claimedPush) :=
  ignore (exec (fail_expired now)) ;;
  candidates ← query_unchecked (due_pushes now order);
  claim_each now candidates.

(** An error of the query yields no claims. *)
Definition claimDuePushes (f : Faults) (order : list (string * Z)) (now : Time) (q : SQLiteStore)
    : list claimedPush * SQLiteStore :=
  let '(r, q) := on_db (claim_due order (timeToString now)) f q in
  (match r with Ok claims => claims | Err _ => [] end, q).

Definition select_message (id : string) : Db Message.t :=
  query_row (λ t, scanSQLiteMessage id <$> t_messages t !! id).

(** [f] and [f'] are the faults of the read and of a failure's receipt; [now] is
    the instant that receipt reads. *)
Definition enqueueClaimedPush (f f' : Faults) (now : Time) (c : claimedPush) (q : SQLiteStore)
    : SQLiteStore :=
  match on_db (select_message (messageID c)) f q with
  | (Err _, q) => recordPushFailure f' now (messageID c) 0 "message unavailable"%stdpp q
  | (Ok m, q) =>
      let s := offer_in_memory (Message.DeliveredAt m) (messageID c) (inner q) in
      let job := PushJob.mk (callbackURL c) (push_payload m true) (Some (messageID c)) in
      let '(failure, s) := enqueuePushJobLocked E job s in
      let q := set_inner s q in
      if is_empty failure then q else recordPushFailure f' now (messageID c) 0 failure q
  end.

(** ** Counts *)

Definition count_deliveries (p : DeliveryRow.t → bool) (t : Tables) : Z :=
  Z.of_nat (size (filter (λ '(_, d), p d = true) (t_deliveries t))).

(** A count that cannot be read is zero. *)
Definition deliveryCounts (f : Faults) (q : SQLiteStore) : Z * Z :=
  let '(r, _) := run_db (
    p ← try (query (count_deliveries in_transport));
    n ← try (query (count_deliveries (λ d, bool_decide (DeliveryRow.status d = Failed))));
    mret (match p with Ok p => p | Err _ => 0 end, match n with Ok n => n | Err _ => 0 end)) f (db q) in
  match r with Ok c => c | Err _ => (0, 0) end.

(** ** The durable inbox *)

Definition durableInboxFallbackMaxEvents : Z := 10000.
Definition durableInboxMaxBatchBytes : Z := Z.shiftl 32 20.

Definition durableInboxBatchLimits : Z * Z :=
  let maxEvents := Config.MaxInboxEventsPerAgent (cfg E) in
  let maxEvents := if maxEvents <=? 0 then durableInboxFallbackMaxEvents else maxEvents in
  let maxBytes := Config.MaxInboxBytesPerAgent (cfg E) in
  let maxBytes := if (maxBytes <=? 0) || (durableInboxMaxBatchBytes <? maxBytes)
                  then durableInboxMaxBatchBytes else maxBytes in
  (maxEvents, maxBytes).

(** The two adjustments of the limit a caller asks for. *)
Definition batch_events (requestedLimit : Z) : Z :=
  let maxEvents := durableInboxBatchLimits.1 in
  if (0 <? requestedLimit) && (requestedLimit <? maxEvents) then requestedLimit else maxEvents.

Definition durable_cursor (requested : Z) (c : CursorRow.t) : Z :=
  let cursor := if requested <? CursorRow.acknowledged_cursor c
                then CursorRow.acknowledged_cursor c else requested in
  if CursorRow.next_seq c <? cursor then CursorRow.next_seq c else cursor.

(** Everything before the cursor was received. *)
Definition receive_before (agentID : string) (cursor : Z) (now : string) : Tables → Tables :=
  update_deliveries (λ k d,
    if bool_decide (k.1 = agentID) && (k.2 <? cursor) && in_transport d then receive now d else d).

Definition seq_le (a b : Sequenced.t) : Prop := Sequenced.seq a ≤ Sequenced.seq b.

#[local] Instance seq_le_dec a b : Decision (seq_le a b).
Proof. unfold seq_le. apply _. Defined.

(** The message of a delivery that can be offered. *)
Definition offered (agentID : string) (cursor : Z) (now : string) (t : Tables)
    (kd : string * Z * DeliveryRow.t) : option Sequenced.t :=
  let '((target, seq), d) := kd in
  m ← t_messages t !! DeliveryRow.message_id d;
  if bool_decide (target = agentID) && (cursor <=? seq) && in_transport d
     && text_lt now (DeliveryRow.expires_at d)
  then Some (Sequenced.mk seq (scanSQLiteMessage (DeliveryRow.message_id d) m)) else None.

Definition offers (agentID : string) (cursor : Z) (now : string) (t : Tables) : list Sequenced.t :=
  merge_sort seq_le (omap (offered agentID cursor now t) (map_to_list (t_deliveries t))).

Definition event_bytes (i : Sequenced.t) : Z :=
  inboxEventSize (messageInboxEvent (Sequenced.message i)).

(** The loop over the rows: the first always fits. *)
Fixpoint take_bytes (maxBytes batchBytes : Z) (taken : bool) (rows : list Sequenced.t)
    : list Sequenced.t :=
  match rows with
  | [] => []
  | i :: rows =>
      if taken && (maxBytes <? batchBytes + event_bytes i) then []
      else i :: take_bytes maxBytes (batchBytes + event_bytes i) true rows
  end.

(** [read_at] and [offered_at] are the instants the clock gives for the two
    comparisons and for the offer. *)
Definition read_tx (agentID : string) (requestedCursor requestedLimit : Z)
    (ack_at read_at offered_at : Time) : Db (Z * list Sequenced.t) :=
  transaction (
    insert_cursor agentID ;;
    c ← select_cursor agentID;
    let cursor := durable_cursor requestedCursor c in
    when (CursorRow.acknowledged_cursor c <? cursor)
      (update_cursor agentID (set_acknowledged cursor) ;;
       exec (receive_before agentID cursor (timeToString ack_at))) ;;
    rows ← query_unchecked (λ t,
      take (Z.to_nat (batch_events requestedLimit)) (offers agentID cursor (timeToString read_at) t));
    let pending := take_bytes durableInboxBatchLimits.2 0 false rows in
    for_each (λ i, exec (offer_in_db (timeToString offered_at) (Message.MessageID (Sequenced.message i))))
      pending ;;
    mret (cursor, (λ i, Sequenced.mk (Sequenced.seq i) (offer_message offered_at (Sequenced.message i)))
                  <$> pending)).

Definition next_cursor (cursor : Z) (pending : list Sequenced.t) : Z :=
  match last pending with Some i => Sequenced.seq i + 1 | None => cursor end.

Definition readDurableInbox (f : Faults) (agentID : string) (requestedCursor requestedLimit : Z)
    (ack_at read_at offered_at : Time) (q : SQLiteStore)
    : SQLiteStore * result DBError (list InboxEvent.t * Z) :=
  match on_db (read_tx agentID requestedCursor requestedLimit ack_at read_at offered_at) f q with
  | (Err e, q) => (q, Err e)
  | (Ok (cursor, pending), q) =>
      let s := foldl (λ s i, let m := Sequenced.message i in
                             offer_in_memory (Message.DeliveredAt m) (Message.MessageID m) s)
                 (inner q) pending in
      (set_inner s q,
       Ok ((λ i, messageInboxEvent (Sequenced.message i)) <$> pending, next_cursor cursor pending))
  end.

(** The error of an operation: the bus's or the engine's. *)
Inductive SQLError := BusError (e : Error.t) | EngineFailure (e : DBError).

(** One round of [pollDurableInbox]: the section of the in-memory store, then
    the read.  [mid] is what other calls do between the two. *)
Record Round := mkRound {
  r_order : Order;
  r_start : Time;
  r_ack : Time;
  r_read : Time;
  r_offer : Time;
  r_wait : Time;
  r_faults : Faults;
  r_mid : SQLiteStore → SQLiteStore }.

Definition poll_gate (agentID : string) (o : Order) (now : Time) (s : Store)
    : Store * result Error.t nat :=
  let s := sweepLocked E o now s in
  match agents s !! agentID with
  | Some agent =>
      if negb (bool_decide (Agent.Status agent = AgentStatusActive)) then
        (s, Err (fail CodeUnauthorized "agent is not registered/active"%stdpp)) else
      match authorizeAgentForName E (Agent.AgentID agent) agentID with
      | Some e => (s, Err e)
      | None => let '(ch, s) := inboxNotifyChanLocked agentID s in (s, Ok ch)
      end
  | None => (s, Err (fail CodeUnauthorized "agent is not registered/active"%stdpp))
  end.

Definition durable_round (agentID : string) (input : PollInboxInput.t) (deadline : Time)
    (r : Round) (q : SQLiteStore)
    : SQLiteStore * Outcome (result SQLError (list InboxEvent.t * Z)) :=
  let '(s, gate) := poll_gate agentID (r_order r) (r_start r) (inner q) in
  let q := set_inner s q in
  match gate with
  | Err e => (q, Returned (Err (BusError e)))
  | Ok ch =>
      let '(q, res) := readDurableInbox (r_faults r) agentID (PollInboxInput.Cursor input)
        (PollInboxInput.Limit input) (r_ack r) (r_read r) (r_offer r) (r_mid r q) in
      match res with
      | Err e => (q, Returned (Err (EngineFailure e)))
      | Ok (events, cursor) =>
          if (0 <? length events)%nat || (clamp_wait E (PollInboxInput.Wait input) =? 0)
          then (q, Returned (Ok (events, cursor)))
          else
            let remaining := Sub deadline (r_wait r) in
            if remaining <=? 0 then (q, Returned (Ok ([], cursor)))
            else (q, Waits ch remaining (Ok ([], cursor)))
      end
  end.

(** A wake-up: what other calls did, and the next round. *)
Fixpoint durable_loop (agentID : string) (input : PollInboxInput.t) (deadline : Time) (r : Round)
    (wakes : list ((SQLiteStore → SQLiteStore) * Round)) (q : SQLiteStore)
    : SQLiteStore * result SQLError (list InboxEvent.t * Z) :=
  let '(q, out) := durable_round agentID input deadline r q in
  match out with
  | Returned a => (q, a)
  | Waits _ _ on_timeout =>
      match wakes with
      | [] => (q, on_timeout)
      | (env, r) :: wakes => durable_loop agentID input deadline r wakes (env q)
      end
  end.

Definition pollDurableInbox (started : Time) (r : Round)
    (wakes : list ((SQLiteStore → SQLiteStore) * Round)) (input : PollInboxInput.t) (q : SQLiteStore)
    : SQLiteStore * result SQLError (list InboxEvent.t * Z) :=
  match poll_request E input with
  | Err e => (q, Err (BusError e))
  | Ok agentID =>
      let deadline := Add started (clamp_wait E (PollInboxInput.Wait input)) in
      durable_loop agentID input deadline r wakes q
  end.

(** ** The upgrade of databases without a ledger *)

Definition durableDeliveryBackfill : string := "durable-delivery-v1"%stdpp.

Definition created_le (a b : string * string) : Prop :=
  match compare_bytes (bytes a.1) (bytes b.1) with
  | Lt => True
  | Eq => text_le a.2 b.2 = true
  | Gt => False
  end.

(** [ORDER BY created_at, message_id] *)
Definition legacy_le (a b : string * MessageRow.t) : Prop :=
  created_le (MessageRow.created_at a.2, a.1) (MessageRow.created_at b.2, b.1).

#[local] Instance legacy_le_dec a b : Decision (legacy_le a b).
Proof. unfold legacy_le, created_le. destruct (compare_bytes _ _); apply _. Defined.

Definition legacy_wanted (t : Tables) (im : string * MessageRow.t) : bool :=
  let '(id, m) := im in
  negb (is_empty (MessageRow.to_agent m))
  && (match MessageRow.typ m with
      | MessageTypeRequest =>
          bool_decide (MessageRow.state m = StatePending) || bool_decide (MessageRow.state m = StateWaitingAck)
      | MessageTypeResponse | MessageTypeInform => true
      | MessageTypeNone => false
      end)
  && negb (delivery_exists t id).

Definition select_legacy (t : Tables) : list Legacy.t :=
  (λ '(id, m), Legacy.mk id (MessageRow.to_agent m) (MessageRow.created_at m)
                 (MessageRow.ttl_expires_at m) (MessageRow.grace_until m))
  <$> merge_sort legacy_le (filter (λ im, legacy_wanted t im = true) (map_to_list (t_messages t))).

Definition parse_time (raw : string) : Db Time :=
  match parseSQLiteTime raw with Some v => mret v | None => throw (BadTime raw) end.

Definition set_ttl (raw : string) (m : MessageRow.t) : MessageRow.t :=
  MessageRow.mk (MessageRow.typ m) (MessageRow.from_agent m) (MessageRow.to_agent m)
    (MessageRow.conversation_id m) (MessageRow.request_id m) (MessageRow.in_reply_to m)
    (MessageRow.body m) (MessageRow.meta m) (MessageRow.attachments m) (MessageRow.state m)
    (MessageRow.created_at m) (MessageRow.terminal_at m) (MessageRow.delivered_at m)
    (MessageRow.last_progress_at m) raw (MessageRow.grace_until m) (MessageRow.queued_for_agent m).

(** The deadline of a legacy message; a missing one is made up and stored. *)
Definition legacy_expiry (i : Legacy.t) : Db Time :=
  created ← parse_time (Legacy.createdAt i);
  expires ← (if is_empty (Legacy.expiresAt i) then
               let expires := Add created (Config.DefaultMessageTTL (cfg E)) in
               exec (λ t, with_messages
                 (alter (set_ttl (timeToString expires)) (Legacy.messageID i) (t_messages t)) t) ;;
               mret expires
             else parse_time (Legacy.expiresAt i));
  if is_empty (Legacy.graceUntil i) then mret expires else
  grace ← parse_time (Legacy.graceUntil i);
  mret (if Before grace expires then grace else expires).

Definition backfill_delivery (now : Time) (i : Legacy.t) : Db () :=
  expires ← legacy_expiry i;
  if negb (After expires now) then mret () else
  append_delivery (Legacy.target i)
    (DeliveryRow.mk (Legacy.messageID i) Pending (Legacy.createdAt i) 0 ε (timeToString expires) ε).

Definition select_receipts (cutoff : string) (t : Tables) : list Legacy.receipt :=
  (λ '(id, m), Legacy.mkReceipt (MessageRow.from_agent m) (MessageRow.to_agent m)
                 (MessageRow.request_id m) id (MessageRow.created_at m))
  <$> merge_sort legacy_le
        (filter (λ '(_, m),
           negb (is_empty (MessageRow.from_agent m)) && negb (is_empty (MessageRow.to_agent m))
           && negb (is_empty (MessageRow.request_id m))
           && text_le cutoff (MessageRow.created_at m) = true) (map_to_list (t_messages t))).

(** [INSERT ... ON CONFLICT DO NOTHING] *)
Definition backfill_receipt (r : Legacy.receipt) : Db () :=
  accepted ← parse_time (Legacy.acceptedAt r);
  exec (λ t,
    let key := (Legacy.from r, Legacy.to r, Legacy.requestID r) in
    match t_idempotency t !! key with
    | Some _ => t
    | None => with_idempotency
        (<[key := ReceiptRow.mk (Legacy.message r) (Legacy.acceptedAt r)
                    (timeToString (Add accepted (Config.IdempotencyWindow (cfg E))))]>
           (t_idempotency t)) t
    end).

Definition applied (t : Tables) : bool :=
  bool_decide (is_Some (t_schema_migrations t !! durableDeliveryBackfill)).

(** A database that has the marker rolls back, which changes nothing. *)
Definition backfillLegacyDeliveryState (now : Time) : Db () :=
  exec id (* Beginx *) ;;
  done_before ← query applied;
  if done_before : bool then mret () else
  commit (
    pending ← query_unchecked select_legacy;
    for_each (backfill_delivery now) pending ;;
    receipts ← query_unchecked
      (select_receipts (timeToString (Add now (- Config.IdempotencyWindow (cfg E)))));
    for_each backfill_receipt receipts ;;
    exec (λ t, with_schema_migrations
      (<[durableDeliveryBackfill := timeToString now]> (t_schema_migrations t)) t)).

End delivery.
