(* ===== verification/SqliteStore.v ===== *)
(** * The SQLite store behind [bus.API] ([pkg/bus/sqlite.go])

    The wrappers of [SQLiteStore] around the in-memory store, its construction
    from a database file and its shutdown.  The in-memory operations take the
    barrier as an argument; here the barrier is a transaction on the tables,
    run on the acceptance or the message the operation hands to it. *)
From stdpp Require Import gmap strings list sorting.
From Stdlib Require Import ZArith Lia Ascii.
From S2P Require Import Prelude GoBase Json Types Config Auth Ring State Push Inbox Observe Structure Sweep Conversations Agents Wakeup History Send Poll Lifecycle Queries Rfc3339 Sqlite Delivery.

Section store.
Context (E : Static).

(** ** What reaches the barrier *)

(** The acceptance [sendMessage] hands to the barrier, if it gets there. *)
Definition send_acceptance (o : Order) (now : Time) (input : SendMessageInput.t) (s : Store)
    : option SendAcceptance.t :=
  match send_request E input with
  | Err _ => None
  | Ok r =>
      let s := sweepLocked E o now s in
      match send_target E r s with
      | Err _ => None
      | Ok target =>
          match send_duplicate E now r s with
          | Some _ => None
          | None =>
              match send_plan E now input r target s with
              | Err _ => None
              | Ok a => Some a
              end
          end
      end
  end.

Definition inject_acceptance (o : Order) (now : Time) (input : InjectInput.t) (s : Store)
    : option SendAcceptance.t :=
  match inject_request E input with
  | Err _ => None
  | Ok (identity, body, to) =>
      match inject_plan E now input identity body to (sweepLocked E o now s) with
      | Err _ => None
      | Ok a => Some a
      end
  end.

(** The version of a message [ack] hands to the barrier. *)
Definition ack_version (o : Order) (now : Time) (input : AckInput.t) (s : Store) : option Message.t :=
  match ack_request input with
  | Err _ => None
  | Ok (agentID, messageID, status) =>
      m ← messages (sweepLocked E o now s) !! messageID;
      if bool_decide (Message.Typ m ≠ MessageTypeRequest) || bool_decide (Message.To m ≠ agentID)
         || isTerminal (Message.State m)
      then None else Some (ack_message now status m)
  end.

(** For a finished message [postEvent] hands over the stored version. *)
Definition event_version (o : Order) (now : Time) (input : EventInput.t) (s : Store)
    : option Message.t :=
  match event_request input with
  | Err _ => None
  | Ok (actor, messageID, kind, body) =>
      m ← messages (sweepLocked E o now s) !! messageID;
      if bool_decide (Message.To m ≠ actor) || bool_decide (Message.Typ m ≠ MessageTypeRequest)
      then None
      else if isTerminal (Message.State m) then Some m
      else match event_message E now kind m with Ok next => Some next | Err _ => None end
  end.

(** ** Wrappers with a barrier

    The in-memory operation returns the barrier's error as it is; [refusal]
    stands for it inside the operation, and the wrapper puts it back. *)
Definition refusal : Error.t := NewInternalError ε.

Definition answer {A B} (m : A → Db B) (f : Faults) (a : option A) (t : Tables)
    : option (result DBError B) * Tables :=
  match a with
  | Some a => let '(r, t) := run_db (m a) f t in (Some r, t)
  | None => (None, t)
  end.

Definition lift {A B} (verdict : option (result DBError B)) (r : result Error.t A)
    : result SQLError A :=
  match verdict with
  | Some (Err e) => Err (EngineFailure e)
  | _ => match r with Ok a => Ok a | Err e => Err (BusError e) end
  end.

Definition barrier (verdict : option (result DBError (option string))) : Commit :=
  Some (λ _, match verdict with Some (Ok receipt) => Ok receipt | _ => Err refusal end).

Definition message_barrier (verdict : option (result DBError ())) : CommitMessage :=
  Some (λ _, match verdict with Some (Ok _) => None | _ => Some refusal end).

Definition QSendMessage (f : Faults) (o : Order) (now : Time) (input : SendMessageInput.t)
    (q : SQLiteStore)
    : SQLiteStore * result SQLError (Message.t * bool) * option (string * string) :=
  let '(verdict, t) :=
    answer (persistAcceptance E) f (send_acceptance o now input (inner q)) (db q) in
  let '(s, r, dispatched) := sendMessage E (barrier verdict) o now input (inner q) in
  (set_inner s (set_db t q), lift verdict r, dispatched).

Definition QInject (f : Faults) (o : Order) (now : Time) (input : InjectInput.t) (q : SQLiteStore)
    : SQLiteStore * result SQLError Message.t * option (string * string) :=
  let '(verdict, t) :=
    answer (persistAcceptance E) f (inject_acceptance o now input (inner q)) (db q) in
  let '(s, r, dispatched) := inject E (barrier verdict) o now input (inner q) in
  (set_inner s (set_db t q), lift verdict r, dispatched).

Definition only_error (r : option Error.t) : result Error.t () :=
  match r with Some e => Err e | None => Ok () end.

(** [committed] is the instant [persistAck] reads. *)
Definition QAck (f : Faults) (o : Order) (now committed : Time) (input : AckInput.t)
    (q : SQLiteStore) : SQLiteStore * result SQLError () :=
  let '(verdict, t) := answer (persistAck committed) f (ack_version o now input (inner q)) (db q) in
  let '(s, r) := ack E (message_barrier verdict) o now input (inner q) in
  (set_inner s (set_db t q), lift verdict (only_error r)).

Definition QPostEvent (f : Faults) (o : Order) (now committed : Time) (input : EventInput.t)
    (q : SQLiteStore) : SQLiteStore * result SQLError () :=
  let '(verdict, t) := answer (persistAck committed) f (event_version o now input (inner q)) (db q) in
  let '(s, r) := postEvent E (message_barrier verdict) o now input (inner q) in
  (set_inner s (set_db t q), lift verdict (only_error r)).

Definition QPollInbox := pollDurableInbox E.

(** ** Wrappers that write after the operation

    The two halves are separate critical sections: [mid] is what other calls
    do in between. *)

Definition QRegisterAgent (f : Faults) (o : Order) (now : Time) (mid : SQLiteStore → SQLiteStore)
    (input : RegisterAgentInput.t) (q : SQLiteStore) : SQLiteStore * result SQLError Agent.t :=
  let '(s, r) := RegisterAgent E o now input (inner q) in
  let q := set_inner s q in
  match r with
  | Err e => (q, Err (BusError e))
  | Ok out =>
      let '(r, q) := on_db (saveAgentTo out) f (mid q) in
      (q, match r with Ok _ => Ok out | Err e => Err (EngineFailure e) end)
  end.

Definition save_conversation (c : Conversation.t) (nextConv nextMsg : Z) : Db () :=
  transaction (saveConversationTo c ;; saveCountersTo nextConv nextMsg).

(** The counters are read before the second half waits for the database. *)
Definition QCreateConversation (f : Faults) (o : Order) (now : Time)
    (mid : SQLiteStore → SQLiteStore) (input : CreateConversationInput.t) (q : SQLiteStore)
    : SQLiteStore * result SQLError Conversation.t :=
  let '(s, r) := CreateConversation E o now input (inner q) in
  let q := set_inner s q in
  match r with
  | Err e => (q, Err (BusError e))
  | Ok out =>
      let nextConv := nextConversationID s in
      let nextMsg := nextMessageID s in
      let '(r, q) := on_db (save_conversation out nextConv nextMsg) f (mid q) in
      (q, match r with Ok _ => Ok out | Err e => Err (EngineFailure e) end)
  end.

(** ** Wrappers that only read *)

Definition through {A} (r : Store * A) (q : SQLiteStore) : SQLiteStore * A := (set_inner r.1 q, r.2).

Definition QListAgents o order now capability q :=
  through (ListAgents E o order now capability (inner q)) q.
Definition QListConversations o order now filter q :=
  through (ListConversations E o order now filter (inner q)) q.
Definition QListConversationMessages o now input q :=
  through (ListConversationMessages E o now input (inner q)) q.
Definition QObserveSince started o r wakes afterID filter wait q :=
  through (ObserveSince E started o r wakes afterID filter wait (inner q)) q.

(** [out[k] = v]: replaces the value of a key or adds it. *)
Definition set_field (k : string) (v : json) (out : json) : json :=
  match out with
  | JObj fields =>
      if bool_decide (k ∈ fields.*1)
      then JObj ((λ '(k', v'), (k', if bool_decide (k' = k) then v else v')) <$> fields)
      else JObj (fields ++ [(k, v)])
  | _ => out
  end.

Definition add_counts (counts : Z * Z) (out : json) : json :=
  set_field "failed_deliveries"%stdpp (JInt counts.2)
    (set_field "pending_deliveries"%stdpp (JInt counts.1) out).

Definition QHealth f o order now q :=
  let '(q, out) := through (Health E o order now (inner q)) q in
  let out := add_counts (deliveryCounts f q) out in
  (q, if bool_decide (deliveryPersistErrors q = ∅) then out
      else set_field "delivery_persistence_error"%stdpp (JBool true)
             (set_field "status"%stdpp (JString "degraded"%stdpp)
                (set_field "ok"%stdpp (JBool false) out))).

Definition QSystemStatus f o order now q :=
  let '(q, out) := through (SystemStatus E o order now (inner q)) q in
  (q, add_counts (deliveryCounts f q) out).

Definition QMetrics f o order now q :=
  let '(q, out) := through (Metrics E o order now (inner q)) q in
  let '(pending, failed) := deliveryCounts f q in
  (q, out
      +:+ metric "agent_bus_pending_deliveries"%stdpp "gauge"%stdpp
            "Durable deliveries awaiting transport receipt."%stdpp pending
      +:+ metric "agent_bus_failed_deliveries"%stdpp "gauge"%stdpp
            "Durable deliveries that reached their transport deadline."%stdpp failed).

(** ** Construction and shutdown *)

(** The instants the clock gives while the file is opened. *)
Record StartClock := mkStartClock { c_backfill : Time; c_prune : Time; c_load : Time }.

(** From the first pragma to the loaded store.  The schema statements and the
    added columns do not change the rows. *)
Definition start_db (c : StartClock) (order : list (string * string * string)) (s : Store)
    : Db Store :=
  exec id (* PRAGMA auto_vacuum *) ;;
  exec id (* PRAGMA journal_mode *) ;;
  exec id (* schema *) ;;
  exec id (* ensureAgentColumns *) ;;
  exec id (* ensureMessageColumns *) ;;
  backfillLegacyDeliveryState E (c_backfill c) ;;
  exec recover_attempts ;;
  pruneDB E (c_prune c) ;;
  loadAll (c_load c) order s.

(** [Close]: the workers are stopped, what they were pushing is due again. *)
Definition Close (f : Faults) (now : Time) (timed_out : bool) (q : SQLiteStore)
    : SQLiteStore * (option string * option DBError) :=
  let '(s, pushErr) := closePushWorkers timed_out (inner q) in
  let '(r, q) := on_db (exec (shutdown_attempts (timeToString now))) f (set_inner s q) in
  match r with
  | Ok _ => (mkSQL (inner q) (db q) ∅, (pushErr, None))
  | Err e => (q, (pushErr, Some e))
  end.

End store.

Inductive OpenError := InvalidConfiguration (e : ConfigError) | OpenFailure (e : DBError).

(** On the tables the file holds, those of an empty file being empty.  The
    second component is what the file holds afterwards. *)
Definition NewSQLiteStore (hash_order : list string) (human : string) (c : Config.t)
    (clock : StartClock) (order : list (string * string * string)) (f : Faults) (t : Tables)
    : result OpenError (Static * SQLiteStore) * Tables :=
  match NewStore hash_order human c with
  | Err e => (Err (InvalidConfiguration e), t)
  | Ok (E, s) =>
      match run_db (start_db E clock order s) f t with
      | (Err e, t) => (Err (OpenFailure e), t)
      | (Ok s, t) => (Ok (E, mkSQL s t ∅), t)
      end
  end.
