(* ===== verification/Ledger.v ===== *)
(** * What the durable ledger guarantees

    An invariant of the tables ([ledger_ok]); what every call keeps, whatever
    fails ([advances]); a small logic for the database monad to prove it
    statement by statement; and that every call of [Delivery] and [SqliteStore],
    the restart of the process included, keeps it.  [SqliteSystem] makes them
    one transition relation. *)
From stdpp Require Import gmap strings list sorting relations.
From Stdlib Require Import ZArith Lia Ascii.
From S2P Require Import Prelude GoBase Json Types Config State Push Send Rfc3339 Sqlite Delivery SqliteStore.

(** ** The invariant *)

Record ledger_ok (t : Tables) : Prop := {
  (** Sequence numbers lie below the cursor's next one. *)
  lk_seq : ∀ a n d, t_deliveries t !! (a, n) = Some d →
    ∃ c, t_delivery_cursors t !! a = Some c ∧ 0 ≤ n < CursorRow.next_seq c;
  lk_cursor : ∀ a c, t_delivery_cursors t !! a = Some c →
    0 ≤ CursorRow.acknowledged_cursor c ≤ CursorRow.next_seq c;
  (** A message is delivered once. *)
  lk_unique : ∀ k k' d d', t_deliveries t !! k = Some d → t_deliveries t !! k' = Some d' →
    DeliveryRow.message_id d = DeliveryRow.message_id d' → k = k';
  (** What is delivered is stored. *)
  lk_ref : ∀ k d, t_deliveries t !! k = Some d → is_Some (t_messages t !! DeliveryRow.message_id d);
  (** Nothing before the acknowledged cursor is offered again. *)
  lk_acked : ∀ a n d c, t_deliveries t !! (a, n) = Some d → t_delivery_cursors t !! a = Some c →
    n < CursorRow.acknowledged_cursor c → in_transport d = false }.

Lemma emptyTables_ok : ledger_ok emptyTables.
Proof. by constructor. Qed.

(** ** What a call acknowledges *)

Inductive Label :=
| Internal
| Acknowledged (messageID : string)
| ReadUpTo (agentID : string) (cursor : Z).

Definition acknowledges (l : Label) (k : string * Z) (d : DeliveryRow.t) : Prop :=
  match l with
  | Internal => False
  | Acknowledged id => DeliveryRow.message_id d = id
  | ReadUpTo a cursor => k.1 = a ∧ k.2 < cursor
  end.

(** ** What a call keeps

    [same_delivery] is what no call changes of a delivery. *)
Record same_delivery (d d' : DeliveryRow.t) : Prop := {
  sd_message : DeliveryRow.message_id d' = DeliveryRow.message_id d;
  sd_expires : DeliveryRow.expires_at d' = DeliveryRow.expires_at d }.

#[export] Instance same_delivery_preorder : PreOrder same_delivery.
Proof. split; [by constructor|]. intros x y z [] []. constructor; congruence. Qed.

(** At [now], under the label [l]: a delivery that is neither acknowledged nor
    past its deadline stays due, an unexpired receipt stays as it is, cursors
    do not go back. *)
Record advances (now : Time) (l : Label) (t t' : Tables) : Prop := {
  ad_ok : ledger_ok t';
  ad_delivery : ∀ k d, t_deliveries t !! k = Some d → in_transport d = true →
    ¬ acknowledges l k d → text_le (DeliveryRow.expires_at d) (timeToString now) = false →
    ∃ d', t_deliveries t' !! k = Some d' ∧ same_delivery d d' ∧ in_transport d' = true;
  ad_receipt : ∀ k r, t_idempotency t !! k = Some r →
    text_lt (ReceiptRow.expires_at r) (timeToString now) = false → t_idempotency t' !! k = Some r;
  ad_cursor : ∀ a c, t_delivery_cursors t !! a = Some c →
    ∃ c', t_delivery_cursors t' !! a = Some c' ∧ CursorRow.next_seq c ≤ CursorRow.next_seq c' ∧
          CursorRow.acknowledged_cursor c ≤ CursorRow.acknowledged_cursor c' }.

Lemma advances_refl now l t : ledger_ok t → advances now l t t.
Proof.
  intros Hok. constructor; [done| |done|].
  - intros k d Hd Ht _ _. by exists d.
  - intros a c Hc. by exists c.
Qed.

Lemma acknowledges_same l k d d' : same_delivery d d' → acknowledges l k d' → acknowledges l k d.
Proof. intros [Hm _]. unfold acknowledges. rewrite Hm. done. Qed.

Lemma advances_trans now l t1 t2 t3 :
  advances now l t1 t2 → advances now l t2 t3 → advances now l t1 t3.
Proof.
  intros [_ Hd Hr Hc] [Hok' Hd' Hr' Hc']. constructor; [done| |auto|].
  - intros k d Hk Ht Ha He. destruct (Hd k d Hk Ht Ha He) as (d1 & Hk1 & Hs & Ht1).
    destruct (Hd' k d1 Hk1 Ht1) as (d2 & Hk2 & Hs2 & Ht2).
    + intros Hack. by eapply Ha, acknowledges_same.
    + by rewrite (sd_expires _ _ Hs).
    + exists d2. split_and!; [done|by etransitivity|done].
  - intros a c Ha. destruct (Hc a c Ha) as (c1 & Hc1 & ? & ?).
    destruct (Hc' a c1 Hc1) as (c2 & ? & ? & ?). exists c2. split_and!; [done|lia|lia].
Qed.

(** As a relation on tables. *)
Definition moves (now : Time) (l : Label) : relation Tables := λ t t', ledger_ok t → advances now l t t'.

#[export] Instance moves_preorder now l : PreOrder (moves now l).
Proof.
  split; [intros t Hok; by apply advances_refl|].
  intros t1 t2 t3 H12 H23 Hok. specialize (H12 Hok).
  eapply advances_trans; [done|]. by apply H23, (ad_ok _ _ _ _ H12).
Qed.

(** ** A logic for the database monad

    [keeps R m]: whatever fails, [m] leads to [R]-related tables.  [commits R m]
    only says so of runs that succeed, which is enough inside a transaction. *)

Create HintDb db discriminated.

Definition keeps (R : relation Tables) {A} (m : Db A) : Prop := ∀ f k t, R t (m f (k, t)).2.2.

Definition commits (R : relation Tables) {A} (m : Db A) : Prop := ∀ f k t,
  match m f (k, t) with (Ok _, (_, t')) => R t t' | (Err _, _) => True end.

Section logic.
Context (R : relation Tables) `{!PreOrder R} {A B : Type}.

Lemma keeps_commits (m : Db A) : keeps R m → commits R m.
Proof. intros H f k t. specialize (H f k t). by destruct (m f (k, t)) as [[a|e] [k' t']]. Qed.

Lemma keeps_ret (a : A) : keeps R (mret a).
Proof. intros f k t. reflexivity. Qed.

Lemma keeps_throw e : keeps R (throw (A := A) e).
Proof. intros f k t. reflexivity. Qed.

Lemma keeps_bind (m : Db A) (g : A → Db B) :
  keeps R m → (∀ a, keeps R (g a)) → keeps R (m ≫= g).
Proof.
  intros Hm Hg f k t. specialize (Hm f k t). rewrite bind_run.
  destruct (m f (k, t)) as [[a|e] [k' t']]; cbn in *; [|done].
  etransitivity; [exact Hm|]. apply Hg.
Qed.

Lemma commits_bind (m : Db A) (g : A → Db B) :
  commits R m → (∀ a, commits R (g a)) → commits R (m ≫= g).
Proof.
  intros Hm Hg f k t. specialize (Hm f k t). rewrite bind_run.
  destruct (m f (k, t)) as [[a|e] [k' t']]; [|done]. specialize (Hg a f k' t').
  destruct (g a f (k', t')) as [[] [? ?]]; [|done]. by etransitivity.
Qed.

Lemma keeps_call (stmt : Tables → result DBError (A * Tables)) :
  (∀ t a t', stmt t = Ok (a, t') → R t t') → keeps R (call stmt).
Proof.
  intros H f k t. unfold call; cbn. destruct (f k) as [[]|]; cbn; [reflexivity..|].
  destruct (stmt t) as [[a t']|] eqn:E; cbn; [by eapply H|reflexivity].
Qed.

Lemma keeps_query (select : Tables → A) : keeps R (query select).
Proof. apply keeps_call. intros t a t' [= <- <-]. reflexivity. Qed.

Lemma keeps_query_row (select : Tables → option A) : keeps R (query_row select).
Proof. apply keeps_call. intros t a t'. case_match; [|done]. intros [= <- <-]. reflexivity. Qed.

Lemma keeps_query_unchecked (select : Tables → list A) : keeps R (query_unchecked select).
Proof. intros f k t. unfold query_unchecked; cbn. destruct (f k) as [[]|]; reflexivity. Qed.

Lemma keeps_ignore (m : Db A) : keeps R m → keeps R (ignore m).
Proof. intros H f k t. apply H. Qed.

Lemma keeps_try (m : Db A) : keeps R m → keeps R (try m).
Proof. intros H f k t. specialize (H f k t). unfold try. by destruct (m f (k, t)). Qed.

Lemma keeps_commit (m : Db A) : commits R m → keeps R (commit m).
Proof.
  intros H f k t. specialize (H f k t). unfold commit. cbn [snd].
  destruct (m f (k, t)) as [[a|e] [k1 t1]]; [|cbn; reflexivity].
  unfold exec, call; cbn. destruct (f k1) as [[]|]; cbn; [reflexivity..|done].
Qed.

Lemma run_db_keeps (m : Db A) f t : keeps R m → R t (run_db m f t).2.
Proof. intros H. specialize (H f O t). unfold run_db. by destruct (m f (O, t)) as [? [? ?]]. Qed.
End logic.

Lemma keeps_exec R `{!PreOrder R} u : (∀ t, R t (u t)) → keeps R (exec u).
Proof. intros H. apply keeps_call; [apply _|]. by intros t [] t' [= <-]. Qed.

Lemma keeps_begin R `{!PreOrder R} : keeps R (exec id).
Proof. apply keeps_exec; [apply _|]. intros t. reflexivity. Qed.

Lemma keeps_transaction R `{!PreOrder R} {A} (m : Db A) : commits R m → keeps R (transaction m).
Proof.
  intros H. apply keeps_bind; [apply _|apply keeps_begin, _|]. intros _. apply keeps_commit; [apply _|done].
Qed.

Lemma keeps_when R `{!PreOrder R} c m : keeps R m → keeps R (when c m).
Proof. intros H. destruct c; [done|]. apply keeps_ret, _. Qed.

Lemma commits_when R `{!PreOrder R} c m : commits R m → commits R (when c m).
Proof. intros H. destruct c; [done|]. apply keeps_commits, keeps_ret, _. Qed.

Lemma commits_for_each R `{!PreOrder R} {A} (g : A → Db ()) l :
  (∀ a, commits R (g a)) → commits R (for_each g l).
Proof.
  intros H. induction l as [|a l IH]; cbn [for_each].
  - apply keeps_commits, keeps_ret, _.
  - apply commits_bind; [apply _|done|]. by intros _.
Qed.

#[export] Hint Resolve keeps_ret keeps_throw keeps_query keeps_query_row keeps_query_unchecked
  keeps_ignore keeps_try keeps_begin keeps_transaction keeps_when commits_when keeps_commit : db.
#[export] Hint Resolve keeps_commits | 10 : db.

(** ** Inverting runs that succeed *)

Lemma bind_ok {A B} (m : Db A) (g : A → Db B) f w b w2 :
  (m ≫= g) f w = (Ok b, w2) → ∃ a w1, m f w = (Ok a, w1) ∧ g a f w1 = (Ok b, w2).
Proof. rewrite bind_run. destruct (m f w) as [[a|e] w1]; [by exists a, w1|done]. Qed.

Lemma call_ok {A} (stmt : Tables → result DBError (A * Tables)) f w a w1 :
  call stmt f w = (Ok a, w1) → stmt w.2 = Ok (a, w1.2).
Proof.
  unfold call. destruct (f w.1) as [[]|]; [done..|].
  destruct (stmt w.2) as [[a' t']|]; [|done]. by intros [= <- <-].
Qed.

Lemma exec_ok u f w a w1 : exec u f w = (Ok a, w1) → w1.2 = u w.2.
Proof. intros H%call_ok. by simplify_eq. Qed.

Lemma query_row_ok {A} (select : Tables → option A) f w a w1 :
  query_row select f w = (Ok a, w1) → select w.2 = Some a ∧ w1.2 = w.2.
Proof. intros H%call_ok. case_match; by simplify_eq. Qed.

Lemma commits_intro R {A} (m : Db A) :
  (∀ f w a w1, m f w = (Ok a, w1) → R w.2 w1.2) → commits R m.
Proof.
  intros H f k t. destruct (m f (k, t)) as [[a|e] [k' t']] eqn:E; [|done]. by apply H in E.
Qed.

(** ** Statements *)

Section statements.
Context (now : Time) (l : Label).

(** Statements outside the ledger, and those that only add messages. *)
Lemma moves_frame t t' :
  t_deliveries t' = t_deliveries t → t_delivery_cursors t' = t_delivery_cursors t →
  t_idempotency t' = t_idempotency t →
  (∀ id, is_Some (t_messages t !! id) → is_Some (t_messages t' !! id)) → moves now l t t'.
Proof.
  intros Hd Hc Hi Hm [H1 H2 H3 H4 H5]. constructor.
  - constructor; rewrite ?Hd, ?Hc; eauto.
  - rewrite Hd. intros k d ? ? _ _. by exists d.
  - by rewrite Hi.
  - rewrite Hc. intros a c ?. by exists c.
Qed.

Lemma update_lookup f t k d' :
  t_deliveries (update_deliveries f t) !! k = Some d' →
  ∃ d, t_deliveries t !! k = Some d ∧ d' = f k d.
Proof.
  cbn. rewrite map_lookup_imap. destruct (t_deliveries t !! k) as [d|]; [|done]. intros [= <-]. by exists d.
Qed.

Lemma lookup_update f t k d :
  t_deliveries t !! k = Some d → t_deliveries (update_deliveries f t) !! k = Some (f k d).
Proof. intros Hd. cbn. by rewrite map_lookup_imap, Hd. Qed.

Lemma moves_update f t :
  (∀ k d, same_delivery d (f k d)) →
  (∀ k d, in_transport d = false → in_transport (f k d) = false) →
  (∀ k d, in_transport d = true → ¬ acknowledges l k d →
     text_le (DeliveryRow.expires_at d) (timeToString now) = false → in_transport (f k d) = true) →
  moves now l t (update_deliveries f t).
Proof.
  intros Hs Hdead Hlive [H1 H2 H3 H4 H5].
  constructor; [constructor|..].
  - intros a n d' (d & Hd & ->)%update_lookup. by eapply H1.
  - done.
  - intros k k' d1' d2' (d1 & Hd1 & ->)%update_lookup (d2 & Hd2 & ->)%update_lookup.
    rewrite (sd_message _ _ (Hs k d1)), (sd_message _ _ (Hs k' d2)). by apply H3.
  - intros k d' (d & Hd & ->)%update_lookup. rewrite (sd_message _ _ (Hs k d)). by eapply H4.
  - intros a n d' c (d & Hd & ->)%update_lookup Hc Hn. apply Hdead. by eapply H5.
  - intros k d Hd Ht Ha He. exists (f k d).
    split_and!; [by apply lookup_update|apply Hs|by apply Hlive].
  - done.
  - intros a c Hc. by exists c.
Qed.

(** Deletions of messages that spare those in transport. *)
Lemma moves_delete gone t :
  (∀ id m, awaits_transport t id = true → gone id m = false) →
  moves now l t (delete_messages gone t).
Proof.
  intros Hg [H1 H2 H3 H4 H5].
  assert (∀ k d, t_deliveries (delete_messages gone t) !! k = Some d →
            t_deliveries t !! k = Some d ∧ is_Some (t_messages (delete_messages gone t) !! DeliveryRow.message_id d))
    as Hlook.
  { intros k d. cbn. rewrite map_lookup_filter_Some. done. }
  constructor; [constructor|..].
  - intros a n d [Hd _]%Hlook. by eapply H1.
  - done.
  - intros k k' d1 d2 [Hd1 _]%Hlook [Hd2 _]%Hlook. by apply H3.
  - by intros k d [_ Hm]%Hlook.
  - intros a n d c [Hd _]%Hlook. by eapply H5.
  - intros k d Hd Ht _ _. exists d. split_and!; [|done|done]. cbn. apply map_lookup_filter_Some.
    split; [done|]. destruct (H4 k d Hd) as [m Hm]. exists m. apply map_lookup_filter_Some.
    split; [done|]. apply Hg. unfold awaits_transport. apply bool_decide_eq_true. exists k, d. done.
  - done.
  - intros a c Hc. by exists c.
Qed.

Lemma moves_receipts m t :
  (∀ k r, t_idempotency t !! k = Some r →
     text_lt (ReceiptRow.expires_at r) (timeToString now) = false → m !! k = Some r) →
  moves now l t (with_idempotency m t).
Proof.
  intros Hm [H1 H2 H3 H4 H5]. constructor; [by constructor| |done|].
  - intros k d Hd Ht _ _. by exists d.
  - intros a c Hc. by exists c.
Qed.

Lemma new_cursor_frame a t :
  t_deliveries (new_cursor a t) = t_deliveries t ∧ t_messages (new_cursor a t) = t_messages t ∧
  t_idempotency (new_cursor a t) = t_idempotency t.
Proof. unfold new_cursor. by case_match. Qed.

Lemma moves_new_cursor a t : moves now l t (new_cursor a t).
Proof.
  unfold new_cursor. destruct (t_delivery_cursors t !! a) as [|] eqn:Ea; [reflexivity|].
  intros [H1 H2 H3 H4 H5].
  assert (∀ a' c, t_delivery_cursors t !! a' = Some c →
            t_delivery_cursors (new_cursor a t) !! a' = Some c) as Hcur.
  { intros a' c Hc. unfold new_cursor. rewrite Ea. cbn. rewrite lookup_insert_ne; [done|congruence]. }
  unfold new_cursor in Hcur. rewrite Ea in Hcur. constructor; [constructor|..]; cbn in *.
  - intros a' n d Hd. destruct (H1 a' n d Hd) as (c & Hc & ?). exists c. auto.
  - intros a' c [[<- <-]|[? ?]]%lookup_insert_Some; [done|]. eauto.
  - done.
  - done.
  - intros a' n d c Hd [[<- <-]|[? ?]]%lookup_insert_Some Hn; [|by eapply H5].
    destruct (H1 a n d Hd) as (c' & ? & ?). congruence.
  - intros k d Hd ? _ _. by exists d.
  - done.
  - intros a' c Hc. exists c. split_and!; [auto|lia|lia].
Qed.

(** A new delivery at the next sequence number of its target. *)
Definition with_new_delivery (a : string) (c : CursorRow.t) (row : DeliveryRow.t) (t : Tables)
    : Tables :=
  with_delivery_cursors (alter (set_next_seq (CursorRow.next_seq c + 1)) a (t_delivery_cursors t))
    (with_deliveries (<[(a, CursorRow.next_seq c) := row]> (t_deliveries t)) t).

Lemma new_delivery_cursor a c row t a' c' :
  t_delivery_cursors t !! a = Some c →
  t_delivery_cursors (with_new_delivery a c row t) !! a' = Some c' ↔
  a' = a ∧ c' = set_next_seq (CursorRow.next_seq c + 1) c ∨
  a' ≠ a ∧ t_delivery_cursors t !! a' = Some c'.
Proof.
  intros Hc. cbn. destruct (decide (a' = a)) as [->|Hne].
  - rewrite lookup_alter_eq, Hc. cbn. naive_solver.
  - rewrite lookup_alter_ne by done. naive_solver.
Qed.

Lemma moves_new_delivery a c row t :
  t_delivery_cursors t !! a = Some c → t_deliveries t !! (a, CursorRow.next_seq c) = None →
  (∀ k d, t_deliveries t !! k = Some d → DeliveryRow.message_id d ≠ DeliveryRow.message_id row) →
  is_Some (t_messages t !! DeliveryRow.message_id row) →
  moves now l t (with_new_delivery a c row t).
Proof.
  intros Hc Hnone Hfresh Hmsg [H1 H2 H3 H4 H5]. pose proof (H2 a c Hc).
  constructor; [constructor|..];
    try change (t_deliveries (with_new_delivery a c row t))
      with (<[(a, CursorRow.next_seq c) := row]> (t_deliveries t)).
  - intros a' n d [[[= <- <-] _]|[_ Hd]]%lookup_insert_Some.
    + eexists. rewrite new_delivery_cursor by done. split; [by left|]. cbn. lia.
    + destruct (H1 a' n d Hd) as (c' & Hc' & ?). destruct (decide (a' = a)) as [->|].
      * eexists. rewrite new_delivery_cursor by done. split; [by left|]. simplify_eq. cbn. lia.
      * exists c'. rewrite new_delivery_cursor by done. auto.
  - intros a' c' [[-> ->]|[_ ?]]%new_delivery_cursor; [cbn; lia| |done]. eauto.
  - intros k k' d d' [[<- <-]|[? Hd]]%lookup_insert_Some [[<- <-]|[? Hd']]%lookup_insert_Some;
      [done| | |by apply H3]; intros He; exfalso.
    + by eapply (Hfresh k' d').
    + by eapply (Hfresh k d).
  - intros k d [[_ <-]|[_ Hd]]%lookup_insert_Some; [done|]. by eapply H4.
  - intros a' n d c' [[He _]|[_ Hd]]%lookup_insert_Some Hc' Hn;
      apply new_delivery_cursor in Hc' as [[Ha ->]|[Ha Hc']]; try done; cbn in Hn; simplify_eq.
    + lia.
    + by eapply H5.
    + by eapply H5.
  - intros k d Hd ? _ _. exists d. cbn. rewrite lookup_insert_ne; [done|congruence].
  - done.
  - intros a' c' Hc'. destruct (decide (a' = a)) as [->|].
    + eexists. rewrite new_delivery_cursor by done. split; [by left|]. simplify_eq. cbn. lia.
    + exists c'. rewrite new_delivery_cursor by done. split_and!; [by right|lia|lia].
Qed.

(** What a successful [append_delivery] did. *)
Lemma append_delivery_ok a row f w w' :
  append_delivery a row f w = (Ok (), w') →
  ∃ c, t_delivery_cursors (new_cursor a w.2) !! a = Some c ∧
       t_deliveries w.2 !! (a, CursorRow.next_seq c) = None ∧
       (∀ k d, t_deliveries w.2 !! k = Some d → DeliveryRow.message_id d ≠ DeliveryRow.message_id row) ∧
       is_Some (t_messages w.2 !! DeliveryRow.message_id row) ∧
       w'.2 = with_new_delivery a c row (new_cursor a w.2).
Proof.
  intros H.
  apply bind_ok in H as ([] & w1 & E1%exec_ok & H).
  apply bind_ok in H as (c & w2 & [E2 E2']%query_row_ok & H).
  apply bind_ok in H as ([] & w3 & E3%call_ok & E4%exec_ok).
  destruct (new_cursor_frame a w.2) as (Ed & Em & _). rewrite <-E1 in Ed, Em.
  rewrite E2' in E3. unfold delivery_exists in E3. rewrite Ed, Em in E3.
  destruct (bool_decide _ || _) eqn:Eu; [done|]. apply orb_false_iff in Eu as [Ek Eu].
  apply bool_decide_eq_false in Ek, Eu. case_bool_decide as Ef; [done|].
  exists c. injection E3 as E3. rewrite <-E1. split_and!; [done| | | |].
  - by apply eq_None_not_Some.
  - intros k d Hd He. apply Eu. by exists k, d.
  - destruct (t_messages w.2 !! _); [eauto|done].
  - rewrite E4, <-E3. unfold with_new_delivery. by rewrite Ed.
Qed.

Lemma moves_append agentID row : commits (moves now l) (append_delivery agentID row).
Proof.
  apply commits_intro. intros f w [] w' (c & Hc & Hnone & Hfresh & Hm & ->)%append_delivery_ok.
  etransitivity; [apply (moves_new_cursor agentID)|].
  destruct (new_cursor_frame agentID w.2) as (Ed & Em & _).
  apply moves_new_delivery; [done|by rewrite Ed|by rewrite Ed|by rewrite Em].
Qed.
(** ** The calls *)

Lemma keeps_frame u :
  (∀ t, t_deliveries (u t) = t_deliveries t ∧ t_delivery_cursors (u t) = t_delivery_cursors t ∧
        t_idempotency (u t) = t_idempotency t ∧
        ∀ id, is_Some (t_messages t !! id) → is_Some (t_messages (u t) !! id)) →
  keeps (moves now l) (exec u).
Proof.
  intros H. apply keeps_exec; [apply _|]. intros t. destruct (H t) as (? & ? & ? & ?).
  by apply moves_frame.
Qed.

Lemma saveMessageTo_keeps m : keeps (moves now l) (saveMessageTo m).
Proof. apply keeps_frame. intros t. split_and!; [done..|]. intros id. cbn. rewrite lookup_insert_is_Some. destruct (decide (Message.MessageID m = id)); auto. Qed.

Lemma offer_in_db_keeps raw id : keeps (moves now l) (exec (offer_in_db raw id)).
Proof. apply keeps_frame. intros t. split_and!; [done..|]. intros id'. cbn. by rewrite lookup_alter_is_Some. Qed.

Lemma saveAgentTo_keeps a : keeps (moves now l) (saveAgentTo a).
Proof. by apply keeps_frame. Qed.
Lemma saveConversationTo_keeps c : keeps (moves now l) (saveConversationTo c).
Proof. by apply keeps_frame. Qed.
Lemma saveConversationMessageTo_keeps c m p : keeps (moves now l) (saveConversationMessageTo c m p).
Proof. by apply keeps_frame. Qed.
Lemma saveCountersTo_keeps c m : keeps (moves now l) (saveCountersTo c m).
Proof. by apply keeps_frame. Qed.

Lemma SetAgentSecret_keeps id secret : keeps (moves now l) (SetAgentSecret id secret).
Proof.
  unfold SetAgentSecret. case_bool; [apply keeps_ret, _|]. apply keeps_call; [apply _|].
  intros t [] t'. case_match; [|done]. intros [= <-]. by apply moves_frame.
Qed.

Lemma insert_receipt_keeps k r : keeps (moves now l) (insert_receipt k r).
Proof.
  apply keeps_call; [apply _|]. intros t [] t'. case_bool_decide as Hk; [done|]. intros [= <-].
  apply moves_receipts. intros k' r' Hr' _. rewrite lookup_insert_ne; [done|]. intros <-. eauto.
Qed.

Lemma update_keeps f :
  (∀ k d, same_delivery d (f k d)) →
  (∀ k d, in_transport d = false → in_transport (f k d) = false) →
  (∀ k d, in_transport d = true → ¬ acknowledges l k d →
     text_le (DeliveryRow.expires_at d) (timeToString now) = false → in_transport (f k d) = true) →
  keeps (moves now l) (exec (update_deliveries f)).
Proof. intros ? ? ?. apply keeps_exec; [apply _|]. intros t. by apply moves_update. Qed.

End statements.

#[export] Hint Resolve saveMessageTo_keeps offer_in_db_keeps saveAgentTo_keeps saveConversationTo_keeps
  saveConversationMessageTo_keeps saveCountersTo_keeps insert_receipt_keeps moves_append : db.

(** Takes a computation apart into its calls. *)
Ltac db_steps :=
  repeat match goal with
  | |- ∀ _, _ => intros ?
  | |- keeps _ (_ ≫= _) => apply keeps_bind; [apply _| |]
  | |- commits _ (_ ≫= _) => apply commits_bind; [apply _| |]
  | |- _ => solve [eauto 3 with db typeclass_instances]
  end.

Section calls.
Context (E : Static) (now : Time).

Lemma persistAcceptance_keeps l a : keeps (moves now l) (persistAcceptance E a).
Proof.
  unfold persistAcceptance. apply keeps_bind; [apply _| |intros; apply keeps_ret, _].
  apply keeps_transaction; [apply _|]. db_steps.
Qed.

Lemma save_conversation_keeps l c n m : keeps (moves now l) (save_conversation c n m).
Proof. unfold save_conversation. apply keeps_transaction; [apply _|]. db_steps. Qed.

Lemma receive_same raw d : same_delivery d (receive raw d).
Proof. by constructor. Qed.

Lemma persistAck_keeps m :
  keeps (moves now (Acknowledged (Message.MessageID m))) (persistAck now m).
Proof.
  unfold persistAck. apply keeps_transaction; [apply _|]. apply commits_bind; [apply _|db_steps|].
  intros _. apply keeps_commits, update_keeps; intros k d; cbv beta; destruct (bool_decide _) eqn:Em;
    cbn; try done; destruct (in_transport d) eqn:Et; cbn; try done.
  by prop_bool.
Qed.

Lemma push_succeeded_keeps id n :
  keeps (moves now (Acknowledged id)) (exec (push_succeeded id n (timeToString now))).
Proof.
  apply update_keeps; intros k d; unfold attempting; destruct (bool_decide _) eqn:Em; cbn; try done;
    destruct (bool_decide (DeliveryRow.status d = _)); cbn; try done. by prop_bool.
Qed.

Lemma push_failed_keeps l id n failure next :
  keeps (moves now l) (exec (push_failed id n failure (timeToString now) next)).
Proof.
  apply update_keeps; intros k d; unfold attempting; destruct (bool_decide _) eqn:Em; cbn; try done;
    destruct (bool_decide (DeliveryRow.status d = _)) eqn:Es; cbn; try done; prop_bool.
  - unfold in_transport. by rewrite Es.
  - unfold in_transport. intros _ _ ->. done.
Qed.

Lemma fail_expired_keeps l : keeps (moves now l) (exec (fail_expired (timeToString now))).
Proof.
  apply update_keeps; intros k d; destruct (in_transport d) eqn:Et; cbn; try done; by case_bool.
Qed.

Lemma recover_attempts_keeps l : keeps (moves now l) (exec recover_attempts).
Proof.
  apply update_keeps; intros k d; case_bool_decide as Hs; try done.
  unfold in_transport. by rewrite Hs.
Qed.

Lemma shutdown_attempts_keeps l raw : keeps (moves now l) (exec (shutdown_attempts raw)).
Proof.
  apply update_keeps; intros k d; case_bool_decide as Hs; try done.
  unfold in_transport. by rewrite Hs.
Qed.

Lemma claim_keeps l id : keeps (moves now l) (claim id).
Proof.
  apply keeps_call; [apply _|]. intros t n t' [= _ <-]. apply moves_update; intros k d;
    destruct (bool_decide (DeliveryRow.message_id d = id)); cbn; try done;
    destruct (bool_decide (DeliveryRow.status d = Pending)) eqn:Es; cbn; try done; prop_bool.
  unfold in_transport. by rewrite Es.
Qed.

Lemma claim_each_keeps l raw cs : keeps (moves now l) (claim_each raw cs).
Proof.
  induction cs as [|c cs IH]; cbn [claim_each]; [apply keeps_ret, _|].
  apply keeps_bind; [apply _|apply keeps_try, claim_keeps|].
  intros [[|[|?]]|?]; try done. apply keeps_bind; [apply _|db_steps|].
  intros _. apply keeps_bind; [apply _|done|]. intros ?. apply keeps_ret, _.
Qed.

Lemma claim_due_keeps l order : keeps (moves now l) (claim_due order (timeToString now)).
Proof.
  unfold claim_due. apply keeps_bind; [apply _|apply keeps_ignore, fail_expired_keeps|].
  intros _. apply keeps_bind; [apply _|db_steps|]. intros cs. apply claim_each_keeps.
Qed.

Lemma pruneDB_keeps l : keeps (moves now l) (pruneDB E now).
Proof.
  unfold pruneDB. apply keeps_bind; [apply _|apply fail_expired_keeps|]. intros _.
  apply keeps_bind; [apply _| |intros _].
  { apply keeps_exec; [apply _|]. intros t. apply moves_receipts. intros k r Hr Hk.
    by apply map_lookup_filter_Some. }
  assert (∀ gone, (∀ t id m, awaits_transport t id = true → gone t id m = false) →
            keeps (moves now l) (exec (λ t, delete_messages (gone t) t))) as Hdel.
  { intros gone Hg. apply keeps_exec; [apply _|]. intros t. apply moves_delete, Hg. }
  repeat (apply keeps_bind; [apply _| |intros _]).
  - apply keeps_when; [apply _|]. apply Hdel. intros t id m ->. apply andb_false_r.
  - apply keeps_when; [apply _|]. apply Hdel. intros t id m ->. apply andb_false_r.
  - apply keeps_when; [apply _|]. by apply keeps_frame.
  - by apply keeps_frame.
  - apply keeps_begin, _.
Qed.
End calls.

Lemma commits_elim R {A} (m : Db A) f w a w1 : commits R m → m f w = (Ok a, w1) → R w.2 w1.2.
Proof. intros H E. destruct w as [k t], w1 as [k' t']. specialize (H f k t). by rewrite E in H. Qed.

(** ** Reading the durable inbox *)

Lemma durable_cursor_spec requested c :
  let n := durable_cursor requested c in
  CursorRow.acknowledged_cursor c ≤ CursorRow.next_seq c →
  CursorRow.acknowledged_cursor c ≤ n ≤ CursorRow.next_seq c ∧
  (CursorRow.acknowledged_cursor c < n → n ≤ requested).
Proof. unfold durable_cursor. repeat case_bool; prop_bool; cbv zeta; lia. Qed.

Lemma raised_cursor a c n t b c' :
  t_delivery_cursors t !! a = Some c →
  alter (set_acknowledged n) a (t_delivery_cursors t) !! b = Some c' ↔
  b = a ∧ c' = set_acknowledged n c ∨ b ≠ a ∧ t_delivery_cursors t !! b = Some c'.
Proof.
  intros Hc. destruct (decide (b = a)) as [->|].
  - rewrite lookup_alter_eq, Hc. cbn. naive_solver.
  - rewrite lookup_alter_ne by done. naive_solver.
Qed.

Lemma raise_cursor a c n t b c' :
  t_delivery_cursors t !! a = Some c → CursorRow.acknowledged_cursor c ≤ n →
  t_delivery_cursors t !! b = Some c' →
  ∃ c2, alter (set_acknowledged n) a (t_delivery_cursors t) !! b = Some c2 ∧
        CursorRow.next_seq c2 = CursorRow.next_seq c' ∧
        CursorRow.acknowledged_cursor c' ≤ CursorRow.acknowledged_cursor c2.
Proof.
  intros Hc Hn Hb. setoid_rewrite raised_cursor; [|done]. destruct (decide (b = a)) as [->|].
  - eexists. split; [by left|]. simplify_eq. done.
  - exists c'. split; [by right|]. lia.
Qed.

Lemma moves_acknowledge now raw a c n requested t :
  t_delivery_cursors t !! a = Some c → CursorRow.acknowledged_cursor c < n ≤ CursorRow.next_seq c →
  n ≤ requested →
  moves now (ReadUpTo a requested) t
    (receive_before a n raw
       (with_delivery_cursors (alter (set_acknowledged n) a (t_delivery_cursors t)) t)).
Proof.
  intros Hc Hn Hr [H1 H2 H3 H4 H5].
  set (f := λ (k : string * Z) (d : DeliveryRow.t),
    if bool_decide (k.1 = a) && (k.2 <? n) && in_transport d then receive raw d else d).
  set (t' := with_delivery_cursors _ t). change (receive_before a n raw t') with (update_deliveries f t').
  assert (∀ k d, same_delivery d (f k d)) as Hs. { intros k d. unfold f. by case_bool. }
  pose proof (λ b c', raised_cursor a c n t b c' Hc) as Hcur.
  constructor; [constructor|..]; try change (t_delivery_cursors (update_deliveries f t'))
    with (alter (set_acknowledged n) a (t_delivery_cursors t)).
  - intros b m d' (d & Hd & ->)%update_lookup. destruct (H1 b m d Hd) as (c' & Hc' & ?).
    destruct (raise_cursor a c n t b c') as (c2 & ? & ? & _); [done|lia|done|]. exists c2. split; [done|lia].
  - intros b c' [[-> ->]|[_ ?]]%Hcur; [cbn; pose proof (H2 a c Hc); lia|eauto].
  - intros k k' d1' d2' (d1 & Hd1 & ->)%update_lookup (d2 & Hd2 & ->)%update_lookup.
    rewrite (sd_message _ _ (Hs k d1)), (sd_message _ _ (Hs k' d2)). by apply H3.
  - intros k d' (d & Hd & ->)%update_lookup. rewrite (sd_message _ _ (Hs k d)). by eapply H4.
  - intros b m d' c' (d & Hd & ->)%update_lookup Hc' Hm. unfold f; cbn.
    apply Hcur in Hc' as [[-> ->]|[? Hc']].
    + cbn in Hm. rewrite bool_decide_eq_true_2, (proj2 (Z.ltb_lt _ _)) by done. cbn.
      by destruct (in_transport d) eqn:Et; [|].
    + rewrite bool_decide_eq_false_2 by done. by eapply H5.
  - intros k d Hd Ht Ha He. exists (f k d). split_and!; [by apply lookup_update|apply Hs|].
    unfold f. cbn in Ha. destruct (bool_decide (k.1 = a)) eqn:Ek; cbn; [|done]. prop_bool.
    destruct (k.2 <? n) eqn:En; cbn; [|done]. prop_bool. destruct Ha. split; [done|lia].
  - done.
  - intros b c' Hb. destruct (raise_cursor a c n t b c') as (c2 & ? & ? & ?); [done|lia|done|].
    exists c2. split_and!; [done|lia|lia].
Qed.

Lemma read_tx_keeps E now a requested limit read offered_at :
  keeps (moves now (ReadUpTo a requested)) (read_tx E a requested limit now read offered_at).
Proof.
  apply keeps_transaction; [apply _|]. apply commits_intro. intros f w r w' H.
  apply bind_ok in H as ([] & w1 & E1%exec_ok & H).
  apply bind_ok in H as (c & w2 & [E2 E2']%query_row_ok & H). cbv zeta in H.
  apply bind_ok in H as ([] & w3 & E3 & H).
  transitivity (new_cursor a w.2); [apply moves_new_cursor|]. rewrite <-E1, <-E2'.
  rewrite <-E2' in E2. transitivity w3.2.
  - intros Hok. pose proof (lk_cursor _ Hok a c E2).
    destruct (durable_cursor_spec requested c) as [Hb Hr]; [lia|].
    unfold when in E3. destruct (_ <? _) eqn:Elt; [|injection E3 as <-; by apply advances_refl].
    prop_bool. apply bind_ok in E3 as ([] & w4 & E4%exec_ok & ->%exec_ok). rewrite E4.
    apply moves_acknowledge with c; [done|lia|by apply Hr|done].
  - eapply commits_elim; [|exact H]. db_steps. apply commits_for_each; [apply _|]. db_steps.
Qed.

(** ** The start of the process *)

Lemma backfill_keeps E now l now' : keeps (moves now l) (backfillLegacyDeliveryState E now').
Proof.
  assert (∀ raw, commits (moves now l) (parse_time raw)) as Hp.
  { intros raw. unfold parse_time. case_match; apply keeps_commits; [apply keeps_ret, _|apply keeps_throw, _]. }
  assert (∀ i, commits (moves now l) (legacy_expiry E i)) as He.
  { intros i. unfold legacy_expiry. apply commits_bind; [apply _|apply Hp|]. intros created.
    apply commits_bind; [apply _| |].
    - case_bool; [|apply Hp]. db_steps. apply keeps_commits, keeps_frame. intros t.
      split_and!; [done..|]. intros id. cbn. by rewrite lookup_alter_is_Some.
    - intros e. case_bool; [apply keeps_commits, keeps_ret, _|]. db_steps. }
  unfold backfillLegacyDeliveryState. apply keeps_bind; [apply _|apply keeps_begin, _|]. intros _.
  apply keeps_bind; [apply _|db_steps|]. intros [|]; [apply keeps_ret, _|].
  apply keeps_commit; [apply _|]. db_steps.
  - apply commits_for_each; [apply _|]. intros i. unfold backfill_delivery.
    apply commits_bind; [apply _|apply He|]. intros e. case_bool; db_steps.
  - apply commits_for_each; [apply _|]. intros r. unfold backfill_receipt.
    apply commits_bind; [apply _|apply Hp|]. intros v. apply keeps_commits, keeps_exec; [apply _|].
    intros t. destruct (t_idempotency t !! _) eqn:Er; [reflexivity|]. apply moves_receipts.
    intros k r' Hk _. rewrite lookup_insert_ne; [done|congruence].
  - apply keeps_commits. by apply keeps_frame.
Qed.

Lemma loadAll_keeps R `{!PreOrder R} now order s : keeps R (loadAll now order s).
Proof.
  unfold loadAll. repeat (apply keeps_bind; [apply _|by apply keeps_query|]; intros ?).
  apply keeps_bind; [apply _| |intros ?; by apply keeps_ret].
  apply keeps_call; [apply _|]. intros t m t'. case_match; [|done]. intros [= _ <-]. reflexivity.
Qed.
