(* ===== verification/SqliteSystem.v ===== *)
(** * The SQLite store as a transition system

    What a committed acceptance does to the tables, the shape of the operations
    with a barrier, and every call of the store, the background loops, crashes
    and restarts as steps of one system over the database.  The in-memory store
    may change in any way between the steps: what follows holds for the
    database alone. *)
From stdpp Require Import gmap strings list sorting relations.
From Stdlib Require Import ZArith Lia Ascii.
From S2P Require Import Prelude GoBase Json Types Config Auth Ring State Push Inbox Observe Structure Sweep Conversations Agents Wakeup History Send Poll Lifecycle Rfc3339 Sqlite Delivery SqliteStore Ledger.

Section system.
Context (E : Static).

(** ** The effect of an acceptance *)

Definition conversation_tables (a : SendAcceptance.t) (t : Tables) : Tables :=
  let m := SendAcceptance.message a in
  let conv := SendAcceptance.conversation a in
  mkTables (t_agents t)
    (<[Conversation.ConversationID conv := conversation_row conv]> (t_conversations t))
    (<[Message.MessageID m := message_row m]> (t_messages t))
    (<[(Conversation.ConversationID conv, SendAcceptance.conversationPos a) := Message.MessageID m]>
       (t_conversation_messages t))
    (<[key_message := SendAcceptance.nextMessageID a]>
       (<[key_conversation := SendAcceptance.nextConversationID a]> (t_counters t)))
    (t_delivery_cursors t) (t_deliveries t) (t_idempotency t) (t_schema_migrations t).

Definition cursor_of (agentID : string) (t : Tables) : CursorRow.t :=
  default (CursorRow.mk 0 0) (t_delivery_cursors t !! agentID).

Definition accepted_status (a : SendAcceptance.t) : DeliveryStatus :=
  if is_empty (SendAcceptance.pushURL a) then Pending else Attempting.

Definition accepted_tables (a : SendAcceptance.t) (t : Tables) : Tables :=
  let m := SendAcceptance.message a in
  let t := conversation_tables a t in
  let t := if is_empty (Message.To m) then t
           else with_new_delivery (Message.To m) (cursor_of (Message.To m) t)
                  (new_delivery m (accepted_status a)) (new_cursor (Message.To m) t) in
  if is_empty (SendAcceptance.idempotencyKey a) then t
  else with_idempotency (<[acceptance_key a := new_receipt E a]> (t_idempotency t)) t.

Lemma cursor_of_new a t c :
  t_delivery_cursors (new_cursor a t) !! a = Some c → cursor_of a t = c.
Proof.
  unfold new_cursor, cursor_of. destruct (t_delivery_cursors t !! a) eqn:Ea; cbn.
  - rewrite Ea. by intros [= ->].
  - rewrite lookup_insert_eq. by intros [= <-].
Qed.

Lemma transaction_ok {A} (m : Db A) f w a w1 :
  transaction m f w = (Ok a, w1) → ∃ k w2, m f (k, w.2) = (Ok a, w2) ∧ w1.2 = w2.2.
Proof.
  intros H. apply bind_ok in H as ([] & [k t0] & E1%exec_ok & H). cbn in E1. subst t0.
  unfold commit in H. destruct (m f (k, w.2)) as [[a'|e] w2] eqn:Em.
  - destruct (exec id f w2) as [[[]|e] w3] eqn:E3; [|by destruct w3].
    apply exec_ok in E3. injection H as -> ->. exists k, w2. by split.
  - by destruct w2.
Qed.

Lemma transaction_err {A} (m : Db A) f w e w1 : transaction m f w = (Err e, w1) → w1.2 = w.2.
Proof.
  unfold transaction. rewrite bind_run.
  destruct (exec id f w) as [[[]|e1] w0] eqn:E0.
  - apply exec_ok in E0. unfold id in E0. unfold commit.
    destruct (m f w0) as [[a|e2] [k2 t2]]; [|by intros [= _ <-]].
    destruct (exec id f (k2, t2)) as [[[]|e3] [k3 t3]]; [done|]. by intros [= _ <-].
  - unfold exec, call in E0. destruct w as [k t]. cbn in E0.
    destruct (f k) as [[]|]; [..|done]; injection E0 as _ <-; by intros [= _ <-].
Qed.

Lemma persistAcceptance_ok a f t r t' :
  run_db (persistAcceptance E a) f t = (Ok r, t') →
  r = acceptance_receipt a ∧ t' = accepted_tables a t ∧
  (is_empty (SendAcceptance.idempotencyKey a) = false → t_idempotency t !! acceptance_key a = None).
Proof.
  unfold run_db. destruct (persistAcceptance E a f (O, t)) as [r' [k tw]] eqn:H. intros [= -> ->].
  unfold persistAcceptance in H. cbv zeta in H. apply bind_ok in H as ([] & w1 & H & Hr).
  rewrite ret_run in Hr. injection Hr as <- ->. split; [done|].
  apply transaction_ok in H as (k0 & w2 & H & Et). cbn in H, Et. subst t'.
  apply bind_ok in H as ([] & w3 & E3%exec_ok & H).
  apply bind_ok in H as ([] & w4 & E4%exec_ok & H).
  apply bind_ok in H as ([] & w5 & E5%exec_ok & H).
  apply bind_ok in H as ([] & w6 & E6%exec_ok & H).
  assert (w6.2 = conversation_tables a t) as Et. { by rewrite E6, E5, E4, E3. }
  clear E3 E4 E5 E6 w3 w4 w5.
  apply bind_ok in H as ([] & w7 & E7 & E8).
  unfold accepted_tables. cbv zeta. rewrite <-Et.
  assert (w7.2 = if is_empty (Message.To (SendAcceptance.message a)) then w6.2
                 else with_new_delivery (Message.To (SendAcceptance.message a))
                        (cursor_of (Message.To (SendAcceptance.message a)) w6.2)
                        (new_delivery (SendAcceptance.message a) (accepted_status a))
                        (new_cursor (Message.To (SendAcceptance.message a)) w6.2)) as E7'.
  { unfold when in E7. destruct (is_empty _); cbn in E7.
    - rewrite ret_run in E7. by injection E7 as <-.
    - apply append_delivery_ok in E7 as (c & Hc & _ & _ & _ & ->). by rewrite (cursor_of_new _ _ _ Hc). }
  rewrite <-E7'. assert (t_idempotency w7.2 = t_idempotency t) as Ei.
  { rewrite E7'. case_bool; [by rewrite Et|]. cbn.
    destruct (new_cursor_frame (Message.To (SendAcceptance.message a)) w6.2) as (_ & _ & ->). by rewrite Et. }
  unfold when in E8. destruct (is_empty (SendAcceptance.idempotencyKey a)); cbn in E8.
  - rewrite ret_run in E8. by injection E8 as <-.
  - apply call_ok in E8. case_bool_decide as Hk; [done|]. injection E8 as <-. split; [done|].
    intros _. rewrite <-Ei. by apply eq_None_not_Some.
Qed.

Lemma persistAcceptance_err a f t e t' : run_db (persistAcceptance E a) f t = (Err e, t') → t' = t.
Proof.
  unfold run_db. destruct (persistAcceptance E a f (O, t)) as [r' [k tw]] eqn:H. intros [= -> ->].
  unfold persistAcceptance in H. cbv zeta in H. rewrite bind_run in H.
  destruct (transaction _ f (O, t)) as [[[]|e'] w1] eqn:Et; [done|].
  apply transaction_err in Et. injection H as <- ->. done.
Qed.

(** ** The operations around the barrier *)

(** The rest of [sendMessage] once the acceptance is durable. *)
Definition finish_send (now : Time) (a : SendAcceptance.t) (receipt : option string) (s : Store)
    : Store * result Error.t (Message.t * bool) * option (string * string) :=
  let s := send_apply E now a s in
  let '(failed, reason, s) := schedule_push E a receipt s in
  let '(dispatched, s) := finishAcceptance failed reason s in
  (s, Ok (SendAcceptance.message a, false), dispatched).

Lemma sendMessage_barrier commit o now input s :
  sendMessage E commit o now input s =
  match send_acceptance E o now input s with
  | Some a =>
      match run_commit commit a with
      | Err e => (sweepLocked E o now s, Err e, None)
      | Ok receipt => finish_send now a receipt (sweepLocked E o now s)
      end
  | None => sendMessage E None o now input s
  end.
Proof.
  unfold sendMessage, send_acceptance. destruct (send_request E input) as [r|e]; [|done]. cbv zeta.
  destruct (send_target E r _) as [target|e]; [|done].
  destruct (send_duplicate E now r _); [done|].
  by destruct (send_plan E now input r target _).
Qed.

(** A new message never comes out of a send without an acceptance. *)
Lemma no_acceptance_not_new o now input s m :
  send_acceptance E o now input s = None → (sendMessage E None o now input s).1.2 ≠ Ok (m, false).
Proof.
  unfold sendMessage, send_acceptance. destruct (send_request E input) as [r|e]; [|done]. cbv zeta.
  destruct (send_target E r _) as [target|e]; [|done].
  destruct (send_duplicate E now r _); [done|].
  by destruct (send_plan E now input r target _).
Qed.

Lemma QSendMessage_new f o now input q m :
  (QSendMessage E f o now input q).1.2 = Ok (m, false) →
  ∃ a, send_acceptance E o now input (inner q) = Some a ∧ m = SendAcceptance.message a ∧
       run_db (persistAcceptance E a) f (db q)
       = (Ok (acceptance_receipt a), db (QSendMessage E f o now input q).1.1) ∧
       inner (QSendMessage E f o now input q).1.1
       = (finish_send now a (acceptance_receipt a) (sweepLocked E o now (inner q))).1.1.
Proof.
  unfold QSendMessage, answer. destruct (send_acceptance E o now input (inner q)) as [a|] eqn:Ea.
  - destruct (run_db (persistAcceptance E a) f (db q)) as [[receipt|e] t] eqn:Er.
    + rewrite sendMessage_barrier, Ea. cbn [barrier run_commit].
      pose proof (persistAcceptance_ok _ _ _ _ _ Er) as (-> & _).
      destruct (finish_send _ _ _ _) as [[s r] d] eqn:Ef. cbn. intros Hm.
      assert (r = Ok (SendAcceptance.message a, false)) as ->.
      { unfold finish_send in Ef. destruct (schedule_push _ _ _ _) as [[? ?] ?].
        destruct (finishAcceptance _ _ _). by simplify_eq. }
      injection Hm as <-. exists a. by rewrite Ef.
    + destruct (sendMessage _ _ _ _ _ _) as [[s r] d]. done.
  - rewrite sendMessage_barrier, Ea. pose proof (no_acceptance_not_new o now input (inner q) m Ea) as Hn.
    destruct (sendMessage _ _ _ _ _ _) as [[s r] d]. cbn in *. destruct r; [|done]. by intros [= ->].
Qed.

(** Anything else leaves the database alone. *)
Lemma QSendMessage_not_new f o now input q :
  (∀ m, (QSendMessage E f o now input q).1.2 ≠ Ok (m, false)) →
  db (QSendMessage E f o now input q).1.1 = db q ∧
  inner (QSendMessage E f o now input q).1.1 = (sendMessage E (Some (λ _, Err refusal)) o now input (inner q)).1.1.
Proof.
  unfold QSendMessage, answer. rewrite (sendMessage_barrier (Some _)).
  destruct (send_acceptance E o now input (inner q)) as [a|] eqn:Ea.
  - destruct (run_db (persistAcceptance E a) f (db q)) as [[receipt|e] t] eqn:Er.
    + intros Hn. exfalso. rewrite sendMessage_barrier, Ea in Hn. cbn [barrier run_commit] in Hn.
      destruct (finish_send _ _ _ _) as [[s r] d] eqn:Ef.
      apply (Hn (SendAcceptance.message a)). unfold finish_send in Ef.
      destruct (schedule_push _ _ _ _) as [[? ?] ?]. destruct (finishAcceptance _ _ _). by simplify_eq.
    + rewrite sendMessage_barrier, Ea. cbn. intros _. by apply persistAcceptance_err in Er.
  - rewrite sendMessage_barrier, Ea. by destruct (sendMessage _ _ _ _ _ _) as [[s r] d].
Qed.

(** ** The system *)

Definition acknowledged (m : option Message.t) : Label :=
  match m with Some m => Acknowledged (Message.MessageID m) | None => Internal end.

Definition receipt_label (messageID : string) (r : Receipt) : Label :=
  match r with OnSuccess _ => Acknowledged messageID | OnFailure _ _ => Internal end.

(** One call, labelled with what it acknowledges, under any faults.  A step
    goes from an instant to a later one; the clock readings inside it lie in
    between. *)
Inductive sql_step : Label → Time * SQLiteStore → Time * SQLiteStore → Prop :=
(** Anything that only concerns the memory of the process: the operations
    without a barrier, the sweep, the push workers, a crash. *)
| sq_memory t now q s errs :
    t ≤ now → sql_step Internal (t, q) (now, mkSQL s (db q) errs)
| sq_send t now f o input q :
    t ≤ now → sql_step Internal (t, q) (now, (QSendMessage E f o now input q).1.1)
| sq_inject t now f o input q :
    t ≤ now → sql_step Internal (t, q) (now, (QInject E f o now input q).1.1)
| sq_ack t now f o start input q :
    t ≤ now →
    sql_step (acknowledged (ack_version E o start input (inner q))) (t, q)
      (now, (QAck E f o start now input q).1)
| sq_event t now f o start input q :
    t ≤ now →
    sql_step (acknowledged (event_version E o start input (inner q))) (t, q)
      (now, (QPostEvent E f o start now input q).1)
| sq_read t now f agentID cursor limit read offered_at q :
    t ≤ now →
    sql_step (ReadUpTo agentID cursor) (t, q)
      (now, (readDurableInbox E f agentID cursor limit now read offered_at q).1)
| sq_claim t now f order q :
    t ≤ now → sql_step Internal (t, q) (now, (claimDuePushes f order now q).2)
| sq_enqueue t now f f' c q :
    t ≤ now → sql_step Internal (t, q) (now, enqueueClaimedPush E f f' now c q)
| sq_receipt t now f id r q :
    t ≤ now → sql_step (receipt_label id r) (t, q) (now, record_receipt E f now id r q)
| sq_save_agent t now f a q :
    t ≤ now → sql_step Internal (t, q) (now, (on_db (saveAgentTo a) f q).2)
| sq_secret t now f id secret q :
    t ≤ now → sql_step Internal (t, q) (now, (on_db (SetAgentSecret id secret) f q).2)
| sq_save_conversation t now f c nextConv nextMsg q :
    t ≤ now → sql_step Internal (t, q) (now, (on_db (save_conversation c nextConv nextMsg) f q).2)
| sq_prune t now f q :
    t ≤ now → sql_step Internal (t, q) (now, (on_db (pruneDB E now) f q).2)
| sq_close t now f timed_out q :
    t ≤ now → sql_step Internal (t, q) (now, (Close f now timed_out q).1)
(** The process is started on the file, and loads it or fails to. *)
| sq_start t now f clock order s0 s errs q :
    t ≤ c_prune clock ≤ now →
    sql_step Internal (t, q) (now, mkSQL s (run_db (start_db E clock order s0) f (db q)).2 errs).

Inductive sql_run : list Label → Time * SQLiteStore → Time * SQLiteStore → Prop :=
| run_nil p : sql_run [] p p
| run_cons l ls p p' p'' : sql_step l p p' → sql_run ls p' p'' → sql_run (l :: ls) p p''.

Lemma start_db_keeps l clock order s : keeps (moves (c_prune clock) l) (start_db E clock order s).
Proof.
  unfold start_db. do 5 (apply keeps_bind; [apply _|apply keeps_begin, _|]; intros _).
  apply keeps_bind; [apply _|apply backfill_keeps|intros _].
  apply keeps_bind; [apply _|apply recover_attempts_keeps|intros _].
  apply keeps_bind; [apply _|apply pruneDB_keeps|intros _]. apply loadAll_keeps, _.
Qed.

Lemma answer_keeps R `{!PreOrder R} {A B} (m : A → Db B) f a t :
  (∀ x, a = Some x → keeps R (m x)) → R t (answer m f a t).2.
Proof.
  intros H. unfold answer. destruct a as [x|]; [|cbn; reflexivity].
  pose proof (run_db_keeps R (m x) f t (H x eq_refl)). by destruct (run_db _ _ _).
Qed.

Lemma on_db_keeps R {A} (m : Db A) f q : keeps R m → R (db q) (db (on_db m f q).2).
Proof. intros H. pose proof (run_db_keeps R m f (db q) H). unfold on_db. by destruct (run_db _ _ _). Qed.

Lemma record_keeps now id r f q :
  moves now (receipt_label id r) (db q) (db (record_receipt E f now id r q)).
Proof.
  destruct r as [n|n failure]; cbn [record_receipt receipt_label].
  - unfold recordPushSuccess. pose proof (on_db_keeps _ _ f q (push_succeeded_keeps now id n)) as H.
    by destruct (on_db _ _ _).
  - unfold recordPushFailure. cbv zeta.
    pose proof (on_db_keeps _ _ f q (push_failed_keeps now Internal id n (clip failure)
      (timeToString (Add now (pushCycleBackoff E n))))) as H. by destruct (on_db _ _ _).
Qed.

(** Every step is a move of the tables at one of its instants. *)
Lemma sql_step_moves l t q now q' :
  sql_step l (t, q) (now, q') → ∃ at_, t ≤ at_ ≤ now ∧ moves at_ l (db q) (db q').
Proof.
  intros H. inversion H; subst; try lazymatch goal with |- context [start_db] => idtac | _ => exists now; split; [lia|] end.
  - reflexivity.
  - pose proof (answer_keeps (moves now Internal) (persistAcceptance E) f
      (send_acceptance E o now input (inner q)) (db q) ltac:(intros; apply persistAcceptance_keeps)) as Hm.
    unfold QSendMessage. destruct (answer _ _ _ _). by destruct (sendMessage _ _ _ _ _ _) as [[? ?] ?].
  - pose proof (answer_keeps (moves now Internal) (persistAcceptance E) f
      (inject_acceptance E o now input (inner q)) (db q) ltac:(intros; apply persistAcceptance_keeps)) as Hm.
    unfold QInject. destruct (answer _ _ _ _). by destruct (inject _ _ _ _ _ _) as [[? ?] ?].
  - set (v := ack_version _ _ _ _ _).
    pose proof (answer_keeps (moves now (acknowledged v)) (persistAck now) f v (db q)
      ltac:(intros x ->; apply persistAck_keeps)) as Hm.
    unfold QAck. fold v. destruct (answer _ _ _ _). by destruct (ack _ _ _ _ _ _).
  - set (v := event_version _ _ _ _ _).
    pose proof (answer_keeps (moves now (acknowledged v)) (persistAck now) f v (db q)
      ltac:(intros x ->; apply persistAck_keeps)) as Hm.
    unfold QPostEvent. fold v. destruct (answer _ _ _ _). by destruct (postEvent _ _ _ _ _ _).
  - pose proof (on_db_keeps _ _ f q (read_tx_keeps E now agentID cursor limit read offered_at)) as Hm.
    unfold readDurableInbox. by destruct (on_db _ _ _) as [[[]|] ?].
  - pose proof (on_db_keeps _ _ f q (claim_due_keeps now Internal order)) as Hm.
    unfold claimDuePushes. by destruct (on_db _ _ _).
  - unfold enqueueClaimedPush.
    pose proof (on_db_keeps (moves now Internal) (select_message (messageID c)) f q
      ltac:(apply keeps_query_row, _)) as Hm.
    destruct (on_db (select_message _) f q) as [[m|e] q1]; cbn in Hm.
    + destruct (enqueuePushJobLocked _ _ _) as [failure s]. case_bool; [done|].
      etransitivity; [exact Hm|]. apply (record_keeps now _ (OnFailure 0 failure) f' (set_inner s q1)).
    + etransitivity; [exact Hm|]. apply (record_keeps now _ (OnFailure 0 _) f' q1).
  - apply record_keeps.
  - apply on_db_keeps, saveAgentTo_keeps.
  - apply on_db_keeps, SetAgentSecret_keeps.
  - apply on_db_keeps, save_conversation_keeps.
  - apply on_db_keeps, pruneDB_keeps.
  - unfold Close. destruct (closePushWorkers _ _) as [s e].
    pose proof (on_db_keeps _ _ f (set_inner s q) (shutdown_attempts_keeps now Internal (timeToString now))) as Hm.
    by destruct (on_db _ _ _) as [[] ?].
  - exists (c_prune clock). split; [lia|]. apply run_db_keeps, start_db_keeps.
Qed.

(** ** Runs *)

Lemma sql_run_time ls p p' : sql_run ls p p' → p.1 ≤ p'.1.
Proof.
  induction 1 as [|l ls [t q] [t1 q1] p'' Hs _ IH]; [lia|].
  apply sql_step_moves in Hs as (? & ? & _). cbn in *. lia.
Qed.

Lemma sql_run_ok ls p p' : sql_run ls p p' → ledger_ok (db p.2) → ledger_ok (db p'.2).
Proof.
  induction 1 as [|l ls [t q] [t1 q1] p'' Hs _ IH]; intros Hok; [done|].
  apply sql_step_moves in Hs as (? & _ & Hm). apply IH. by apply (ad_ok _ _ _ _ (Hm Hok)).
Qed.

(** A deadline still a second away at the end of a run was not reached at any
    of its instants. *)
Lemma before_deadline e at_ : time_ok e → 0 ≤ at_ → at_ + Second ≤ e →
  text_lt (timeToString at_) (timeToString e) = true.
Proof. intros He Hn Hle. apply timeToString_lt; [|done|done]. destruct He. unfold Second in *. split; lia. Qed.

Lemma sql_run_delivery ls p p' :
  sql_run ls p p' → ∀ k d e,
  0 ≤ p.1 → ledger_ok (db p.2) → time_ok e → p'.1 + Second ≤ e →
  t_deliveries (db p.2) !! k = Some d → in_transport d = true →
  DeliveryRow.expires_at d = timeToString e → Forall (λ l, ¬ acknowledges l k d) ls →
  ∃ d', t_deliveries (db p'.2) !! k = Some d' ∧ same_delivery d d' ∧ in_transport d' = true.
Proof.
  induction 1 as [p|l ls [t q] [t1 q1] p'' Hs Hr IH]; intros k d e Ht Hok He Hle Hd Htr Hexp Hack.
  - by exists d.
  - apply Forall_cons in Hack as [Ha Hack]. apply sql_run_time in Hr as Hmono.
    apply sql_step_moves in Hs as (at_ & ? & Hm). cbn [fst snd] in *.
    destruct (Hm Hok) as [Hok' Hdel _ _].
    destruct (Hdel k d Hd Htr Ha) as (d1 & Hd1 & Hs1 & Ht1).
    { rewrite Hexp. unfold text_le. rewrite before_deadline; [done|done|lia|lia]. }
    destruct (IH k d1 e) as (d2 & ? & ? & ?); [lia|done|done|done|done|done| | |].
    + by rewrite (sd_expires _ _ Hs1).
    + eapply Forall_impl; [exact Hack|]. intros l' Hl' Hn. by eapply Hl', acknowledges_same.
    + exists d2. split_and!; [done|by etransitivity|done].
Qed.

Lemma sql_run_receipt ls p p' :
  sql_run ls p p' → ∀ k r e,
  0 ≤ p.1 → ledger_ok (db p.2) → time_ok e → p'.1 + Second ≤ e →
  t_idempotency (db p.2) !! k = Some r → ReceiptRow.expires_at r = timeToString e →
  t_idempotency (db p'.2) !! k = Some r.
Proof.
  induction 1 as [p|l ls [t q] [t1 q1] p'' Hs Hr IH]; intros k r e Ht Hok He Hle Hk Hexp; [done|].
  apply sql_run_time in Hr as Hmono. apply sql_step_moves in Hs as (at_ & ? & Hm). cbn [fst snd] in *.
  destruct (Hm Hok) as [Hok' _ Hrec _]. eapply IH; [lia|done|done|done| |done].
  apply Hrec; [done|]. rewrite Hexp. apply text_lt_asym, before_deadline; [done|lia|lia].
Qed.
End system.
