(* ===== verification/SqliteProps.v ===== *)
(** * Properties of the SQLite store

    Timestamps as text; what a durable send leaves in the tables; that an
    accepted message stays due, across claims, failures, crashes and restarts,
    until it is acknowledged or its deadline passes; that a repeat within the
    window is never accepted twice; what a restart reloads.  A concrete run from
    an empty file, which the witnesses and [SqliteExamples] execute. *)
From stdpp Require Import gmap strings list sorting relations.
From Stdlib Require Import ZArith Lia Ascii.
From S2P Require Import Prelude GoBase Json Types Scope Config Auth Ring State Push Inbox Observe Structure Sweep SweepSpec Conversations Agents Wakeup History Send SendSpec Poll Lifecycle Queries System Scenario SendProps Text Rfc3339 Sqlite Delivery SqliteStore Ledger SqliteSystem.

(** ** Timestamps *)

(** C12: Every instant before year 10000 survives storage: the reader of the
    database returns exactly the instant that was written, the zero instant
    included, and the text has no surrounding white space. *)
Theorem timestamps_roundtrip t :
  time_ok t →
  parseSQLiteTime (timeToString t) = Some t ∧ parse_or_zero (timeToString t) = t ∧
  trimmed (timeToString t).
Proof.
  intros Ht. split_and!; [by apply parse_timeToString|by apply parse_or_zero_time|].
  unfold trimmed, timeToString. destruct (IsZero t); [done|].
  apply TrimSpace_graphic. rewrite bytes_of_bytes. by apply Format_graphic.
Qed.

Lemma timestamps_roundtrip_witness :
  parseSQLiteTime (timeToString t0) = Some t0 ∧ parse_or_zero (timeToString t0) = t0 ∧
  trimmed (timeToString t0).
Proof. apply (timestamps_roundtrip t0). by vm_compute. Defined.

(** C15: The comparisons the SQL makes on the texts are wrong by less than a
    second: instants a second apart are ordered as their texts, texts in order
    are at most a second out of order, and [<=] holds of equal instants. *)
Theorem timestamps_order t u :
  time_ok t → time_ok u →
  (t + Second ≤ u → text_lt (timeToString t) (timeToString u) = true) ∧
  (text_lt (timeToString t) (timeToString u) = true → t < u + Second) ∧
  (text_le (timeToString t) (timeToString u) = true → t < u + Second) ∧
  (t = u → text_le (timeToString t) (timeToString u) = true).
Proof.
  intros Ht Hu. split_and!.
  - by apply timeToString_lt.
  - intros H%text_lt_asym. apply timeToString_le; [done..|]. unfold text_le. by rewrite H.
  - by apply timeToString_le.
  - intros ->. unfold text_le. by rewrite text_lt_irrefl.
Qed.

Lemma timestamps_order_witness :
  text_lt (timeToString t0) (timeToString (t0 + Second)) = true.
Proof.
  destruct (timestamps_order t0 (t0 + Second)) as (H & _); [by vm_compute..|]. apply H, Z.le_refl.
Defined.

(** ** Sends *)

(** The acceptance of a send, without the invariant of the store. *)
Lemma send_acceptance_fields E o now input s a :
  send_acceptance E o now input s = Some a →
  let m := SendAcceptance.message a in
  ∃ r, send_request E input = Ok r ∧
    Message.From m = sr_from r ∧ Message.To m = sr_to r ∧ Message.RequestID m = sr_requestID r ∧
    Message.CreatedAt m = now ∧
    SendAcceptance.idempotencyKey a = dedupeKey (sr_from r) (sr_to r) (sr_requestID r) ∧
    SendAcceptance.idempotency a = Some (IdempotencyEntry.mk (Message.MessageID m) now) ∧
    send_duplicate E now r (sweepLocked E o now s) = None ∧
    Conversation.ConversationID (SendAcceptance.conversation a) = Message.ConversationID m ∧
    SendAcceptance.conversationPos a =
      Z.of_nat (length (conversation_messages (sweepLocked E o now s) (Message.ConversationID m))) ∧
    ∃ t, agents (sweepLocked E o now s) !! Message.To m = Some t ∧
      accepted_status a = match callback_of t m None with Some _ => Attempting | None => Pending end.
Proof.
  unfold send_acceptance. destruct (send_request E input) as [r|e] eqn:Er; [|done]. cbv zeta.
  destruct (send_target E r _) as [t|e] eqn:Et; [|done].
  destruct (send_duplicate E now r _) as [d|] eqn:Ed; [done|].
  destruct (send_plan E now input r t _) as [a'|e] eqn:Ep; [|done]. intros [= ->].
  destruct (send_plan_callback E now input r t _ a None Ep) as [Hurl Hcb].
  apply send_target_spec in Et as [Et _].
  assert (accepted_status a = match callback_of t (SendAcceptance.message a) None with
    | Some _ => Attempting | None => Pending end) as Hst.
  { rewrite <-Hcb. unfold accepted_status, is_empty. revert Hurl. clear Hcb.
    destruct (SendAcceptance.pushPayload a) as [p|] eqn:Epay; cbn.
    - intros Hurl. rewrite bool_decide_eq_false_2; [done|]. by apply (Hurl p).
    - intros _. revert Ep. unfold send_plan. destruct (choose_conversation _ _) as [next cid].
      destruct (send_conversation E now r cid _) as [conv|e]; [|done].
      case_bool; [|done]. intros [= <-]. cbn in *.
      by destruct (if negb (target_expired t) then push_callback t else None). }
  exists r. unfold send_plan in Ep. destruct (choose_conversation _ _) as [next cid].
  destruct (send_conversation E now r cid _) as [conv|e]; [|done].
  case_bool; [|done]. injection Ep as <-. cbn in *. split_and!; try done. by exists t.
Qed.

Lemma dedupeKey_nonempty f t r : is_empty (dedupeKey f t r) = false.
Proof. apply bool_decide_eq_false_2. unfold dedupeKey. destruct f; [destruct t|]; done. Qed.

Lemma send_request_to E input r : send_request E input = Ok r → is_empty (sr_to r) = false.
Proof.
  unfold send_request. cbv zeta. destruct (is_empty (TrimSpace (SendMessageInput.To input))) eqn:Et; [done|].
  cbn [negb]. repeat (case_bool; [|done]). case_match; [|done]. by intros [= <-].
Qed.

Lemma accepted_lookup E a t :
  is_empty (Message.To (SendAcceptance.message a)) = false →
  is_empty (SendAcceptance.idempotencyKey a) = false →
  let m := SendAcceptance.message a in
  let c := cursor_of (Message.To m) t in
  let t' := accepted_tables E a t in
  t_messages t' = <[Message.MessageID m := message_row m]> (t_messages t) ∧
  t_deliveries t' = <[(Message.To m, CursorRow.next_seq c) := new_delivery m (accepted_status a)]>
                      (t_deliveries t) ∧
  t_delivery_cursors t' = <[Message.To m := set_next_seq (CursorRow.next_seq c + 1) c]>
                            (t_delivery_cursors t) ∧
  t_idempotency t' = <[acceptance_key a := new_receipt E a]> (t_idempotency t) ∧
  t_conversation_messages t' =
    <[(Conversation.ConversationID (SendAcceptance.conversation a), SendAcceptance.conversationPos a)
      := Message.MessageID m]> (t_conversation_messages t) ∧
  t_counters t' = <[key_message := SendAcceptance.nextMessageID a]>
    (<[key_conversation := SendAcceptance.nextConversationID a]> (t_counters t)) ∧
  t_conversations t' =
    <[Conversation.ConversationID (SendAcceptance.conversation a)
      := conversation_row (SendAcceptance.conversation a)]> (t_conversations t) ∧
  t_agents t' = t_agents t ∧ t_schema_migrations t' = t_schema_migrations t.
Proof.
  intros Hto Hkey. cbv zeta. unfold accepted_tables. rewrite Hto, Hkey. cbv zeta.
  set (to := Message.To _). set (t1 := conversation_tables a t).
  assert (cursor_of to t1 = cursor_of to t) as Ec by done. rewrite Ec.
  destruct (new_cursor_frame to t1) as (Hd & Hm & Hi).
  assert (t_delivery_cursors (with_new_delivery to (cursor_of to t)
            (new_delivery (SendAcceptance.message a) (accepted_status a)) (new_cursor to t1))
          = <[to := set_next_seq (CursorRow.next_seq (cursor_of to t) + 1) (cursor_of to t)]>
              (t_delivery_cursors t)) as Hcur.
  { cbn. unfold new_cursor, cursor_of. change (t_delivery_cursors t1) with (t_delivery_cursors t).
    destruct (t_delivery_cursors t !! to) as [c|] eqn:Eto; cbn.
    - apply map_eq. intros k. destruct (decide (k = to)) as [->|].
      + by rewrite lookup_alter_eq, Eto, lookup_insert_eq.
      + by rewrite lookup_alter_ne, lookup_insert_ne.
    - by rewrite alter_insert_eq. }
  split_and!; cbn [t_messages t_deliveries t_delivery_cursors t_idempotency t_conversation_messages
    t_counters with_idempotency].
  - exact Hm.
  - cbn. by rewrite Hd.
  - exact Hcur.
  - cbn. by rewrite Hi.
  - unfold new_cursor. by destruct (t_delivery_cursors t1 !! to).
  - unfold with_new_delivery, new_cursor. by destruct (t_delivery_cursors t1 !! to).
  - unfold with_new_delivery, new_cursor. by destruct (t_delivery_cursors t1 !! to).
  - unfold with_new_delivery, new_cursor. by destruct (t_delivery_cursors t1 !! to).
  - unfold with_new_delivery, new_cursor. by destruct (t_delivery_cursors t1 !! to).
Qed.

Lemma finish_send_catalogue E now a rc s :
  same_catalogue (install a s) (finish_send E now a rc s).1.1.
Proof.
  pose proof (push_tail_catalogue E a rc (send_apply E now a s)) as H.
  eapply same_catalogue_trans; [apply (send_apply_catalogue E now)|].
  revert H. unfold push_tail, finish_send. cbv zeta.
  destruct (schedule_push E a rc _) as [[failed reason] s1].
  by destruct (finishAcceptance failed reason s1).
Qed.

Lemma finish_send_conversation_counter E now a rc s :
  nextConversationID (finish_send E now a rc s).1.1 = SendAcceptance.nextConversationID a.
Proof.
  pose proof (pf_convID _ _ (push_tail_frame E a rc (send_apply E now a s))) as H.
  rewrite (proj1 (send_apply_catalogue_exact E now a s)) in H. rewrite <-H.
  unfold push_tail, finish_send. cbv zeta.
  destruct (schedule_push E a rc _) as [[failed reason] s1].
  by destruct (finishAcceptance failed reason s1).
Qed.

(** What an accepted send leaves in each of the nine tables, against memory. *)
Record send_recorded (E : Static) (now : Time) (m : Message.t) (q q' : SQLiteStore) : Prop := {
  sr_message : t_messages (db q') = <[Message.MessageID m := message_row m]> (t_messages (db q));
  sr_conversation : ∃ conv, conversations (inner q') !! Message.ConversationID m = Some conv ∧
    t_conversations (db q') =
      <[Message.ConversationID m := conversation_row conv]> (t_conversations (db q));
  sr_position : ∃ before,
    conversation_messages (inner q') (Message.ConversationID m) = before ++ [Message.MessageID m] ∧
    t_conversation_messages (db q') =
      <[(Message.ConversationID m, Z.of_nat (length before)) := Message.MessageID m]>
        (t_conversation_messages (db q));
  sr_delivery : ∃ target, agents (inner q') !! Message.To m = Some target ∧
    t_deliveries (db q') =
      <[(Message.To m, CursorRow.next_seq (cursor_of (Message.To m) (db q))) :=
          new_delivery m (match callback_of target m None with
                          | Some _ => Attempting | None => Pending end)]>
        (t_deliveries (db q));
  sr_cursor : t_delivery_cursors (db q') =
    <[Message.To m := set_next_seq (CursorRow.next_seq (cursor_of (Message.To m) (db q)) + 1)
                        (cursor_of (Message.To m) (db q))]> (t_delivery_cursors (db q));
  sr_unused : t_idempotency (db q) !! (Message.From m, Message.To m, Message.RequestID m) = None;
  sr_receipt : t_idempotency (db q') =
    <[(Message.From m, Message.To m, Message.RequestID m)
      := ReceiptRow.mk (Message.MessageID m) (timeToString now)
           (timeToString (Add now (Config.IdempotencyWindow (cfg E))))]> (t_idempotency (db q));
  sr_counters : t_counters (db q') = <[key_message := nextMessageID (inner q')]>
    (<[key_conversation := nextConversationID (inner q')]> (t_counters (db q)));
  sr_agents : t_agents (db q') = t_agents (db q);
  sr_migrations : t_schema_migrations (db q') = t_schema_migrations (db q);
  sr_memory : messages (inner q') !! Message.MessageID m = Some m;
  sr_created : Message.CreatedAt m = now }.

Lemma send_records E f o now input q m :
  (QSendMessage E f o now input q).1.2 = Ok (m, false) →
  send_recorded E now m q (QSendMessage E f o now input q).1.1.
Proof.
  intros (a & Ha & -> & Hrun & Hin)%QSendMessage_new.
  destruct (send_acceptance_fields _ _ _ _ _ _ Ha)
    as (r & Hr & Hf & Ht & Hq & Hc & Hkey & Hid & _ & Hcid & Hpos & t & Htg & Hst).
  apply persistAcceptance_ok in Hrun as (_ & Hdb & Hfresh).
  rewrite Hkey, dedupeKey_nonempty in Hfresh. specialize (Hfresh eq_refl).
  destruct (accepted_lookup E a (db q)) as (H1 & H2 & H3 & H4 & H5 & H6 & H7 & H8 & H9).
  { rewrite Ht. by eapply send_request_to. }
  { by rewrite Hkey, dedupeKey_nonempty. }
  destruct (finish_send_catalogue E now a (acceptance_receipt a) (sweepLocked E o now (inner q)))
    as (Hm & Hcv & Hcm & Hag & Hn).
  pose proof (finish_send_conversation_counter E now a (acceptance_receipt a)
    (sweepLocked E o now (inner q))) as Hnc.
  constructor; rewrite ?Hdb, ?Hin; try done.
  - exists (SendAcceptance.conversation a). rewrite Hcv, H7, <-Hcid. cbn. by rewrite lookup_insert_eq.
  - exists (conversation_messages (sweepLocked E o now (inner q)) (Message.ConversationID (SendAcceptance.message a))).
    rewrite H5, Hcid, Hpos. split; [|done]. unfold conversation_messages. rewrite Hcm. cbn.
    rewrite Hcid. by rewrite lookup_insert_eq.
  - exists t. rewrite Hag, H2, Hst. done.
  - rewrite H4. unfold acceptance_key, new_receipt. by rewrite Hid.
  - by rewrite H6, Hn, Hnc.
  - rewrite Hm. cbn. by rewrite lookup_insert_eq.
Qed.

(** C11: A send the SQLite store accepts is durable before it is answered, table
    by table: the message; its conversation's record as memory has it, and the
    message's place at the end of the conversation; one delivery to its target
    under the target's next sequence number, attempting where the target has a
    callback and pending otherwise; one receipt for its sender, target and
    request id, which had none; both counters as memory has them; and nothing
    else.  When the message's times are before year 10000, the row read back is
    the message in memory. *)
Theorem durable_send E f o now input q m :
  let q' := (QSendMessage E f o now input q).1.1 in
  (QSendMessage E f o now input q).1.2 = Ok (m, false) →
  send_recorded E now m q q' ∧
  (message_times_ok m →
   (scanSQLiteMessage (Message.MessageID m) <$> t_messages (db q') !! Message.MessageID m)
   = messages (inner q') !! Message.MessageID m).
Proof.
  cbv zeta. intros H. pose proof (send_records E f o now input q m H) as Hr. split; [done|].
  intros Hm. destruct Hr. rewrite sr_message0, sr_memory0, lookup_insert_eq. cbn.
  by rewrite scan_message_row.
Qed.

(** C27: A send that is not accepted as new leaves every table as it was,
    whatever call of the engine failed and however far the transaction got;
    memory is what a refusal leaves. *)
Theorem durable_send_refused E f o now input q :
  let q' := (QSendMessage E f o now input q).1.1 in
  (∀ m, (QSendMessage E f o now input q).1.2 ≠ Ok (m, false)) →
  db q' = db q ∧ deliveryPersistErrors q' = deliveryPersistErrors q ∧
  (inner q' = inner q ∨ inner q' = sweepLocked E o now (inner q)).
Proof.
  cbv zeta. intros H. destruct (QSendMessage_not_new E f o now input q H) as [Hdb Hin].
  split_and!; [done| |].
  - unfold QSendMessage. destruct (answer _ _ _ _) as [v t].
    by destruct (sendMessage E (barrier v) o now input (inner q)) as [[? ?] ?].
  - rewrite Hin. destruct (sendMessage_cases E (Some (λ _, Err refusal)) o now input (inner q));
      cbn; auto. done.
Qed.

(** ** What a run keeps *)

(** C19: From the empty database, every run, with any engine failures, crashes
    and restarts, leads to a well-formed ledger: sequence numbers lie below the
    cursor's next one, a message has one delivery, what is delivered is stored,
    and nothing before an acknowledged cursor is due; and no step moves a
    cursor back. *)
Theorem ledger_invariant E ls t q now q' l now' q'' :
  db q = emptyTables → sql_run E ls (t, q) (now, q') → sql_step E l (now, q') (now', q'') →
  ledger_ok (db q'') ∧
  ∀ a c, t_delivery_cursors (db q') !! a = Some c →
    ∃ c', t_delivery_cursors (db q'') !! a = Some c' ∧
          CursorRow.next_seq c ≤ CursorRow.next_seq c' ∧
          CursorRow.acknowledged_cursor c ≤ CursorRow.acknowledged_cursor c'.
Proof.
  intros He Hrun Hstep. apply sql_run_ok in Hrun; cbn in *; [|rewrite He; apply emptyTables_ok].
  apply sql_step_moves in Hstep as (at_ & _ & Hm). destruct (Hm Hrun). done.
Qed.

(** What acknowledges the delivery of a message to [a] at sequence number [n]. *)
Definition unacknowledged (id a : string) (n : Z) (l : Label) : Prop :=
  match l with
  | Internal => True
  | Acknowledged id' => id' ≠ id
  | ReadUpTo a' cursor => a' = a → cursor ≤ n
  end.

Lemma merge_sort_elem `{R : relation A} `{!RelDecision R} (x : A) l : x ∈ l → x ∈ merge_sort R l.
Proof. intros H. by rewrite merge_sort_Permutation. Qed.

(** A delivery that is due is offered to any read that does not skip it. *)
Lemma due_offered t a n d m cursor now :
  t_deliveries t !! (a, n) = Some d → in_transport d = true →
  t_messages t !! DeliveryRow.message_id d = Some m →
  text_lt now (DeliveryRow.expires_at d) = true → cursor ≤ n →
  Sequenced.mk n (scanSQLiteMessage (DeliveryRow.message_id d) m) ∈ offers a cursor now t.
Proof.
  intros Hd Ht Hm He Hc. unfold offers. apply merge_sort_elem, list_elem_of_omap.
  exists ((a, n), d). split; [by apply elem_of_map_to_list|].
  cbn. rewrite Hm. cbn. by rewrite bool_decide_eq_true_2, (proj2 (Z.leb_le _ _)), Ht, He by done.
Qed.

Lemma send_ledger_ok E f o now input q :
  ledger_ok (db q) → ledger_ok (db (QSendMessage E f o now input q).1.1).
Proof.
  intros Hok. destruct (sql_step_moves E Internal now q now (QSendMessage E f o now input q).1.1)
    as (at_ & _ & Hm); [by apply sq_send|]. by destruct (Hm Hok).
Qed.

(** C31: An accepted message is not lost: through any run, with claims, failed
    and lost pushes, prunes, engine failures, crashes and restarts, until its
    target acknowledges it, its push is answered or its deadline is a second
    away, its delivery is due, and every read of the target from a cursor that
    does not pass over it is offered the message. *)
Theorem delivery_not_lost E f o now input q m e ls now' q' cursor :
  let q1 := (QSendMessage E f o now input q).1.1 in
  let n := CursorRow.next_seq (cursor_of (Message.To m) (db q)) in
  ledger_ok (db q) → 0 ≤ now →
  (QSendMessage E f o now input q).1.2 = Ok (m, false) →
  deliveryExpiry m = e → time_ok e → now' + Second ≤ e →
  sql_run E ls (now, q1) (now', q') →
  Forall (unacknowledged (Message.MessageID m) (Message.To m) n) ls →
  cursor ≤ n →
  ∃ d i, t_deliveries (db q') !! (Message.To m, n) = Some d ∧
    DeliveryRow.message_id d = Message.MessageID m ∧ in_transport d = true ∧
    i ∈ offers (Message.To m) cursor (timeToString now') (db q') ∧ Sequenced.seq i = n ∧
    Message.MessageID (Sequenced.message i) = Message.MessageID m.
Proof.
  intros q1 n Hok Hnow Hsend He Hte Hlate Hrun Hack Hcur.
  destruct (sr_delivery _ _ _ _ _ (send_records E f o now input q m Hsend)) as (target & _ & Hd).
  set (st := match callback_of target m None with Some _ => Attempting | None => Pending end) in *.
  assert (st = Attempting ∨ st = Pending) as Hst by (unfold st; case_match; auto). clearbody st.
  pose proof (send_ledger_ok E f o now input q Hok) as Hok1. fold q1 in Hok1.
  pose proof (sql_run_time _ _ _ _ Hrun) as Htime. cbn in Htime.
  destruct (sql_run_delivery E ls _ _ Hrun (Message.To m, n) (new_delivery m st) e)
    as (d & Hd' & Hsame & Htr); [done|done|done|done| | | | |].
  - fold q1 in Hd. fold n in Hd. cbn. rewrite Hd. by rewrite lookup_insert_eq.
  - unfold in_transport. by destruct Hst as [-> | ->].
  - cbn. by rewrite He.
  - eapply Forall_impl; [exact Hack|]. intros [|id|a c] Hl; cbn in *; [by intros []|by intros <-|].
    intros [<- ?]. specialize (Hl eq_refl). lia.
  - destruct Hsame as [Hid Hexp]. cbn in Hd', Hid, Hexp.
    pose proof (sql_run_ok _ _ _ _ Hrun Hok1) as Hok'. destruct (lk_ref _ Hok' _ _ Hd') as [row Hrow].
    exists d, (Sequenced.mk n (scanSQLiteMessage (DeliveryRow.message_id d) row)). split_and!; [done|done|done| |done|exact Hid].
    eapply due_offered; [done|done|done| |done]. rewrite Hexp, He. apply before_deadline; [done|lia|done].
Qed.

(** C33: A sender, target and request id is accepted at most once per window,
    whatever happens in between: two accepted sends that agree on them are at
    least the window apart, short of the second the comparison may be off; so
    a repeat within the window is answered as a duplicate or refused. *)
Theorem durable_at_most_once E f o now input q m ls now1 q1 f' o' now2 input' m' :
  ledger_ok (db q) → 0 ≤ now → time_ok (now + Config.IdempotencyWindow (cfg E)) →
  (QSendMessage E f o now input q).1.2 = Ok (m, false) →
  sql_run E ls (now, (QSendMessage E f o now input q).1.1) (now1, q1) → now1 ≤ now2 →
  (QSendMessage E f' o' now2 input' q1).1.2 = Ok (m', false) →
  Message.From m' = Message.From m → Message.To m' = Message.To m →
  Message.RequestID m' = Message.RequestID m →
  now + Config.IdempotencyWindow (cfg E) < now2 + Second.
Proof.
  intros Hok Hnow Hwin Hsend Hrun H12 Hsend' Hf Ht Hr.
  destruct (decide (now + Config.IdempotencyWindow (cfg E) < now2 + Second)) as [|Hlate]; [done|exfalso].
  pose proof (sr_receipt _ _ _ _ _ (send_records E f o now input q m Hsend)) as Hrec.
  pose proof (sr_unused _ _ _ _ _ (send_records E f' o' now2 input' q1 m' Hsend')) as Hunused.
  pose proof (send_ledger_ok E f o now input q Hok) as Hok0.
  set (q0 := (QSendMessage E f o now input q).1.1) in *.
  rewrite Hf, Ht, Hr in Hunused.
  assert (t_idempotency (db q1) !! (Message.From m, Message.To m, Message.RequestID m)
          = Some (ReceiptRow.mk (Message.MessageID m) (timeToString now)
                    (timeToString (Add now (Config.IdempotencyWindow (cfg E)))))) as Hk; [|congruence].
  eapply (sql_run_receipt E ls (now, q0) (now1, q1) Hrun); [done|done|exact Hwin|cbn; lia| |done].
  cbn. rewrite Hrec. by rewrite lookup_insert_eq.
Qed.

(** ** Restarts *)

Definition plain_key (k : string * string * string) : Prop :=
  Contains k.1.1 "031"%char = false ∧ Contains k.1.2 "031"%char = false.

Definition key_of (k : string * string * string) : string := dedupeKey k.1.1 k.1.2 k.2.

Lemma load_receipts_lookup now t k r c order : ∀ acc m,
  load_receipts now order t acc = Ok m → Forall plain_key order → plain_key k →
  t_idempotency t !! k = Some r → text_le now (ReceiptRow.expires_at r) = true →
  parseSQLiteTime (ReceiptRow.accepted_at r) = Some c →
  k ∈ order ∨ acc !! key_of k = Some (IdempotencyEntry.mk (ReceiptRow.message_id r) c) →
  m !! key_of k = Some (IdempotencyEntry.mk (ReceiptRow.message_id r) c).
Proof.
  induction order as [|k' order IH]; intros acc m Hload Hplain Hk Hr Hexp Hacc Hin; cbn in Hload.
  - destruct Hin as [Hin|Hin]; [by apply not_elem_of_nil in Hin|]. by simplify_eq.
  - apply Forall_cons in Hplain as [Hk' Hplain]. destruct k' as [[from' to'] req'].
    destruct (decide (k = (from', to', req'))) as [->|Hne].
    + rewrite Hr, Hexp, Hacc in Hload. eapply IH; [exact Hload|done..|].
      right. by rewrite lookup_insert_eq.
    + assert (∀ acc', load_receipts now order t acc' = Ok m →
                (acc !! key_of k = Some (IdempotencyEntry.mk (ReceiptRow.message_id r) c) →
                 acc' !! key_of k = Some (IdempotencyEntry.mk (ReceiptRow.message_id r) c)) →
                m !! key_of k = Some (IdempotencyEntry.mk (ReceiptRow.message_id r) c)) as Hgo.
      { intros acc' Hl Ha. eapply IH; [exact Hl|done..|].
        destruct Hin as [[->|Hin]%elem_of_cons|Hin]; [done|by left|right; auto]. }
      destruct (t_idempotency t !! (from', to', req')) as [r'|]; [|by apply Hgo in Hload].
      destruct (text_le now (ReceiptRow.expires_at r')); [|by apply Hgo in Hload].
      destruct (parseSQLiteTime (ReceiptRow.accepted_at r')) as [c'|]; [|done].
      eapply Hgo; [exact Hload|]. intros Ha. rewrite lookup_insert_ne; [done|].
      intros Heq. apply Hne. unfold key_of in Heq. destruct k as [[from to] req], Hk, Hk'.
      cbn in *. symmetry in Heq. apply dedupeKey_injective in Heq as (-> & -> & ->); done.
Qed.

Lemma keeps_elim R {A} (m : Db A) f w r w1 : keeps R m → m f w = (r, w1) → R w.2 w1.2.
Proof. intros H E. destruct w as [k t]. specialize (H f k t). by rewrite E in H. Qed.

(** What a successful load puts in memory. *)
Record loaded (now : Time) (order : list (string * string * string)) (t : Tables) (s : Store) : Prop := {
  ld_messages : messages s = map_imap (λ id r, Some (scanSQLiteMessage id r)) (t_messages t);
  ld_receipts : load_receipts (timeToString now) order t ∅ = Ok (idempotency s);
  ld_listed : conversationMessages s = load_conversation_messages t;
  ld_counter : ∀ n, t_counters t !! key_message = Some n → nextMessageID s = n }.

Lemma loadAll_ok now order s0 f w s w1 :
  loadAll now order s0 f w = (Ok s, w1) → w1.2 = w.2 ∧ loaded now order w.2 s.
Proof.
  unfold loadAll. intros H.
  apply bind_ok in H as (cs & v1 & E1%call_ok & H).
  apply bind_ok in H as (ags & v2 & E2%call_ok & H).
  apply bind_ok in H as (convs & v3 & E3%call_ok & H).
  apply bind_ok in H as (msgs & v4 & E4%call_ok & H).
  apply bind_ok in H as (cm & v5 & E5%call_ok & H).
  apply bind_ok in H as (rs & v6 & E6%call_ok & H). rewrite ret_run in H.
  injection E1 as <- E1. rewrite <-E1 in E2. injection E2 as <- E2. rewrite <-E2 in E3.
  injection E3 as <- E3. rewrite <-E3 in E4. injection E4 as <- E4. rewrite <-E4 in E5.
  injection E5 as <- E5. rewrite <-E5 in E6.
  destruct (load_receipts _ _ _ _) as [m|] eqn:El; [|done]. injection E6 as -> E6.
  injection H as <- <-. split; [done|]. constructor; cbn; try done. by intros n ->.
Qed.

Lemma begin_ok {A} (g : () → Db A) f w a w1 :
  (exec id ≫= g) f w = (Ok a, w1) → ∃ k, g () f (k, w.2) = (Ok a, w1).
Proof. intros ([] & [k t] & E%exec_ok & H)%bind_ok. cbn in E. subst t. by exists k. Qed.

Lemma start_db_ok E clock order s0 f t s t' :
  run_db (start_db E clock order s0) f t = (Ok s, t') →
  moves (c_prune clock) Internal t t' ∧ loaded (c_load clock) order t' s.
Proof.
  unfold run_db. destruct (start_db E clock order s0 f (O, t)) as [r [k tw]] eqn:H. intros [= -> ->].
  unfold start_db in H. do 5 (apply begin_ok in H as (? & H)).
  apply bind_ok in H as ([] & v1 & H1 & H). apply bind_ok in H as ([] & v2 & H2 & H).
  apply bind_ok in H as ([] & v3 & H3 & H). apply loadAll_ok in H as [Et Hl]. cbn [snd] in Et. subst t'.
  split; [|done].
  apply (keeps_elim (moves (c_prune clock) Internal)) in H1; [|apply backfill_keeps].
  apply (keeps_elim (moves (c_prune clock) Internal)) in H2; [|apply recover_attempts_keeps].
  apply (keeps_elim (moves (c_prune clock) Internal)) in H3; [|apply pruneDB_keeps].
  etransitivity; [|exact H3]. by etransitivity; [|exact H2].
Qed.

(** Messages are stored under their identifiers. *)
Definition keyed (s : Store) : Prop := ∀ k m, messages s !! k = Some m → Message.MessageID m = k.

Lemma keyed_insert s k m m' :
  keyed s → messages s !! k = Some m → Message.MessageID m' = Message.MessageID m →
  keyed (set_messages (<[k := m']> (messages s)) s).
Proof.
  intros Hs Hm He k' x. cbn. intros [[<- <-]|[_ Hx]]%lookup_insert_Some; [|by apply Hs].
  rewrite He. by apply Hs.
Qed.

Lemma keyed_same s s' : messages s' = messages s → keyed s → keyed s'.
Proof. intros He Hs k m. rewrite He. apply Hs. Qed.

Lemma sweep_message_keyed E now s id : keyed s → keyed (sweep_message E now s id).
Proof.
  intros Hs. unfold sweep_message. destruct (messages s !! id) as [m|] eqn:Hm; [|done].
  assert (∀ m' reason, Message.MessageID m' = Message.MessageID m →
            keyed (time_out E now id m m' reason s)) as Hto.
  { intros m' reason He. unfold time_out. eapply keyed_same; [apply publishLocked_frame|].
    by eapply keyed_insert. }
  repeat (case_bool; [by first [done | apply Hto]|]).
  destruct (Message.QueuedForAgent m); [|done].
  destruct (match agents s !! Message.To m with Some _ => _ | None => _ end).
  - eapply keyed_same; [apply appendInboxLocked_frame|]. by eapply keyed_insert.
  - case_bool; [by apply Hto|done].
Qed.

Lemma sweepLocked_keyed E o now s : keyed s → keyed (sweepLocked E o now s).
Proof.
  intros Hs. unfold sweepLocked. case_bool; [done|]. unfold full_sweep, pruneLocked. cbv zeta.
  set (s1 := foldl (sweep_message E now) _ _).
  assert (keyed s1) as H1.
  { apply foldl_inv; [|intros ? ? _; apply sweep_message_keyed].
    apply foldl_inv; [done|]. intros s' id _ Hk. unfold sweep_agent.
    case_match; [|done]. case_bool; [|done]. eapply keyed_same; [apply publishLocked_frame|done]. }
  assert (keyed (prune_conversations E now (prune_messages E now s1))) as H2.
  { eapply keyed_same; [unfold prune_conversations; by case_bool|]. unfold prune_messages.
    case_bool; [|done]. intros k m. cbn. intros [Hm _]%map_lookup_filter_Some. by apply H1. }
  case_bool; [|done]. apply foldl_inv; [done|]. intros s' id _ Hk. unfold prune_agent.
  repeat (case_match; try done). eapply keyed_same; [|exact Hk]. cbn.
  by destruct (signalInboxLocked_frame id (set_agents (delete id (agents s')) s')).
Qed.

(** After a restart the receipts are honoured: a process that starts on
    the file, at any later point of the run and within the window, answers a
    repeat of an accepted send that passes its checks as a duplicate with the
    identifier of the first message, and writes nothing. *)
Theorem restart_answers_duplicate E f o now input q m ls now1 q1 clock order s0 s f1 t2 f' o' now2 input' r target :
  ledger_ok (db q) → 0 ≤ now ≤ now2 → time_ok (now + Config.IdempotencyWindow (cfg E)) →
  (QSendMessage E f o now input q).1.2 = Ok (m, false) →
  sql_run E ls (now, (QSendMessage E f o now input q).1.1) (now1, q1) →
  now1 ≤ c_prune clock ≤ now2 → 0 ≤ c_load clock ≤ now2 →
  run_db (start_db E clock order s0) f1 (db q1) = (Ok s, t2) →
  now2 + Second ≤ now + Config.IdempotencyWindow (cfg E) →
  (Message.From m, Message.To m, Message.RequestID m) ∈ order → Forall plain_key order →
  send_request E input' = Ok r → send_target E r (sweepLocked E o' now2 s) = Ok target →
  sr_from r = Message.From m → sr_to r = Message.To m → sr_requestID r = Message.RequestID m →
  ∃ m', (QSendMessage E f' o' now2 input' (mkSQL s t2 ∅)).1.2 = Ok (m', true) ∧
    Message.MessageID m' = Message.MessageID m ∧
    db (QSendMessage E f' o' now2 input' (mkSQL s t2 ∅)).1.1 = t2.
Proof.
  intros Hok Hnow Hwin Hsend Hrun Hpr Hld Hstart Hlate Hin Hplain Hreq Htg Hf Ht Hr.
  pose proof (sr_receipt _ _ _ _ _ (send_records E f o now input q m Hsend)) as Hrec.
  pose proof (send_ledger_ok E f o now input q Hok) as Hok0.
  set (q0 := (QSendMessage E f o now input q).1.1) in *. set (W := Config.IdempotencyWindow (cfg E)) in *.
  set (k := (Message.From m, Message.To m, Message.RequestID m)) in *.
  set (row := ReceiptRow.mk _ _ _) in Hrec.
  pose proof (sql_run_time _ _ _ _ Hrun) as Htime. cbn in Htime.
  assert (time_ok now) as Hnok by (destruct Hwin; unfold Second in *; split; lia).
  destruct (start_db_ok _ _ _ _ _ _ _ _ Hstart) as [Hmove [Hmsg Hload _ _]].
  assert (t_idempotency t2 !! k = Some row) as Hk.
  { pose proof (sql_run_ok _ _ _ _ Hrun Hok0) as Hok1. apply (ad_receipt _ _ _ _ (Hmove Hok1)).
    - eapply (sql_run_receipt E ls (now, q0) (now1, q1) Hrun _ _ (now + W)); cbn; [lia|done|done|lia| |done].
      rewrite Hrec. by rewrite lookup_insert_eq.
    - cbn. apply text_lt_asym, (before_deadline (Add now W)); [done|lia|unfold Add; lia]. }
  assert (idempotency s !! key_of k = Some (IdempotencyEntry.mk (Message.MessageID m) now)) as Hentry.
  { eapply Forall_forall in Hplain as Hplain_k; [|exact Hin].
    apply (load_receipts_lookup _ _ k row now order ∅ _ Hload Hplain Hplain_k Hk); cbn.
    - unfold text_le. rewrite text_lt_asym; [done|].
      apply (before_deadline (Add now W)); [done|lia|unfold Add; lia].
    - by apply parse_timeToString.
    - by left. }
  assert (send_duplicate E now2 r (sweepLocked E o' now2 s)
          = Some (IdempotencyEntry.mk (Message.MessageID m) now)) as Hdup.
  { assert (Sub now2 now <= W) as Hsub. { unfold Sub, min_int64, Second in *. lia. }
    unfold send_duplicate. rewrite Hf, Ht, Hr. change (dedupeKey _ _ _) with (key_of k).
    rewrite (sweepLocked_kept E o' now2 s _ _ Hentry Hsub). cbn.
    by rewrite (proj2 (Z.leb_le _ _)). }
  unfold QSendMessage, answer.
  assert (send_acceptance E o' now2 input' s = None) as Hna.
  { unfold send_acceptance. rewrite Hreq. cbv zeta. by rewrite Htg, Hdup. }
  cbn [inner db]. rewrite Hna. unfold sendMessage. rewrite Hreq. cbv zeta. rewrite Htg, Hdup. cbn.
  eexists. split_and!; [done| |done]. unfold duplicate_message. cbn.
  destruct (messages (sweepLocked E o' now2 s) !! Message.MessageID m) as [x|] eqn:Ex; [|done].
  eapply sweepLocked_keyed; [|exact Ex]. intros k' x'. rewrite Hmsg, map_lookup_imap.
  destruct (t_messages t2 !! k') as [row'|]; [|done]. by intros [= <-].
Qed.

(** ** A concrete run

    The two agents of [Scenario] registered in a new file, then Alice's request
    a second later. *)
Definition sql_register (q : SQLiteStore) (id : string) : SQLiteStore :=
  (QRegisterAgent E0 no_faults (order_of (inner q)) t0 (λ q, q) (register id 3600) q).1.

Definition sql_registered : SQLiteStore :=
  foldl sql_register (mkSQL emptyStore emptyTables ∅) [alice; bob].

Definition sql_requested : SQLiteStore :=
  (QSendMessage E0 no_faults (order_of (inner sql_registered)) (at_s 1) request1 sql_registered).1.1.

Lemma sql_registered_ok : ledger_ok (db sql_registered).
Proof.
  assert (t_deliveries (db sql_registered) = ∅) as Hd by by vm_compute.
  assert (t_delivery_cursors (db sql_registered) = ∅) as Hc by by vm_compute.
  constructor; rewrite ?Hd, ?Hc; done.
Qed.

Lemma sql_request_accepted :
  (QSendMessage E0 no_faults (order_of (inner sql_registered)) (at_s 1) request1 sql_registered).1.2
  = Ok (request_message, false).
Proof. by vm_compute. Qed.

Lemma durable_send_witness :
  send_recorded E0 (at_s 1) request_message sql_registered sql_requested.
Proof.
  destruct (durable_send E0 no_faults (order_of (inner sql_registered)) (at_s 1) request1 sql_registered
    request_message sql_request_accepted) as [H _]. exact H.
Defined.

(** The insertion of the message fails. *)
Definition disk_full : Faults := λ n, if bool_decide (n = 2%nat) then Some (CallFails "disk full"%stdpp) else None.

Lemma durable_send_refused_witness :
  db (QSendMessage E0 disk_full (order_of (inner sql_registered)) (at_s 1) request1 sql_registered).1.1
  = db sql_registered.
Proof.
  apply (durable_send_refused E0 disk_full (order_of (inner sql_registered)) (at_s 1) request1 sql_registered).
  intros m. by vm_compute.
Defined.

(** A run from the empty file: both agents in memory, then the send. *)
Lemma ledger_invariant_witness :
  ledger_ok (db (QSendMessage E0 no_faults (order_of registered.2) (at_s 1) request1
                   (mkSQL registered.2 emptyTables ∅)).1.1).
Proof.
  apply (ledger_invariant E0 [Internal] t0 (mkSQL emptyStore emptyTables ∅) t0 (mkSQL registered.2 emptyTables ∅)
    Internal (at_s 1)).
  - reflexivity.
  - eapply run_cons; [|apply run_nil]. apply (sq_memory E0 t0 t0 (mkSQL emptyStore emptyTables ∅)). reflexivity.
  - apply sq_send. by vm_compute.
Defined.

(** What a process started on the file at [now] holds. *)
Definition sql_order : list (string * string * string) := [(alice, bob, "r-1"%stdpp)].

Definition clock_at (now : Time) : StartClock := mkStartClock now now now.

Definition sql_started (now : Time) (q : SQLiteStore) : SQLiteStore :=
  let '(r, t) := run_db (start_db E0 (clock_at now) sql_order emptyStore) no_faults (db q) in
  mkSQL (match r with Ok s => s | Err _ => emptyStore end) t ∅.

Lemma start_step t now q : t ≤ now → sql_step E0 Internal (t, q) (now, sql_started now q).
Proof.
  intros H. unfold sql_started.
  pose proof (sq_start E0 t now no_faults (clock_at now) sql_order emptyStore
    (match (run_db (start_db E0 (clock_at now) sql_order emptyStore) no_faults (db q)).1 with
     | Ok s => s | Err _ => emptyStore end) ∅ q) as Hs.
  destruct (run_db (start_db E0 (clock_at now) sql_order emptyStore) no_faults (db q)) as [r t'].
  cbn in Hs. apply Hs. lia.
Qed.

(** The process crashes after the send and is restarted. *)
Lemma delivery_not_lost_witness :
  ∃ d i, t_deliveries (db (sql_started (at_s 5) sql_requested)) !! (bob, 0) = Some d ∧
    DeliveryRow.message_id d = message_id 1 ∧ in_transport d = true ∧
    i ∈ offers bob 0 (timeToString (at_s 5)) (db (sql_started (at_s 5) sql_requested)) ∧
    Sequenced.seq i = 0 ∧ Message.MessageID (Sequenced.message i) = message_id 1.
Proof.
  apply (delivery_not_lost E0 no_faults (order_of (inner sql_registered)) (at_s 1) request1 sql_registered
    request_message (at_s 601) [Internal] (at_s 5) (sql_started (at_s 5) sql_requested) 0).
  - exact sql_registered_ok.
  - by vm_compute.
  - exact sql_request_accepted.
  - by vm_compute.
  - by vm_compute.
  - by vm_compute.
  - eapply run_cons; [|apply run_nil]. apply start_step. by vm_compute.
  - by repeat constructor.
  - by vm_compute.
Defined.

(** A day and three seconds after the send; the agents register again. *)
Definition day_later : Time := at_s 1 + Config.IdempotencyWindow (cfg E0) + 2 * Second.

Definition sql_next_day : SQLiteStore :=
  let q := sql_started day_later sql_requested in
  mkSQL (foldl (λ s id, (RegisterAgent E0 (order_of s) day_later (register id 3600) s).1) (inner q) [alice; bob])
    (db q) ∅.

Lemma durable_at_most_once_witness :
  at_s 1 + Config.IdempotencyWindow (cfg E0) < day_later + Second.
Proof.
  assert (∃ m', (QSendMessage E0 no_faults (order_of (inner sql_next_day)) day_later request1 sql_next_day).1.2
    = Ok (m', false) ∧ (Message.From m', Message.To m', Message.RequestID m') = (alice, bob, "r-1"%stdpp))
    as (m' & Hm' & [= Hf Ht Hr]).
  { eexists. split; vm_compute; reflexivity. }
  apply (durable_at_most_once E0 no_faults (order_of (inner sql_registered)) (at_s 1) request1 sql_registered
    request_message [Internal; Internal] day_later sql_next_day no_faults (order_of (inner sql_next_day))
    day_later request1 m').
  - exact sql_registered_ok.
  - clear. by vm_compute.
  - clear. by vm_compute.
  - exact sql_request_accepted.
  - eapply run_cons; [|eapply run_cons; [|apply run_nil]]; clear.
    + apply (start_step (at_s 1) day_later). by vm_compute.
    + apply (sq_memory E0 day_later day_later (sql_started day_later sql_requested)). reflexivity.
  - reflexivity.
  - exact Hm'.
  - rewrite Hf. vm_compute. reflexivity.
  - rewrite Ht. vm_compute. reflexivity.
  - rewrite Hr. vm_compute. reflexivity.
Defined.

(** The process restarts four seconds after the send, and Alice repeats it. *)
Definition sql_restarted : SQLiteStore := sql_started (at_s 5) sql_requested.

Lemma sql_restarted_run :
  run_db (start_db E0 (clock_at (at_s 5)) sql_order emptyStore) no_faults (db sql_requested)
  = (Ok (inner sql_restarted), db sql_restarted).
Proof. vm_compute. reflexivity. Qed.

Lemma restart_answers_duplicate_witness :
  ∃ m', (QSendMessage E0 no_faults (order_of (inner sql_restarted)) (at_s 6) request1
           (mkSQL (inner sql_restarted) (db sql_restarted) ∅)).1.2 = Ok (m', true) ∧
    Message.MessageID m' = message_id 1.
Proof.
  assert (∃ target, send_target E0 (mkSendRequest alice bob "r-1"%stdpp "ping"%stdpp MessageTypeRequest 600)
    (sweepLocked E0 (order_of (inner sql_restarted)) (at_s 6) (inner sql_restarted)) = Ok target) as [target Htarget].
  { eexists. vm_compute. reflexivity. }
  destruct (restart_answers_duplicate E0 no_faults (order_of (inner sql_registered)) (at_s 1) request1
    sql_registered request_message [] (at_s 1) sql_requested (clock_at (at_s 5)) sql_order emptyStore
    (inner sql_restarted) no_faults (db sql_restarted) no_faults (order_of (inner sql_restarted)) (at_s 6) request1
    (mkSendRequest alice bob "r-1"%stdpp "ping"%stdpp MessageTypeRequest 600) target) as (m' & Hm' & Hid & _).
  - exact sql_registered_ok.
  - clear. by vm_compute.
  - clear. by vm_compute.
  - exact sql_request_accepted.
  - apply run_nil.
  - clear. by vm_compute.
  - clear. by vm_compute.
  - exact sql_restarted_run.
  - clear. by vm_compute.
  - clear. vm_compute. by left.
  - clear. by repeat constructor.
  - clear. vm_compute. reflexivity.
  - exact Htarget.
  - clear. vm_compute. reflexivity.
  - clear. vm_compute. reflexivity.
  - clear. vm_compute. reflexivity.
  - exists m'. split; [exact Hm'|]. rewrite Hid. clear. vm_compute. reflexivity.
Defined.
