(* ===== verification/SqliteReads.v ===== *)
(** * What the durable inbox and the push claims return

    Runs of the database without faults, the rows a read offers as a sorted list
    without repetitions, the batch a read cuts from it, and the claims of the
    push ledger. *)
From stdpp Require Import gmap strings list sorting relations.
From Stdlib Require Import ZArith Lia Ascii.
From S2P Require Import Prelude GoBase Json Types Scope Config Auth Ring State Push Inbox Observe Structure Sweep Conversations Agents Wakeup History Send Poll Lifecycle Queries Scenario Rfc3339 Sqlite Delivery SqliteStore Ledger SqliteSystem SqliteProps.

(** ** Runs without faults *)

Lemma exec_clean u k t : exec u no_faults (k, t) = (Ok (), (S k, u t)).
Proof. done. Qed.

Lemma query_row_clean {A} (select : Tables → option A) a k t :
  select t = Some a → query_row select no_faults (k, t) = (Ok a, (S k, t)).
Proof. intros H. unfold query_row, call. cbn. by rewrite H. Qed.

Lemma for_each_clean {A} (u : A → Tables → Tables) l : ∀ k t,
  ∃ k', for_each (λ a, exec (u a)) l no_faults (k, t) = (Ok (), (k', foldl (λ t a, u a t) t l)).
Proof.
  induction l as [|a l IH]; intros k t; cbn [for_each foldl].
  - by exists k.
  - rewrite bind_run, exec_clean. apply IH.
Qed.

Lemma transaction_clean {A} (m : Db A) k t a k' t' :
  m no_faults (S k, t) = (Ok a, (k', t')) →
  transaction m no_faults (k, t) = (Ok a, (S k', t')).
Proof. intros H. unfold transaction. rewrite bind_run, exec_clean. unfold commit, id. by rewrite H. Qed.

(** ** The rows a read offers *)

Definition seq_lt (i j : Sequenced.t) : Prop := Sequenced.seq i < Sequenced.seq j.

(** The deliveries to [a] from [cursor] on that are due at [now]. *)
Definition due_item (t : Tables) (a : string) (cursor : Z) (now : string) (i : Sequenced.t) : Prop :=
  ∃ d m, t_deliveries t !! (a, Sequenced.seq i) = Some d ∧ in_transport d = true ∧
    text_lt now (DeliveryRow.expires_at d) = true ∧
    t_messages t !! DeliveryRow.message_id d = Some m ∧
    Sequenced.message i = scanSQLiteMessage (DeliveryRow.message_id d) m ∧
    cursor ≤ Sequenced.seq i.

Lemma offered_Some a cursor now t k d i :
  offered a cursor now t (k, d) = Some i ↔
  k = (a, Sequenced.seq i) ∧ cursor ≤ Sequenced.seq i ∧ in_transport d = true ∧
  text_lt now (DeliveryRow.expires_at d) = true ∧
  ∃ m, t_messages t !! DeliveryRow.message_id d = Some m ∧
       Sequenced.message i = scanSQLiteMessage (DeliveryRow.message_id d) m.
Proof.
  destruct k as [target n], i as [n' msg]. unfold offered. cbn.
  destruct (t_messages t !! DeliveryRow.message_id d) as [m|]; cbn; [|naive_solver].
  destruct (bool_decide (target = a) && (cursor <=? n) && in_transport d && _) eqn:Ec.
  - prop_bool. split; [|intros ([= _ ->] & _ & _ & _ & m' & [= <-] & ->); done].
    intros [= <- <-]. subst target. split_and!; [done..|]. by exists m.
  - split; [done|]. intros ([= -> ->] & Hc & Ht & He & _). exfalso.
    rewrite bool_decide_eq_true_2, (proj2 (Z.leb_le _ _) Hc), Ht, He in Ec by done. done.
Qed.

Lemma elem_of_offers a cursor now t i : i ∈ offers a cursor now t ↔ due_item t a cursor now i.
Proof.
  unfold offers. rewrite merge_sort_Permutation, list_elem_of_omap. unfold due_item. split.
  - intros ([k d] & Hk%elem_of_map_to_list & (-> & ? & ? & ? & m & ? & ?)%offered_Some). by exists d, m.
  - intros (d & m & Hd & ? & ? & ? & ? & ?). exists ((a, Sequenced.seq i), d).
    split; [by apply elem_of_map_to_list|]. apply offered_Some. eauto 10.
Qed.

Lemma offered_seqs a cursor now t l :
  NoDup l.*1 → NoDup (Sequenced.seq <$> omap (offered a cursor now t) l).
Proof.
  induction l as [|[k d] l IH]; intros Hl; [constructor|].
  apply NoDup_cons in Hl as [Hk Hl]. cbn [omap list_omap].
  destruct (offered a cursor now t (k, d)) as [i|] eqn:Ei; [|by apply IH].
  apply offered_Some in Ei as (-> & _). cbn. apply NoDup_cons. split; [|by apply IH].
  rewrite list_elem_of_fmap. intros (j & Hj & ([k' d'] & Hin & Ej)%list_elem_of_omap).
  apply offered_Some in Ej as (-> & _). apply Hk. cbn. rewrite Hj. by apply (list_elem_of_fmap_2 fst) in Hin.
Qed.

Lemma strongly_sorted_strict l :
  StronglySorted seq_le l → NoDup (Sequenced.seq <$> l) → StronglySorted seq_lt l.
Proof.
  induction 1 as [|i l _ IH Hi]; cbn; intros Hn; [constructor|].
  apply NoDup_cons in Hn as [Hin Hn]. constructor; [by apply IH|].
  apply Forall_forall. intros j Hj. pose proof (proj1 (Forall_forall _ _) Hi j Hj) as Hle.
  unfold seq_le, seq_lt in *. enough (Sequenced.seq i ≠ Sequenced.seq j) by lia.
  intros He. apply Hin. rewrite He. by apply list_elem_of_fmap_2.
Qed.

Lemma offers_sorted a cursor now t : StronglySorted seq_lt (offers a cursor now t).
Proof.
  apply strongly_sorted_strict.
  - apply StronglySorted_merge_sort; unfold seq_le; [intros x y z ? ?; lia|].
    intros x y. destruct (Z.le_ge_cases (Sequenced.seq x) (Sequenced.seq y)); auto.
  - unfold offers. rewrite merge_sort_Permutation. apply offered_seqs, NoDup_fst_map_to_list.
Qed.

(** ** The batch *)

Lemma event_bytes_pos i : 0 < event_bytes i.
Proof. unfold event_bytes. pose proof (inboxEventSize_pos (messageInboxEvent (Sequenced.message i))). lia. Qed.

(** The loop takes a prefix: all that fits, and one row at least. *)
Lemma take_bytes_prefix maxBytes rows : ∀ used taken,
  let p := take_bytes maxBytes used taken rows in
  ∃ rest, rows = p ++ rest ∧
    (used + zsum event_bytes p ≤ maxBytes ∨ (length p ≤ if taken : bool then 0 else 1)%nat) ∧
    ∀ i rest', rest = i :: rest' →
      (taken = true ∨ p ≠ []) ∧ maxBytes < used + zsum event_bytes p + event_bytes i.
Proof.
  induction rows as [|i rows IH]; intros used taken; cbn [take_bytes]; cbv zeta.
  - exists []. split_and!; [done|right; destruct taken; cbn; lia|done].
  - destruct (taken && _) eqn:Et.
    + prop_bool. subst. exists (i :: rows). split_and!; [done|right; cbn; lia|].
      intros j rest' [= <- <-]. split; [by left|]. cbn. lia.
    + destruct (IH (used + event_bytes i) true) as (rest & Hr & Hb & Hm). exists rest.
      split_and!; [by rewrite Hr at 1|..]; rewrite zsum_cons.
      * destruct Hb as [Hb|Hb]; [left; lia|].
        destruct (take_bytes _ _ _ rows) eqn:Ep; [|cbn in Hb; lia].
        destruct taken; cbn in *; [|by right; lia]. prop_bool. left. lia.
      * intros j rest' Hrest. destruct (Hm j rest' Hrest) as [_ Hlt]. split; [by right|]. lia.
Qed.

(** ** Reading without faults *)

Section read.
Context (E : Static) (a : string) (requested limit : Z) (ack_at read_at offered_at : Time).

Definition read_cursor (t : Tables) : Z := durable_cursor requested (cursor_of a t).

(** The tables once what lies before the cursor is acknowledged. *)
Definition read_acknowledged (t : Tables) : Tables :=
  let c := cursor_of a t in
  let t := new_cursor a t in
  if CursorRow.acknowledged_cursor c <? durable_cursor requested c then
    receive_before a (durable_cursor requested c) (timeToString ack_at)
      (with_delivery_cursors (alter (set_acknowledged (durable_cursor requested c)) a (t_delivery_cursors t)) t)
  else t.

Definition read_batch (t : Tables) : list Sequenced.t :=
  take_bytes (durableInboxBatchLimits E).2 0 false
    (take (Z.to_nat (batch_events E limit))
       (offers a (read_cursor t) (timeToString read_at) (read_acknowledged t))).

Definition offer_all (t : Tables) : Tables :=
  foldl (λ t i, offer_in_db (timeToString offered_at) (Message.MessageID (Sequenced.message i)) t)
    (read_acknowledged t) (read_batch t).

Lemma select_new_cursor t : t_delivery_cursors (new_cursor a t) !! a = Some (cursor_of a t).
Proof.
  unfold new_cursor, cursor_of. destruct (t_delivery_cursors t !! a) eqn:Ea; cbn; [done|].
  by rewrite lookup_insert_eq.
Qed.

Lemma read_tx_clean t :
  ∃ k, read_tx E a requested limit ack_at read_at offered_at no_faults (O, t)
  = (Ok (read_cursor t, (λ i, Sequenced.mk (Sequenced.seq i) (offer_message offered_at (Sequenced.message i)))
                          <$> read_batch t), (k, offer_all t)).
Proof.
  set (c := cursor_of a t). set (n := durable_cursor requested c).
  assert (∃ k, (if CursorRow.acknowledged_cursor c <? n then
      update_cursor a (set_acknowledged n) ;; exec (receive_before a n (timeToString ack_at))
      else mret ()) no_faults (3%nat, new_cursor a t) = (Ok (), (k, read_acknowledged t))) as [k1 H1].
  { unfold read_acknowledged. cbv zeta. fold c. fold n. destruct (_ <? n); [|by exists 3%nat].
    exists 5%nat. reflexivity. }
  destruct (for_each_clean (λ i, offer_in_db (timeToString offered_at)
      (Message.MessageID (Sequenced.message i))) (read_batch t) (S k1) (read_acknowledged t)) as [k2 H2].
  eexists. unfold read_tx. apply transaction_clean.
  rewrite bind_run. unfold insert_cursor. rewrite exec_clean.
  rewrite bind_run. unfold select_cursor. rewrite (query_row_clean _ c) by apply select_new_cursor.
  cbv zeta. fold n. rewrite bind_run. unfold when. rewrite H1. rewrite bind_run. unfold query_unchecked.
  cbn [no_faults fst snd]. rewrite bind_run. fold (read_cursor t) in n.
  change (take_bytes _ _ _ _) with (read_batch t). rewrite H2. done.
Qed.

Lemma readDurableInbox_clean q :
  let '(q', r) := readDurableInbox E no_faults a requested limit ack_at read_at offered_at q in
  db q' = offer_all (db q) ∧
  r = Ok ((λ i, messageInboxEvent (Sequenced.message i)) <$> read_batch (db q),
          next_cursor (read_cursor (db q)) (read_batch (db q))).
Proof.
  unfold readDurableInbox, on_db, run_db. destruct (read_tx_clean (db q)) as [k ->]. cbv zeta.
  split; [done|]. f_equal. f_equal.
  - rewrite <-list_fmap_compose. done.
  - unfold next_cursor. rewrite fmap_last. by destruct (last _).
Qed.
End read.

(** What acknowledging up to [n] does to a delivery. *)
Definition acknowledge_row (a : string) (n : Z) (raw : string) (k : string * Z) (d : DeliveryRow.t)
    : DeliveryRow.t :=
  if bool_decide (k.1 = a) && (k.2 <? n) && in_transport d then receive raw d else d.

Section batch.
Context (E : Static) (a : string) (requested limit : Z) (ack_at read_at offered_at : Time).
Context (t : Tables) (Hok : ledger_ok t).
Let cursor := read_cursor a requested t.
Let t1 := read_acknowledged a requested ack_at t.

Lemma cursor_of_ok : 0 ≤ CursorRow.acknowledged_cursor (cursor_of a t) ≤ CursorRow.next_seq (cursor_of a t).
Proof.
  unfold cursor_of. destruct (t_delivery_cursors t !! a) eqn:Ea; cbn; [|lia]. by eapply lk_cursor.
Qed.

Lemma read_cursor_bounds :
  CursorRow.acknowledged_cursor (cursor_of a t) ≤ cursor ≤ CursorRow.next_seq (cursor_of a t).
Proof. apply durable_cursor_spec, cursor_of_ok. Qed.

(** Whether or not the cursor is raised, what is due before it is received. *)
Lemma read_acknowledged_deliveries k :
  t_deliveries t1 !! k = acknowledge_row a cursor (timeToString ack_at) k <$> t_deliveries t !! k.
Proof.
  unfold t1, read_acknowledged. cbv zeta. change (durable_cursor _ _) with cursor.
  destruct (new_cursor_frame a t) as (Hd & _). destruct (_ <? _) eqn:Elt; prop_bool.
  - cbn. rewrite map_lookup_imap, Hd. by destruct (t_deliveries t !! k).
  - rewrite Hd. destruct (t_deliveries t !! k) as [d|] eqn:Ek; cbn; [|done]. f_equal.
    unfold acknowledge_row. destruct (bool_decide (k.1 = a)) eqn:Ea; cbn; [|done].
    destruct (k.2 <? cursor) eqn:Ec; cbn; [|done]. prop_bool. destruct k as [b n]. cbn in *. subst b.
    destruct (lk_seq _ Hok _ _ _ Ek) as (c & Hc & _).
    rewrite (lk_acked _ Hok _ _ _ _ Ek Hc); [done|]. unfold cursor_of in Elt. rewrite Hc in Elt.
    cbn in Elt. lia.
Qed.

Lemma read_acknowledged_messages : t_messages t1 = t_messages t.
Proof.
  unfold t1, read_acknowledged. cbv zeta. destruct (new_cursor_frame a t) as (_ & Hm & _). by case_bool.
Qed.

Lemma read_acknowledged_cursor :
  t_delivery_cursors t1 !! a = Some (CursorRow.mk (CursorRow.next_seq (cursor_of a t)) cursor).
Proof.
  pose proof read_cursor_bounds as Hb. unfold t1, read_acknowledged. cbv zeta.
  change (durable_cursor _ _) with cursor. destruct (_ <? _) eqn:Elt; prop_bool.
  - cbn. by rewrite lookup_alter_eq, select_new_cursor.
  - rewrite select_new_cursor. assert (cursor = CursorRow.acknowledged_cursor (cursor_of a t)) as -> by lia.
    by destruct (cursor_of a t).
Qed.

(** The rows from the cursor on are the same before and after. *)
Lemma due_acknowledged raw i : due_item t1 a cursor raw i ↔ due_item t a cursor raw i.
Proof.
  assert (∀ d, cursor ≤ Sequenced.seq i →
            acknowledge_row a cursor (timeToString ack_at) (a, Sequenced.seq i) d = d) as Hsame.
  { intros d Hle. unfold acknowledge_row. cbn. by rewrite (proj2 (Z.ltb_ge _ _) Hle), andb_false_r. }
  unfold due_item. setoid_rewrite read_acknowledged_deliveries. rewrite read_acknowledged_messages. split.
  - intros (d & m & (d0 & Hd & ->)%fmap_Some & ? & ? & ? & ? & Hle). rewrite Hsame in * by done.
    by exists d0, m.
  - intros (d & m & Hd & ? & ? & ? & ? & Hle). exists d, m. rewrite Hd. cbn. by rewrite Hsame.
Qed.

Lemma batch_events_pos : (0 < Z.to_nat (batch_events E limit))%nat.
Proof.
  unfold batch_events, durableInboxBatchLimits. cbn. unfold durableInboxFallbackMaxEvents.
  destruct (_ <=? 0) eqn:E1; destruct (_ && _) eqn:E2; prop_bool; lia.
Qed.

(** The batch is a prefix of the rows due, cut by the two limits only. *)
Lemma read_batch_prefix :
  let rows := offers a cursor (timeToString read_at) t1 in
  let p := read_batch E a requested limit ack_at read_at t in
  ∃ rest, rows = p ++ rest ∧ (length p ≤ Z.to_nat (batch_events E limit))%nat ∧
    (zsum event_bytes p ≤ (durableInboxBatchLimits E).2 ∨ (length p ≤ 1)%nat) ∧
    (rest ≠ [] → p ≠ []) ∧
    ∀ i rest', rest = i :: rest' → length p = Z.to_nat (batch_events E limit) ∨
      (durableInboxBatchLimits E).2 < zsum event_bytes p + event_bytes i.
Proof.
  cbv zeta. unfold read_batch. fold cursor t1. set (rows := offers _ _ _ _). set (N := Z.to_nat _).
  pose proof batch_events_pos as HN. fold N in HN.
  destruct (take_bytes_prefix (durableInboxBatchLimits E).2 (take N rows) 0 false)
    as (rest & Hr & Hb & Hm). set (p := take_bytes _ _ _ _) in *.
  assert (length p + length rest = N `min` length rows)%nat as Hlen.
  { rewrite <-length_app, <-Hr. apply length_take. }
  exists (rest ++ drop N rows). split_and!.
  - by rewrite app_assoc, <-Hr, take_drop.
  - lia.
  - by rewrite Z.add_0_l in Hb.
  - intros Hne Hp. rewrite Hp in Hlen. destruct rest as [|i rest].
    + apply Hne. cbn in *. apply nil_length_inv. rewrite length_drop. lia.
    + destruct (Hm i rest eq_refl) as [[|] _]; done.
  - intros i rest' Hrest. destruct rest as [|j rest].
    + left. cbn in *. apply (f_equal length) in Hrest. rewrite length_drop in Hrest. cbn in Hrest. lia.
    + injection Hrest as -> _. right. destruct (Hm i rest eq_refl) as [_ ?]. lia.
Qed.
End batch.

Lemma next_cursor_spec cursor p rest :
  StronglySorted seq_lt (p ++ rest) → (∀ i, i ∈ p ++ rest → cursor ≤ Sequenced.seq i) →
  (rest ≠ [] → p ≠ []) →
  (∀ i, i ∈ p → cursor ≤ Sequenced.seq i < next_cursor cursor p) ∧
  (∀ i, i ∈ rest → next_cursor cursor p ≤ Sequenced.seq i).
Proof.
  intros Hs Hc Hne. destruct p as [|j p _] using rev_ind.
  - split; [by intros i ?%not_elem_of_nil|]. intros i Hi. destruct rest; [by apply not_elem_of_nil in Hi|].
    by destruct Hne.
  - unfold next_cursor. rewrite last_snoc. rewrite <-app_assoc in Hs.
    destruct (proj1 (StronglySorted_app _ _ _) Hs) as (H1 & _ & [_ H2]%StronglySorted_inv).
    split; intros i Hi.
    + split; [apply Hc; set_solver|]. apply elem_of_app in Hi as [Hi| ->%list_elem_of_singleton]; [|lia].
      assert (seq_lt i j) as Hlt by (apply H1; [done|set_solver]). unfold seq_lt in Hlt. lia.
    + pose proof (proj1 (Forall_forall _ _) H2 i Hi) as Hlt. unfold seq_lt in Hlt. lia.
Qed.

Lemma offers_frame {A} (u : A → string) raw l : ∀ t,
  let t' := foldl (λ t i, offer_in_db raw (u i) t) t l in
  t_deliveries t' = t_deliveries t ∧ t_delivery_cursors t' = t_delivery_cursors t ∧
  t_idempotency t' = t_idempotency t.
Proof.
  induction l as [|i l IH]; intros t; cbn; [done|].
  destruct (IH (offer_in_db raw (u i) t)) as (-> & -> & ->). done.
Qed.

(** C6: A read of the durable inbox acknowledges what lies before the cursor,
    which is the one asked for between the acknowledged one and the next
    sequence number, and returns the due deliveries from there: in order of
    sequence number, none twice and none left out before the next cursor, at
    least one if any is due, cut only where the limit on events or on bytes is
    reached; the next cursor lies after what was returned and before the rest. *)
Theorem durable_read E a requested limit ack_at read_at offered_at q :
  ledger_ok (db q) →
  let c := cursor_of a (db q) in
  let cursor := durable_cursor requested c in
  let q' := (readDurableInbox E no_faults a requested limit ack_at read_at offered_at q).1 in
  CursorRow.acknowledged_cursor c ≤ cursor ≤ CursorRow.next_seq c ∧
  t_delivery_cursors (db q') !! a = Some (CursorRow.mk (CursorRow.next_seq c) cursor) ∧
  (∀ k, t_deliveries (db q') !! k
        = acknowledge_row a cursor (timeToString ack_at) k <$> t_deliveries (db q) !! k) ∧
  ∃ batch rest next,
    (readDurableInbox E no_faults a requested limit ack_at read_at offered_at q).2
    = Ok ((λ i, messageInboxEvent (Sequenced.message i)) <$> batch, next) ∧
    StronglySorted seq_lt (batch ++ rest) ∧
    (∀ i, i ∈ batch ++ rest ↔ due_item (db q) a cursor (timeToString read_at) i) ∧
    (∀ i, i ∈ batch → cursor ≤ Sequenced.seq i < next) ∧ (∀ i, i ∈ rest → next ≤ Sequenced.seq i) ∧
    (batch = [] → rest = [] ∧ next = cursor) ∧
    (length batch ≤ Z.to_nat (batch_events E limit))%nat ∧
    (zsum event_bytes batch ≤ (durableInboxBatchLimits E).2 ∨ (length batch ≤ 1)%nat) ∧
    ∀ i rest', rest = i :: rest' → length batch = Z.to_nat (batch_events E limit) ∨
      (durableInboxBatchLimits E).2 < zsum event_bytes batch + event_bytes i.
Proof.
  intros Hok. cbv zeta.
  pose proof (readDurableInbox_clean E a requested limit ack_at read_at offered_at q) as Hrun.
  destruct (readDurableInbox _ _ _ _ _ _ _ _ _) as [q' r]. destruct Hrun as [Hdb ->]. cbn [fst snd].
  destruct (offers_frame (λ i, Message.MessageID (Sequenced.message i)) (timeToString offered_at)
    (read_batch E a requested limit ack_at read_at (db q)) (read_acknowledged a requested ack_at (db q)))
    as (Hdel & Hcur & _). change (foldl _ _ _) with
    (offer_all E a requested limit ack_at read_at offered_at (db q)) in Hdel, Hcur. rewrite <-Hdb in Hdel, Hcur.
  destruct (read_batch_prefix E a requested limit ack_at read_at (db q))
    as (rest & Hrows & Hlen & Hbytes & Hne & Hcut).
  pose proof (offers_sorted a (read_cursor a requested (db q)) (timeToString read_at)
    (read_acknowledged a requested ack_at (db q))) as Hsort. rewrite Hrows in Hsort.
  assert (∀ i, i ∈ read_batch E a requested limit ack_at read_at (db q) ++ rest ↔
            due_item (db q) a (read_cursor a requested (db q)) (timeToString read_at) i) as Hdue.
  { intros i. rewrite <-Hrows, elem_of_offers. by apply due_acknowledged. }
  destruct (next_cursor_spec (read_cursor a requested (db q)) _ rest Hsort) as [Hin Hout];
    [by intros i (? & ? & ? & ? & ? & ? & ? & ?)%Hdue|done|].
  split; [by apply read_cursor_bounds|]. split_and!.
  - rewrite Hcur. by apply read_acknowledged_cursor.
  - intros k. rewrite Hdel. by apply read_acknowledged_deliveries.
  - eexists _, rest, _. split_and!; [reflexivity|exact Hsort|exact Hdue|exact Hin|exact Hout| |exact Hlen|exact Hbytes|exact Hcut].
    intros Hb. rewrite Hb in *. split; [|done]. destruct rest; [done|]. by destruct Hne.
Qed.

(** Bob reads Alice's request. *)
Lemma durable_read_witness :
  (readDurableInbox E0 no_faults bob 0 0 (at_s 2) (at_s 2) (at_s 2) sql_requested).2
    = Ok ([messageInboxEvent request_message], 1) ∧
  t_delivery_cursors (db (readDurableInbox E0 no_faults bob 0 0 (at_s 2) (at_s 2) (at_s 2) sql_requested).1) !! bob
    = Some (CursorRow.mk 1 0).
Proof.
  split; [by vm_compute|].
  apply (durable_read E0 bob 0 0 (at_s 2) (at_s 2) (at_s 2) sql_requested).
  apply send_ledger_ok, sql_registered_ok.
Defined.

(** ** Claims *)

Definition claim_ids (cs : list claimedPush) : list string := messageID <$> cs.

(** Marks the deliveries of the messages in [ids] as being attempted. *)
Definition mark_attempting (ids : list string) (d : DeliveryRow.t) : DeliveryRow.t :=
  if bool_decide (DeliveryRow.message_id d ∈ ids) then set_status Attempting d else d.

Definition one_delivery (t : Tables) : Prop := ∀ k k' d d',
  t_deliveries t !! k = Some d → t_deliveries t !! k' = Some d' →
  DeliveryRow.message_id d = DeliveryRow.message_id d' → k = k'.

Definition pending_at (t : Tables) (id : string) (k : string * Z) (d : DeliveryRow.t) : Prop :=
  t_deliveries t !! k = Some d ∧ DeliveryRow.message_id d = id ∧ DeliveryRow.status d = Pending.

(** The rows [claim] changes: none, or the one delivery of the message. *)
Lemma claim_rows t id :
  one_delivery t →
  let mine := filter (λ '(_, d), bool_decide (DeliveryRow.message_id d = id)
                                 && bool_decide (DeliveryRow.status d = Pending) = true) (t_deliveries t) in
  (size mine = 0%nat ∧ ∀ k d, ¬ pending_at t id k d) ∨ (size mine = 1%nat ∧ ∃ k d, pending_at t id k d).
Proof.
  intros Hone. cbv zeta. set (mine := filter _ _).
  assert (∀ k d, mine !! k = Some d ↔ pending_at t id k d) as Hm.
  { intros k d. unfold mine, pending_at. rewrite map_lookup_filter_Some, andb_true_iff, !bool_decide_eq_true. done. }
  destruct (map_choose_or_empty mine) as [(k & d & Hk)|He].
  - right. split; [|exists k, d; by apply Hm].
    assert (mine = {[k := d]}) as ->; [|apply map_size_singleton].
    apply map_eq. intros k'. destruct (decide (k' = k)) as [->|Hne]; [by rewrite lookup_singleton_eq, Hk|].
    rewrite lookup_singleton_ne by done. apply eq_None_not_Some. intros [d' Hk'].
    apply Hm in Hk as (H1 & H2 & _), Hk' as (H3 & H4 & _). apply Hne, (Hone k' k d' d); congruence.
  - left. rewrite He. split; [apply map_size_empty|]. intros k d Hp%Hm. by rewrite He in Hp.
Qed.

(** What one claim leaves: a fault changes nothing. *)
Lemma claim_run t id f k :
  one_delivery t →
  (∃ r k', claim id f (k, t) = (r, (k', t)) ∧ r ≠ Ok 1%nat ∧
           (f = no_faults → ∀ k d, ¬ pending_at t id k d)) ∨
  (∃ key d, pending_at t id key d ∧
     claim id f (k, t) = (Ok 1%nat, (S k, update_deliveries (λ _ d,
       if bool_decide (DeliveryRow.message_id d = id) && bool_decide (DeliveryRow.status d = Pending)
       then set_status Attempting d else d) t))).
Proof.
  intros Hone. unfold claim, call. cbn [fst snd].
  destruct (f k) as [[|]|] eqn:Ef; [by left; eexists _, _; split_and!; [done|done|intros ->] ..|].
  destruct (claim_rows t id Hone) as [[-> Hno]|[-> (key & d & Hp)]].
  - left. exists (Ok 0%nat), (S k). split_and!; [|done|done]. do 2 f_equal. destruct t. unfold update_deliveries, with_deliveries.
    cbn. f_equal. apply map_eq. intros key. rewrite map_lookup_imap.
    match goal with |- context [?m !! key] => destruct (m !! key) as [d|] eqn:Ed end; cbn; [|done].
    f_equal. destruct (_ && _) eqn:Em; [|done]. prop_bool. by destruct (Hno key d).
  - right. by exists key, d.
Qed.

(** What the claims of a list of candidates did to the tables. *)
Record claimed_from (f : Faults) (cs out : list claimedPush) (t t' : Tables) : Prop := {
  cf_candidates : out `sublist_of` cs;
  cf_distinct : NoDup (claim_ids out);
  cf_pending : ∀ c, c ∈ out → ∃ k d, pending_at t (messageID c) k d;
  cf_rows : ∀ k, t_deliveries t' !! k = mark_attempting (claim_ids out) <$> t_deliveries t !! k;
  cf_all : f = no_faults → ∀ c k d, c ∈ cs → pending_at t (messageID c) k d →
    messageID c ∈ claim_ids out }.

Lemma ignore_offer raw id f k t :
  ∃ k' t', ignore (exec (offer_in_db raw id)) f (k, t) = (Ok (), (k', t')) ∧
           t_deliveries t' = t_deliveries t.
Proof.
  unfold ignore, exec, call. cbn. destruct (f k) as [[]|]; cbn; eauto.
Qed.

Lemma one_delivery_same t t' :
  (∀ k d', t_deliveries t' !! k = Some d' → ∃ d, t_deliveries t !! k = Some d ∧
     DeliveryRow.message_id d' = DeliveryRow.message_id d) →
  one_delivery t → one_delivery t'.
Proof.
  intros H Hone k k' d1 d2 (d1' & H1 & E1)%H (d2' & H2 & E2)%H He. apply (Hone k k' d1' d2'); congruence.
Qed.

Lemma pending_marked ids t t' id k d :
  (∀ k, t_deliveries t' !! k = mark_attempting ids <$> t_deliveries t !! k) →
  pending_at t' id k d ↔ pending_at t id k d ∧ id ∉ ids.
Proof.
  intros Hm. unfold pending_at. rewrite Hm. unfold mark_attempting. split.
  - intros ((d0 & Hd & ->)%fmap_Some & Hid & Hs). case_bool_decide as Hin; [done|]. by subst.
  - intros ((Hd & Hid & Hs) & Hin). rewrite Hd. cbn. rewrite bool_decide_eq_false_2; [done|by subst].
Qed.

Lemma mark_twice ids ids' d :
  mark_attempting ids (mark_attempting ids' d) = mark_attempting (ids' ++ ids) d.
Proof.
  unfold mark_attempting. destruct (bool_decide (DeliveryRow.message_id d ∈ ids')) eqn:E1; cbn;
    destruct (bool_decide (DeliveryRow.message_id d ∈ ids)) eqn:E2; prop_bool.
  1,2,3: rewrite bool_decide_eq_true_2; [done|set_solver].
  rewrite bool_decide_eq_false_2; [done|set_solver].
Qed.

(** One more claim in front. *)
Lemma claimed_cons f c cs out key d t t2 t3 :
  pending_at t (messageID c) key d →
  (∀ k, t_deliveries t2 !! k = mark_attempting [messageID c] <$> t_deliveries t !! k) →
  claimed_from f cs out t2 t3 → claimed_from f (c :: cs) (c :: out) t t3.
Proof.
  intros Hp Hm [H1 H2 H3 H4 H5].
  pose proof (λ id k d, pending_marked [messageID c] t t2 id k d Hm) as Hpend.
  constructor.
  - by constructor.
  - cbn. apply NoDup_cons. split; [|done]. intros (c' & He & Hin)%list_elem_of_fmap.
    destruct (H3 c' Hin) as (k & d' & [_ Hne]%Hpend). apply Hne. rewrite <-He. by left.
  - intros c' [->|Hin]%elem_of_cons; [by exists key, d|].
    destruct (H3 c' Hin) as (k & d' & [? _]%Hpend). by exists k, d'.
  - intros k. rewrite H4, Hm. destruct (t_deliveries t !! k) as [d'|]; [|done]. cbn. by rewrite mark_twice.
  - intros Hf c' k d' [->|Hin]%elem_of_cons Hp'; cbn; [by left|].
    destruct (decide (messageID c' = messageID c)) as [->|Hne]; [by left|]. right.
    eapply (H5 Hf c' k d' Hin), Hpend. split; [done|]. by intros ?%list_elem_of_singleton.
Qed.

Lemma claim_each_run raw f cs : ∀ k t,
  one_delivery t →
  ∃ out k' t', claim_each raw cs f (k, t) = (Ok out, (k', t')) ∧ claimed_from f cs out t t'.
Proof.
  induction cs as [|c cs IH]; intros k t Hone; cbn [claim_each].
  - exists [], k, t. split; [done|]. constructor; [done|constructor|by intros c ?%not_elem_of_nil| |].
    + intros key. by destruct (t_deliveries t !! key).
    + by intros _ c key d ?%not_elem_of_nil.
  - rewrite bind_run. unfold try at 1.
    destruct (claim_run t (messageID c) f k Hone) as [(r & k' & -> & Hr & Hno)|(key & d & Hp & ->)].
    + destruct (IH k' t Hone) as (out & k2 & t2 & Hrun & [H1 H2 H3 H4 H5]).
      exists out, k2, t2. split; [by destruct r as [[|[|]]|]|].
      constructor; [by constructor|done|done|done|].
      intros Hf c' key d [->|Hc']%elem_of_cons Hp; [by destruct (Hno Hf key d)|by eapply H5].
    + set (t1 := update_deliveries _ t).
      assert (∀ k, t_deliveries t1 !! k = mark_attempting [messageID c] <$> t_deliveries t !! k) as Ht1.
      { intros key'. unfold t1. cbn. rewrite map_lookup_imap.
        destruct (t_deliveries t !! key') as [d'|] eqn:Ed; [|done]. cbn. f_equal. unfold mark_attempting.
        destruct (bool_decide (DeliveryRow.message_id d' = messageID c)) eqn:Eid; prop_bool; cbn.
        - assert (key' = key) as -> by (destruct Hp as (? & ? & _); apply (Hone key' key d' d); congruence).
          destruct Hp as (Hd & _ & Hs). rewrite Hd in Ed. injection Ed as <-.
          rewrite (bool_decide_eq_true_2 (_ = Pending)), bool_decide_eq_true_2; [done|rewrite Eid; by left|done].
        - rewrite bool_decide_eq_false_2; [done|]. by intros ?%list_elem_of_singleton. }
      rewrite bind_run. destruct (ignore_offer raw (messageID c) f (S k) t1) as (k2 & t2 & -> & Ht2).
      assert (∀ k, t_deliveries t2 !! k = mark_attempting [messageID c] <$> t_deliveries t !! k) as Ht12.
      { intros ?. by rewrite Ht2. }
      destruct (IH k2 t2) as (out & k3 & t3 & Hrun & Hout).
      { eapply one_delivery_same; [|exact Hone]. intros key' d' Hd'. rewrite Ht12 in Hd'.
        apply fmap_Some in Hd' as (d0 & Hd0 & ->). exists d0. split; [done|].
        unfold mark_attempting. by case_bool. }
      exists (c :: out), k3, t3. rewrite bind_run, Hrun. split; [done|].
      by eapply claimed_cons.
Qed.

(** Failing what expired does not change what is due. *)
Lemma due_push_unexpired raw t key : due_push raw (fail_expired raw t) key = due_push raw t key.
Proof.
  unfold due_push, fail_expired. cbn. rewrite map_lookup_imap.
  destruct (t_deliveries t !! key) as [d|]; [|done]. cbn.
  destruct (in_transport d && text_le (DeliveryRow.expires_at d) raw) eqn:Ee; [|done]. prop_bool.
  unfold text_le in *. prop_bool. cbn.
  destruct (t_messages t !! _); [|done]. cbn. destruct (t_agents t !! _); [|done]. cbn.
  match goal with H : text_lt _ _ = false |- _ => by rewrite H, !andb_false_r end.
Qed.

Lemma due_pushes_unexpired raw order t :
  due_pushes raw order (fail_expired raw t) = due_pushes raw order t.
Proof.
  unfold due_pushes. do 3 f_equal. apply list_omap_ext, Forall2_same_length_lookup_2; [done|].
  intros i k k' Hk Hk'. simplify_eq. by rewrite due_push_unexpired.
Qed.

Lemma elem_of_due_pushes raw order t c :
  c ∈ due_pushes raw order t →
  ∃ k d, k ∈ order ∧ due_push raw t k = Some (d, callbackURL c) ∧ DeliveryRow.message_id d = messageID c.
Proof.
  unfold due_pushes. intros Hc%(subseteq_take 32). apply list_elem_of_fmap in Hc as ([[n d] url] & -> & Hin).
  rewrite merge_sort_Permutation, list_elem_of_omap in Hin. destruct Hin as (k & Hk & Hd).
  apply fmap_Some in Hd as ([d' url'] & Hd & [= -> -> ->]). by exists k, d'.
Qed.

Lemma due_push_Some raw t k d url :
  due_push raw t k = Some (d, url) →
  t_deliveries t !! k = Some d ∧ DeliveryRow.status d = Pending ∧
  text_lt raw (DeliveryRow.expires_at d) = true ∧
  ∃ a, t_agents t !! k.1 = Some a ∧ AgentRow.mode a = AgentModePush ∧
       AgentRow.status a = AgentStatusActive ∧ url = AgentRow.callback_url a ∧ is_empty url = false.
Proof.
  unfold due_push. destruct (t_deliveries t !! k) as [d'|]; cbn; [|done].
  destruct (t_messages t !! _); cbn; [|done]. destruct (t_agents t !! _) as [a|]; cbn; [|done].
  destruct (_ && negb _) eqn:Ec; [|done]. intros [= -> <-]. prop_bool.
  split_and!; [done|done|done|]. by exists a.
Qed.

(** The candidates a claim works on, and the tables it starts from. *)
Lemma claim_due_run order raw f t :
  one_delivery t →
  ∃ t0 cs, (t0 = t ∨ t0 = fail_expired raw t) ∧ cs `sublist_of` due_pushes raw order t ∧
    (f = no_faults → cs = due_pushes raw order t) ∧
    ((∃ e, run_db (claim_due order raw) f t = (Err e, t0) ∧ f ≠ no_faults) ∨
     ∃ out t', run_db (claim_due order raw) f t = (Ok out, t') ∧ claimed_from f cs out t0 t').
Proof.
  intros Hone. unfold run_db, claim_due. rewrite bind_run.
  assert (∃ t0, ignore (exec (fail_expired raw)) f (O, t) = (Ok (), (1%nat, t0)) ∧
                (t0 = t ∨ t0 = fail_expired raw t)) as (t0 & -> & Ht0).
  { unfold ignore, exec, call. cbn. destruct (f O) as [[]|]; cbn; eauto. }
  assert (due_pushes raw order t0 = due_pushes raw order t) as Hdue.
  { destruct Ht0 as [-> | ->]; [done|apply due_pushes_unexpired]. }
  assert (one_delivery t0) as Hone0.
  { destruct Ht0 as [-> | ->]; [done|]. eapply one_delivery_same; [|exact Hone].
    intros k d' (d & Hd & ->)%update_lookup. exists d. split; [done|]. by case_bool. }
  rewrite bind_run. unfold query_unchecked. cbn [fst snd]. rewrite Hdue.
  destruct (f 1%nat) as [[e|n e]|] eqn:Ef.
  - exists t0, []. split_and!; [done|apply sublist_nil_l|by intros ->|]. left. eexists. split; [done|]. by intros ->.
  - exists t0, (take n (due_pushes raw order t)).
    destruct (claim_each_run raw f (take n (due_pushes raw order t)) 2%nat t0 Hone0) as (out & k' & t' & -> & Hout).
    split_and!; [done|apply sublist_take|by intros ->|]. right. by exists out, t'.
  - exists t0, (due_pushes raw order t).
    destruct (claim_each_run raw f (due_pushes raw order t) 2%nat t0 Hone0) as (out & k' & t' & -> & Hout).
    split_and!; [done|done|done|]. right. by exists out, t'.
Qed.

Lemma claimDuePushes_run f order now q :
  ledger_ok (db q) →
  let '(out, q') := claimDuePushes f order now q in
  ledger_ok (db q') ∧
  ∃ t0 cs, (t0 = db q ∨ t0 = fail_expired (timeToString now) (db q)) ∧
    cs `sublist_of` due_pushes (timeToString now) order (db q) ∧
    (f = no_faults → cs = due_pushes (timeToString now) order (db q)) ∧
    claimed_from f (if bool_decide (out = []) then [] else cs) out t0 (db q') ∧
    (f = no_faults → claimed_from f cs out t0 (db q')).
Proof.
  intros Hok. pose proof (on_db_keeps _ _ f q (claim_due_keeps now Internal order) Hok) as Hk.
  unfold claimDuePushes. revert Hk. unfold on_db.
  destruct (claim_due_run order (timeToString now) f (db q) (lk_unique _ Hok))
    as (t0 & cs & Ht0 & Hcs & Hall & [(e & Hr & Hf)|(out & t' & Hr & Hout)]); rewrite Hr; cbn [fst snd db set_db];
    intros [Hok' _ _ _]; (split; [done|]); exists t0, cs; split_and!; try done.
  - cbn. constructor; [done|constructor|by intros ? ?%not_elem_of_nil| |by intros _ ? ? ? ?%not_elem_of_nil].
    intros k. by destruct (t_deliveries t0 !! k).
  - case_bool_decide as He; [|done]. subst. destruct Hout as [? ? H3 H4 _].
    constructor; [done..|]. by intros _ ? ? ? ?%not_elem_of_nil.
Qed.

Lemma due_row_kept raw t t0 k d url :
  t0 = t ∨ t0 = fail_expired raw t → due_push raw t k = Some (d, url) → t_deliveries t0 !! k = Some d.
Proof.
  intros Ht0 (Hk & _ & He & _)%due_push_Some. destruct Ht0 as [-> | ->]; [done|].
  unfold fail_expired. cbn. rewrite map_lookup_imap, Hk. cbn. unfold text_le. by rewrite He, andb_false_r.
Qed.

(** Everything a pass returns was a candidate, due before and attempted after. *)
Lemma claimed_was_due f order now q :
  ledger_ok (db q) →
  let '(out, q') := claimDuePushes f order now q in
  ledger_ok (db q') ∧ NoDup (claim_ids out) ∧
  out `sublist_of` due_pushes (timeToString now) order (db q) ∧
  ∀ c, c ∈ out → ∃ k d, due_push (timeToString now) (db q) k = Some (d, callbackURL c) ∧
    DeliveryRow.message_id d = messageID c ∧ t_deliveries (db q') !! k = Some (set_status Attempting d).
Proof.
  intros Hok. pose proof (claimDuePushes_run f order now q Hok) as Hrun.
  destruct (claimDuePushes f order now q) as [out q'].
  destruct Hrun as (Hok' & t0 & cs & Ht0 & Hcs & _ & [H1 H2 _ H4 _] & _).
  assert (out `sublist_of` due_pushes (timeToString now) order (db q)) as Hsub.
  { etransitivity; [exact H1|]. case_bool_decide; [apply sublist_nil_l|done]. }
  split_and!; [done..|]. intros c Hin. eapply elem_of_sublist in Hin as Hdue; [|exact Hsub].
  apply elem_of_due_pushes in Hdue as (k & d & _ & Hd & Hid). exists k, d. split_and!; [done|done|].
  rewrite H4, (due_row_kept _ _ _ _ _ _ Ht0 Hd). cbn. unfold mark_attempting.
  rewrite bool_decide_eq_true_2; [done|]. rewrite Hid. by apply list_elem_of_fmap_2.
Qed.

(** A pass without faults over few enough candidates leaves none out. *)
Lemma claims_all order now q k d url :
  ledger_ok (db q) →
  (length (omap (due_push (timeToString now) (db q)) order) ≤ 32)%nat →
  k ∈ order → due_push (timeToString now) (db q) k = Some (d, url) →
  DeliveryRow.message_id d ∈ claim_ids (claimDuePushes no_faults order now q).1.
Proof.
  intros Hok Hlen Hk Hd. pose proof (claimDuePushes_run no_faults order now q Hok) as Hrun.
  destruct (claimDuePushes no_faults order now q) as [out q'].
  destruct Hrun as (_ & t0 & cs & Ht0 & _ & Hall & _ & Hfull).
  destruct (due_push_Some _ _ _ _ _ Hd) as (_ & Hs & _).
  eapply (cf_all _ _ _ _ _ (Hfull eq_refl) eq_refl (mkClaimed (DeliveryRow.message_id d) url) k d).
  - rewrite (Hall eq_refl). unfold due_pushes. rewrite take_ge.
    + apply list_elem_of_fmap. exists (k.2, d, url). split; [done|].
      rewrite merge_sort_Permutation, list_elem_of_omap. exists k. by rewrite Hd.
    + rewrite length_fmap, merge_sort_Permutation. etransitivity; [|exact Hlen]. apply Nat.eq_le_incl.
      clear. induction order as [|k order IH]; [done|]. cbn.
      destruct (due_push _ _ k); cbn; by rewrite IH.
  - split_and!; [by eapply due_row_kept|done|done].
Qed.

(** C32: A due push is claimed by one caller at a time.  Whatever fails, a pass
    claims at most 32 deliveries, each once and each due, to an active push
    agent at the callback it registered; they are then attempted, so that no
    other pass, at any time, claims one of them; and a pass without faults
    claims all that are due, when they are no more than it takes. *)
Theorem claims_exclusive f order now q :
  ledger_ok (db q) →
  let '(out, q') := claimDuePushes f order now q in
  NoDup (claim_ids out) ∧ (length out ≤ 32)%nat ∧
  (∀ c, c ∈ out → ∃ k d, due_push (timeToString now) (db q) k = Some (d, callbackURL c) ∧
     DeliveryRow.message_id d = messageID c ∧ t_deliveries (db q') !! k = Some (set_status Attempting d)) ∧
  (∀ f2 order2 now2 c, c ∈ (claimDuePushes f2 order2 now2 q').1 → messageID c ∉ claim_ids out) ∧
  (f = no_faults → (length (omap (due_push (timeToString now) (db q)) order) ≤ 32)%nat →
   ∀ k d url, k ∈ order → due_push (timeToString now) (db q) k = Some (d, url) →
   DeliveryRow.message_id d ∈ claim_ids out).
Proof.
  intros Hok. pose proof (claimed_was_due f order now q Hok) as Hrun.
  pose proof (λ H : f = no_faults, claims_all order now q) as Hall.
  destruct (claimDuePushes f order now q) as [out q'] eqn:Eq. destruct Hrun as (Hok' & Hd & Hsub & Hone).
  split_and!; [done| |done| |].
  - apply sublist_length in Hsub. unfold due_pushes in Hsub. rewrite length_take in Hsub. lia.
  - intros f2 order2 now2 c2 Hc2 (c & Hid & Hc1)%list_elem_of_fmap.
    destruct (Hone c Hc1) as (k & d & _ & Hid' & Hk).
    pose proof (claimed_was_due f2 order2 now2 q' Hok') as Hrun2.
    destruct (claimDuePushes f2 order2 now2 q') as [out2 q2]. destruct Hrun2 as (_ & _ & _ & Hone2).
    destruct (Hone2 c2 Hc2) as (k2 & d2 & (Hk2 & Hs2 & _)%due_push_Some & Hid2 & _).
    assert (k2 = k) as ->. { eapply (lk_unique _ Hok'); [exact Hk2|exact Hk|]. cbn. congruence. }
    rewrite Hk in Hk2. by injection Hk2 as <-.
  - intros -> Hlen k d url Hk Hdue. pose proof (Hall eq_refl k d url Hok Hlen Hk Hdue) as Hin. by rewrite Eq in Hin.
Qed.

(** Bob becomes a push agent while Alice's request waits for him. *)
Definition register_push (id url : string) : RegisterAgentInput.t :=
  RegisterAgentInput.mk id ε [] [] ["chat"%stdpp] ε ε ε ε None None "push"%stdpp url 3600.

Definition sql_pushing : SQLiteStore :=
  (QRegisterAgent E0 no_faults (order_of (inner sql_requested)) (at_s 2) (λ q, q)
     (register_push bob "http://bob/push"%stdpp) sql_requested).1.

Lemma register_ledger_ok E f o now input q :
  ledger_ok (db q) → ledger_ok (db (QRegisterAgent E f o now (λ q, q) input q).1).
Proof.
  intros Hok. unfold QRegisterAgent. destruct (RegisterAgent E o now input (inner q)) as [s [out|e]]; [|done].
  pose proof (on_db_keeps _ _ f (set_inner s q) (saveAgentTo_keeps now Internal out) Hok) as [Hok' _ _ _].
  by destruct (on_db (saveAgentTo out) f (set_inner s q)).
Qed.

Lemma claims_exclusive_witness :
  (claimDuePushes no_faults [(bob, 0)] (at_s 3) sql_pushing).1
    = [mkClaimed (message_id 1) "http://bob/push"%stdpp] ∧
  message_id 1 ∉ claim_ids (claimDuePushes no_faults [(bob, 0)] (at_s 4)
    (claimDuePushes no_faults [(bob, 0)] (at_s 3) sql_pushing).2).1.
Proof.
  pose proof (claims_exclusive no_faults [(bob, 0)] (at_s 3) sql_pushing
    (register_ledger_ok E0 no_faults _ (at_s 2) _ _
       (send_ledger_ok E0 no_faults _ (at_s 1) request1 _ sql_registered_ok))) as H.
  assert ((claimDuePushes no_faults [(bob, 0)] (at_s 3) sql_pushing).1
    = [mkClaimed (message_id 1) "http://bob/push"%stdpp]) as Hout by by vm_compute.
  split; [exact Hout|]. destruct (claimDuePushes no_faults [(bob, 0)] (at_s 3) sql_pushing) as [out q'].
  cbn [fst snd] in *. subst out. destruct H as (_ & _ & _ & Hex & _).
  intros (c & Hc & Hin)%list_elem_of_fmap. apply (Hex _ _ _ c Hin). rewrite <-Hc. by left.
Defined.
