(* ===== verification/SqliteExamples.v ===== *)
(** * Runs of the SQLite store that lose something

    Concrete executions of the model in which the durable store does what the
    code does not mean to do: each is a run of the operations of [SqliteStore]
    and [Delivery] from the store of [SqliteProps]. *)
From stdpp Require Import gmap strings list.
From Stdlib Require Import ZArith Lia Ascii.
From S2P Require Import Prelude GoBase Json Types Config State Push Inbox Structure Sweep Conversations Agents Wakeup History Send Poll Lifecycle Queries Scenario Rfc3339 Sqlite Delivery SqliteStore SqliteProps.

Definition sql_send (now : Time) (input : SendMessageInput.t) (q : SQLiteStore)
    : SQLiteStore * result SQLError (Message.t * bool) :=
  (QSendMessage E0 no_faults (order_of (inner q)) now input q).1.

(** ** An expired receipt blocks its request id

    The window is over and memory has forgotten the send, but its row is there
    until the next prune: the insert of the new receipt fails, and so does the
    send. *)
Definition after_window : Time := at_s 1 + Config.IdempotencyWindow (cfg E0) + 2 * Second.

Definition sql_unpruned : SQLiteStore :=
  mkSQL (foldl (λ s id, (RegisterAgent E0 (order_of s) after_window (register id 3600) s).1)
           (inner sql_requested) [alice; bob]) (db sql_requested) ∅.

Example expired_receipt_blocks :
  (sql_send after_window request1 sql_unpruned).2
    = Err (EngineFailure (UniqueViolation "idempotency"%stdpp)) ∧
  send_duplicate E0 after_window (mkSendRequest alice bob "r-1"%stdpp "ping"%stdpp MessageTypeRequest 600)
    (inner sql_unpruned) = None.
Proof. split_and!; vm_compute; reflexivity. Qed.

(** ** Positions of a conversation are reused after a restart

    Two requests in one conversation; the first is rejected and pruned, the
    process restarts, a third request follows.  The list the process loaded has
    one entry, so the third is stored over the second. *)
Definition in_conversation (cid req : string) : SendMessageInput.t :=
  SendMessageInput.mk bob alice cid req ε "ping"%stdpp JNull [] 0 ε.

Definition conversation1 : string := "c-000001"%stdpp.

Definition sql_two : SQLiteStore :=
  let q := (sql_send (at_s 2) (in_conversation conversation1 "r-2"%stdpp) sql_requested).1 in
  (QAck E0 no_faults (order_of (inner q)) (at_s 3) (at_s 3)
     (AckInput.mk bob (message_id 1) "rejected"%stdpp ε) q).1.

Definition sql_third : SQLiteStore :=
  let now := at_s 4000 in
  let q := sql_started now sql_two in
  let q := mkSQL (foldl (λ s id, (RegisterAgent E0 (order_of s) now (register id 3600) s).1)
                    (inner q) [alice; bob]) (db q) ∅ in
  (sql_send (at_s 4001) (in_conversation conversation1 "r-3"%stdpp) q).1.

(** The identifiers stored, and those listed. *)
Example position_reused :
  elements (dom (t_messages (db sql_two))) = [message_id 1; message_id 2] ∧
  t_conversation_messages (db sql_two) !! (conversation1, 1) = Some (message_id 2) ∧
  is_Some (t_messages (db sql_third) !! message_id 2) ∧
  t_conversation_messages (db sql_third) !! (conversation1, 1) = Some (message_id 3) ∧
  size (t_conversation_messages (db sql_third)) = 1%nat.
Proof. split_and!; vm_compute; [reflexivity..|by eexists|reflexivity|reflexivity]. Qed.

(** ** Counters written late

    A conversation is created while another send runs: the counters it read are
    written after the send's own.  If the process ends before the next send,
    every later send draws an identifier that is taken, fails, and draws it
    again. *)
Definition new_conversation : CreateConversationInput.t :=
  CreateConversationInput.mk ε "plan"%stdpp [alice; bob] JNull alice.

Definition sql_stale : SQLiteStore :=
  (QCreateConversation E0 no_faults (order_of (inner sql_registered)) (at_s 1)
     (λ q, (sql_send (at_s 1) request1 q).1) new_conversation sql_registered).1.

Definition sql_wedged : SQLiteStore := sql_started (at_s 2) sql_stale.

Example stale_counters_wedge :
  nextMessageID (inner sql_stale) = 1 ∧ t_counters (db sql_stale) !! key_message = Some 0 ∧
  (sql_send (at_s 3) (in_conversation ε "r-2"%stdpp) sql_wedged).2
    = Err (EngineFailure (UniqueViolation "deliveries"%stdpp)) ∧
  (sql_send (at_s 4) (in_conversation ε "r-2"%stdpp)
     (sql_send (at_s 3) (in_conversation ε "r-2"%stdpp) sql_wedged).1).2
    = Err (EngineFailure (UniqueViolation "deliveries"%stdpp)).
Proof. split_and!; vm_compute; reflexivity. Qed.

(** ** A truncated read marks the upgrade as done

    The rows of the old database end early; the error is not looked at, the
    marker is written, and the pending message never gets its delivery. *)
Definition rows_cut : Faults := λ n, if bool_decide (n = 2%nat) then Some (RowsStop 0 "disk I/O error"%stdpp) else None.

Definition legacy_tables : Tables := with_messages (t_messages (db sql_requested)) emptyTables.

Definition upgraded (f : Faults) : Tables := (run_db (backfillLegacyDeliveryState E0 (at_s 2)) f legacy_tables).2.

Example truncated_upgrade :
  size (t_deliveries (upgraded no_faults)) = 1%nat ∧
  t_deliveries (upgraded rows_cut) = ∅ ∧ applied (upgraded rows_cut) = true ∧
  t_deliveries (run_db (backfillLegacyDeliveryState E0 (at_s 3)) no_faults (upgraded rows_cut)).2 = ∅.
Proof. split_and!; vm_compute; reflexivity. Qed.

(** ** Absent metadata comes back present *)
Example absent_build_comes_back :
  (Agent.Build <$> agents (inner sql_registered) !! alice) = Some None ∧
  (Agent.Build <$> agents (inner sql_restarted) !! alice) = Some (Some (BuildInfo.mk ε false)).
Proof. split; vm_compute; reflexivity. Qed.
