(* ===== verification/Background.v ===== *)
(** * The background loops of the SQLite store: [pruneLoop] and [deliveryLoop]

    A turn of a loop is a tick of its timer; the loops end when the store is
    closed.  A tick of the delivery loop claims what is due and hands it to the
    push workers, one claim after the other. *)
From stdpp Require Import gmap strings list sorting.
From Stdlib Require Import ZArith Lia Ascii.
From S2P Require Import Prelude GoBase Json Types Scope Config State Push Structure Send Scenario SendProps Rfc3339 Sqlite Delivery SqliteStore Ledger SqliteSystem SqliteProps SqliteReads.

Section background.
Context (E : Static).

(** The faults and the instants of one tick: of the pass over the deliveries,
    and of handing over each claim. *)
Record DeliveryTick := mkDeliveryTick {
  dt_faults : Faults;
  dt_order : list (string * Z);
  dt_now : Time;
  dt_read : claimedPush → Faults;
  dt_receipt : claimedPush → Faults;
  dt_at : claimedPush → Time }.

Definition hand_over (k : DeliveryTick) (c : claimedPush) (q : SQLiteStore) : SQLiteStore :=
  enqueueClaimedPush E (dt_read k c) (dt_receipt k c) (dt_at k c) c q.

Definition delivery_tick (k : DeliveryTick) (q : SQLiteStore) : SQLiteStore :=
  let '(claims, q) := claimDuePushes (dt_faults k) (dt_order k) (dt_now k) q in
  foldl (λ q c, hand_over k c q) q claims.

(** What the select receives: the end, or a tick. *)
Fixpoint deliveryLoop (turns : list (option DeliveryTick)) (q : SQLiteStore) : SQLiteStore :=
  match turns with
  | [] | None :: _ => q
  | Some k :: turns => deliveryLoop turns (delivery_tick k q)
  end.

Definition prune_tick (k : Faults * Time) (q : SQLiteStore) : SQLiteStore := (on_db (pruneDB E k.2) k.1 q).2.

Fixpoint pruneLoop (turns : list (option (Faults * Time))) (q : SQLiteStore) : SQLiteStore :=
  match turns with
  | [] | None :: _ => q
  | Some k :: turns => pruneLoop turns (prune_tick k q)
  end.

(** ** One claim *)

(** What became of a claim: a job for its callback is queued; or its delivery is
    to be tried again later, or has failed at its deadline; or the failure to
    write that down is kept for the health report. *)
Definition queued (c : claimedPush) (q : SQLiteStore) : Prop :=
  ∃ job, job ∈ pushQueue (inner q) ∧ PushJob.url job = callbackURL c ∧ PushJob.receipt job = Some (messageID c).

Definition released (at_ : Time) (c : claimedPush) (q : SQLiteStore) : Prop :=
  ∀ k d, t_deliveries (db q) !! k = Some d → DeliveryRow.message_id d = messageID c →
    DeliveryRow.status d = Pending ∧
      DeliveryRow.next_attempt_at d = timeToString (Add at_ (pushCycleBackoff E 0)) ∨
    DeliveryRow.status d = Failed ∧ text_le (DeliveryRow.expires_at d) (timeToString at_) = true.

Definition noted (c : claimedPush) (q : SQLiteStore) : Prop := is_Some (deliveryPersistErrors q !! messageID c).

Definition settled (k : DeliveryTick) (c : claimedPush) (q : SQLiteStore) : Prop :=
  queued c q ∨ released (dt_at k c) c q ∨ noted c q.

Definition held (c : claimedPush) (t : Tables) : Prop :=
  ∀ k d, t_deliveries t !! k = Some d → DeliveryRow.message_id d = messageID c → DeliveryRow.status d = Attempting.

(** A failure that is recorded, or cannot be. *)
Inductive recorded (at_ : Time) (c : claimedPush) (q : SQLiteStore) : SQLiteStore → Prop :=
| recorded_row failure :
    recorded at_ c q (mkSQL (inner q)
      (push_failed (messageID c) 0 failure (timeToString at_) (timeToString (Add at_ (pushCycleBackoff E 0))) (db q))
      (delete (messageID c) (deliveryPersistErrors q)))
| recorded_error e : recorded at_ c q (mkSQL (inner q) (db q) (<[messageID c := e]> (deliveryPersistErrors q))).

Lemma recordPushFailure_recorded f at_ c failure q :
  recorded at_ c q (recordPushFailure E f at_ (messageID c) 0 failure q).
Proof.
  destruct q as [s t errs]. unfold recordPushFailure, on_db, run_db, exec, call. cbv zeta. cbn [fst snd].
  destruct (f 0%nat) as [[e|n e]|]; cbn.
  - apply (recorded_error at_ c (mkSQL s t errs)).
  - apply (recorded_error at_ c (mkSQL s t errs)).
  - apply (recorded_row at_ c (mkSQL s t errs)).
Qed.

Lemma hand_over_cases k c q :
  (∃ job, pushQueue (inner (hand_over k c q)) = pushQueue (inner q) ++ [job] ∧
     PushJob.url job = callbackURL c ∧ PushJob.receipt job = Some (messageID c) ∧
     db (hand_over k c q) = db q ∧ deliveryPersistErrors (hand_over k c q) = deliveryPersistErrors q) ∨
  (∃ q1, pushQueue (inner q1) = pushQueue (inner q) ∧ db q1 = db q ∧
     deliveryPersistErrors q1 = deliveryPersistErrors q ∧ recorded (dt_at k c) c q1 (hand_over k c q)).
Proof.
  unfold hand_over, enqueueClaimedPush.
  assert (∃ r, on_db (select_message (messageID c)) (dt_read k c) q = (r, q)) as [r ->].
  { unfold on_db, run_db, select_message, query_row, call. cbn. destruct q as [s t errs].
    destruct (dt_read k c 0%nat) as [[]|]; [by eexists..|]. cbn. by destruct (scanSQLiteMessage _ <$> _); eexists. }
  destruct r as [m|e]; [|right; exists q; split_and!; [done..|apply recordPushFailure_recorded]].
  set (s := offer_in_memory _ _ (inner q)).
  assert (pushQueue s = pushQueue (inner q)) as Hs by (unfold s, offer_in_memory; by destruct (messages _ !! _)).
  match goal with |- context [enqueuePushJobLocked E ?j s] => set (job := j) end.
  destruct (enqueuePushJobLocked_cases E job s) as [(Hc & ->)|[(Hc & Hl & ->)|(Hc & Hl & s' & -> & _ & Hq & _ & _)]].
  - right. match goal with |- context [recordPushFailure E _ _ _ _ _ ?q'] => exists q' end.
    split_and!; [done|done|done|]. apply recordPushFailure_recorded.
  - left. exists job. cbn. by rewrite Hs.
  - right. exists (set_inner s' q). split_and!; [cbn; congruence|done|done|]. apply recordPushFailure_recorded.
Qed.

(** A delivery that is held is released by the record of its failure. *)
Lemma recorded_settled k c q q1 q' :
  deliveryPersistErrors q1 = deliveryPersistErrors q → db q1 = db q → held c (db q) →
  recorded (dt_at k c) c q1 q' → settled k c q'.
Proof.
  intros _ Hdb Hheld [failure|e]; right; [left|right].
  - intros j d. cbn. rewrite Hdb, map_lookup_imap. destruct (t_deliveries (db q) !! j) as [d0|] eqn:Hd0; [|done].
    cbn. intros [= <-]. unfold attempting. intros Hid.
    assert (DeliveryRow.message_id d0 = messageID c) as Hid0 by (revert Hid; by case_match).
    rewrite Hid0, (Hheld _ _ Hd0 Hid0), !bool_decide_eq_true_2 by done. cbn.
    destruct (text_le _ _) eqn:Ht; [right|left]; done.
  - unfold noted. cbn. by rewrite lookup_insert_eq.
Qed.

(** Another claim is left alone. *)
Lemma recorded_other at_ c c' q1 q' k d :
  messageID c' ≠ messageID c → recorded at_ c q1 q' → t_deliveries (db q') !! k = Some d →
  DeliveryRow.message_id d = messageID c' → t_deliveries (db q1) !! k = Some d.
Proof.
  intros Hne [failure|e]; cbn; [|done]. rewrite map_lookup_imap.
  destruct (t_deliveries (db q1) !! k) as [d0|] eqn:Hd0; [|done]. cbn. intros [= <-] Hid. f_equal.
  assert (attempting (messageID c) d0 = false) as ->; [|done].
  apply andb_false_iff. left. apply bool_decide_eq_false. intros Heq. destruct Hne. rewrite <-Hid, <-Heq.
  case (attempting (DeliveryRow.message_id d0) d0); reflexivity.
Qed.

Lemma hand_over_other k c c' q :
  messageID c' ≠ messageID c →
  (held c' (db q) → held c' (db (hand_over k c q))) ∧ (settled k c' q → settled k c' (hand_over k c q)).
Proof.
  intros Hne. destruct (hand_over_cases k c q) as [(job & Hq & _ & _ & Hdb & He)|(q1 & Hq & Hdb & He & Hr)].
  - unfold held, settled, queued, released, noted. rewrite Hdb, He, Hq. split; [done|].
    intros [(j & Hj & Hj')|?]; [left|by right]. exists j. split; [by apply elem_of_app; left|done].
  - assert (∀ j d, t_deliveries (db (hand_over k c q)) !! j = Some d → DeliveryRow.message_id d = messageID c' →
      t_deliveries (db q) !! j = Some d) as Hrows.
    { intros j d Hd Hid. rewrite <-Hdb. by eapply recorded_other. }
    split; [intros Hh j d Hd Hid; by eapply Hh; [apply Hrows|]|].
    intros [(j & Hj & Hj')|[Hrel|Hn]].
    + left. exists j. split; [|done]. rewrite <-Hq in Hj. by destruct Hr.
    + right. left. intros j d Hd Hid. by eapply Hrel; [apply Hrows|].
    + right. right. unfold noted in *. destruct Hr; cbn; rewrite He.
      * by rewrite lookup_delete_ne.
      * by rewrite lookup_insert_ne.
Qed.

Lemma hand_over_settled k c q : held c (db q) → settled k c (hand_over k c q).
Proof.
  intros Hh. destruct (hand_over_cases k c q) as [(job & Hq & Hu & Hi & _)|(q1 & _ & Hdb & He & Hr)].
  - left. exists job. rewrite Hq, elem_of_app, list_elem_of_singleton. auto.
  - by apply (recorded_settled k c q q1).
Qed.

Lemma hand_over_all k claims : ∀ q,
  NoDup (claim_ids claims) → (∀ c, c ∈ claims → held c (db q)) →
  (∀ c, c ∈ claims → settled k c (foldl (λ q c, hand_over k c q) q claims)) ∧
  ∀ c, messageID c ∉ claim_ids claims → settled k c q → settled k c (foldl (λ q c, hand_over k c q) q claims).
Proof.
  unfold claim_ids. induction claims as [|c claims IH]; intros q Hnd Hh; cbn [foldl].
  { split; [intros c Hc; by apply elem_of_nil in Hc|done]. }
  rewrite fmap_cons in Hnd |- *. apply NoDup_cons in Hnd as [Hc Hnd].
  destruct (IH (hand_over k c q) Hnd) as [Hall Hother].
  { intros c' Hc'. apply hand_over_other; [|apply Hh; by right]. intros Heq. apply Hc. rewrite <-Heq.
    by apply list_elem_of_fmap_2. }
  split.
  - intros c' [->|Hc']%elem_of_cons; [|by apply Hall]. apply Hother; [done|]. apply hand_over_settled, Hh. by left.
  - intros c' [Hne Hn]%not_elem_of_cons Hs. apply Hother; [done|]. by apply hand_over_other.
Qed.

(** C36: No claim of a tick of the delivery loop is lost, whatever fails: each is
    queued for the push workers, or its delivery is due again after the backoff or
    failed at its deadline, or the failure to record that is kept for the health
    report.  A tick without failures of the pass claims every delivery that is
    due, when they are no more than 32. *)
Theorem tick_settles k q :
  ledger_ok (db q) →
  let '(claims, _) := claimDuePushes (dt_faults k) (dt_order k) (dt_now k) q in
  (∀ c, c ∈ claims → settled k c (delivery_tick k q)) ∧
  (dt_faults k = no_faults →
   (length (omap (due_push (timeToString (dt_now k)) (db q)) (dt_order k)) ≤ 32)%nat →
   ∀ key d url, key ∈ dt_order k → due_push (timeToString (dt_now k)) (db q) key = Some (d, url) →
   ∃ c, c ∈ claims ∧ messageID c = DeliveryRow.message_id d).
Proof.
  intros Hok. unfold delivery_tick. pose proof (claimed_was_due (dt_faults k) (dt_order k) (dt_now k) q Hok) as Hrun.
  pose proof (claims_all (dt_order k) (dt_now k) q) as Hfull.
  destruct (claimDuePushes (dt_faults k) (dt_order k) (dt_now k) q) as [claims q'] eqn:Eq.
  destruct Hrun as (Hok' & Hnd & _ & Hdue). split.
  - apply hand_over_all; [done|]. intros c Hc. destruct (Hdue c Hc) as (key & d & _ & Hid & Hrow).
    intros key' d' Hd' Hid'. assert (key' = key) as ->; [|by simplify_eq].
    by eapply (lk_unique _ Hok'); [exact Hd'|exact Hrow|cbn; congruence].
  - intros Hf Hlen key d url Hkey Hdp. rewrite Hf in Eq. specialize (Hfull key d url Hok Hlen Hkey Hdp).
    rewrite Eq in Hfull. unfold claim_ids in Hfull. apply list_elem_of_fmap in Hfull as (c & -> & Hc). by exists c.
Qed.

(** ** The loops as runs of the store *)

Lemma run_snoc ls p p' p'' l : sql_run E ls p p' → sql_step E l p' p'' → sql_run E (ls ++ [l]) p p''.
Proof. induction 1 as [|l' ls p p1 p2 Hs Hr IH]; intros Hl; cbn; eapply run_cons; eauto using run_nil. Qed.

Lemma run_app ls ls' p p' p'' : sql_run E ls p p' → sql_run E ls' p' p'' → sql_run E (ls ++ ls') p p''.
Proof. induction 1 as [|l ls p p1 p2 Hs Hr IH]; intros Hl; cbn; [done|]. eapply run_cons; eauto. Qed.

(** Time passes. *)
Lemma step_wait t now q : t ≤ now → sql_step E Internal (t, q) (now, q).
Proof. intros Ht. destruct q as [s tb errs]. exact (sq_memory E t now (mkSQL s tb errs) s errs Ht). Qed.

Definition quietly (p p' : Time * SQLiteStore) : Prop := ∃ ls, sql_run E ls p p' ∧ Forall (λ l, l = Internal) ls.

Lemma quietly_step p p' : sql_step E Internal p p' → quietly p p'.
Proof. intros Hs. exists [Internal]. split; [eapply run_cons; [done|apply run_nil]|by repeat constructor]. Qed.

Lemma quietly_trans p p' p'' : quietly p p' → quietly p' p'' → quietly p p''.
Proof.
  intros (ls & Hr & Hl) (ls' & Hr' & Hl'). exists (ls ++ ls'). split; [by eapply run_app|by apply Forall_app].
Qed.

(** The instants of a tick, one after the other between two others. *)
Definition timed (t now : Time) (k : DeliveryTick) : Prop :=
  t ≤ dt_now k ∧ ∀ q, let claims := (claimDuePushes (dt_faults k) (dt_order k) (dt_now k) q).1 in
    StronglySorted (λ c c', dt_at k c ≤ dt_at k c') claims ∧
    Forall (λ c, dt_now k ≤ dt_at k c ≤ now) claims ∧ dt_now k ≤ now.

Lemma hand_over_quietly k now claims : ∀ t q,
  StronglySorted (λ c c', dt_at k c ≤ dt_at k c') claims → Forall (λ c, t ≤ dt_at k c ≤ now) claims → t ≤ now →
  quietly (t, q) (now, foldl (λ q c, hand_over k c q) q claims).
Proof.
  induction claims as [|c claims IH]; intros t q Hs Ht Hle; cbn [foldl]; [by apply quietly_step, step_wait|].
  apply StronglySorted_inv in Hs as [Hs Hc]. apply Forall_cons in Ht as [[Hlo Hhi] Ht].
  eapply quietly_trans; [apply quietly_step, (sq_enqueue E t (dt_at k c)); exact Hlo|]. apply IH; [done| |done].
  rewrite Forall_forall in Hc, Ht |- *. intros c' Hc'. split; [by apply Hc|by apply Ht].
Qed.

Lemma delivery_tick_quietly t now k q : timed t now k → quietly (t, q) (now, delivery_tick k q).
Proof.
  intros [Ht Hall]. specialize (Hall q). unfold delivery_tick. cbv zeta in Hall.
  pose proof (sq_claim E t (dt_now k) (dt_faults k) (dt_order k) q Ht) as Hclaim.
  destruct (claimDuePushes _ _ _ q) as [claims q']. destruct Hall as (Hs & Hf & Hle).
  eapply quietly_trans; [apply quietly_step, Hclaim|]. by apply hand_over_quietly.
Qed.

(** The ticks follow one another. *)
Fixpoint timed_turns (t : Time) (turns : list (option DeliveryTick)) (now : Time) : Prop :=
  match turns with
  | [] | None :: _ => t ≤ now
  | Some k :: turns => ∃ t', timed t t' k ∧ timed_turns t' turns now
  end.

(** The loops are runs of the store in which nothing is acknowledged: what holds
    of every run, such as the invariant of the ledger, holds while they work. *)
Lemma deliveryLoop_quietly turns : ∀ t now q, timed_turns t turns now → quietly (t, q) (now, deliveryLoop turns q).
Proof.
  induction turns as [|[k|] turns IH]; intros t now q Ht; cbn in Ht |- *; [by apply quietly_step, step_wait| |by apply quietly_step, step_wait].
  destruct Ht as (t' & Hk & Ht). eapply quietly_trans; [by apply delivery_tick_quietly|by apply IH].
Qed.

Lemma pruneLoop_quietly turns : ∀ t now q,
  StronglySorted Z.le (t :: (omap (fmap snd) turns ++ [now])) → quietly (t, q) (now, pruneLoop turns q).
Proof.
  induction turns as [|[[f at_]|] turns IH]; intros t now q Ht.
  - apply quietly_step, step_wait. apply StronglySorted_inv in Ht as [_ Ht]. by apply Forall_cons in Ht as [? _].
  - cbn in Ht |- *. apply StronglySorted_inv in Ht as [Hs Ht]. apply Forall_cons in Ht as [Hle _].
    eapply quietly_trans; [|by apply IH]. apply quietly_step. exact (sq_prune E t at_ f q Hle).
  - apply quietly_step, step_wait. cbn in Ht. apply StronglySorted_inv in Ht as [_ Ht].
    apply Forall_app in Ht as [_ Ht]. by apply Forall_cons in Ht as [? _].
Qed.
End background.

(** *** Alice's request is pushed to Bob *)

Definition calm_tick (now : Time) : DeliveryTick :=
  mkDeliveryTick no_faults [(bob, 0)] now (λ _, no_faults) (λ _, no_faults) (λ _, now).

Lemma tick_settles_witness :
  ledger_ok (db sql_pushing) ∧
  settled E0 (calm_tick (at_s 3)) (mkClaimed (message_id 1) "http://bob/push"%stdpp)
    (delivery_tick E0 (calm_tick (at_s 3)) sql_pushing) ∧
  length (pushQueue (inner (delivery_tick E0 (calm_tick (at_s 3)) sql_pushing))) = 1%nat.
Proof.
  assert (ledger_ok (db sql_pushing)) as Hok.
  { exact (register_ledger_ok E0 no_faults _ (at_s 2) _ _ (send_ledger_ok E0 no_faults _ (at_s 1) request1 _ sql_registered_ok)). }
  split; [exact Hok|]. split; [|vm_compute; reflexivity].
  pose proof (tick_settles E0 (calm_tick (at_s 3)) sql_pushing Hok) as H.
  assert ((claimDuePushes (dt_faults (calm_tick (at_s 3))) (dt_order (calm_tick (at_s 3))) (dt_now (calm_tick (at_s 3)))
    sql_pushing).1 = [mkClaimed (message_id 1) "http://bob/push"%stdpp]) as Hout by (vm_compute; reflexivity).
  destruct (claimDuePushes _ _ _ sql_pushing) as [claims q']. cbn [fst] in Hout. subst claims.
  apply (proj1 H). by left.
Defined.

(** A claim that can neither be handed over nor recorded as failed stays
    claimed: no later tick takes it up, until the store is opened again. *)
Definition failing_tick (now : Time) : DeliveryTick :=
  let broken : Faults := λ _, Some (CallFails "disk I/O error"%stdpp) in
  mkDeliveryTick no_faults [(bob, 0)] now (λ _, broken) (λ _, broken) (λ _, now).

Example claim_stranded :
  let q := delivery_tick E0 (failing_tick (at_s 3)) sql_pushing in
  DeliveryRow.status <$> t_deliveries (db q) !! (bob, 0) = Some Attempting ∧
  delivery_tick E0 (calm_tick (at_s 30)) q = q ∧
  is_Some (deliveryPersistErrors q !! message_id 1).
Proof. vm_compute. split_and!; [reflexivity|reflexivity|by eexists]. Qed.
