(* ===== verification/PollEnds.v ===== *)
(** * Long polls end

    A poll waits in a loop that any number of wake-ups may turn.  Here: once a
    turn reads a clock that is past the deadline, the loop has returned, whatever
    the wake-ups were and whatever follows; and no turn waits beyond the deadline.
    Wake-ups are a sequence without end, of which the loop uses a prefix. *)
From stdpp Require Import gmap strings list.
From Stdlib Require Import ZArith Lia Ascii.
From S2P Require Import Prelude GoBase Json Types Config Auth Ring State Inbox Observe Structure Sweep Conversations Agents Send Poll System Scenario Sqlite Delivery SqliteStore.

(** ** Loops *)

Section loop.
(** [turn w s] is what a wake-up and the section after it do. *)
Context {S W A : Type} (turn : W → S → S * Outcome A).

Fixpoint turns (w : W) (wakes : list W) (s : S) : S * A :=
  let '(s, out) := turn w s in
  match out with
  | Returned a => (s, a)
  | Waits _ _ on_timeout =>
      match wakes with [] => (s, on_timeout) | w :: wakes => turns w wakes s end
  end.

(** The loop has returned by itself, not because its timer fired. *)
Fixpoint returned (w : W) (wakes : list W) (s : S) : bool :=
  let '(s, out) := turn w s in
  match out with
  | Returned _ => true
  | Waits _ _ _ => match wakes with [] => false | w :: wakes => returned w wakes s end
  end.

Definition never_waits (w : W) : Prop := ∀ s, ∃ s' a, turn w s = (s', Returned a).

(** A turn that waits does so for some time and not beyond the deadline. *)
Definition timely (clock : W → Time) (deadline : Time) : Prop := ∀ w s s' ch d a,
  turn w s = (s', Waits ch d a) → 0 < d ∧ clock w + d ≤ deadline.

Lemma timely_late clock deadline w : timely clock deadline → deadline ≤ clock w → never_waits w.
Proof.
  intros Ht Hl s. destruct (turn w s) as [s' [a|ch d a]] eqn:Et; [eauto|]. apply Ht in Et. lia.
Qed.

Lemma returned_stays w wakes s more :
  returned w wakes s = true → returned w (wakes ++ more) s = true ∧ turns w (wakes ++ more) s = turns w wakes s.
Proof.
  revert w s. induction wakes as [|w' wakes IH]; intros w s; cbn [returned turns app].
  - destruct more as [|m more]; [done|]. cbn [returned turns].
    destruct (turn w s) as [s1 [a|ch d a]]; done.
  - destruct (turn w s) as [s1 [a|ch d a]]; [done|]. apply IH.
Qed.

Lemma never_waits_returned w wakes s : (∃ x, x ∈ w :: wakes ∧ never_waits x) → returned w wakes s = true.
Proof.
  revert w s. induction wakes as [|w' wakes IH]; intros w s (x & Hx & Hn); cbn [returned].
  - apply list_elem_of_singleton in Hx as ->. destruct (Hn s) as (s' & a & ->). done.
  - destruct (turn w s) as [s1 [a|ch d a]] eqn:Et; [done|]. apply IH. exists x. split; [|done].
    apply elem_of_cons in Hx as [->|Hx]; [|done]. destruct (Hn s) as (s' & a' & Hn'). congruence.
Qed.

(** The first wake-ups of a sequence. *)
Definition upto (n : nat) (wakes : nat → W) : list W := wakes <$> seq 0 n.

Lemma upto_add n k wakes : upto (n + k) wakes = upto n wakes ++ (wakes <$> seq n k).
Proof. unfold upto. by rewrite seq_app, fmap_app. Qed.

Lemma turns_end w wakes n s :
  never_waits (wakes n) → ∀ m, (n < m)%nat →
  returned w (upto m wakes) s = true ∧ turns w (upto m wakes) s = turns w (upto (1 + n) wakes) s.
Proof.
  intros Hn m Hm. assert (returned w (upto (1 + n) wakes) s = true) as Hr.
  { apply never_waits_returned. exists (wakes n). split; [|done]. right.
    apply list_elem_of_fmap. exists n. split; [done|]. apply elem_of_seq. lia. }
  replace m with (1 + n + (m - (1 + n)))%nat by lia. rewrite upto_add. by apply returned_stays.
Qed.
End loop.

(** A loop, as a function of its wake-ups, is over once a turn reads a clock at the
    deadline: what follows does not matter. *)
Definition ends_by {W R} (clock : W → Time) (deadline : Time) (loop : list W → R) : Prop := ∀ wakes n m,
  deadline ≤ clock (wakes n) → (n < m)%nat → loop (upto m wakes) = loop (upto (1 + n) wakes).

Lemma timely_ends {S W A} (turn : W → S → S * Outcome A) clock deadline loop w s :
  (∀ wakes, loop wakes = turns turn w wakes s) → timely turn clock deadline → ends_by clock deadline loop.
Proof.
  intros Hl Ht wakes n m Hn Hm. rewrite !Hl.
  apply (turns_end turn w wakes n s); [|done]. by eapply timely_late.
Qed.

(** ** The three loops of the program *)

Definition wake_clock (w : Wake) : Time := at_wait (w_reading w).
Definition round_clock (w : (SQLiteStore → SQLiteStore) * Round) : Time := r_wait w.2.

Definition memory_turn {A} (section : Order → Reading → Store → Store * Outcome A) (w : Wake) (s : Store)
    : Store * Outcome A := section (w_order w) (w_reading w) (w_env w s).

Lemma wait_loop_turns {A} (section : Order → Reading → Store → Store * Outcome A) wakes : ∀ o r s,
  wait_loop section o r wakes s = turns (memory_turn section) (mkWake id o r) wakes s.
Proof.
  induction wakes as [|w wakes IH]; intros o r s; cbn [wait_loop turns]; unfold memory_turn at 1; cbn [w_order w_reading w_env];
    unfold id; destruct (section o r s) as [s1 [a|ch d a]]; try done.
  rewrite IH. destruct wakes; reflexivity.
Qed.

Section ends.
Context (E : Static).

Definition durable_turn (agentID : string) (input : PollInboxInput.t) (deadline : Time)
    (w : (SQLiteStore → SQLiteStore) * Round) (q : SQLiteStore)
    : SQLiteStore * Outcome (result SQLError (list InboxEvent.t * Z)) :=
  durable_round E agentID input deadline w.2 (w.1 q).

Lemma durable_loop_turns agentID input deadline wakes : ∀ r q,
  durable_loop E agentID input deadline r wakes q = turns (durable_turn agentID input deadline) (id, r) wakes q.
Proof.
  induction wakes as [|[env r'] wakes IH]; intros r q; cbn [durable_loop turns]; unfold durable_turn at 1; cbn [fst snd];
    unfold id; destruct (durable_round _ _ _ _ r q) as [q1 [a|ch d a]]; try done.
  rewrite IH. destruct wakes; reflexivity.
Qed.

Lemma waits_remaining deadline now d : (Sub deadline now <=? 0) = false → d = Sub deadline now → 0 < d ∧ now + d ≤ deadline.
Proof. unfold Sub, min_int64, max_int64. intros H%Z.leb_gt ->. lia. Qed.

Lemma poll_timely advance agentID input deadline :
  timely (memory_turn (poll_section E advance agentID input deadline)) wake_clock deadline.
Proof.
  intros w s s' ch d a. unfold memory_turn, poll_section. cbv zeta.
  destruct (agents _ !! agentID) as [ag|]; [|done]. destruct (negb _); [done|].
  destruct (authorizeAgentForName _ _ _); [done|].
  destruct (read_inbox _ _ _ _ _) as [s1 [[c [[out next]|]]|e]]; [done| |done].
  destruct (clamp_wait _ _ =? 0); [done|]. destruct (_ <=? 0) eqn:Ed; [done|].
  destruct (inboxNotifyChanLocked _ _). intros [= _ _ <- _]. by apply waits_remaining.
Qed.

Lemma observe_timely afterID filter wait deadline :
  timely (memory_turn (observe_section E afterID filter wait deadline)) wake_clock deadline.
Proof.
  intros w s s' ch d a. unfold memory_turn, observe_section. cbv zeta.
  destruct (observe_scan _ _ _ _) as [out last]. destruct (0 <? length out)%nat; [done|].
  destruct (wait =? 0); [done|]. destruct (_ <=? 0) eqn:Ed; [done|]. intros [= _ _ <- _]. by apply waits_remaining.
Qed.

Lemma durable_timely agentID input deadline : timely (durable_turn agentID input deadline) round_clock deadline.
Proof.
  intros w q q' ch d a. unfold durable_turn, durable_round.
  destruct (poll_gate _ _ _ _ _) as [s [ch'|e]]; [|done].
  destruct (readDurableInbox _ _ _ _ _ _ _ _ _) as [q1 [[events cursor]|e]]; [|done].
  destruct (_ || _); [done|]. destruct (_ <=? 0) eqn:Ed; [done|]. intros [= _ _ <- _]. by apply waits_remaining.
Qed.

(** C14: Every long poll ends: under any sequence of wake-ups, of the in-memory store,
    of the event stream and of the SQLite store alike, once the clock of one turn
    is at the deadline the call has returned, with the same answer and state
    however many wake-ups would follow; and the deadline is at most the
    configured wait away. *)
Theorem polls_end advance started o r input filter afterID wait round s q :
  let deadline wait := Add started (clamp_wait E wait) in
  ends_by wake_clock (deadline (PollInboxInput.Wait input))
    (λ wakes, pollInbox E advance started o r wakes input s) ∧
  ends_by wake_clock (deadline wait) (λ wakes, ObserveSince E started o r wakes afterID filter wait s) ∧
  ends_by round_clock (deadline (PollInboxInput.Wait input))
    (λ wakes, pollDurableInbox E started round wakes input q) ∧
  deadline wait ≤ started + Z.max 0 (Config.InboxWaitMax (cfg E)).
Proof.
  cbv zeta. split_and!.
  - unfold pollInbox. destruct (poll_request E input) as [agentID|e]; [|done].
    eapply timely_ends; [|apply poll_timely]. intros wakes. apply wait_loop_turns.
  - eapply timely_ends; [|apply observe_timely]. intros wakes. apply wait_loop_turns.
  - unfold pollDurableInbox. destruct (poll_request E input) as [agentID|e]; [|done].
    eapply timely_ends; [|apply durable_timely]. intros wakes. apply durable_loop_turns.
  - unfold clamp_wait, Add. cbv zeta. repeat case_bool; prop_bool; lia.
Qed.
End ends.
