(* ===== verification/Migrate.v ===== *)
(** * From the snapshot file to SQLite: [pkg/bus/migrate.go]

    The import of a decoded snapshot into a fresh database, one transaction over
    the tables of [Sqlite]; and the exchange of files around it.  The counts of
    imported rows only reach the log and are left out. *)
From stdpp Require Import gmap strings list.
From Stdlib Require Import ZArith Lia Ascii.
From S2P Require Import Prelude GoBase Json Types Config Ring State Inbox Sweep Send Persistent Rfc3339 Sqlite Delivery.

(** The orders the maps of the snapshot are ranged over. *)
Record ImportOrder := mkImportOrder {
  io_agents : list string;
  io_secrets : list string;
  io_conversations : list string;
  io_messages : list string;
  io_links : list string;
  io_inboxes : list string;
  io_bases : list string;
  io_receipts : list string }.

(** [for k, v := range m { ... }] *)
Definition for_keys {A} (m : gmap string A) (body : string → A → Db ()) (order : list string) : Db () :=
  for_each (λ k, match m !! k with Some v => body k v | None => mret () end) order.

(** [UPDATE agents SET secret = ? WHERE agent_id = ?]; no row, no change. *)
Definition import_secret (agentID secret : string) : Db () := exec (λ t,
  with_agents (alter (set_secret secret) agentID (t_agents t)) t).

(** The links of one conversation, by position. *)
Definition import_links (cid : string) (mids : list string) : Db () :=
  for_each (λ p : nat * string, saveConversationMessageTo cid p.2 (Z.of_nat p.1)) (imap pair mids).

(** [INSERT INTO delivery_cursors], without a conflict clause. *)
Definition insert_new_cursor (agentID : string) (c : CursorRow.t) : Db () := call (λ t,
  if bool_decide (is_Some (t_delivery_cursors t !! agentID)) then Err (UniqueViolation "delivery_cursors"%stdpp)
  else Ok ((), with_delivery_cursors (<[agentID := c]> (t_delivery_cursors t)) t)).

(** Events of messages that are gone, and of requests the agent has taken up,
    are not imported. *)
Definition deliverable (st : PersistentState.t) (e : InboxEvent.t) : bool :=
  match PersistentState.Messages st !! InboxEvent.MessageID e with
  | None => false
  | Some pm =>
      let m := toMessage pm in
      negb (bool_decide (Message.Typ m = MessageTypeRequest)
            && (bool_decide (Message.State m = StateExecuting) || isTerminal (Message.State m)))
  end.

Definition deliverables (st : PersistentState.t) (inbox : list InboxEvent.t) : list InboxEvent.t :=
  filter (λ e, deliverable st e = true) inbox.

Definition import_expiry (c : Config.t) (m : Message.t) : Time :=
  let defaultTTL := if Config.DefaultMessageTTL c <=? 0 then 600 * Second else Config.DefaultMessageTTL c in
  let expiresAt := if IsZero (Message.TTLExpiresAt m) then Add (Message.CreatedAt m) defaultTTL
                   else Message.TTLExpiresAt m in
  if negb (IsZero (Message.GraceUntil m)) && Before (Message.GraceUntil m) expiresAt
  then Message.GraceUntil m else expiresAt.

Definition import_row (c : Config.t) (id : string) (m : Message.t) : DeliveryRow.t :=
  DeliveryRow.mk id Pending (timeToString (Message.CreatedAt m)) 0 ε (timeToString (import_expiry c m)) ε.

Definition import_delivery (c : Config.t) (st : PersistentState.t) (agentID : string) (base : Z)
    (p : nat * InboxEvent.t) : Db () :=
  match PersistentState.Messages st !! InboxEvent.MessageID p.2 with
  | None => mret ()
  | Some pm => insert_delivery agentID (base + Z.of_nat p.1)
                 (import_row c (InboxEvent.MessageID p.2) (toMessage pm))
  end.

(** A missing base is zero. *)
Definition snapshot_base (st : PersistentState.t) (agentID : string) : Z :=
  default 0 (PersistentState.InboxBase st !! agentID).

Definition import_inbox (c : Config.t) (st : PersistentState.t) (agentID : string)
    (inbox : list InboxEvent.t) : Db () :=
  let base := snapshot_base st agentID in
  let events := deliverables st inbox in
  insert_new_cursor agentID (CursorRow.mk (base + Z.of_nat (length events)) base) ;;
  for_each (import_delivery c st agentID base) (imap pair events).

(** A base without an inbox. *)
Definition import_base (st : PersistentState.t) (agentID : string) (base : Z) : Db () :=
  match PersistentState.Inboxes st !! agentID with
  | Some _ => mret ()
  | None => insert_new_cursor agentID (CursorRow.mk base base)
  end.

(** Keys that do not have three parts are dropped. *)
Definition import_receipt (c : Config.t) (key : string) (entry : IdempotencyEntry.t) : Db () :=
  let window := if Config.IdempotencyWindow c <=? 0 then 24 * Hour else Config.IdempotencyWindow c in
  match Split key "031"%char with
  | [from; to; requestID] =>
      insert_receipt (from, to, requestID)
        (ReceiptRow.mk (IdempotencyEntry.MessageID entry) (timeToString (IdempotencyEntry.CreatedAt entry))
           (timeToString (Add (IdempotencyEntry.CreatedAt entry) window)))
  | _ => mret ()
  end.

Definition import_marker (appliedAt : Time) : Db () := call (λ t,
  if bool_decide (is_Some (t_schema_migrations t !! durableDeliveryBackfill))
  then Err (UniqueViolation "schema_migrations"%stdpp)
  else Ok ((), with_schema_migrations
         (<[durableDeliveryBackfill := timeToString appliedAt]> (t_schema_migrations t)) t)).

Definition import_tx (c : Config.t) (o : ImportOrder) (appliedAt : Time) (st : PersistentState.t) : Db () :=
  for_keys (PersistentState.Agents st) (λ _, saveAgentTo) (io_agents o) ;;
  for_keys (PersistentState.AgentSecrets st) import_secret (io_secrets o) ;;
  for_keys (PersistentState.Conversations st) (λ _, saveConversationTo) (io_conversations o) ;;
  for_keys (PersistentState.Messages st) (λ _ pm, saveMessageTo (toMessage pm)) (io_messages o) ;;
  for_keys (PersistentState.ConversationMessages st) import_links (io_links o) ;;
  saveCountersTo (PersistentState.NextConversationID st) (PersistentState.NextMessageID st) ;;
  for_keys (PersistentState.Inboxes st) (import_inbox c st) (io_inboxes o) ;;
  for_keys (PersistentState.InboxBase st) (import_base st) (io_bases o) ;;
  for_keys (PersistentState.Idempotency st) (import_receipt c) (io_receipts o) ;;
  import_marker appliedAt.

Definition importStateToSQLite (c : Config.t) (o : ImportOrder) (appliedAt : Time)
    (st : PersistentState.t) : Db () :=
  exec id (* PRAGMA auto_vacuum *) ;;
  exec id (* PRAGMA journal_mode *) ;;
  exec id (* schema *) ;;
  transaction (import_tx c o appliedAt st).

(** ** The files *)

(** What the paths of the two stores hold; the tables of the temporary file
    come with its log. *)
Record Files := mkFiles {
  f_state : option string;
  f_migrated : option string;
  f_db : option Tables;
  f_tmp : option Tables }.

(** The calls that can fail.  [fm_removed] says whether the temporary file is
    gone after an attempt to remove it. *)
Record MigrateFaults := mkMigrateFaults {
  fm_stat : option string;
  fm_read : option string;
  fm_removed : bool;
  fm_mkdir : option string;
  fm_import : Sqlite.Faults;
  fm_rename_db : option string;
  fm_rename_state : option string }.

Definition no_migrate_faults : MigrateFaults := mkMigrateFaults None None true None no_faults None None.

Inductive MigrateError :=
| FileError (err : string)
| ParseFailed (err : string)
| ImportFailed (e : DBError).

Definition remove_tmp (f : MigrateFaults) (fs : Files) : Files :=
  if fm_removed f then mkFiles (f_state fs) (f_migrated fs) (f_db fs) None else fs.

Definition set_tmp (t : option Tables) (fs : Files) : Files :=
  mkFiles (f_state fs) (f_migrated fs) (f_db fs) t.

Section migrate.
Context `{Codec}.

(** [paths] says whether both paths are given. *)
Definition MigrateJSONStateToSQLite (paths : bool) (c : Config.t) (o : PersistentState.t → ImportOrder)
    (appliedAt : Time) (f : MigrateFaults) (fs : Files) : result MigrateError bool * Files :=
  if negb paths then (Ok false, fs) else
  match fm_stat f, f_db fs with
  | Some err, _ => (Err (FileError err), fs)
  | None, Some _ => (Ok false, fs)
  | None, None =>
      match fm_read f, f_state fs with
      | Some err, _ => (Err (FileError err), fs)
      | None, None => (Ok false, fs)
      | None, Some blob =>
          let fs := remove_tmp f fs in
          match Unmarshal blob with
          | Err err => (Err (ParseFailed err), fs)
          | Ok st =>
              match fm_mkdir f with
              | Some err => (Err (FileError err), fs)
              | None =>
                  let '(r, t) := run_db (importStateToSQLite c (o st) appliedAt st) (fm_import f)
                                   (default emptyTables (f_tmp fs)) in
                  let fs := set_tmp (Some t) fs in
                  match r, fm_rename_db f with
                  | Err e, _ => (Err (ImportFailed e), remove_tmp f fs)
                  | Ok _, Some err => (Err (FileError err), remove_tmp f fs)
                  | Ok _, None =>
                      let fs := mkFiles (f_state fs) (f_migrated fs) (f_tmp fs) None in
                      match fm_rename_state f with
                      | Some err => (Err (FileError err), fs)
                      | None => (Ok true, mkFiles None (f_state fs) (f_db fs) None)
                      end
                  end
              end
          end
      end
  end.
End migrate.
