(* ===== verification/MigrateSpec.v ===== *)
(** * What the import writes

    Runs without faults as a relation, loops over the keys of a map by an
    invariant on the keys done, and the tables each loop of the import leaves. *)
From stdpp Require Import gmap strings list sorting.
From Stdlib Require Import ZArith Lia Ascii.
From S2P Require Import Prelude GoBase Json Types Config Ring State Inbox Structure Sweep Send SendProps Text Persistent Rfc3339 Sqlite Delivery SqliteStore Ledger SqliteProps SqliteReads Migrate.

(** ** Runs without faults *)

Definition runs {A} (m : Db A) (t : Tables) (a : A) (t' : Tables) : Prop :=
  ∀ n, ∃ n', m no_faults (n, t) = (Ok a, (n', t')).

Lemma runs_ret {A} (a : A) t : runs (mret a) t a t.
Proof. intros n. by exists n. Qed.

Lemma runs_exec u t : runs (exec u) t () (u t).
Proof. intros n. by exists (S n). Qed.

Lemma runs_update u t t' : u t = t' → runs (exec u) t () t'.
Proof. intros <-. apply runs_exec. Qed.

Lemma runs_call {A} (stmt : Tables → result DBError (A * Tables)) t a t' :
  stmt t = Ok (a, t') → runs (call stmt) t a t'.
Proof. intros H n. exists (S n). unfold call. cbn. by rewrite H. Qed.

Lemma runs_bind {A B} (m : Db A) (g : A → Db B) t a t1 b t2 :
  runs m t a t1 → runs (g a) t1 b t2 → runs (m ≫= g) t b t2.
Proof.
  intros Hm Hg n. destruct (Hm n) as [n1 H1]. destruct (Hg n1) as [n2 H2]. exists n2.
  by rewrite bind_run, H1.
Qed.

Lemma runs_transaction {A} (m : Db A) t a t' : runs m t a t' → runs (transaction m) t a t'.
Proof. intros Hm n. destruct (Hm (S n)) as [n1 H1]. exists (S n1). by apply transaction_clean. Qed.

Lemma runs_run_db {A} (m : Db A) t a t' : runs m t a t' → run_db m no_faults t = (Ok a, t').
Proof. intros Hm. destruct (Hm O) as [n1 H1]. unfold run_db. by rewrite H1. Qed.

(** A loop keeps an invariant on the elements done. *)
Lemma runs_for_each {A} (P : list A → Tables → Prop) (body : A → Db ()) l t :
  P [] t →
  (∀ before x after t, l = before ++ x :: after → P before t →
     ∃ t', runs (body x) t () t' ∧ P (before ++ [x]) t') →
  ∃ t', runs (for_each body l) t () t' ∧ P l t'.
Proof.
  intros H0 Hstep.
  enough (∀ after before t, l = before ++ after → P before t →
            ∃ t', runs (for_each body after) t () t' ∧ P l t') as H by by apply (H l []).
  clear t H0. intros after. induction after as [|x after IH]; intros before t Hl HP; cbn [for_each].
  - rewrite app_nil_r in Hl. subst. exists t. split; [apply runs_ret|done].
  - destruct (Hstep before x after t Hl HP) as (t1 & H1 & HP1).
    destruct (IH (before ++ [x]) t1) as (t2 & H2 & HP2); [by rewrite <-app_assoc|done|].
    exists t2. split; [|done]. by eapply runs_bind.
Qed.

(** A loop over the keys of a map, each once. *)
Lemma runs_for_keys {A} (P : list string → Tables → Prop) (m : gmap string A) body order t :
  enumerates order m → P [] t →
  (∀ before k v t, k ∉ before → m !! k = Some v → P before t →
     ∃ t', runs (body k v) t () t' ∧ P (before ++ [k]) t') →
  ∃ t', runs (for_keys m body order) t () t' ∧ P order t'.
Proof.
  intros [Hnd Hdom] H0 Hstep. unfold for_keys. apply runs_for_each; [done|].
  intros before k after t1 -> HP.
  apply NoDup_app in Hnd as (_ & Hk & _).
  destruct (proj1 (Hdom k)) as [v Hv]; [set_solver|]. rewrite Hv.
  apply Hstep; [|done|done]. intros Hin. apply (Hk k Hin). by left.
Qed.

(** Compares what is known of a key before and after one more key. *)
Ltac keys_done := case_bool_decide; case_bool_decide; first [done | exfalso; set_solver].

(** ** Loops that write one entry for each key *)

(** A component of the tables and its setter. *)
Class Component {R} (get : Tables → gmap string R) (set : gmap string R → Tables → Tables) : Prop := {
  get_set m t : get (set m t) = m;
  set_set m m' t : set m (set m' t) = set m t;
  set_get t : set (get t) t = t }.

#[export] Instance agents_component : Component t_agents with_agents.
Proof. split; try done. by intros []. Qed.
#[export] Instance conversations_component : Component t_conversations with_conversations.
Proof. split; try done. by intros []. Qed.
#[export] Instance messages_component : Component t_messages with_messages.
Proof. split; try done. by intros []. Qed.

(** Each key's entry becomes a function of its value and of the entry before;
    entries of other keys stay. *)
Lemma runs_entries {A R} get set `{!Component (R := R) get set} (m : gmap string A)
    (entry : string → A → option R → option R) body order t :
  enumerates order m →
  (∀ k v t', m !! k = Some v → get t' !! k = get t !! k →
     runs (body k v) t' () (set (partial_alter (entry k v) k (get t')) t')) →
  ∃ M, runs (for_keys m body order) t () (set M t) ∧
    ∀ k, M !! k = match m !! k with Some v => entry k v (get t !! k) | None => get t !! k end.
Proof.
  intros Ho Hbody.
  destruct (runs_for_keys (λ before t', ∃ M, t' = set M t ∧
    ∀ k, M !! k = if bool_decide (k ∈ before) then m !! k ≫= λ v, entry k v (get t !! k) else get t !! k)
    m body order t Ho) as (t' & Hr & M & -> & HM).
  - exists (get t). split; [by rewrite set_get|]. intros k. by rewrite bool_decide_eq_false_2 by apply not_elem_of_nil.
  - intros before k v t1 Hk Hv (M & -> & HM). eexists. split.
    { apply Hbody; [done|]. rewrite get_set, HM. by rewrite bool_decide_eq_false_2. }
    exists (partial_alter (entry k v) k M). rewrite get_set, set_set. split; [done|].
    intros k'. destruct (decide (k' = k)) as [->|Hne].
    + rewrite lookup_partial_alter_eq, HM, (bool_decide_eq_false_2 (k ∈ before)) by done.
      rewrite bool_decide_eq_true_2 by set_solver. by rewrite Hv.
    + rewrite lookup_partial_alter_ne, HM by done. keys_done.
  - exists M. split; [done|]. intros k. rewrite HM. destruct (m !! k) as [v|] eqn:Hv; case_bool_decide as Hin; try done.
    + exfalso. apply Hin, Ho. by rewrite Hv.
    + apply Ho in Hin. rewrite Hv in Hin. by destruct Hin.
Qed.

#[export] Instance cursors_component : Component t_delivery_cursors with_delivery_cursors.
Proof. split; try done. by intros []. Qed.

(** The elements of an indexed list. *)
Lemma imap_pair_split {A} (l : list A) before x after :
  imap pair l = before ++ x :: after → x.1 = length before ∧ l !! length before = Some x.2.
Proof.
  intros H. assert (imap pair l !! length before = Some x) as Hx by by rewrite H, list_lookup_middle.
  rewrite list_lookup_imap in Hx. destruct (l !! length before) as [e|]; [|done]. by injection Hx as <-.
Qed.

(** The entry of a list at an integer position from [base] on. *)
Definition entry_from {A} (base : Z) (l : list A) (n : Z) : option A :=
  if base <=? n then l !! Z.to_nat (n - base) else None.

Lemma entry_from_at {A} base (l : list A) i x : l !! i = Some x → entry_from base l (base + Z.of_nat i) = Some x.
Proof.
  intros H. unfold entry_from. rewrite (proj2 (Z.leb_le _ _)) by lia. by replace (Z.to_nat _) with i by lia.
Qed.

Lemma entry_from_Some {A} base (l : list A) n x :
  entry_from base l n = Some x → base ≤ n < base + Z.of_nat (length l).
Proof.
  unfold entry_from. destruct (base <=? n) eqn:E; [|done]. prop_bool. intros H%lookup_lt_Some. lia.
Qed.

(** ** Links *)

Lemma runs_links cid mids t :
  ∃ M, runs (import_links cid mids) t () (with_conversation_messages M t) ∧
    ∀ k, M !! k = if bool_decide (k.1 = cid)
                  then from_option Some (t_conversation_messages t !! k) (entry_from 0 mids k.2)
                  else t_conversation_messages t !! k.
Proof.
  destruct (runs_for_each (λ before t', ∃ M, t' = with_conversation_messages M t ∧
    ∀ k, M !! k = if bool_decide (k.1 = cid) && (k.2 <? Z.of_nat (length before))
                  then from_option Some (t_conversation_messages t !! k) (entry_from 0 mids k.2)
                  else t_conversation_messages t !! k)
    (λ p : nat * string, saveConversationMessageTo cid p.2 (Z.of_nat p.1)) (imap pair mids) t)
    as (t' & Hr & M & -> & HM).
  - exists (t_conversation_messages t). split; [by destruct t|]. intros [cid' n]. cbn.
    destruct (bool_decide _ && _) eqn:E; [|done]. prop_bool. unfold entry_from.
    by rewrite (proj2 (Z.leb_gt _ _)) by lia.
  - intros before [i mid] after t1 Hl (M & -> & HM). apply imap_pair_split in Hl as [Hi Hmid]. cbn in Hi, Hmid. subst i.
    eexists. split; [apply runs_exec|]. eexists. split; [reflexivity|]. cbn. intros [cid' n].
    rewrite length_app. cbn. destruct (decide ((cid', n) = (cid, Z.of_nat (length before)))) as [[= -> ->]|Hne].
    + rewrite lookup_insert_eq, bool_decide_eq_true_2 by done. rewrite (proj2 (Z.ltb_lt _ _)) by lia. cbn.
      pose proof (entry_from_at 0 _ _ _ Hmid) as He. rewrite Z.add_0_l in He. by rewrite He.
    + rewrite lookup_insert_ne by done. rewrite HM. cbn. destruct (bool_decide (cid' = cid)) eqn:Ec; [|done].
      prop_bool. subst. cbn. assert (n ≠ Z.of_nat (length before)) by congruence.
      destruct (n <? Z.of_nat (length before)) eqn:E1, (n <? Z.of_nat (length before + 1)) eqn:E2; prop_bool; try done; lia.
  - exists M. split; [done|]. intros k. rewrite HM. destruct (bool_decide (k.1 = cid)); [|done]. cbn.
    destruct (k.2 <? _) eqn:E; [done|]. prop_bool. rewrite length_imap in E.
    destruct (entry_from 0 mids k.2) eqn:Ee; [|done]. apply entry_from_Some in Ee. lia.
Qed.

Lemma runs_all_links (m : gmap string (list string)) order t :
  enumerates order m → t_conversation_messages t = ∅ →
  ∃ M, runs (for_keys m import_links order) t () (with_conversation_messages M t) ∧
    ∀ cid n, M !! (cid, n) = m !! cid ≫= λ mids, entry_from 0 mids n.
Proof.
  intros Ho He.
  destruct (runs_for_keys (λ before t', ∃ M, t' = with_conversation_messages M t ∧
    ∀ cid n, M !! (cid, n) = if bool_decide (cid ∈ before) then m !! cid ≫= λ mids, entry_from 0 mids n else None)
    m import_links order t Ho) as (t' & Hr & M & -> & HM).
  - exists ∅. split; [rewrite <-He; by destruct t|]. intros cid n. by rewrite bool_decide_eq_false_2 by apply not_elem_of_nil.
  - intros before cid mids t1 Hcid Hmids (M & -> & HM).
    destruct (runs_links cid mids (with_conversation_messages M t)) as (M' & Hr & HM').
    eexists. split; [exact Hr|]. exists M'. split; [done|]. intros cid' n. rewrite HM'. cbn. rewrite HM.
    destruct (decide (cid' = cid)) as [->|Hne].
    + rewrite (bool_decide_eq_true_2 (cid = cid)) by done. rewrite (bool_decide_eq_true_2 (cid ∈ _ ++ _)) by set_solver.
      rewrite (bool_decide_eq_false_2 (cid ∈ before)) by done. rewrite Hmids. cbn. by destruct (entry_from 0 mids n).
    + rewrite (bool_decide_eq_false_2 (cid' = cid)) by done. keys_done.
  - exists M. split; [done|]. intros cid n. rewrite HM. case_bool_decide as Hin; [done|].
    destruct (m !! cid) eqn:Hm; [|done]. exfalso. apply Hin, Ho. by rewrite Hm.
Qed.

(** ** Deliveries *)

Section deliveries.
Context (c : Config.t) (st : PersistentState.t).

Definition inbox_events (a : string) : list InboxEvent.t :=
  deliverables st (default [] (PersistentState.Inboxes st !! a)).

(** The delivery imported for [a] at sequence number [n]. *)
Definition imported_row (a : string) (n : Z) : option DeliveryRow.t :=
  e ← entry_from (snapshot_base st a) (inbox_events a) n;
  pm ← PersistentState.Messages st !! InboxEvent.MessageID e;
  Some (import_row c (InboxEvent.MessageID e) (toMessage pm)).

(** No message is imported twice. *)
Definition import_once : Prop := ∀ a n d a' n' d',
  imported_row a n = Some d → imported_row a' n' = Some d' →
  DeliveryRow.message_id d = DeliveryRow.message_id d' → a = a' ∧ n = n'.

Definition imported_cursor (a : string) : CursorRow.t :=
  CursorRow.mk (snapshot_base st a + Z.of_nat (length (inbox_events a))) (snapshot_base st a).

Lemma deliverable_stored a i e :
  inbox_events a !! i = Some e → is_Some (PersistentState.Messages st !! InboxEvent.MessageID e).
Proof.
  intros H%list_elem_of_lookup_2. apply list_elem_of_filter in H as [H _]. unfold deliverable in H.
  by destruct (PersistentState.Messages st !! _).
Qed.

Lemma imported_row_at a i e :
  inbox_events a !! i = Some e →
  ∃ pm, PersistentState.Messages st !! InboxEvent.MessageID e = Some pm ∧
    imported_row a (snapshot_base st a + Z.of_nat i)
    = Some (import_row c (InboxEvent.MessageID e) (toMessage pm)).
Proof.
  intros He. destruct (deliverable_stored a i e He) as [pm Hpm]. exists pm. split; [done|].
  unfold imported_row. rewrite (entry_from_at _ _ _ _ He). cbn. by rewrite Hpm.
Qed.

Lemma imported_row_bounds a n d :
  imported_row a n = Some d → snapshot_base st a ≤ n < snapshot_base st a + Z.of_nat (length (inbox_events a)).
Proof.
  unfold imported_row. destruct (entry_from _ _ n) eqn:E; [|done]. intros _. by eapply entry_from_Some.
Qed.

(** One delivery: its key and its message are new, its message is stored. *)
Lemma runs_delivery a i e t :
  import_once → inbox_events a !! i = Some e →
  (∀ k d, t_deliveries t !! k = Some d → imported_row k.1 k.2 = Some d) →
  t_deliveries t !! (a, snapshot_base st a + Z.of_nat i) = None →
  (∀ id, is_Some (PersistentState.Messages st !! id) → is_Some (t_messages t !! id)) →
  ∃ d, imported_row a (snapshot_base st a + Z.of_nat i) = Some d ∧
    runs (import_delivery c st a (snapshot_base st a) (i, e)) t ()
      (with_deliveries (<[(a, snapshot_base st a + Z.of_nat i) := d]> (t_deliveries t)) t).
Proof.
  intros Honce He Hrows Hnew Hmsg. destruct (imported_row_at a i e He) as (pm & Hpm & Hd).
  eexists. split; [exact Hd|]. unfold import_delivery. cbn [snd fst]. rewrite Hpm.
  apply runs_call. rewrite bool_decide_eq_false_2 by (rewrite Hnew; by intros []).
  unfold delivery_exists. rewrite bool_decide_eq_false_2.
  - cbn. rewrite bool_decide_eq_false_2; [done|]. intros Hnone.
    destruct (Hmsg (InboxEvent.MessageID e)) as [m Hm]; [by rewrite Hpm|]. congruence.
  - intros ([a' n'] & d' & Hd' & Hid). pose proof (Hrows _ _ Hd') as Hrow. cbn in Hrow.
    destruct (Honce _ _ _ _ _ _ Hrow Hd Hid) as [-> ->]. congruence.
Qed.

Lemma runs_inbox a inbox t :
  import_once → PersistentState.Inboxes st !! a = Some inbox → t_delivery_cursors t !! a = None →
  (∀ k d, t_deliveries t !! k = Some d → k.1 ≠ a ∧ imported_row k.1 k.2 = Some d) →
  (∀ id, is_Some (PersistentState.Messages st !! id) → is_Some (t_messages t !! id)) →
  ∃ D, runs (import_inbox c st a inbox) t ()
      (with_deliveries D (with_delivery_cursors (<[a := imported_cursor a]> (t_delivery_cursors t)) t)) ∧
    ∀ k, D !! k = if bool_decide (k.1 = a) then imported_row a k.2 else t_deliveries t !! k.
Proof.
  intros Honce Hinbox Hcur Hrows Hmsg.
  assert (deliverables st inbox = inbox_events a) as Hev by (unfold inbox_events; by rewrite Hinbox).
  set (t0 := with_delivery_cursors (<[a := imported_cursor a]> (t_delivery_cursors t)) t).
  destruct (runs_for_each (λ before t', ∃ D, t' = with_deliveries D t0 ∧
    ∀ k, D !! k = if bool_decide (k.1 = a) && (k.2 <? snapshot_base st a + Z.of_nat (length before))
                  then imported_row a k.2 else t_deliveries t !! k)
    (import_delivery c st a (snapshot_base st a)) (imap pair (inbox_events a)) t0) as (t' & Hr & D & -> & HD).
  - exists (t_deliveries t0). split; [done|]. intros [a' n]. cbn. destruct (bool_decide _ && _) eqn:E; [|done].
    prop_bool. subst. destruct (t_deliveries t !! (a, n)) eqn:Ed; [by apply Hrows in Ed as [[] _]|].
    destruct (imported_row a n) eqn:Ei; [|done]. apply imported_row_bounds in Ei. lia.
  - intros before [i e] after t1 Hl (D & -> & HD). apply imap_pair_split in Hl as [Hi He]. cbn in Hi, He. subst i.
    destruct (runs_delivery a (length before) e (with_deliveries D t0)) as (d & Hd & Hr); try done.
    + intros [a' n] d. cbn. rewrite HD. cbn. destruct (bool_decide (a' = a)) eqn:Ea; cbn.
      * prop_bool. subst. case_bool; [done|]. by intros [? _]%Hrows.
      * by intros [_ ?]%Hrows.
    + cbn. rewrite HD. cbn. rewrite bool_decide_eq_true_2, Z.ltb_irrefl by done. cbn.
      destruct (t_deliveries t !! _) eqn:Ed; [|done]. by apply Hrows in Ed as [[] _].
    + eexists. split; [exact Hr|]. eexists. split; [reflexivity|]. intros [a' n]. cbn. rewrite length_app. cbn.
      destruct (decide ((a', n) = (a, snapshot_base st a + Z.of_nat (length before)))) as [[= -> ->]|Hne].
      * rewrite lookup_insert_eq, bool_decide_eq_true_2 by done. rewrite (proj2 (Z.ltb_lt _ _)) by lia. by rewrite Hd.
      * rewrite lookup_insert_ne, HD by done. cbn. destruct (bool_decide (a' = a)) eqn:Ea; [|done]. prop_bool. subst.
        cbn. assert (n ≠ snapshot_base st a + Z.of_nat (length before)) by congruence.
        do 2 case_bool; prop_bool; try done; lia.
  - exists D. split.
    + unfold import_inbox. cbv zeta. rewrite Hev. eapply runs_bind; [|exact Hr]. apply runs_call.
      rewrite bool_decide_eq_false_2; [done|]. rewrite Hcur. by intros [].
    + intros [a' n]. rewrite HD. cbn. destruct (bool_decide (a' = a)) eqn:Ea; [|done]. prop_bool. subst. cbn.
      case_bool; [done|]. prop_bool. rewrite length_imap in *.
      destruct (imported_row a n) eqn:Ei; [apply imported_row_bounds in Ei; lia|].
      destruct (t_deliveries t !! (a, n)) eqn:Ed; [|done]. by apply Hrows in Ed as [[] _].
Qed.

Lemma runs_inboxes order t :
  import_once → enumerates order (PersistentState.Inboxes st) →
  t_deliveries t = ∅ → t_delivery_cursors t = ∅ →
  (∀ id, is_Some (PersistentState.Messages st !! id) → is_Some (t_messages t !! id)) →
  ∃ C D, runs (for_keys (PersistentState.Inboxes st) (import_inbox c st) order) t ()
      (with_deliveries D (with_delivery_cursors C t)) ∧
    (∀ a, C !! a = (λ _, imported_cursor a) <$> PersistentState.Inboxes st !! a) ∧
    ∀ k, D !! k = imported_row k.1 k.2.
Proof.
  intros Honce Ho Hd Hc Hmsg.
  destruct (runs_for_keys (λ before t', ∃ C D, t' = with_deliveries D (with_delivery_cursors C t) ∧
    (∀ a, C !! a = if bool_decide (a ∈ before) then Some (imported_cursor a) else None) ∧
    (∀ k, D !! k = if bool_decide (k.1 ∈ before) then imported_row k.1 k.2 else None))
    (PersistentState.Inboxes st) (import_inbox c st) order t Ho) as (t' & Hr & C & D & -> & HC & HD).
  - exists ∅, ∅. split_and!; [rewrite <-Hd at 1; rewrite <-Hc at 1; by destruct t|..];
      intros ?; by rewrite bool_decide_eq_false_2 by apply not_elem_of_nil.
  - intros before a inbox t1 Ha Hin (C & D & -> & HC & HD).
    destruct (runs_inbox a inbox (with_deliveries D (with_delivery_cursors C t))) as (D' & Hr & HD');
      [done|done| | |done|].
    + cbn. rewrite HC. by rewrite bool_decide_eq_false_2.
    + intros k d. cbn. rewrite HD. case_bool_decide as Hk; [|done]. intros ?. split; [by intros <-|done].
    + eexists. split; [exact Hr|]. exists (<[a := imported_cursor a]> C), D'. split_and!; [reflexivity|..].
      * intros a'. destruct (decide (a' = a)) as [->|Hne].
        -- rewrite lookup_insert_eq. by rewrite (bool_decide_eq_true_2 (a ∈ _)) by set_solver.
        -- rewrite lookup_insert_ne, HC by done. keys_done.
      * intros [a' n]. rewrite HD'. cbn. destruct (decide (a' = a)) as [->|Hne].
        -- rewrite (bool_decide_eq_true_2 (a = a)) by done. by rewrite bool_decide_eq_true_2 by set_solver.
        -- rewrite (bool_decide_eq_false_2 (a' = a)), HD by done. cbn. keys_done.
  - exists C, D. split; [exact Hr|]. split.
    + intros a. rewrite HC. destruct (PersistentState.Inboxes st !! a) eqn:Ea; cbn.
      * rewrite bool_decide_eq_true_2; [done|]. apply Ho. by rewrite Ea.
      * rewrite bool_decide_eq_false_2; [done|]. intros [? H]%Ho. congruence.
    + intros [a n]. rewrite HD. cbn. case_bool_decide as Hin; [done|].
      destruct (imported_row a n) eqn:Ei; [|done]. exfalso. apply Hin, Ho.
      apply imported_row_bounds in Ei. unfold inbox_events in Ei.
      destruct (PersistentState.Inboxes st !! a); [done|]. cbn in Ei. lia.
Qed.
End deliveries.

(** Cursors without an inbox. *)
Lemma runs_bases st order t :
  enumerates order (PersistentState.InboxBase st) →
  (∀ a, PersistentState.Inboxes st !! a = None → t_delivery_cursors t !! a = None) →
  ∃ C, runs (for_keys (PersistentState.InboxBase st) (import_base st) order) t () (with_delivery_cursors C t) ∧
    ∀ a, C !! a = match PersistentState.Inboxes st !! a, PersistentState.InboxBase st !! a with
                  | None, Some base => Some (CursorRow.mk base base)
                  | _, _ => t_delivery_cursors t !! a
                  end.
Proof.
  intros Ho Hc.
  destruct (runs_entries t_delivery_cursors with_delivery_cursors (PersistentState.InboxBase st)
    (λ a base old, match PersistentState.Inboxes st !! a with
                   | Some _ => old | None => Some (CursorRow.mk base base) end) (import_base st) order t Ho)
    as (C & Hr & HC).
  - intros a base t' Hb Ht'. unfold import_base. destruct (PersistentState.Inboxes st !! a) eqn:Ea.
    + assert (partial_alter (λ old : option CursorRow.t, old) a (t_delivery_cursors t') = t_delivery_cursors t') as ->.
      { apply map_eq. intros a'. destruct (decide (a' = a)) as [->|]; [by rewrite lookup_partial_alter_eq|].
        by rewrite lookup_partial_alter_ne. }
      replace (with_delivery_cursors _ t') with t' by by destruct t'. apply runs_ret.
    + apply runs_call. rewrite bool_decide_eq_false_2; [done|]. rewrite Ht', Hc by done. by intros [].
  - exists C. split; [done|]. intros a. rewrite HC.
    destruct (PersistentState.InboxBase st !! a), (PersistentState.Inboxes st !! a); done.
Qed.

(** ** Receipts *)

Definition plain_triple (k : string * string * string) : Prop :=
  plain_key k ∧ Contains k.2 "031"%char = false.

Lemma Split_key k : plain_triple k → Split (key_of k) "031"%char = [k.1.1; k.1.2; k.2].
Proof.
  destruct k as [[f t] r]. intros [[Hf Ht] Hr]. unfold Contains in *.
  apply bool_decide_eq_false in Hf, Ht, Hr. cbn in *.
  apply (Split_join "031"%char [f; t; r]); [done|]. by repeat constructor.
Qed.

Lemma key_of_inj k k' : plain_key k → plain_key k' → key_of k = key_of k' → k = k'.
Proof.
  destruct k as [[f t] r], k' as [[f' t'] r']. intros [H1 H2] [H3 H4] He. cbn in *.
  destruct (dedupeKey_injective f t r f' t' r' H1 H2 H3 H4 He) as (-> & -> & ->). done.
Qed.

Section receipts.
Context (c : Config.t).

Definition receipt_window : Duration :=
  if Config.IdempotencyWindow c <=? 0 then 24 * Hour else Config.IdempotencyWindow c.

Definition imported_receipt (e : IdempotencyEntry.t) : ReceiptRow.t :=
  ReceiptRow.mk (IdempotencyEntry.MessageID e) (timeToString (IdempotencyEntry.CreatedAt e))
    (timeToString (Add (IdempotencyEntry.CreatedAt e) receipt_window)).

Lemma runs_receipts (m : gmap string IdempotencyEntry.t) order t :
  enumerates order m → t_idempotency t = ∅ →
  (∀ key e, m !! key = Some e → ∃ k, plain_triple k ∧ key = key_of k) →
  ∃ M, runs (for_keys m (import_receipt c) order) t () (with_idempotency M t) ∧
    ∀ k, plain_triple k → M !! k = imported_receipt <$> m !! key_of k.
Proof.
  intros Ho He Hkeys.
  destruct (runs_for_keys (λ before t', ∃ M, t' = with_idempotency M t ∧
    ∀ k, plain_triple k → M !! k = if bool_decide (key_of k ∈ before)
                                   then imported_receipt <$> m !! key_of k else None)
    m (import_receipt c) order t Ho) as (t' & Hr & M & -> & HM).
  - exists ∅. split; [rewrite <-He; by destruct t|]. intros k _.
    by rewrite bool_decide_eq_false_2 by apply not_elem_of_nil.
  - intros before key e t1 Hkey Hm (M & -> & HM). destruct (Hkeys key e Hm) as (k & Hk & ->).
    exists (with_idempotency (<[k := imported_receipt e]> M) t). split.
    + unfold import_receipt. rewrite Split_key by done. apply runs_call. destruct k as [[f to] r]. cbn.
      rewrite HM, (bool_decide_eq_false_2 (_ ∈ before)) by done. rewrite bool_decide_eq_false_2; [done|]. by intros [].
    + exists (<[k := imported_receipt e]> M). split; [done|]. intros k' Hk'. destruct (decide (k' = k)) as [->|Hne].
      * rewrite lookup_insert_eq, Hm, bool_decide_eq_true_2 by set_solver. done.
      * assert (key_of k' ≠ key_of k) by (intros ?%key_of_inj; [done|apply Hk'|apply Hk]).
        rewrite lookup_insert_ne, HM by done. keys_done.
  - exists M. split; [done|]. intros k Hk. rewrite HM by done. case_bool_decide as Hin; [done|].
    destruct (m !! key_of k) eqn:Hm; [|done]. exfalso. apply Hin, Ho. by rewrite Hm.
Qed.
End receipts.

(** ** The whole import *)

(** What the import asks of a snapshot: maps keyed by the identifiers of their
    values, every message in one inbox at most, receipts under keys of three
    parts. *)
Record importable (c : Config.t) (st : PersistentState.t) : Prop := {
  ib_agents : ∀ k a, PersistentState.Agents st !! k = Some a → Agent.AgentID a = k;
  ib_conversations : ∀ k v, PersistentState.Conversations st !! k = Some v → Conversation.ConversationID v = k;
  ib_messages : ∀ k pm, PersistentState.Messages st !! k = Some pm → Message.MessageID (toMessage pm) = k;
  ib_once : import_once c st;
  ib_receipts : ∀ key e, PersistentState.Idempotency st !! key = Some e →
    ∃ k, plain_triple k ∧ key = key_of k;
  ib_bases : ∀ a, 0 ≤ snapshot_base st a }.

Record order_for (o : ImportOrder) (st : PersistentState.t) : Prop := {
  of_agents : enumerates (io_agents o) (PersistentState.Agents st);
  of_secrets : enumerates (io_secrets o) (PersistentState.AgentSecrets st);
  of_conversations : enumerates (io_conversations o) (PersistentState.Conversations st);
  of_messages : enumerates (io_messages o) (PersistentState.Messages st);
  of_links : enumerates (io_links o) (PersistentState.ConversationMessages st);
  of_inboxes : enumerates (io_inboxes o) (PersistentState.Inboxes st);
  of_bases : enumerates (io_bases o) (PersistentState.InboxBase st);
  of_receipts : enumerates (io_receipts o) (PersistentState.Idempotency st) }.

Definition has_cursor (st : PersistentState.t) (a : string) : bool :=
  bool_decide (is_Some (PersistentState.Inboxes st !! a)) || bool_decide (is_Some (PersistentState.InboxBase st !! a)).

(** The tables of an imported snapshot. *)
Record imported_tables (c : Config.t) (st : PersistentState.t) (t : Tables) : Prop := {
  im_agents : ∀ id, t_agents t !! id
    = agent_row (default ε (PersistentState.AgentSecrets st !! id)) <$> PersistentState.Agents st !! id;
  im_conversations : ∀ id, t_conversations t !! id = conversation_row <$> PersistentState.Conversations st !! id;
  im_messages : ∀ id, t_messages t !! id
    = (λ pm, message_row (toMessage pm)) <$> PersistentState.Messages st !! id;
  im_links : ∀ cid n, t_conversation_messages t !! (cid, n)
    = PersistentState.ConversationMessages st !! cid ≫= λ mids, entry_from 0 mids n;
  im_counters : t_counters t !! key_conversation = Some (PersistentState.NextConversationID st) ∧
    t_counters t !! key_message = Some (PersistentState.NextMessageID st);
  im_cursors : ∀ a, t_delivery_cursors t !! a = if has_cursor st a then Some (imported_cursor st a) else None;
  im_deliveries : ∀ k, t_deliveries t !! k = imported_row c st k.1 k.2;
  im_receipts : ∀ k, plain_triple k →
    t_idempotency t !! k = imported_receipt c <$> PersistentState.Idempotency st !! key_of k;
  im_marker : applied t = true }.

Section import.
Context (c : Config.t) (o : ImportOrder) (st : PersistentState.t).
Context (Hst : importable c st) (Ho : order_for o st).

Lemma runs_agents t :
  t_agents t = ∅ →
  ∃ M, runs (for_keys (PersistentState.Agents st) (λ _, saveAgentTo) (io_agents o)) t () (with_agents M t) ∧
    ∀ k, M !! k = agent_row ε <$> PersistentState.Agents st !! k.
Proof.
  intros He. destruct (runs_entries t_agents with_agents (PersistentState.Agents st)
    (λ _ a _, Some (agent_row ε a)) (λ _, saveAgentTo) (io_agents o) t) as (M & Hr & HM); [apply Ho| |].
  - intros k a t' Ha Hk. rewrite He, lookup_empty in Hk. apply (ib_agents _ _ Hst) in Ha as <-.
    apply runs_update. by rewrite Hk.
  - exists M. split; [done|]. intros k. rewrite HM, He, lookup_empty. by destruct (_ !! k).
Qed.

Lemma runs_secrets t :
  ∃ M, runs (for_keys (PersistentState.AgentSecrets st) import_secret (io_secrets o)) t () (with_agents M t) ∧
    ∀ k, M !! k = match PersistentState.AgentSecrets st !! k with
                  | Some s => set_secret s <$> t_agents t !! k | None => t_agents t !! k end.
Proof.
  apply (runs_entries t_agents with_agents _ (λ _ s, fmap (set_secret s))); [apply Ho|].
  intros k s t' _ _. by apply runs_update.
Qed.

Lemma runs_conversations t :
  t_conversations t = ∅ →
  ∃ M, runs (for_keys (PersistentState.Conversations st) (λ _, saveConversationTo) (io_conversations o)) t ()
         (with_conversations M t) ∧
    ∀ k, M !! k = conversation_row <$> PersistentState.Conversations st !! k.
Proof.
  intros He. destruct (runs_entries t_conversations with_conversations (PersistentState.Conversations st)
    (λ _ v _, Some (conversation_row v)) (λ _, saveConversationTo) (io_conversations o) t) as (M & Hr & HM); [apply Ho| |].
  - intros k v t' Hv _. apply (ib_conversations _ _ Hst) in Hv as <-. by apply runs_update.
  - exists M. split; [done|]. intros k. rewrite HM, He, lookup_empty. by destruct (_ !! k).
Qed.

Lemma runs_messages t :
  t_messages t = ∅ →
  ∃ M, runs (for_keys (PersistentState.Messages st) (λ _ pm, saveMessageTo (toMessage pm)) (io_messages o)) t ()
         (with_messages M t) ∧
    ∀ k, M !! k = (λ pm, message_row (toMessage pm)) <$> PersistentState.Messages st !! k.
Proof.
  intros He. destruct (runs_entries t_messages with_messages (PersistentState.Messages st)
    (λ _ pm _, Some (message_row (toMessage pm))) (λ _ pm, saveMessageTo (toMessage pm)) (io_messages o) t)
    as (M & Hr & HM); [apply Ho| |].
  - intros k pm t' Hv _. apply (ib_messages _ _ Hst) in Hv as <-. by apply runs_update.
  - exists M. split; [done|]. intros k. rewrite HM, He, lookup_empty. by destruct (_ !! k).
Qed.

(** Without faults, the import of a snapshot into an empty file succeeds. *)
Lemma import_runs appliedAt :
  ∃ t, runs (importStateToSQLite c o appliedAt st) emptyTables () t ∧ imported_tables c st t.
Proof.
  destruct (runs_agents emptyTables eq_refl) as (A & H1 & HA). set (t1 := with_agents A emptyTables) in *.
  destruct (runs_secrets t1) as (A' & H2 & HA'). set (t2 := with_agents A' t1) in *.
  destruct (runs_conversations t2 eq_refl) as (V & H3 & HV). set (t3 := with_conversations V t2) in *.
  destruct (runs_messages t3 eq_refl) as (M & H4 & HM). set (t4 := with_messages M t3) in *.
  destruct (runs_all_links _ _ t4 (of_links _ _ Ho) eq_refl) as (L & H5 & HL).
  set (t5 := with_conversation_messages L t4) in *.
  set (t6 := with_counters (<[key_message := PersistentState.NextMessageID st]>
    (<[key_conversation := PersistentState.NextConversationID st]> ∅)) t5).
  assert (runs (saveCountersTo (PersistentState.NextConversationID st) (PersistentState.NextMessageID st)) t5 () t6)
    as H6 by by apply runs_update.
  destruct (runs_inboxes c st (io_inboxes o) t6 (ib_once _ _ Hst) (of_inboxes _ _ Ho) eq_refl eq_refl)
    as (C & D & H7 & HC & HD).
  { intros id [pm Hpm]. change (t_messages t6) with M. rewrite HM, Hpm. eauto. }
  set (t7 := with_deliveries D _) in H7.
  destruct (runs_bases st (io_bases o) t7 (of_bases _ _ Ho)) as (C' & H8 & HC').
  { intros a Ha. change (t_delivery_cursors t7) with C. by rewrite HC, Ha. }
  set (t8 := with_delivery_cursors C' t7) in H8.
  destruct (runs_receipts c _ (io_receipts o) t8 (of_receipts _ _ Ho) eq_refl (ib_receipts _ _ Hst)) as (R & H9 & HR).
  set (t9 := with_idempotency R t8) in H9.
  set (t10 := with_schema_migrations {[durableDeliveryBackfill := timeToString appliedAt]} t9).
  exists t10. split.
  - unfold importStateToSQLite. do 3 (eapply runs_bind; [apply (runs_exec id)|]).
    apply runs_transaction. unfold import_tx.
    eapply runs_bind; [exact H1|]. eapply runs_bind; [exact H2|]. eapply runs_bind; [exact H3|].
    eapply runs_bind; [exact H4|]. eapply runs_bind; [exact H5|]. eapply runs_bind; [exact H6|].
    eapply runs_bind; [exact H7|]. eapply runs_bind; [exact H8|]. eapply runs_bind; [exact H9|].
    apply runs_call. done.
  - constructor.
    + intros id. change (t_agents t10) with A'. rewrite HA'. change (t_agents t1) with A. rewrite HA.
      destruct (PersistentState.AgentSecrets st !! id), (PersistentState.Agents st !! id); done.
    + exact HV.
    + exact HM.
    + exact HL.
    + done.
    + intros a. change (t_delivery_cursors t10) with C'. rewrite HC'. change (t_delivery_cursors t7) with C.
      rewrite HC. unfold has_cursor, imported_cursor, inbox_events, snapshot_base.
      destruct (PersistentState.Inboxes st !! a) eqn:Ea; cbn; [done|].
      destruct (PersistentState.InboxBase st !! a); cbn; [|done]. by rewrite Z.add_0_r.
    + exact HD.
    + exact HR.
    + done.
Qed.
End import.
