(* ===== verification/MigrateProps.v ===== *)
(** * Properties of the migration to SQLite

    What the import leaves in the tables; that the exchange of files is
    all-or-nothing; and a run in which an agent that keeps its cursor across the
    migration loses a message. *)
From stdpp Require Import gmap strings list sorting.
From Stdlib Require Import ZArith Lia Ascii.
From S2P Require Import Prelude GoBase Json Types Config Ring State Inbox Structure Sweep Conversations Agents Send Poll Lifecycle Queries System Scenario SendProps Text Persistent Rfc3339 Sqlite Delivery SqliteStore Ledger SqliteSystem SqliteProps SqliteReads Migrate MigrateSpec.

(** ** A cursor that outlives the migration

    Bob reads Alice's first request and takes it up; a second one arrives.  The
    import leaves the first out, so the second moves to the sequence number of
    the first, which Bob's cursor has passed: his next poll acknowledges it
    unseen. *)
Definition import_order (st : PersistentState.t) : ImportOrder :=
  mkImportOrder (elements (dom (PersistentState.Agents st))) (elements (dom (PersistentState.AgentSecrets st)))
    (elements (dom (PersistentState.Conversations st))) (elements (dom (PersistentState.Messages st)))
    (elements (dom (PersistentState.ConversationMessages st))) (elements (dom (PersistentState.Inboxes st)))
    (elements (dom (PersistentState.InboxBase st))) (elements (dom (PersistentState.Idempotency st))).

Definition poll_from (id : string) (cursor : Z) : PollInboxInput.t := PollInboxInput.mk id cursor 0 0.

Definition snapshot_calls : list (Time * Op) :=
  [(at_s 3, OpAck None (AckInput.mk bob (message_id 1) "accepted"%stdpp ε));
   (at_s 4, OpSendMessage None (send alice bob "r-2"%stdpp ε "pong"%stdpp))].

Definition bob_first_poll : result Error.t (list InboxEvent.t * Z) :=
  (PollInbox E0 (at_s 2) (order_of requested.2) (mkReading (at_s 2) (at_s 2)) [] (poll_from bob 0) requested.2).2.

Definition snapshot_store : Store := (Scenario.exec E0 (at_s 2, requested.2) snapshot_calls).2.

Definition snapshot : PersistentState.t := stateSnapshot (mkPS snapshot_store ∅ ε).

Definition imported : Tables :=
  (run_db (importStateToSQLite plain_config (import_order snapshot) (at_s 5) snapshot) no_faults emptyTables).2.

Definition imported_store : SQLiteStore := mkSQL emptyStore imported ∅.

Example migration_skips_unread :
  (∃ e, bob_first_poll = Ok ([e], 1) ∧ InboxEvent.MessageID e = message_id 1) ∧
  InboxEvent.MessageID <$> default [] (inboxes snapshot_store !! bob) = [message_id 1; message_id 2] ∧
  DeliveryRow.message_id <$> t_deliveries imported !! (bob, 0) = Some (message_id 2) ∧
  (readDurableInbox E0 no_faults bob 1 0 (at_s 6) (at_s 6) (at_s 6) imported_store).2 = Ok ([], 1) ∧
  DeliveryRow.status <$> t_deliveries
    (db (readDurableInbox E0 no_faults bob 1 0 (at_s 6) (at_s 6) (at_s 6) imported_store).1) !! (bob, 0)
    = Some Received.
Proof.
  split; [eexists; split; vm_compute; reflexivity|]. split_and!; vm_compute; reflexivity.
Qed.

(** ** The exchange of files *)

Section files.
Context `{Codec}.

(** The database file appears in one step: whatever call fails, there is either
    the one there was, or none, or the whole import of the state file, which is
    kept under its name or as the backup; and the call reports success exactly
    when both files are in place. *)
Lemma migrate_files c o appliedAt f fs :
  let '(r, fs') := MigrateJSONStateToSQLite true c o appliedAt f fs in
  (f_db fs' = f_db fs ∧ f_state fs' = f_state fs ∧ f_migrated fs' = f_migrated fs ∧ r ≠ Ok true) ∨
  (f_db fs = None ∧ ∃ blob st t0 t,
     f_state fs = Some blob ∧ Unmarshal blob = Ok st ∧
     (t0 = emptyTables ∨ fm_removed f = false ∧ f_tmp fs = Some t0) ∧
     run_db (importStateToSQLite c (o st) appliedAt st) (fm_import f) t0 = (Ok (), t) ∧ f_db fs' = Some t ∧
     (r = Ok true ∧ f_state fs' = None ∧ f_migrated fs' = Some blob ∨
      (∃ err, r = Err (FileError err)) ∧ f_state fs' = Some blob ∧ f_migrated fs' = f_migrated fs)).
Proof.
  unfold MigrateJSONStateToSQLite. cbn [negb].
  destruct (fm_stat f); [by left|]. destruct (f_db fs) eqn:Edb; [by left|].
  destruct (fm_read f); [by left|]. destruct (f_state fs) as [blob|] eqn:Est; [|by left]. cbv zeta.
  assert (f_db (remove_tmp f fs) = None ∧ f_state (remove_tmp f fs) = Some blob ∧
          f_migrated (remove_tmp f fs) = f_migrated fs) as (E1 & E2 & E3).
  { unfold remove_tmp. by destruct (fm_removed f). }
  destruct (Unmarshal blob) as [st|err] eqn:Eun; [|by left].
  destruct (fm_mkdir f); [by left|].
  set (t0 := default emptyTables (f_tmp (remove_tmp f fs))).
  assert (t0 = emptyTables ∨ fm_removed f = false ∧ f_tmp fs = Some t0) as Ht0.
  { unfold t0, remove_tmp. destruct (fm_removed f); cbn; [by left|]. destruct (f_tmp fs); [by right|by left]. }
  destruct (run_db (importStateToSQLite c (o st) appliedAt st) (fm_import f) t0) as [[[]|e] t] eqn:Er.
  - destruct (fm_rename_db f); [left; unfold remove_tmp; by destruct (fm_removed f)|].
    destruct (fm_rename_state f) as [err|]; right; (split; [done|]); exists blob, st, t0, t; cbn;
      (split_and!; [done..|]); [right|left]; eauto.
  - left. unfold remove_tmp. by destruct (fm_removed f).
Qed.

(** A call that has nothing to do. *)
Lemma migrate_skips c o appliedAt f fs fs' :
  MigrateJSONStateToSQLite true c o appliedAt f fs = (Ok false, fs') →
  fs' = fs ∧ (is_Some (f_db fs) ∨ f_state fs = None).
Proof.
  unfold MigrateJSONStateToSQLite. cbn [negb]. destruct (fm_stat f); [done|].
  destruct (f_db fs) as [t|]; [intros [= <-]; eauto|]. destruct (fm_read f); [done|].
  destruct (f_state fs) as [blob|] eqn:Ef; [|intros [= <-]; eauto]. cbv zeta.
  repeat (case_match; try done).
Qed.
End files.

(** ** What a bus on the new file finds *)

Section imported.
Context (c : Config.t) (st : PersistentState.t) (t : Tables).
Context (Hst : importable c st) (Ht : imported_tables c st t).

Lemma imported_has_cursor a n d : imported_row c st a n = Some d → has_cursor st a = true.
Proof.
  intros Hd%imported_row_bounds. unfold has_cursor, inbox_events in *.
  destruct (PersistentState.Inboxes st !! a); [done|]. cbn in Hd. lia.
Qed.

Lemma imported_row_message a n d :
  imported_row c st a n = Some d →
  ∃ pm, PersistentState.Messages st !! DeliveryRow.message_id d = Some pm ∧
        d = import_row c (DeliveryRow.message_id d) (toMessage pm).
Proof.
  unfold imported_row. destruct (entry_from _ _ n) as [e|]; cbn; [|done].
  destruct (PersistentState.Messages st !! InboxEvent.MessageID e) as [pm|] eqn:Hpm; [|done].
  intros [= <-]. by exists pm.
Qed.

Lemma imported_ledger_ok : ledger_ok t.
Proof.
  constructor.
  - intros a n d Hd. rewrite (im_deliveries _ _ _ Ht) in Hd. cbn in Hd.
    rewrite (im_cursors _ _ _ Ht), (imported_has_cursor _ _ _ Hd). eexists. split; [done|].
    apply imported_row_bounds in Hd. pose proof (ib_bases _ _ Hst a). cbn. lia.
  - intros a cur. rewrite (im_cursors _ _ _ Ht). case_match; [|done]. intros [= <-]. cbn.
    pose proof (ib_bases _ _ Hst a). lia.
  - intros [a n] [a' n'] d d'. rewrite !(im_deliveries _ _ _ Ht). cbn. intros Hd Hd' Hid.
    destruct (ib_once _ _ Hst _ _ _ _ _ _ Hd Hd' Hid) as [-> ->]. done.
  - intros [a n] d. rewrite (im_deliveries _ _ _ Ht). cbn. intros (pm & Hpm & _)%imported_row_message.
    rewrite (im_messages _ _ _ Ht), Hpm. eauto.
  - intros a n d cur Hd. rewrite (im_deliveries _ _ _ Ht) in Hd. cbn in Hd.
    rewrite (im_cursors _ _ _ Ht). case_match; [|done]. intros [= <-]. cbn.
    apply imported_row_bounds in Hd. lia.
Qed.

(** The events of an inbox that are still to be delivered, from its base on. *)
Lemma imported_offers a now i :
  (∀ k pm, PersistentState.Messages st !! k = Some pm → message_times_ok (toMessage pm)) →
  i ∈ offers a (snapshot_base st a) now t ↔
  ∃ n e pm, inbox_events st a !! n = Some e ∧
    PersistentState.Messages st !! InboxEvent.MessageID e = Some pm ∧
    text_lt now (timeToString (import_expiry c (toMessage pm))) = true ∧
    i = Sequenced.mk (snapshot_base st a + Z.of_nat n) (toMessage pm).
Proof.
  intros Htimes. rewrite elem_of_offers. unfold due_item. setoid_rewrite (im_deliveries _ _ _ Ht).
  setoid_rewrite (im_messages _ _ _ Ht). cbn [fst snd]. destruct i as [seq msg]. cbn. split.
  - intros (d & m & Hd & _ & He & Hm & -> & Hle). pose proof Hd as Hrow. unfold imported_row in Hd.
    destruct (entry_from _ _ seq) as [e|] eqn:Ee; cbn in Hd; [|done].
    destruct (PersistentState.Messages st !! InboxEvent.MessageID e) as [pm|] eqn:Hpm; [|done]. injection Hd as <-.
    cbn in *. rewrite Hpm in Hm. injection Hm as <-. unfold entry_from in Ee.
    destruct (_ <=? seq); [|done]. exists (Z.to_nat (seq - snapshot_base st a)), e, pm.
    split_and!; [done..|]. f_equal; [lia|].
    rewrite <-(ib_messages _ _ Hst _ _ Hpm) at 1. by apply scan_message_row, (Htimes _ _ Hpm).
  - intros (n & e & pm & He & Hpm & Hexp & [= -> ->]).
    destruct (imported_row_at c st a n e He) as (pm' & Hpm' & Hrow). simplify_eq.
    exists (import_row c (InboxEvent.MessageID e) (toMessage pm)), (message_row (toMessage pm)).
    rewrite Hrow. cbn. split_and!; [done|done|done|by rewrite Hpm| |lia].
    rewrite <-(ib_messages _ _ Hst _ _ Hpm) at 1. symmetry. by apply scan_message_row, (Htimes _ _ Hpm).
Qed.

Lemma imported_loads now order s :
  (∀ k pm, PersistentState.Messages st !! k = Some pm → message_times_ok (toMessage pm)) →
  loaded now order t s →
  messages s = toMessage <$> PersistentState.Messages st ∧ nextMessageID s = PersistentState.NextMessageID st.
Proof.
  intros Htimes [Hm _ _ Hn]. split; [|apply Hn, (im_counters _ _ _ Ht)]. rewrite Hm. apply map_eq. intros k.
  rewrite map_lookup_imap, lookup_fmap, (im_messages _ _ _ Ht).
  destruct (PersistentState.Messages st !! k) as [pm|] eqn:Hpm; [|done]. cbn. f_equal.
  rewrite <-(ib_messages _ _ Hst _ _ Hpm) at 1. by apply scan_message_row, (Htimes _ _ Hpm).
Qed.

Lemma imported_answers now order s k e :
  loaded now order t s → Forall plain_key order → k ∈ order → plain_triple k →
  PersistentState.Idempotency st !! key_of k = Some e → time_ok (IdempotencyEntry.CreatedAt e) →
  text_le (timeToString now) (timeToString (Add (IdempotencyEntry.CreatedAt e) (receipt_window c))) = true →
  idempotency s !! key_of k = Some e.
Proof.
  intros [_ Hload _ _] Hplain Hin Hk He Htime Hexp.
  assert (t_idempotency t !! k = Some (imported_receipt c e)) as Hr.
  { by rewrite (im_receipts _ _ _ Ht), He by done. }
  rewrite (load_receipts_lookup _ _ k (imported_receipt c e) (IdempotencyEntry.CreatedAt e) order ∅ _ Hload Hplain);
    [by destruct e|apply Hk|exact Hr|exact Hexp| |by left].
  cbn. by apply parse_timeToString.
Qed.
End imported.

(** C28: A migration without faults puts the whole import in place of the
    state file, which it keeps as the backup, and a bus that loads the new file
    has the messages of the snapshot, draws the next identifier and knows the
    receipts whose window is open; the ledger is well-formed; and each agent is
    offered exactly the events its inbox still had to deliver, in their order
    from its base on. *)
Theorem migration_preserves `{Codec} c o appliedAt fs blob st :
  importable c st → order_for (o st) st →
  (∀ k pm, PersistentState.Messages st !! k = Some pm → message_times_ok (toMessage pm)) →
  f_db fs = None → f_state fs = Some blob → Unmarshal blob = Ok st →
  ∃ t, MigrateJSONStateToSQLite true c o appliedAt no_migrate_faults fs
       = (Ok true, mkFiles None (Some blob) (Some t) None) ∧
    ledger_ok t ∧ applied t = true ∧
    (∀ a now i, i ∈ offers a (snapshot_base st a) now t ↔
       ∃ n e pm, inbox_events st a !! n = Some e ∧
         PersistentState.Messages st !! InboxEvent.MessageID e = Some pm ∧
         text_lt now (timeToString (import_expiry c (toMessage pm))) = true ∧
         i = Sequenced.mk (snapshot_base st a + Z.of_nat n) (toMessage pm)) ∧
    ∀ now order s0 f w s w1, loadAll now order s0 f (w, t) = (Ok s, w1) →
      messages s = toMessage <$> PersistentState.Messages st ∧
      nextMessageID s = PersistentState.NextMessageID st ∧
      ∀ k e, Forall plain_key order → k ∈ order → plain_triple k →
        PersistentState.Idempotency st !! key_of k = Some e → time_ok (IdempotencyEntry.CreatedAt e) →
        text_le (timeToString now) (timeToString (Add (IdempotencyEntry.CreatedAt e) (receipt_window c))) = true →
        idempotency s !! key_of k = Some e.
Proof.
  intros Hst Ho Htimes Hdb Hfs Hun.
  destruct (import_runs c (o st) st Hst Ho appliedAt) as (t & Hrun%runs_run_db & Ht). exists t. split_and!.
  - unfold MigrateJSONStateToSQLite. cbn [negb fm_stat fm_read no_migrate_faults]. rewrite Hdb, Hfs, Hun.
    cbn -[importStateToSQLite run_db]. rewrite Hrun. cbn. by rewrite Hfs.
  - by eapply imported_ledger_ok.
  - apply Ht.
  - intros a now i. by apply imported_offers.
  - intros now order s0 f w s w1 Hload. apply loadAll_ok in Hload as [_ Hl]. cbn in Hl.
    destruct (imported_loads c st t Hst Ht now order s Htimes Hl) as [H1 H2]. split_and!; [done|done|].
    intros k e. by eapply imported_answers.
Qed.

(** *** The snapshot of the run above is importable *)

Lemma snapshot_events a : inbox_events snapshot a = if bool_decide (a = bob) then inbox_events snapshot bob else [].
Proof.
  case_bool_decide as Hb; [by subst|]. destruct (decide (a = alice)) as [->|Ha]; [vm_compute; reflexivity|].
  unfold inbox_events. replace (PersistentState.Inboxes snapshot !! a) with (@None (list InboxEvent.t)); [done|].
  symmetry. apply not_elem_of_dom. replace (dom (PersistentState.Inboxes snapshot)) with ({[alice; bob]} : gset string);
    [set_solver|vm_compute; reflexivity].
Qed.

Lemma snapshot_row c a n d :
  imported_row c snapshot a n = Some d → a = bob ∧ n = 0.
Proof.
  intros Hd%imported_row_bounds. rewrite snapshot_events in Hd. case_bool_decide as Ha; [|cbn in Hd; lia].
  subst. split; [done|]. change (snapshot_base snapshot bob) with 0 in Hd.
  replace (length (inbox_events snapshot bob)) with 1%nat in Hd by (vm_compute; reflexivity). lia.
Qed.

(** Decides a property of the entries of a concrete map. *)
Ltac map_decide :=
  match goal with |- ?P => refine (proj1 (bool_decide_eq_true P) _); vm_compute; reflexivity end.

Lemma snapshot_importable c : importable c snapshot.
Proof.
  constructor.
  - change (map_Forall (λ k a, Agent.AgentID a = k) (PersistentState.Agents snapshot)). map_decide.
  - change (map_Forall (λ k v, Conversation.ConversationID v = k) (PersistentState.Conversations snapshot)). map_decide.
  - change (map_Forall (λ k pm, Message.MessageID (toMessage pm) = k) (PersistentState.Messages snapshot)). map_decide.
  - intros a n d a' n' d' [-> ->]%snapshot_row [-> ->]%snapshot_row _. done.
  - intros key e Hk. assert (key ∈ dom (PersistentState.Idempotency snapshot)) as Hin by (apply elem_of_dom; eauto).
    replace (dom (PersistentState.Idempotency snapshot))
      with ({[key_of (alice, bob, "r-1"%stdpp); key_of (alice, bob, "r-2"%stdpp)]} : gset string) in Hin
      by (vm_compute; reflexivity).
    apply elem_of_union in Hin as [->%elem_of_singleton| ->%elem_of_singleton].
    + exists (alice, bob, "r-1"%stdpp). split; [|done]. split; [split|]; vm_compute; reflexivity.
    + exists (alice, bob, "r-2"%stdpp). split; [|done]. split; [split|]; vm_compute; reflexivity.
  - intros a. unfold snapshot_base. destruct (PersistentState.InboxBase snapshot !! a) as [b|] eqn:Eb; cbn; [|lia].
    revert a b Eb. change (map_Forall (λ _ b, 0 ≤ b) (PersistentState.InboxBase snapshot)). map_decide.
Qed.

Lemma snapshot_times k pm :
  PersistentState.Messages snapshot !! k = Some pm → message_times_ok (toMessage pm).
Proof.
  assert (map_Forall (λ _ pm, Forall time_ok [Message.CreatedAt (toMessage pm); Message.TerminalAt (toMessage pm);
    Message.DeliveredAt (toMessage pm); Message.LastProgressAt (toMessage pm);
    Message.TTLExpiresAt (toMessage pm); Message.GraceUntil (toMessage pm)]) (PersistentState.Messages snapshot))
    as H by map_decide.
  intros Hk. specialize (H k pm Hk). cbv beta in H. rewrite !Forall_cons in H.
  destruct H as (? & ? & ? & ? & ? & ? & _). by constructor.
Qed.

(** A codec that knows one document. *)
Definition snapshot_codec : Codec := {|
  Marshal _ := Ok "snapshot"%stdpp;
  Unmarshal blob := if bool_decide (blob = "snapshot"%stdpp) then Ok snapshot else Err "unknown"%stdpp |}.

Lemma migration_preserves_witness :
  ∃ t, @MigrateJSONStateToSQLite snapshot_codec true plain_config import_order (at_s 5) no_migrate_faults
         (mkFiles (Some "snapshot"%stdpp) None None None)
       = (Ok true, mkFiles None (Some "snapshot"%stdpp) (Some t) None) ∧ ledger_ok t.
Proof.
  destruct (@migration_preserves snapshot_codec plain_config import_order (at_s 5)
    (mkFiles (Some "snapshot"%stdpp) None None None) "snapshot"%stdpp snapshot) as (t & Hr & Hok & _).
  - apply snapshot_importable.
  - constructor; apply enumerates_elements.
  - exact snapshot_times.
  - reflexivity.
  - reflexivity.
  - reflexivity.
  - exists t. split; [exact Hr|exact Hok].
Defined.
