(* ===== verification/Nsmigrate.v ===== *)
(** * The namespace migration: [migrate.go] and [report.go] of [internal/nsmigrate]

    One run of the migration over the tables of [Sqlite]: the checks before the
    database is opened, the inspection of the eight identity surfaces, the plan,
    and the updates in one transaction.

    What the code takes from elsewhere is an argument: the formats of [%q], of a
    file URL and of the engine's errors, the file system, and the order in which
    a set is ranged over.  Columns hold the values they encode, so a
    [participants] column that is not an array of strings is told by
    [Env.malformed].  Counts are unbounded integers. *)
From stdpp Require Import gmap strings list sorting.
From Stdlib Require Import ZArith Lia Ascii.
From S2P Require Import Prelude GoBase Json Types Scope Rfc3339 Sqlite Delivery Manifest.

(** ** Surfaces *)

Definition s_agents : string := "agents.agent_id"%stdpp.
Definition s_from : string := "messages.from_agent"%stdpp.
Definition s_to : string := "messages.to_agent"%stdpp.
Definition s_participants : string := "conversations.participants"%stdpp.
Definition s_deliveries : string := "deliveries.target_agent_id"%stdpp.
Definition s_cursors : string := "delivery_cursors.target_agent_id"%stdpp.
Definition s_receipt_from : string := "idempotency.from_agent"%stdpp.
Definition s_receipt_to : string := "idempotency.to_agent"%stdpp.

Definition surfaces : list string :=
  [s_agents; s_from; s_to; s_participants; s_deliveries; s_cursors; s_receipt_from; s_receipt_to].

Definition dispositions : list Disposition :=
  [DispositionMigrate; DispositionRetire; DispositionSplit; DispositionUnchanged].

(** ** Options, mappings, reports *)

Module Options.
Record t := mk {
  DBPath : string;
  Authority : string;
  Apply : bool;
  AcknowledgeCopy : bool;
  ControlPlaneAgents : list string }.
End Options.

Record mapping := mkMapping { row : ManifestRow; active : bool; alreadyApplied : bool }.

Record conversationPlan := mkPlan { cp_id : string; cp_participants : list string; cp_changed : bool }.

Record inspection := mkInspection {
  present : gset string;
  occurrences : gmap string (gmap string Z);
  conversations : list conversationPlan }.

Module Collision.
Record t := mk { Code : string; SourceID : string; TargetID : string; ManifestLine : Z }.
End Collision.

Module Report.
Record t := mk {
  Version : Z;
  Mode : string;
  Authority : string;
  Status : string;
  ManifestRows : Z;
  ManifestByDisposition : gmap string Z;
  PlannedByDisposition : gmap string Z;
  RewritesBySurface : gmap string Z;
  TotalRewrites : Z;
  AlreadyAppliedMappings : Z;
  Collisions : list Collision.t;
  Refusals : list Refusal }.
End Report.

Definition set_status (status : string) (r : Report.t) : Report.t :=
  Report.mk (Report.Version r) (Report.Mode r) (Report.Authority r) status (Report.ManifestRows r)
    (Report.ManifestByDisposition r) (Report.PlannedByDisposition r) (Report.RewritesBySurface r)
    (Report.TotalRewrites r) (Report.AlreadyAppliedMappings r) (Report.Collisions r) (Report.Refusals r).
Definition add_refusals (l : list Refusal) (r : Report.t) : Report.t :=
  Report.mk (Report.Version r) (Report.Mode r) (Report.Authority r) (Report.Status r) (Report.ManifestRows r)
    (Report.ManifestByDisposition r) (Report.PlannedByDisposition r) (Report.RewritesBySurface r)
    (Report.TotalRewrites r) (Report.AlreadyAppliedMappings r) (Report.Collisions r) (Report.Refusals r ++ l).
Definition add_collision (c : Collision.t) (r : Report.t) : Report.t :=
  Report.mk (Report.Version r) (Report.Mode r) (Report.Authority r) (Report.Status r) (Report.ManifestRows r)
    (Report.ManifestByDisposition r) (Report.PlannedByDisposition r) (Report.RewritesBySurface r)
    (Report.TotalRewrites r) (Report.AlreadyAppliedMappings r) (Report.Collisions r ++ [c]) (Report.Refusals r).

(** [m[k] += n] *)
Definition count (k : string) (n : Z) (m : gmap string Z) : gmap string Z := <[k := default 0 (m !! k) + n]> m.

Definition count_row (d : Disposition) (r : Report.t) : Report.t :=
  Report.mk (Report.Version r) (Report.Mode r) (Report.Authority r) (Report.Status r) (Report.ManifestRows r + 1)
    (count (Disposition_string d) 1 (Report.ManifestByDisposition r)) (Report.PlannedByDisposition r)
    (Report.RewritesBySurface r) (Report.TotalRewrites r) (Report.AlreadyAppliedMappings r)
    (Report.Collisions r) (Report.Refusals r).
Definition count_planned (d : Disposition) (r : Report.t) : Report.t :=
  Report.mk (Report.Version r) (Report.Mode r) (Report.Authority r) (Report.Status r) (Report.ManifestRows r)
    (Report.ManifestByDisposition r) (count (Disposition_string d) 1 (Report.PlannedByDisposition r))
    (Report.RewritesBySurface r) (Report.TotalRewrites r) (Report.AlreadyAppliedMappings r)
    (Report.Collisions r) (Report.Refusals r).
Definition count_rewrites (surface : string) (n : Z) (r : Report.t) : Report.t :=
  Report.mk (Report.Version r) (Report.Mode r) (Report.Authority r) (Report.Status r) (Report.ManifestRows r)
    (Report.ManifestByDisposition r) (Report.PlannedByDisposition r)
    (count surface n (Report.RewritesBySurface r)) (Report.TotalRewrites r + n) (Report.AlreadyAppliedMappings r)
    (Report.Collisions r) (Report.Refusals r).
Definition count_applied (r : Report.t) : Report.t :=
  Report.mk (Report.Version r) (Report.Mode r) (Report.Authority r) (Report.Status r) (Report.ManifestRows r)
    (Report.ManifestByDisposition r) (Report.PlannedByDisposition r) (Report.RewritesBySurface r)
    (Report.TotalRewrites r) (Report.AlreadyAppliedMappings r + 1) (Report.Collisions r) (Report.Refusals r).

Definition zero_counts (keys : list string) : gmap string Z := list_to_map ((λ k, (k, 0)) <$> keys).

Definition newReport (o : Options.t) : Report.t :=
  Report.mk 1 (if Options.Apply o then "apply" else "dry-run")%stdpp (Options.Authority o) "refused"%stdpp 0
    (zero_counts (Disposition_string <$> dispositions)) (zero_counts (Disposition_string <$> dispositions))
    (zero_counts surfaces) 0 0 [] [].

Definition RefusedReport (authority : string) (apply : bool) (refusals : list Refusal) : Report.t :=
  add_refusals refusals (newReport (Options.mk ε authority apply false [])).

(** An error, told apart by [errors.As]. *)
Inductive NsError := RefusalError (refusals : list Refusal) | PlainError (text : string).

Definition refuse (code location detail : string) : NsError :=
  RefusalError [mkRefusal code location detail].

Definition reject (r : Report.t) (code location detail : string) : Report.t * option NsError :=
  let refusal := mkRefusal code location detail in
  (add_refusals [refusal] (set_status "refused"%stdpp r), Some (RefusalError [refusal])).

Definition rejectFromError (r : Report.t) (err : NsError) : Report.t * option NsError :=
  match err with
  | PlainError text => reject r "database_error"%stdpp "database"%stdpp text
  | RefusalError refusals => (add_refusals refusals (set_status "refused"%stdpp r), Some err)
  end.

Definition selectMappings (rows : list ManifestRow) (a : Authority) (r : Report.t) : list mapping * Report.t :=
  foldl (λ '(selected, r) row,
    if bool_decide (SourceAuthority row ≠ a) then (selected, r)
    else (selected ++ [mkMapping row false false], count_row (row_disposition row) r)) ([], r) rows.

(** ** Inspection *)

Definition addOccurrence (surface identity : string) (i : inspection) : inspection :=
  if is_empty identity then i else
  mkInspection ({[ identity ]} ∪ present i)
    (<[surface := count identity 1 (default ∅ (occurrences i !! surface))]> (occurrences i))
    (conversations i).

(** The [SELECT] statements. *)
Definition select_agents (t : Tables) : list string := (map_to_list (t_agents t)).*1.
Definition select_from (t : Tables) : list string := MessageRow.from_agent <$> (map_to_list (t_messages t)).*2.
Definition select_to (t : Tables) : list string :=
  filter (λ a, a ≠ ε) (MessageRow.to_agent <$> (map_to_list (t_messages t)).*2).
Definition select_deliveries (t : Tables) : list string := (map_to_list (t_deliveries t)).*1.*1.
Definition select_cursors (t : Tables) : list string := (map_to_list (t_delivery_cursors t)).*1.
Definition select_receipt_from (t : Tables) : list string := (map_to_list (t_idempotency t)).*1.*1.*1.
Definition select_receipt_to (t : Tables) : list string :=
  filter (λ a, a ≠ ε) (map_to_list (t_idempotency t)).*1.*1.*2.

Definition queries : list (string * (Tables → list string)) :=
  [(s_agents, select_agents); (s_from, select_from); (s_to, select_to);
   (s_deliveries, select_deliveries); (s_cursors, select_cursors);
   (s_receipt_from, select_receipt_from); (s_receipt_to, select_receipt_to)].

(** A query and its rows; with them the error [rows.Err()] reports when they
    end early. *)
Definition read_rows {A} (select : Tables → list A) : Db (list A * option string) := λ f w,
  match f w.1 with
  | Some (CallFails e) => (Err (EngineError e), (S w.1, w.2))
  | Some (RowsStop n e) => (Ok (take n (select w.2), Some e), (S w.1, w.2))
  | None => (Ok (select w.2, None), (S w.1, w.2))
  end.

Fixpoint inspect_queries (l : list (string * (Tables → list string))) (i : inspection)
    : Db (result NsError inspection) :=
  match l with
  | [] => mret (Ok i)
  | (surface, select) :: l =>
      rows ← try (read_rows select);
      match rows with
      | Err _ => mret (Err (refuse "database_schema"%stdpp surface "required identity column is unavailable"%stdpp))
      | Ok (_, Some e) => mret (Err (refuse "database_error"%stdpp surface ("read identity values: "%stdpp +:+ e)))
      | Ok (identities, None) => inspect_queries l (foldl (λ i a, addOccurrence surface a i) i identities)
      end
  end.

Definition conversation_le (p q : string * ConversationRow.t) : Prop := String.le p.1 q.1.
#[export] Instance conversation_le_dec : RelDecision conversation_le.
Proof. intros p q. apply String.le_dec. Defined.

Definition select_conversations (t : Tables) : list (string * ConversationRow.t) :=
  merge_sort conversation_le (map_to_list (t_conversations t)).

Section inspect.
Context (malformed : string → bool).

Fixpoint inspect_participants (l : list (string * ConversationRow.t)) (i : inspection)
    : result NsError inspection :=
  match l with
  | [] => Ok i
  | (id, c) :: l =>
      if malformed id then
        Err (refuse "invalid_participants_json"%stdpp s_participants
               "conversation participants must be a JSON array of strings"%stdpp)
      else
        let i := foldl (λ i a, addOccurrence s_participants a i) i (ConversationRow.participants c) in
        inspect_participants l (mkInspection (present i) (occurrences i)
          (conversations i ++ [mkPlan id (ConversationRow.participants c) false]))
  end.

Definition inspectConversations (i : inspection) : Db (result NsError inspection) :=
  rows ← try (read_rows select_conversations);
  mret match rows with
       | Err _ => Err (refuse "database_schema"%stdpp s_participants "required identity column is unavailable"%stdpp)
       | Ok (l, stop) =>
           match inspect_participants l i, stop with
           | Ok _, Some e => Err (refuse "database_error"%stdpp s_participants ("read participants: "%stdpp +:+ e))
           | outcome, _ => outcome
           end
       end.

Definition inspect : Db (result NsError inspection) :=
  outcome ← inspect_queries queries (mkInspection ∅ ∅ []);
  match outcome with Err e => mret (Err e) | Ok i => inspectConversations i end.
End inspect.

(** ** Planning *)

Definition occurrence (i : inspection) (surface identity : string) : Z :=
  default 0 (default ∅ (occurrences i !! surface) !! identity).

(** One pass of the loop of [preflight]. *)
Definition preflight_mapping (i : inspection) (m : mapping) (r : Report.t)
    : Report.t * result NsError mapping :=
  let source := SourceID (row m) in
  let target := TargetID (row m) in
  if bool_decide (source = target) then (r, Ok m) else
  let sourcePresent := bool_decide (source ∈ present i) in
  let targetPresent := bool_decide (target ∈ present i) in
  if sourcePresent && targetPresent then
    (add_collision (Collision.mk "target_occupied"%stdpp source target (Line (row m))) r,
     Err (refuse "target_occupied"%stdpp (at_line (Line (row m)))
            "target_id is already occupied while its source identity is still present"%stdpp))
  else
    let m := mkMapping (row m) sourcePresent (negb sourcePresent && targetPresent) in
    let r := if active m then
               foldl (λ r surface, count_rewrites surface (occurrence i surface source) r)
                 (count_planned (row_disposition (row m)) r) surfaces
             else r in
    ((if alreadyApplied m then count_applied r else r), Ok m).

Fixpoint preflight_mappings (i : inspection) (l : list mapping) (r : Report.t)
    : Report.t * result NsError (list mapping) :=
  match l with
  | [] => (r, Ok [])
  | m :: l =>
      match preflight_mapping i m r with
      | (r, Err e) => (r, Err e)
      | (r, Ok m) =>
          match preflight_mappings i l r with
          | (r, Err e) => (r, Err e)
          | (r, Ok l) => (r, Ok (m :: l))
          end
      end
  end.

Definition replacements (l : list mapping) : gmap string string :=
  foldl (λ R m, if active m then <[SourceID (row m) := TargetID (row m)]> R else R) ∅ l.

Definition replace_participant (R : gmap string string) (a : string) : string := default a (R !! a).

Definition has_scope (scope : string) (l : list string) : bool :=
  existsb (λ a, bool_decide (explicitScope a = Some scope)) l.

Fixpoint planConversations (R : gmap string string) (l : list conversationPlan)
    : result NsError (list conversationPlan) :=
  match l with
  | [] => Ok []
  | c :: l =>
      let participants := replace_participant R <$> cp_participants c in
      if has_scope "personal"%stdpp participants && has_scope "ucla"%stdpp participants then
        Err (refuse "mixed_scope_participants"%stdpp s_participants
               "conversation would contain both personal.* and ucla.* participants"%stdpp)
      else
        match planConversations R l with
        | Err e => Err e
        | Ok l => Ok (mkPlan (cp_id c) participants
                        (cp_changed c || existsb (λ a, bool_decide (is_Some (R !! a))) (cp_participants c)) :: l)
        end
  end.

(** Mappings and conversations are changed in place: the new ones are returned. *)
Definition preflight (l : list mapping) (i : inspection) (r : Report.t)
    : Report.t * result NsError (list mapping * inspection) :=
  let named := list_to_set ((λ m, SourceID (row m)) <$> l) ∪ list_to_set ((λ m, TargetID (row m)) <$> l) in
  if negb (bool_decide (present i ⊆ named)) then
    (r, Err (refuse "unknown_identity"%stdpp "database"%stdpp
               "identity is not named by the manifest under the declared authority"%stdpp))
  else
  match preflight_mappings i l r with
  | (r, Err e) => (r, Err e)
  | (r, Ok l) =>
      match planConversations (replacements l) (conversations i) with
      | Err e => (r, Err e)
      | Ok c => (r, Ok (l, mkInspection (present i) (occurrences i) c))
      end
  end.

(** ** Updates *)

(** [UPDATE ... SET k = ... WHERE ...] on a column of the primary key: the rows
    move, and none may move onto another row. *)
Definition move_rows {K V} `{Countable K} (table : string) (hit : K → bool) (to : K → K) (m : gmap K V)
    : result DBError (Z * gmap K V) :=
  let moved := filter (λ '(k, _), hit k = true) m in
  if bool_decide (map_Forall (λ k _, to k = k ∨ m !! to k = None) moved) then
    Ok (Z.of_nat (size moved), kmap (λ k, if hit k then to k else k) m)
  else Err (UniqueViolation table).

(** [UPDATE ... SET v = ... WHERE ...] on other columns. *)
Definition set_rows {K V} `{Countable K} (hit : V → bool) (to : V → V) (m : gmap K V) : Z * gmap K V :=
  (Z.of_nat (size (filter (λ '(_, v), hit v = true) m)), (λ v, if hit v then to v else v) <$> m).

Definition equals (a b : string) : bool := bool_decide (a = b).

Definition set_from_agent (a : string) (m : MessageRow.t) : MessageRow.t :=
  MessageRow.mk (MessageRow.typ m) a (MessageRow.to_agent m) (MessageRow.conversation_id m)
    (MessageRow.request_id m) (MessageRow.in_reply_to m) (MessageRow.body m) (MessageRow.meta m)
    (MessageRow.attachments m) (MessageRow.state m) (MessageRow.created_at m) (MessageRow.terminal_at m)
    (MessageRow.delivered_at m) (MessageRow.last_progress_at m) (MessageRow.ttl_expires_at m)
    (MessageRow.grace_until m) (MessageRow.queued_for_agent m).
Definition set_to_agent (a : string) (m : MessageRow.t) : MessageRow.t :=
  MessageRow.mk (MessageRow.typ m) (MessageRow.from_agent m) a (MessageRow.conversation_id m)
    (MessageRow.request_id m) (MessageRow.in_reply_to m) (MessageRow.body m) (MessageRow.meta m)
    (MessageRow.attachments m) (MessageRow.state m) (MessageRow.created_at m) (MessageRow.terminal_at m)
    (MessageRow.delivered_at m) (MessageRow.last_progress_at m) (MessageRow.ttl_expires_at m)
    (MessageRow.grace_until m) (MessageRow.queued_for_agent m).
Definition set_participants (l : list string) (c : ConversationRow.t) : ConversationRow.t :=
  ConversationRow.mk (ConversationRow.title c) l (ConversationRow.status c) (ConversationRow.message_count c)
    (ConversationRow.created_at c) (ConversationRow.last_message_at c) (ConversationRow.meta c).

(** A statement with the number of rows it changed. *)
Abbreviation Update := (string → string → Tables → result DBError (Z * Tables)).

Definition update_agents : Update := λ target source t,
  match move_rows "agents"%stdpp (equals source) (λ _, target) (t_agents t) with
  | Err e => Err e
  | Ok (n, m) => Ok (n, with_agents m t)
  end.
Definition update_from : Update := λ target source t,
  let '(n, m) := set_rows (λ m, equals source (MessageRow.from_agent m)) (set_from_agent target) (t_messages t) in
  Ok (n, with_messages m t).
Definition update_to : Update := λ target source t,
  let '(n, m) := set_rows (λ m, equals source (MessageRow.to_agent m) && negb (is_empty (MessageRow.to_agent m)))
                   (set_to_agent target) (t_messages t) in
  Ok (n, with_messages m t).
Definition update_target : Update := λ target source t,
  match move_rows "deliveries"%stdpp (λ k, equals source k.1) (λ k, (target, k.2)) (t_deliveries t) with
  | Err e => Err e
  | Ok (n, m) => Ok (n, with_deliveries m t)
  end.
Definition update_cursors : Update := λ target source t,
  match move_rows "delivery_cursors"%stdpp (equals source) (λ _, target) (t_delivery_cursors t) with
  | Err e => Err e
  | Ok (n, m) => Ok (n, with_delivery_cursors m t)
  end.
Definition update_receipt_from : Update := λ target source t,
  match move_rows "idempotency"%stdpp (λ k, equals source k.1.1) (λ k, (target, k.1.2, k.2)) (t_idempotency t) with
  | Err e => Err e
  | Ok (n, m) => Ok (n, with_idempotency m t)
  end.
Definition update_receipt_to : Update := λ target source t,
  match move_rows "idempotency"%stdpp (λ k, equals source k.1.2 && negb (is_empty k.1.2))
          (λ k, (k.1.1, target, k.2)) (t_idempotency t) with
  | Err e => Err e
  | Ok (n, m) => Ok (n, with_idempotency m t)
  end.

Definition updates : list (string * Update) :=
  [(s_agents, update_agents); (s_from, update_from); (s_to, update_to);
   (s_deliveries, update_target); (s_cursors, update_cursors);
   (s_receipt_from, update_receipt_from); (s_receipt_to, update_receipt_to)].

Definition update_participants (l : list string) (id : string) (t : Tables) : Z * Tables :=
  match t_conversations t !! id with
  | Some c => (1, with_conversations (<[id := set_participants l c]> (t_conversations t)) t)
  | None => (0, t)
  end.

Definition plan_le (p q : conversationPlan) : Prop := String.le (cp_id p) (cp_id q).
#[export] Instance plan_le_dec : RelDecision plan_le.
Proof. intros p q. apply String.le_dec. Defined.

Section apply.
(** [err.Error()] of an error of the engine. *)
Context (Error : DBError → string).

(** [fmt.Errorf("rewrite %s changed %d rows; preflight planned %d")] *)
Definition miscounted (surface : string) (affected planned : Z) : string :=
  "rewrite "%stdpp +:+ surface +:+ " changed "%stdpp +:+ FormatInt affected
  +:+ " rows; preflight planned "%stdpp +:+ FormatInt planned.

(** The error of a loop body ends the loop. *)
Fixpoint until_error {A} (body : A → Db (option string)) (l : list A) : Db (option string) :=
  match l with
  | [] => mret None
  | a :: l =>
      e ← body a;
      match e with Some e => mret (Some e) | None => until_error body l end
  end.

Definition apply_update (i : inspection) (m : mapping) (u : string * Update) : Db (option string) :=
  outcome ← try (call (u.2 (TargetID (row m)) (SourceID (row m))));
  mret match outcome with
       | Err e => Some ("rewrite "%stdpp +:+ u.1 +:+ ": "%stdpp +:+ Error e)
       | Ok affected =>
           let expected := occurrence i u.1 (SourceID (row m)) in
           if affected =? expected then None else Some (miscounted u.1 affected expected)
       end.

Definition apply_mapping (i : inspection) (m : mapping) : Db (option string) :=
  if active m then until_error (apply_update i m) updates else mret None.

Definition apply_conversation (c : conversationPlan) : Db (option string) :=
  if cp_changed c then
    outcome ← try (call (λ t, Ok (update_participants (cp_participants c) (cp_id c) t)));
    mret match outcome with
         | Err e => Some ("rewrite conversations.participants: "%stdpp +:+ Error e)
         | Ok affected => if affected =? 1 then None else Some (miscounted s_participants affected 1)
         end
  else mret None.

Definition applyPlan (l : list mapping) (i : inspection) : Db (option string) :=
  e ← until_error (apply_mapping i) l;
  match e with
  | Some e => mret (Some e)
  | None => until_error apply_conversation (merge_sort plan_le (conversations i))
  end.
End apply.

(** ** A run *)

(** What the checks and the opening of the file meet. *)
Module Env.
Record t := mk {
  (** [os.Lstat]: whether the file is a symbolic link, and a regular file. *)
  lstat : string → result string (bool * bool);
  abs : string → result string string;
  (** [sql.Open] and [Ping] on a data source name. *)
  open : string → option string;
  ping : string → option string;
  (** The conversations whose participants are not an array of strings. *)
  malformed : string → bool }.
End Env.

Section run.
(** [%q]; [url.URL.String] of a file; [err.Error()] and the result code of an
    error of the engine; the order in which a set is ranged over. *)
Context (Quote FileURL : string → string).
Context (Error : DBError → string) (Code : DBError → option Z).
Context (range : gset string → list string).

Definition isSQLiteBusy (e : DBError) : bool :=
  match Code e with Some code => Z.land code 0xff =? 5 | None => false end.

Definition validateDBPath (env : Env.t) (path : string) : option string :=
  if is_empty path then Some "--db is required"%stdpp else
  match Env.lstat env path with
  | Err e => Some ("stat database: "%stdpp +:+ e)
  | Ok (symlink, regular) =>
      if symlink : bool then Some "database path must not be a symlink"%stdpp
      else if negb regular then Some "database path must be a regular file"%stdpp
      else None
  end.

Definition data_source (apply : bool) (absolute : string) : string :=
  FileURL absolute +:+ "?mode="%stdpp +:+ (if apply then "rw" else "ro")%stdpp
  +:+ "&_pragma=busy_timeout("%stdpp +:+ (if apply then "1000" else "5000")%stdpp
  +:+ ")&_pragma=foreign_keys(1)"%stdpp +:+ (if apply then "&_txlock=immediate"%stdpp else ε).

Definition openExistingDB (env : Env.t) (path : string) (apply : bool) : option string :=
  match Env.abs env path with
  | Err e => Some ("resolve database path: "%stdpp +:+ e)
  | Ok absolute =>
      let dsn := data_source apply absolute in
      match Env.open env dsn with
      | Some e => Some ("open database: "%stdpp +:+ e)
      | None =>
          match Env.ping env dsn with
          | Some e => Some ("open database: "%stdpp +:+ e)
          | None => None
          end
      end
  end.

(** The text of [NormalizeControlPlaneAgents]'s error. *)
Definition control_plane_error (agentID : string) : string :=
  "control-plane identity "%stdpp +:+ Quote agentID +:+ " must be unprefixed"%stdpp.

Definition validateControlPlaneAgreement (l : list mapping) (configured : list string) : option NsError :=
  let manifestIDs : gset string :=
    list_to_set (omap (λ m, if ControlPlane (row m) then Some (SourceID (row m)) else None) l) in
  match NormalizeControlPlaneAgents configured with
  | Err e => Some (refuse "control_plane_config"%stdpp "CONTROL_PLANE_AGENTS"%stdpp (control_plane_error e))
  | Ok normalized =>
      let configuredIDs : gset string := list_to_set normalized in
      match filter (λ id, id ∉ configuredIDs) (range manifestIDs) with
      | [] => None
      | id :: _ =>
          Some (refuse "control_plane_mismatch"%stdpp "manifest"%stdpp
                  ("control-plane identity "%stdpp +:+ Quote id
                   +:+ " is absent from CONTROL_PLANE_AGENTS"%stdpp))
      end
  end.

(** The transaction: what the body leaves is kept if it committed, and rolled
    back if not. *)
Definition unless_committed {A} (body : Db (A * bool)) : Db A := λ f w,
  match body f w with
  | (Ok (a, true), w') => (Ok a, w')
  | (Ok (a, false), (k, _)) => (Ok a, (k, w.2))
  | (Err e, (k, _)) => (Err e, (k, w.2))
  end.

Abbreviation Outcome := (Report.t * option NsError)%type.

(** The explicit [Rollback] of a run that changes nothing. *)
Definition finish (what : string) (r : Report.t) : Db (Outcome * bool) :=
  outcome ← try (exec id);
  mret (match outcome with
        | Err e => reject r "database_error"%stdpp "database"%stdpp (what +:+ Error e)
        | Ok _ => (r, None)
        end, false).

(** From [inspect] on. *)
Definition run_tx (env : Env.t) (o : Options.t) (selected : list mapping) (r : Report.t)
    : Db (Outcome * bool) :=
  inspected ← inspect (Env.malformed env);
  match inspected with
  | Err e => mret (rejectFromError r e, false)
  | Ok inspected =>
      match preflight selected inspected r with
      | (r, Err e) => mret (rejectFromError r e, false)
      | (r, Ok (selected, inspected)) =>
          if Report.TotalRewrites r =? 0 then
            finish "close read transaction: "%stdpp (set_status "no-op"%stdpp r)
          else if negb (Options.Apply o) then
            finish "close dry-run transaction: "%stdpp (set_status "ready"%stdpp r)
          else
            applied ← applyPlan Error selected inspected;
            match applied with
            | Some e => mret (reject r "apply_failed"%stdpp "database"%stdpp e, false)
            | None =>
                outcome ← try (exec id);
                mret match outcome with
                     | Err e => (reject r "apply_failed"%stdpp "database"%stdpp
                                   ("commit transaction: "%stdpp +:+ Error e), false)
                     | Ok _ => ((set_status "applied"%stdpp r, None), true)
                     end
            end
      end
  end.

Definition Run (env : Env.t) (manifest : list ManifestRow) (o : Options.t) : Db Outcome :=
  let r := newReport o in
  if negb (Options.AcknowledgeCopy o) then
    mret (reject r "copy_acknowledgment_required"%stdpp "database"%stdpp
            "refusing to operate without --acknowledge-copy"%stdpp)
  else
  match ParseAuthority Quote (Options.Authority o) with
  | Err e => mret (reject r "invalid_authority"%stdpp "authority"%stdpp e)
  | Ok authority =>
      match validateDBPath env (Options.DBPath o) with
      | Some e => mret (reject r "database_refused"%stdpp "database"%stdpp e)
      | None =>
          let '(selected, r) := selectMappings manifest authority r in
          if (length selected =? 0)%nat then
            mret (reject r "manifest_authority"%stdpp "manifest"%stdpp
                    "manifest has no rows for the declared authority"%stdpp)
          else
          match validateControlPlaneAgreement selected (Options.ControlPlaneAgents o) with
          | Some e => mret (rejectFromError r e)
          | None =>
              match openExistingDB env (Options.DBPath o) (Options.Apply o) with
              | Some e => mret (reject r "database_refused"%stdpp "database"%stdpp e)
              | None =>
                  begun ← try (exec id);
                  match begun with
                  | Err e =>
                      mret (if Options.Apply o && isSQLiteBusy e then
                              reject r "database_busy"%stdpp "database"%stdpp
                                "another process held a write lock when the apply transaction started"%stdpp
                            else reject r "database_error"%stdpp "database"%stdpp
                                   ("begin transaction: "%stdpp +:+ Error e))
                  | Ok _ => unless_committed (run_tx env o selected r)
                  end
              end
          end
      end
  end.
End run.
