(* ===== verification/NsmigrateSpec.v ===== *)
(** * What a run of the namespace migration does to the tables

    The renaming of identities as one function on the tables ([rename]), what
    the inspection finds, what the plan says, and that the updates carry out the
    renaming.  Swaps of a source with a free target make the renaming a
    permutation, hence injective on keys and its own inverse. *)
From stdpp Require Import gmap strings list sorting.
From Stdlib Require Import ZArith Lia Ascii.
From S2P Require Import Prelude GoBase Json Types Scope Rfc3339 Sqlite Delivery SqliteReads Migrate MigrateSpec Manifest ManifestProps Nsmigrate.

(** ** Renaming identities *)

Definition rename_receipt (π : string → string) (k : string * string * string) : string * string * string :=
  (π k.1.1, π k.1.2, k.2).
Definition rename_message (π : string → string) (m : MessageRow.t) : MessageRow.t :=
  set_from_agent (π (MessageRow.from_agent m)) (set_to_agent (π (MessageRow.to_agent m)) m).
Definition rename_conversation (π : string → string) (c : ConversationRow.t) : ConversationRow.t :=
  set_participants (π <$> ConversationRow.participants c) c.

(** All surfaces but the participants. *)
Definition rename_columns (π : string → string) (t : Tables) : Tables :=
  mkTables (kmap π (t_agents t)) (t_conversations t) (rename_message π <$> t_messages t)
    (t_conversation_messages t) (t_counters t) (kmap π (t_delivery_cursors t))
    (kmap (prod_map π id) (t_deliveries t)) (kmap (rename_receipt π) (t_idempotency t))
    (t_schema_migrations t).

Definition rename (π : string → string) (t : Tables) : Tables :=
  with_conversations (rename_conversation π <$> t_conversations t) (rename_columns π t).

(** The identities of a database, with repetitions. *)
Definition all_participants (t : Tables) : list string :=
  concat ((λ p, ConversationRow.participants p.2) <$> map_to_list (t_conversations t)).

Definition occurrences_in (t : Tables) : list string :=
  filter (λ a, a ≠ ε) (concat ((λ q, q.2 t) <$> queries) ++ all_participants t).

Definition identities (t : Tables) : gset string := list_to_set (occurrences_in t).

(** *** Occurrences in a list *)

Definition occurs (a : string) (l : list string) : Z := Z.of_nat (length (filter (a =.) l)).

#[export] Instance occurs_proper a : Proper ((≡ₚ) ==> (=)) (occurs a).
Proof. intros l k Hl. unfold occurs. by rewrite Hl. Qed.

Lemma occurs_nonneg a l : 0 ≤ occurs a l.
Proof. unfold occurs. lia. Qed.

Lemma occurs_cons a b l : occurs a (b :: l) = (if bool_decide (a = b) then 1 else 0) + occurs a l.
Proof. unfold occurs. rewrite filter_cons. case_bool_decide; subst; [rewrite decide_True|rewrite decide_False]; cbn [length]; try done; lia. Qed.

Lemma occurs_app a l k : occurs a (l ++ k) = occurs a l + occurs a k.
Proof. unfold occurs. rewrite filter_app, length_app. lia. Qed.

Lemma occurs_pos a l : a ∈ l → 0 < occurs a l.
Proof.
  intros Ha. unfold occurs. assert (a ∈ filter (a =.) l) as H by by apply list_elem_of_filter.
  destruct (filter (a =.) l); [by apply not_elem_of_nil in H|]. cbn. lia.
Qed.

Lemma occurs_zero a l : a ∉ l → occurs a l = 0.
Proof.
  intros Ha. unfold occurs. destruct (filter (a =.) l) as [|b k] eqn:E; [done|].
  assert (b ∈ filter (a =.) l) as Hb by (rewrite E; by left).
  apply list_elem_of_filter in Hb as [-> ?]. done.
Qed.

Lemma occurs_fmap (π : string → string) `{!Inj (=) (=) π} a l : occurs (π a) (π <$> l) = occurs a l.
Proof.
  induction l as [|b l IH]; [done|]. rewrite fmap_cons, !occurs_cons, IH.
  by rewrite (bool_decide_ext (π a = π b) (a = b)) by (split; [apply (inj π)|congruence]).
Qed.

(** ** The inspection *)

Definition note (surface : string) (l : list string) (i : inspection) : inspection :=
  foldl (λ i a, addOccurrence surface a i) i l.

Lemma note_cons s a l i : note s (a :: l) i = note s l (addOccurrence s a i).
Proof. done. Qed.

Lemma occurrence_empty s a : occurrence (mkInspection ∅ ∅ []) s a = 0.
Proof. done. Qed.

Lemma occurrence_add s a i s' b : b ≠ ε →
  occurrence (addOccurrence s a i) s' b
  = occurrence i s' b + (if bool_decide (s' = s) && bool_decide (b = a) then 1 else 0).
Proof.
  intros Hb. unfold addOccurrence, occurrence, is_empty, count. case_bool_decide as Ha; cbn.
  - rewrite (bool_decide_eq_false_2 (b = a)) by congruence. rewrite andb_false_r. lia.
  - destruct (decide (s' = s)) as [->|Hs]; [|rewrite lookup_insert_ne by done; rewrite (bool_decide_eq_false_2 (s' = s)) by done; cbn; lia].
    rewrite lookup_insert_eq, (bool_decide_eq_true_2 (s = s)) by done. cbn.
    destruct (decide (b = a)) as [->|Hne].
    + rewrite lookup_insert_eq. rewrite bool_decide_eq_true_2 by done. cbn. lia.
    + rewrite lookup_insert_ne by done. rewrite bool_decide_eq_false_2 by done. lia.
Qed.

Lemma note_occurrence s l : ∀ i s' a, a ≠ ε →
  occurrence (note s l i) s' a = occurrence i s' a + (if bool_decide (s' = s) then occurs a l else 0).
Proof.
  induction l as [|b l IH]; intros i s' a Ha; [case_bool_decide; cbn; unfold occurs; cbn; lia|].
  rewrite note_cons, IH, occurrence_add, occurs_cons by done. repeat case_bool_decide; cbn; lia.
Qed.

Lemma note_present s l : ∀ i x, x ∈ present (note s l i) ↔ x ∈ present i ∨ x ∈ filter (λ a, a ≠ ε) l.
Proof.
  induction l as [|b l IH]; intros i x; [cbn; rewrite elem_of_nil; tauto|].
  rewrite note_cons, IH, !list_elem_of_filter, elem_of_cons. unfold addOccurrence, is_empty.
  case_bool_decide as Hb; cbn; [naive_solver|]. rewrite elem_of_union, elem_of_singleton. naive_solver.
Qed.

Lemma note_conversations s l : ∀ i, conversations (note s l i) = conversations i.
Proof.
  induction l as [|b l IH]; intros i; [done|]. rewrite note_cons, IH. unfold addOccurrence. by case_match.
Qed.

Definition plan_of (p : string * ConversationRow.t) : conversationPlan :=
  mkPlan p.1 (ConversationRow.participants p.2) false.

Lemma inspect_participants_ok mf l : ∀ i,
  (∀ p, p ∈ l → mf p.1 = false) →
  ∃ i', inspect_participants mf l i = Ok i' ∧ conversations i' = conversations i ++ (plan_of <$> l) ∧
    let i0 := note s_participants (concat ((λ p, ConversationRow.participants p.2) <$> l)) i in
    present i' = present i0 ∧ occurrences i' = occurrences i0.
Proof.
  induction l as [|[id c] l IH]; intros i Hmf; [exists i; cbn; by rewrite app_nil_r|].
  pose proof (Hmf (id, c)) as Hid. cbn in Hid. cbn [inspect_participants]. rewrite Hid by by left.
  set (i1 := mkInspection _ _ _). destruct (IH i1) as (i' & H & Hc & Hp & Ho).
  { intros p Hp. apply Hmf. by right. }
  exists i'. split; [done|]. split.
  { rewrite Hc. unfold i1. cbn [conversations]. fold (note s_participants (ConversationRow.participants c) i).
    by rewrite note_conversations, fmap_cons, <-app_assoc. }
  cbn zeta in *. rewrite Hp, Ho, fmap_cons. cbn [concat snd]. unfold note at 2 4. rewrite foldl_app.
  fold (note s_participants (ConversationRow.participants c) i).
  set (i2 := note s_participants (ConversationRow.participants c) i).
  assert (∀ k j1 j2, present j1 = present j2 → occurrences j1 = occurrences j2 →
    present (note s_participants k j1) = present (note s_participants k j2) ∧
    occurrences (note s_participants k j1) = occurrences (note s_participants k j2)) as Hirr.
  { clear. induction k as [|a k IH]; intros j1 j2 H1 H2; [done|]. rewrite !note_cons. apply IH;
    unfold addOccurrence; case_match; cbn; congruence. }
  by apply Hirr.
Qed.

Abbreviation Query := (string * (Tables → list string))%type.

Lemma runs_read_rows {A} (select : Tables → list A) t :
  runs (try (read_rows select)) t (Ok (select t, None)) t.
Proof. intros n. by exists (S n). Qed.

Lemma runs_inspect_queries l : ∀ i t,
  runs (inspect_queries l i) t (Ok (foldl (λ i (q : Query), note q.1 (q.2 t) i) i l)) t.
Proof.
  induction l as [|[s select] l IH]; intros i t; [apply runs_ret|].
  cbn [inspect_queries]. eapply runs_bind; [apply runs_read_rows|]. cbn beta iota. apply IH.
Qed.

(** What the queries count, surface by surface. *)
Lemma queries_occurrence l t a : a ≠ ε → NoDup l.*1 → ∀ i s,
  occurrence (foldl (λ i (q : Query), note q.1 (q.2 t) i) i l) s a
  = occurrence i s a + match list_find (λ q : Query, q.1 = s) l with Some (_, q) => occurs a (q.2 t) | None => 0 end.
Proof.
  intros Ha. induction l as [|[s' select] l IH]; intros Hnd i s; [cbn; lia|].
  cbn in Hnd. apply NoDup_cons in Hnd as [Hs Hnd]. cbn [foldl list_find fst snd]. rewrite IH, note_occurrence by done.
  destruct (decide (s' = s)) as [->|Hne].
  - rewrite bool_decide_eq_true_2 by done. destruct (list_find _ l) as [[j q]|] eqn:E; [|cbn; lia].
    apply list_find_Some in E as (Hq & <- & _). exfalso. apply Hs, list_elem_of_fmap. exists q. split; [done|].
    by eapply list_elem_of_lookup_2.
  - rewrite bool_decide_eq_false_2 by congruence. destruct (list_find _ l) as [[j q]|]; cbn; lia.
Qed.

Lemma queries_present l t : ∀ i x,
  x ∈ present (foldl (λ i (q : Query), note q.1 (q.2 t) i) i l) ↔
  x ∈ present i ∨ x ∈ filter (λ a, a ≠ ε) (concat ((λ q, q.2 t) <$> l)).
Proof.
  induction l as [|[s select] l IH]; intros i x; [cbn; rewrite elem_of_nil; tauto|].
  cbn [foldl fst snd]. rewrite IH, note_present, fmap_cons. cbn [concat snd]. rewrite filter_app, elem_of_app. tauto.
Qed.

Lemma queries_conversations l t : ∀ i, conversations (foldl (λ i (q : Query), note q.1 (q.2 t) i) i l) = conversations i.
Proof. induction l as [|[s select] l IH]; intros i; [done|]. cbn [foldl]. by rewrite IH, note_conversations. Qed.

Lemma select_conversations_perm t : select_conversations t ≡ₚ map_to_list (t_conversations t).
Proof. apply merge_sort_Permutation. Qed.

Lemma all_participants_perm t :
  concat ((λ p, ConversationRow.participants p.2) <$> select_conversations t) ≡ₚ all_participants t.
Proof. unfold all_participants. by rewrite select_conversations_perm. Qed.

Lemma NoDup_queries : NoDup queries.*1.
Proof. by apply (bool_decide_unpack _); vm_compute. Qed.

(** What the inspection knows of a database. *)
Record inspected (t : Tables) (i : inspection) : Prop := {
  in_present : present i = identities t;
  in_queries : ∀ q a, q ∈ queries → a ≠ ε → occurrence i q.1 a = occurs a (q.2 t);
  in_participants : ∀ a, a ≠ ε → occurrence i s_participants a = occurs a (all_participants t);
  in_conversations : conversations i = plan_of <$> select_conversations t }.

Lemma runs_inspect mf t :
  (∀ id, is_Some (t_conversations t !! id) → mf id = false) →
  ∃ i, runs (inspect mf) t (Ok i) t ∧ inspected t i.
Proof.
  intros Hmf. set (i0 := foldl (λ i (q : Query), note q.1 (q.2 t) i) (mkInspection ∅ ∅ []) queries).
  destruct (inspect_participants_ok mf (select_conversations t) i0) as (i & Hi & Hc & Hp & Ho).
  { intros [id c] Hin. rewrite select_conversations_perm in Hin. apply elem_of_map_to_list in Hin. apply Hmf. eauto. }
  exists i. split.
  { unfold inspect. eapply runs_bind; [apply runs_inspect_queries|]. cbn beta iota. fold i0.
    unfold inspectConversations. eapply runs_bind; [apply runs_read_rows|]. cbn beta iota. rewrite Hi. apply runs_ret. }
  cbv zeta in Hp, Ho.
  assert (∀ s a, a ≠ ε → occurrence i s a
    = occurrence i0 s a + if bool_decide (s = s_participants) then occurs a (all_participants t) else 0) as Hocc.
  { intros s a Ha. unfold occurrence at 1. rewrite Ho. fold (occurrence (note s_participants
      (concat ((λ p, ConversationRow.participants p.2) <$> select_conversations t)) i0) s a).
    rewrite note_occurrence by done. by rewrite all_participants_perm. }
  pose proof NoDup_queries as Hnd. constructor.
  - apply set_eq. intros x. rewrite Hp, note_present. unfold i0. rewrite queries_present. cbn [present].
    unfold identities, occurrences_in. rewrite elem_of_list_to_set, filter_app, elem_of_app, all_participants_perm.
    set_solver.
  - intros q a Hq Ha. rewrite Hocc by done. unfold i0. rewrite queries_occurrence by done.
    rewrite bool_decide_eq_false_2.
    2: { intros Hs. assert (s_participants ∈ queries.*1) as H by (rewrite <-Hs; by apply list_elem_of_fmap_2).
         revert H. clear. by apply (bool_decide_unpack (¬ _)). }
    destruct (list_find (λ q' : Query, q'.1 = q.1) queries) as [[j q']|] eqn:E.
    + apply list_find_Some in E as (Hj & Hq' & _). apply list_elem_of_lookup in Hq as [j' Hj'].
      assert (j = j') as <-.
      { eapply NoDup_lookup; [exact Hnd|rewrite list_lookup_fmap, Hj; done|rewrite list_lookup_fmap, Hj'; cbn; by rewrite Hq']. }
      assert (q' = q) as -> by congruence. rewrite occurrence_empty. cbn. lia.
    + exfalso. eapply list_find_None in E. rewrite Forall_forall in E. by eapply E.
  - intros a Ha. rewrite Hocc by done. rewrite bool_decide_eq_true_2 by done. unfold i0.
    rewrite queries_occurrence by done.
    assert (list_find (λ q : Query, q.1 = s_participants) queries = None) as -> by (vm_compute; reflexivity).
    rewrite occurrence_empty. cbn. lia.
  - rewrite Hc. unfold i0. by rewrite queries_conversations.
Qed.

(** ** Swaps *)

Definition swap (p : string * string) (x : string) : string :=
  if bool_decide (x = p.1) then p.2 else if bool_decide (x = p.2) then p.1 else x.

(** The pairs of a list, one after the other. *)
Definition swaps (l : list (string * string)) (x : string) : string := foldl (λ x p, swap p x) x l.

Definition pair_names (l : list (string * string)) : list string := l.*1 ++ l.*2.

(** No name occurs twice, and none is empty. *)
Definition disjoint_pairs (l : list (string * string)) : Prop := NoDup (pair_names l) ∧ ε ∉ pair_names l.

Lemma swap_involutive p x : swap p (swap p x) = x.
Proof. unfold swap. destruct p as [s t]. cbn. repeat case_bool_decide; congruence. Qed.

#[export] Instance swap_inj p : Inj (=) (=) (swap p).
Proof. intros x y H. by rewrite <-(swap_involutive p x), H, swap_involutive. Qed.

#[export] Instance swaps_inj l : Inj (=) (=) (swaps l).
Proof. induction l as [|p l IH]; intros x y H; [done|]. apply (inj (swap p)), IH, H. Qed.

Lemma disjoint_pairs_cons s t l :
  disjoint_pairs ((s, t) :: l) →
  (s ∉ pair_names l) ∧ (t ∉ pair_names l) ∧ s ≠ t ∧ s ≠ ε ∧ t ≠ ε ∧ disjoint_pairs l.
Proof.
  intros [Hnd He]. unfold pair_names in Hnd, He. cbn in Hnd, He. apply NoDup_cons in Hnd as [Hs Hnd].
  assert (Permutation (l.*1 ++ t :: l.*2) (t :: pair_names l)) as Hp by (unfold pair_names; by rewrite Permutation_middle).
  rewrite Hp in Hnd, Hs. apply NoDup_cons in Hnd as [Ht Hnd].
  rewrite elem_of_cons in Hs, He. rewrite Hp, elem_of_cons in He. unfold disjoint_pairs. naive_solver.
Qed.

Lemma swaps_other l x : x ∉ pair_names l → swaps l x = x.
Proof.
  unfold swaps. induction l as [|[s t] l IH]; [done|]. unfold pair_names in *. cbn. intros Hx.
  rewrite elem_of_cons, elem_of_app, elem_of_cons in Hx. unfold swap at 2. cbn.
  rewrite !bool_decide_eq_false_2 by tauto. apply IH. rewrite elem_of_app. tauto.
Qed.

Lemma swaps_pair l s t : disjoint_pairs l → (s, t) ∈ l → swaps l s = t ∧ swaps l t = s.
Proof.
  induction l as [|[s' t'] l IH]; intros Hd Hin; [by apply not_elem_of_nil in Hin|].
  apply disjoint_pairs_cons in Hd as (Hs & Ht & Hne & _ & _ & Hd). apply elem_of_cons in Hin as [[= -> ->]|Hin].
  - change (swaps l (swap (s', t') s') = t' ∧ swaps l (swap (s', t') t') = s'). unfold swap. cbn.
    rewrite (bool_decide_eq_true_2 (s' = s')), (bool_decide_eq_true_2 (t' = t')) by done.
    rewrite bool_decide_eq_false_2 by done. by rewrite !swaps_other.
  - destruct (IH Hd Hin) as [H1 H2].
    assert (s ∈ pair_names l ∧ t ∈ pair_names l) as [Hs' Ht'].
    { unfold pair_names. rewrite !elem_of_app. split; [left|right]; apply list_elem_of_fmap; by exists (s, t). }
    change (swaps l (swap (s', t') s) = t ∧ swaps l (swap (s', t') t) = s). unfold swap. cbn.
    rewrite !bool_decide_eq_false_2 by congruence. done.
Qed.

Lemma swaps_involutive l x : disjoint_pairs l → swaps l (swaps l x) = x.
Proof.
  intros Hd. destruct (decide (x ∈ pair_names l)) as [Hin|Hin].
  - apply elem_of_app in Hin as [Hin|Hin]; apply list_elem_of_fmap in Hin as ([s t] & -> & Hin);
      destruct (swaps_pair l s t Hd Hin) as [H1 H2]; cbn; congruence.
  - by rewrite !swaps_other by (rewrite ?swaps_other; done).
Qed.

Lemma swaps_empty l : disjoint_pairs l → swaps l ε = ε.
Proof. intros [_ He]. by apply swaps_other. Qed.

(** ** The updates of one mapping *)

Section rename_columns.
Context {K V : Type} `{Countable K}.

Lemma kmap_ext_dom (f g : K → K) (m : gmap K V) :
  (∀ k, is_Some (m !! k) → f k = g k) → kmap f m =@{gmap K V} kmap g m.
Proof.
  intros Hfg. unfold kmap. f_equal. apply list_fmap_ext. intros i [k v] Hi%list_elem_of_lookup_2.
  apply elem_of_map_to_list in Hi. cbn. by rewrite Hfg.
Qed.

Lemma kmap_kmap (f g : K → K) `{!Inj (=) (=) f} `{!Inj (=) (=) g} (m : gmap K V) :
  kmap g (kmap f m : gmap K V) =@{gmap K V} kmap (g ∘ f) m.
Proof.
  apply map_eq. intros k. apply option_eq. intros v. rewrite !lookup_kmap_Some by apply _.
  setoid_rewrite (lookup_kmap_Some f). unfold compose. naive_solver.
Qed.

Lemma kmap_id (f : K → K) (m : gmap K V) : (∀ k, is_Some (m !! k) → f k = k) → kmap f m =@{gmap K V} m.
Proof.
  intros Hf. rewrite (kmap_ext_dom f id) by done. unfold kmap.
  assert (prod_map id id <$> map_to_list m = map_to_list m) as ->; [|apply list_to_map_to_list].
  rewrite <-(list_fmap_id (map_to_list m)) at 2. apply list_fmap_ext. by intros _ [k v] _.
Qed.

(** The rows of a filter, counted on their keys. *)
Lemma size_filter_keys (hit : K → bool) (m : gmap K V) :
  size (filter (λ '(k, _), hit k = true) m) = length (filter (λ k, hit k = true) (map_to_list m).*1).
Proof.
  induction m as [|k v m Hk Hfirst IH] using map_first_key_ind; [done|].
  rewrite map_to_list_insert_first_key by done. rewrite map_filter_insert, fmap_cons, filter_cons. cbn [fst snd].
  case_decide as Hh; [rewrite (decide_True _ _ Hh); cbn [length]; rewrite map_size_insert_None; [by rewrite IH|]|rewrite (decide_False _ _ Hh)].
  - apply map_lookup_filter_None. by left.
  - rewrite map_filter_delete, delete_id; [done|]. apply map_lookup_filter_None. by left.
Qed.

Lemma size_filter_values (hit : V → bool) (m : gmap K V) :
  size (filter (λ '(_, v), hit v = true) m) = length (filter (λ v, hit v = true) (map_to_list m).*2).
Proof.
  induction m as [|k v m Hk Hfirst IH] using map_first_key_ind; [done|].
  rewrite map_to_list_insert_first_key by done. rewrite map_filter_insert, fmap_cons, filter_cons. cbn [fst snd].
  case_decide as Hh; [rewrite (decide_True _ _ Hh); cbn [length]; rewrite map_size_insert_None; [by rewrite IH|]|rewrite (decide_False _ _ Hh)].
  - apply map_lookup_filter_None. by left.
  - rewrite map_filter_delete, delete_id; [done|]. apply map_lookup_filter_None. by left.
Qed.

(** Keys that move onto free ones. *)
Lemma move_rows_ok table (hit : K → bool) (to : K → K) (π : K → K) (m : gmap K V) :
  (∀ k, is_Some (m !! k) → π k = if hit k then to k else k) →
  (∀ k, is_Some (m !! k) → hit k = true → m !! to k = None) →
  move_rows table hit to m
  = Ok (Z.of_nat (length (filter (λ k, hit k = true) (map_to_list m).*1)), kmap π m).
Proof.
  intros Hπ Hfree. unfold move_rows. rewrite bool_decide_eq_true_2, size_filter_keys.
  - do 2 f_equal. apply kmap_ext_dom. intros k Hk. by rewrite Hπ.
  - intros k v [Hk Hh]%map_lookup_filter_Some. right. by apply Hfree.
Qed.
End rename_columns.

Lemma occurs_hits {A} (g : A → string) (hit : A → bool) S (l : list A) :
  (∀ x, hit x = true ↔ S = g x) → Z.of_nat (length (filter (λ x, hit x = true) l)) = occurs S (g <$> l).
Proof.
  intros Hhit. unfold occurs. f_equal. induction l as [|x l IH]; [done|].
  rewrite fmap_cons, !filter_cons. destruct (decide (hit x = true)) as [Hx|Hx].
  - rewrite decide_True by by apply Hhit. cbn. by rewrite IH.
  - by rewrite decide_False by by rewrite <-Hhit.
Qed.

Lemma occurs_nonempty S l : S ≠ ε → occurs S (filter (λ a, a ≠ ε) l) = occurs S l.
Proof.
  intros HS. induction l as [|a l IH]; [done|]. rewrite filter_cons. case_decide as Ha; rewrite !occurs_cons, IH; [done|].
  rewrite bool_decide_eq_false_2; [lia|congruence].
Qed.

Lemma elem_of_keys {K V} `{Countable K} (m : gmap K V) k : k ∈ (map_to_list m).*1 ↔ is_Some (m !! k).
Proof.
  rewrite list_elem_of_fmap. split.
  - intros ([k' v] & -> & Hin%elem_of_map_to_list). by exists v.
  - intros [v Hv]. exists (k, v). split; [done|by apply elem_of_map_to_list].
Qed.

Lemma equals_true a b : equals a b = true ↔ a = b.
Proof. apply bool_decide_eq_true. Qed.

Section one_mapping.
Context (S T : string) (HST : S ≠ T) (HS : S ≠ ε) (HT : T ≠ ε).

Let π := swap (S, T).

Lemma swap_source : π S = T.
Proof using Type. unfold π, swap. cbn. by rewrite bool_decide_eq_true_2. Qed.

Lemma swap_absent x : x ≠ T → π x = if equals S x then T else x.
Proof using Type.
  intros Hx. unfold π, swap, equals. cbn. case_bool_decide; [by rewrite bool_decide_eq_true_2|].
  rewrite !bool_decide_eq_false_2 by congruence. done.
Qed.

Lemma swap_empty : π ε = ε.
Proof using HS HT. unfold π, swap. cbn. by rewrite !bool_decide_eq_false_2. Qed.

Lemma update_agents_ok t : T ∉ select_agents t →
  update_agents T S t = Ok (occurs S (select_agents t), with_agents (kmap π (t_agents t)) t).
Proof using Type.
  unfold select_agents. rewrite elem_of_keys. intros Hfree. unfold update_agents.
  rewrite (move_rows_ok _ _ _ π).
  - rewrite (occurs_hits id _ S) by (intros ?; apply equals_true). by rewrite list_fmap_id.
  - intros k Hk. apply swap_absent. by intros ->.
  - intros _ _ _. by apply eq_None_not_Some.
Qed.

Lemma update_cursors_ok t : T ∉ select_cursors t →
  update_cursors T S t = Ok (occurs S (select_cursors t), with_delivery_cursors (kmap π (t_delivery_cursors t)) t).
Proof using Type.
  unfold select_cursors. rewrite elem_of_keys. intros Hfree. unfold update_cursors.
  rewrite (move_rows_ok _ _ _ π).
  - rewrite (occurs_hits id _ S) by (intros ?; apply equals_true). by rewrite list_fmap_id.
  - intros k Hk. apply swap_absent. by intros ->.
  - intros _ _ _. by apply eq_None_not_Some.
Qed.

Lemma update_target_ok t : T ∉ select_deliveries t →
  update_target T S t
  = Ok (occurs S (select_deliveries t), with_deliveries (kmap (prod_map π id) (t_deliveries t)) t).
Proof using Type.
  unfold select_deliveries. intros Hfree. unfold update_target.
  assert (∀ k, is_Some (t_deliveries t !! k) → k.1 ≠ T) as Hkeys.
  { intros k Hk HkT. apply Hfree. rewrite <-HkT. apply list_elem_of_fmap_2. by apply elem_of_keys. }
  rewrite (move_rows_ok _ _ _ (prod_map π id)).
  - by rewrite (occurs_hits fst _ S) by (intros ?; apply equals_true).
  - intros [a n] Hk. cbn. rewrite swap_absent by by apply (Hkeys _ Hk). by destruct (equals S a).
  - intros [a n] _ _. apply eq_None_not_Some. intros Hk. by apply (Hkeys _ Hk).
Qed.

Lemma update_receipt_from_ok t : T ∉ select_receipt_from t →
  update_receipt_from T S t
  = Ok (occurs S (select_receipt_from t),
        with_idempotency (kmap (λ k, (π k.1.1, k.1.2, k.2)) (t_idempotency t)) t).
Proof using Type.
  unfold select_receipt_from. intros Hfree. unfold update_receipt_from.
  assert (∀ k, is_Some (t_idempotency t !! k) → k.1.1 ≠ T) as Hkeys.
  { intros k Hk HkT. apply Hfree. rewrite <-HkT. do 2 apply list_elem_of_fmap_2. by apply elem_of_keys. }
  rewrite (move_rows_ok _ _ _ (λ k, (π k.1.1, k.1.2, k.2))).
  - rewrite (occurs_hits (fst ∘ fst) _ S) by (intros ?; apply equals_true). by rewrite list_fmap_compose.
  - intros [[f a] r] Hk. cbn. rewrite swap_absent by by apply (Hkeys _ Hk). by destruct (equals S f).
  - intros [[f a] r] _ _. apply eq_None_not_Some. intros Hk. by apply (Hkeys _ Hk).
Qed.

Lemma update_receipt_to_ok t : T ∉ select_receipt_to t →
  update_receipt_to T S t
  = Ok (occurs S (select_receipt_to t),
        with_idempotency (kmap (λ k, (k.1.1, π k.1.2, k.2)) (t_idempotency t)) t).
Proof using HST HS HT.
  unfold select_receipt_to. intros Hfree. unfold update_receipt_to.
  assert (∀ k, is_Some (t_idempotency t !! k) → k.1.2 ≠ T) as Hkeys.
  { intros k Hk HkT. apply Hfree. rewrite <-HkT. apply list_elem_of_filter. split; [by rewrite HkT|].
    apply (list_elem_of_fmap_2 snd), list_elem_of_fmap_2. by apply elem_of_keys. }
  rewrite (move_rows_ok _ _ _ (λ k, (k.1.1, π k.1.2, k.2))).
  - rewrite occurs_nonempty by done. rewrite (occurs_hits (snd ∘ fst) _ S).
    + by rewrite list_fmap_compose.
    + intros k. unfold is_empty. rewrite andb_true_iff, equals_true, negb_true_iff, bool_decide_eq_false. naive_solver.
  - intros [[f a] r] Hk. cbn. rewrite swap_absent by by apply (Hkeys _ Hk). unfold equals, is_empty.
    repeat case_bool_decide; cbn; congruence.
  - intros [[f a] r] _ _. apply eq_None_not_Some. intros Hk. by apply (Hkeys _ Hk).
Qed.

Lemma update_from_ok t : T ∉ select_from t →
  update_from T S t
  = Ok (occurs S (select_from t),
        with_messages ((λ m, set_from_agent (π (MessageRow.from_agent m)) m) <$> t_messages t) t).
Proof using Type.
  unfold select_from. intros Hfree. unfold update_from, set_rows. rewrite size_filter_values.
  rewrite (occurs_hits MessageRow.from_agent _ S) by (intros ?; apply equals_true). do 3 f_equal.
  apply map_fmap_ext. intros id m Hm. rewrite swap_absent.
  - destruct (equals S _); [done|by destruct m].
  - intros HmT. apply Hfree. rewrite <-HmT. apply list_elem_of_fmap_2. apply (list_elem_of_fmap_2 snd _ (id, m)).
    by apply elem_of_map_to_list.
Qed.

Lemma update_to_ok t : T ∉ select_to t →
  update_to T S t
  = Ok (occurs S (select_to t),
        with_messages ((λ m, set_to_agent (π (MessageRow.to_agent m)) m) <$> t_messages t) t).
Proof using HST HS HT.
  unfold select_to. intros Hfree. unfold update_to, set_rows. rewrite size_filter_values, occurs_nonempty by done.
  rewrite (occurs_hits MessageRow.to_agent _ S).
  2: { intros m. unfold is_empty. rewrite andb_true_iff, equals_true, negb_true_iff, bool_decide_eq_false. naive_solver. }
  do 3 f_equal. apply map_fmap_ext. intros id m Hm. rewrite swap_absent.
  - unfold equals, is_empty. case_bool_decide as Ha; [|by destruct m].
    rewrite bool_decide_eq_false_2 by congruence. done.
  - intros HmT. apply Hfree. rewrite <-HmT. apply list_elem_of_filter. split; [by rewrite HmT|].
    apply list_elem_of_fmap_2. apply (list_elem_of_fmap_2 snd _ (id, m)). by apply elem_of_map_to_list.
Qed.
End one_mapping.

(** Statements that do not fail. *)
Lemma runs_try {A} (m : Db A) t a t' : runs m t a t' → runs (try m) t (Ok a) t'.
Proof. intros Hm n. destruct (Hm n) as [n' H]. exists n'. unfold try. by rewrite H. Qed.

Lemma runs_until_error {A} (body : A → Db (option string)) a l t t1 t2 :
  runs (body a) t None t1 → runs (until_error body l) t1 None t2 → runs (until_error body (a :: l)) t None t2.
Proof. intros H1 H2. cbn [until_error]. by eapply runs_bind. Qed.

Lemma map_to_list_fmap_snd {A B} (f : A → B) (m : gmap string A) : (map_to_list (f <$> m)).*2 = f <$> (map_to_list m).*2.
Proof. rewrite map_to_list_fmap, <-!list_fmap_compose. by apply list_fmap_ext; intros _ [k v] _. Qed.

Lemma map_to_list_kmap_fst {K V} `{Countable K} (f : K → K) `{!Inj (=) (=) f} (m : gmap K V) :
  (map_to_list (kmap f m : gmap K V)).*1 ≡ₚ f <$> (map_to_list m).*1.
Proof. rewrite map_to_list_kmap by apply _. by rewrite <-!list_fmap_compose. Qed.

Lemma filter_fmap_fixed (π : string → string) `{!Inj (=) (=) π} (l : list string) :
  π ε = ε → filter (λ a, a ≠ ε) (π <$> l) = π <$> filter (λ a, a ≠ ε) l.
Proof.
  intros Hε. induction l as [|a l IH]; [done|]. rewrite fmap_cons, !filter_cons, IH.
  destruct (decide (a ≠ ε)) as [Ha|Ha].
  - rewrite decide_True; [done|]. intros H. apply Ha, (inj π). by rewrite H.
  - rewrite decide_False; [done|]. apply dec_stable in Ha. subst. naive_solver.
Qed.

(** The two columns of a receipt, one at a time. *)
Definition receipt_from (π : string → string) (k : string * string * string) := (π k.1.1, k.1.2, k.2).
Definition receipt_to (π : string → string) (k : string * string * string) := (k.1.1, π k.1.2, k.2).

#[export] Instance receipt_from_inj π : Inj (=) (=) π → Inj (=) (=) (receipt_from π).
Proof. intros Hπ [[f a] r] [[f' a'] r'] [= H -> ->]. by apply (inj π) in H as ->. Qed.
#[export] Instance receipt_to_inj π : Inj (=) (=) π → Inj (=) (=) (receipt_to π).
Proof. intros Hπ [[f a] r] [[f' a'] r'] [= -> H ->]. by apply (inj π) in H as ->. Qed.
#[export] Instance rename_receipt_inj π : Inj (=) (=) π → Inj (=) (=) (rename_receipt π).
Proof. intros Hπ [[f a] r] [[f' a'] r'] [= H1 H2 ->]. by apply (inj π) in H1 as ->, H2 as ->. Qed.

Lemma with_columns A M M' D C I I' t :
  with_idempotency I' (with_idempotency I (with_delivery_cursors C (with_deliveries D
    (with_messages M' (with_messages M (with_agents A t))))))
  = mkTables A (t_conversations t) M' (t_conversation_messages t) (t_counters t) C D I' (t_schema_migrations t).
Proof. done. Qed.

Section apply.
Context (Error : DBError → string) (i : inspection).

Lemma runs_apply_update m u t n t' :
  u.2 (TargetID (row m)) (SourceID (row m)) t = Ok (n, t') → occurrence i u.1 (SourceID (row m)) = n →
  runs (apply_update Error i m u) t None t'.
Proof.
  intros Hu Hn. unfold apply_update. eapply runs_bind; [apply runs_try, runs_call, Hu|].
  cbn beta iota. rewrite Hn, Z.eqb_refl. apply runs_ret.
Qed.

Lemma runs_apply_mapping m t :
  active m = true → SourceID (row m) ≠ TargetID (row m) → SourceID (row m) ≠ ε → TargetID (row m) ≠ ε →
  (∀ q, q ∈ queries → TargetID (row m) ∉ q.2 t) →
  (∀ q, q ∈ queries → occurrence i q.1 (SourceID (row m)) = occurs (SourceID (row m)) (q.2 t)) →
  runs (apply_mapping Error i m) t None (rename_columns (swap (SourceID (row m), TargetID (row m))) t).
Proof.
  intros Hact HST HS HT Hfree Hcount. unfold apply_mapping. rewrite Hact.
  set (S := SourceID (row m)) in *. set (T := TargetID (row m)) in *.
  unfold queries in Hfree, Hcount. setoid_rewrite <-(Forall_forall _ _) in Hfree.
  setoid_rewrite <-(Forall_forall _ _) in Hcount. repeat setoid_rewrite Forall_cons in Hfree.
  repeat setoid_rewrite Forall_cons in Hcount. cbn [fst snd] in Hfree, Hcount.
  destruct Hfree as (F1 & F2 & F3 & F4 & F5 & F6 & F7 & _), Hcount as (C1 & C2 & C3 & C4 & C5 & C6 & C7 & _).
  set (t2 := with_messages ((λ m, set_from_agent (swap (S, T) (MessageRow.from_agent m)) m) <$> t_messages t) t).
  assert (select_to t2 = select_to t) as Ht2.
  { unfold select_to. cbn. rewrite map_to_list_fmap_snd, <-!list_fmap_compose. done. }
  set (t6 := with_idempotency (kmap (receipt_from (swap (S, T))) (t_idempotency t)) t).
  assert (select_receipt_to t6 ≡ₚ select_receipt_to t) as Ht6.
  { unfold select_receipt_to. cbn. rewrite map_to_list_kmap_fst by apply _. by rewrite <-!list_fmap_compose. }
  unfold updates.
  eapply runs_until_error; [eapply runs_apply_update; [by apply update_agents_ok|done]|].
  eapply runs_until_error; [eapply runs_apply_update; [by apply update_from_ok|done]|].
  eapply runs_until_error; [eapply runs_apply_update; [apply update_to_ok; try done|]|].
  { change (T ∉ select_to t2). by rewrite Ht2. }
  { change (occurrence i s_to S = occurs S (select_to t2)). by rewrite Ht2. }
  eapply runs_until_error; [eapply runs_apply_update; [by apply update_target_ok|done]|].
  eapply runs_until_error; [eapply runs_apply_update; [by apply update_cursors_ok|done]|].
  eapply runs_until_error; [eapply runs_apply_update; [by apply update_receipt_from_ok|done]|].
  eapply runs_until_error; [eapply runs_apply_update; [apply update_receipt_to_ok; try done|]|].
  { change (T ∉ select_receipt_to t6). by rewrite Ht6. }
  { change (occurrence i s_receipt_to S = occurs S (select_receipt_to t6)). by rewrite Ht6. }
  match goal with |- runs _ ?t1 _ ?t2 => assert (t1 = t2) as ->; [|apply runs_ret] end.
  rewrite with_columns. unfold rename_columns.
  f_equal.
  - change (t_messages (with_messages ?m _)) with m. rewrite <-map_fmap_compose. apply map_fmap_ext. by intros id [] _.
  - apply (kmap_kmap (receipt_from (swap (S, T))) (receipt_to (swap (S, T)))).
Qed.
End apply.

(** ** All mappings *)

Lemma rename_columns_id t : rename_columns id t = t.
Proof.
  destruct t. unfold rename_columns. cbn. f_equal.
  - by apply kmap_id.
  - rewrite <-(map_fmap_id t_messages) at 2. apply map_fmap_ext. by intros id [] _.
  - by apply kmap_id.
  - apply kmap_id. by intros [].
  - apply kmap_id. by intros [[]].
Qed.

Section compose.
Context (f g : string → string) `{!Inj (=) (=) f} `{!Inj (=) (=) g}.

Lemma rename_columns_compose t : rename_columns g (rename_columns f t) = rename_columns (g ∘ f) t.
Proof.
  unfold rename_columns. cbn. f_equal.
  - by apply kmap_kmap.
  - rewrite <-map_fmap_compose. apply map_fmap_ext. by intros id [] _.
  - by apply kmap_kmap.
  - rewrite kmap_kmap by apply _. by apply kmap_ext_dom; intros [] _.
  - rewrite kmap_kmap by apply _. by apply kmap_ext_dom; intros [[]] _.
Qed.

Lemma rename_compose t : rename g (rename f t) = rename (g ∘ f) t.
Proof.
  unfold rename. change (t_conversations (with_conversations ?m _)) with m.
  transitivity (with_conversations (rename_conversation g <$> (rename_conversation f <$> t_conversations t))
    (rename_columns g (rename_columns f t))); [done|].
  rewrite rename_columns_compose. f_equal. rewrite <-map_fmap_compose. apply map_fmap_ext.
  intros id [] _. unfold compose, rename_conversation, set_participants. cbn. by rewrite <-list_fmap_compose.
Qed.
End compose.

Lemma rename_columns_query π `{!Inj (=) (=) π} t q :
  π ε = ε → q ∈ queries → q.2 (rename_columns π t) ≡ₚ π <$> q.2 t.
Proof.
  intros Hε. revert q. apply Forall_forall. unfold queries. repeat (apply Forall_cons; split); try apply Forall_nil_2; cbn [snd].
  - apply map_to_list_kmap_fst, _.
  - unfold select_from. cbn. by rewrite map_to_list_fmap_snd, <-!list_fmap_compose.
  - unfold select_to. cbn. rewrite map_to_list_fmap_snd, <-(filter_fmap_fixed π) by done. by rewrite <-!list_fmap_compose.
  - unfold select_deliveries. cbn. rewrite map_to_list_kmap_fst by apply _. by rewrite <-!list_fmap_compose.
  - apply map_to_list_kmap_fst, _.
  - unfold select_receipt_from. cbn. rewrite map_to_list_kmap_fst by apply _. by rewrite <-!list_fmap_compose.
  - unfold select_receipt_to. cbn. rewrite map_to_list_kmap_fst, <-(filter_fmap_fixed π) by (done || apply _).
    by rewrite <-!list_fmap_compose.
Qed.

Definition pairs (l : list mapping) : list (string * string) :=
  omap (λ m, if active m then Some (SourceID (row m), TargetID (row m)) else None) l.

Lemma pairs_cons m l :
  pairs (m :: l) = if active m then (SourceID (row m), TargetID (row m)) :: pairs l else pairs l.
Proof. unfold pairs. cbn. by destruct (active m). Qed.

Lemma runs_apply_mappings Error i l t : ∀ π `{!Inj (=) (=) π}, π ε = ε →
  disjoint_pairs (pairs l) → (∀ x, x ∈ pair_names (pairs l) → π x = x) →
  (∀ T q, T ∈ (pairs l).*2 → q ∈ queries → T ∉ q.2 t) →
  (∀ S q, S ∈ (pairs l).*1 → q ∈ queries → occurrence i q.1 S = occurs S (q.2 t)) →
  runs (until_error (apply_mapping Error i) l) (rename_columns π t) None
    (rename_columns (swaps (pairs l) ∘ π) t).
Proof.
  induction l as [|m l IH]; intros π Hπ Hε Hd Hfix Hfree Hcount; [apply runs_ret|].
  rewrite pairs_cons in Hd, Hfix, Hfree, Hcount |- *. destruct (active m) eqn:Hact.
  2: { eapply runs_until_error; [unfold apply_mapping; rewrite Hact; apply runs_ret|]. by apply IH. }
  set (S := SourceID (row m)) in *. set (T := TargetID (row m)) in *.
  pose proof (disjoint_pairs_cons _ _ _ Hd) as (HS & HT & Hne & HSe & HTe & Hd').
  assert (π S = S ∧ π T = T) as [HπS HπT].
  { unfold pair_names in Hfix. cbn in Hfix. split; apply Hfix; rewrite elem_of_cons, elem_of_app, elem_of_cons; tauto. }
  eapply runs_until_error.
  - apply runs_apply_mapping; try done.
    + intros q Hq. rewrite rename_columns_query by done. intros (x & Hx & Hin)%list_elem_of_fmap.
      assert (x = T) as -> by (apply (inj π); by rewrite HπT). apply (Hfree T q); [cbn; left|done..].
    + intros q Hq. rewrite rename_columns_query by done. fold S. rewrite <-HπS at 2. rewrite occurs_fmap by done.
      apply Hcount; [by left|done].
  - rewrite rename_columns_compose by apply _. fold S T.
    apply IH; [apply _| |done| | |].
    + unfold compose. rewrite Hε. unfold swap. cbn. by rewrite !bool_decide_eq_false_2.
    + intros x Hx. unfold compose. rewrite Hfix.
      2: { unfold pair_names in *. cbn. rewrite elem_of_cons, elem_of_app, elem_of_cons. rewrite elem_of_app in Hx. tauto. }
      unfold swap. cbn. rewrite !bool_decide_eq_false_2 by congruence. done.
    + intros T' q HT'. apply Hfree. by right.
    + intros S' q HS'. apply Hcount. by right.
Qed.

(** ** The conversations *)

Lemma runs_apply_conversations Error l : ∀ t,
  (∀ c, c ∈ l → cp_changed c = true → is_Some (t_conversations t !! cp_id c)) → NoDup (cp_id <$> l) →
  ∃ M, runs (until_error (apply_conversation Error) l) t None (with_conversations M t) ∧
    (∀ c, c ∈ l → cp_changed c = true →
       M !! cp_id c = set_participants (cp_participants c) <$> t_conversations t !! cp_id c) ∧
    (∀ k, (∀ c, c ∈ l → cp_changed c = true → cp_id c ≠ k) → M !! k = t_conversations t !! k).
Proof.
  induction l as [|c l IH]; intros t Hstored Hnd.
  { exists (t_conversations t). split; [by destruct t; apply runs_ret|].
    split; [by intros ? ?%not_elem_of_nil|done]. }
  rewrite fmap_cons in Hnd. apply NoDup_cons in Hnd as [Hc Hnd].
  assert (∀ c', c' ∈ l → cp_id c' ≠ cp_id c) as Hother.
  { intros c' Hin Heq. apply Hc. rewrite <-Heq. by apply list_elem_of_fmap_2. }
  destruct (cp_changed c) eqn:Hch.
  - destruct (Hstored c) as [r Hr]; [by left|done|].
    set (M0 := <[cp_id c := set_participants (cp_participants c) r]> (t_conversations t)).
    destruct (IH (with_conversations M0 t)) as (M & Hruns & HM & HM').
    { intros c' Hin Hch'. cbn. unfold M0. rewrite lookup_insert_ne by by apply not_eq_sym, Hother.
      apply Hstored; [by right|done]. }
    { done. }
    exists M. split; [|split].
    + eapply runs_until_error; [|exact Hruns]. unfold apply_conversation. rewrite Hch.
      eapply runs_bind; [apply runs_try, runs_call; unfold update_participants; by rewrite Hr|]. apply runs_ret.
    + intros c' [->|Hin]%elem_of_cons Hch'.
      * rewrite HM' by (intros c' Hin _; by apply Hother). cbn. unfold M0. by rewrite lookup_insert_eq, Hr.
      * rewrite HM by done. cbn. unfold M0. by rewrite lookup_insert_ne by by apply not_eq_sym, Hother.
    + intros k Hk. rewrite HM'; [|intros c' Hin; apply Hk; by right]. cbn. unfold M0.
      rewrite lookup_insert_ne; [done|]. apply Hk; [by left|done].
  - destruct (IH t) as (M & Hruns & HM & HM'); [intros c' Hin; apply Hstored; by right|done|].
    exists M. split; [|split].
    + eapply runs_until_error; [|exact Hruns]. unfold apply_conversation. rewrite Hch. apply runs_ret.
    + intros c' [->|Hin]%elem_of_cons Hch'; [congruence|by apply HM].
    + intros k Hk. apply HM'. intros c' Hin. apply Hk. by right.
Qed.

(** ** The replacements *)

Lemma replacements_pairs l : replacements l = foldl (λ R p, <[p.1 := p.2]> R) ∅ (pairs l).
Proof.
  unfold replacements. generalize (∅ : gmap string string). induction l as [|m l IH]; intros R; [done|].
  rewrite pairs_cons. cbn [foldl]. rewrite IH. by destruct (active m).
Qed.

Lemma foldl_insert_lookup (l : list (string * string)) x : ∀ R : gmap string string,
  NoDup l.*1 → foldl (λ R p, <[p.1 := p.2]> R) R l !! x
  = match list_find (λ p, p.1 = x) l with Some (_, p) => Some p.2 | None => R !! x end.
Proof.
  induction l as [|[s t] l IH]; intros R Hnd; [done|]. cbn in Hnd. apply NoDup_cons in Hnd as [Hs Hnd].
  cbn [foldl list_find fst snd]. rewrite IH by done. destruct (decide (s = x)) as [->|Hne].
  - destruct (list_find _ l) as [[j p]|] eqn:E; cbn; [|by rewrite lookup_insert_eq].
    apply list_find_Some in E as (Hp & <- & _). exfalso. apply Hs, list_elem_of_fmap_2. by eapply list_elem_of_lookup_2.
  - destruct (list_find _ l) as [[j p]|]; cbn; [done|]. by rewrite lookup_insert_ne.
Qed.

Lemma replacements_lookup l x y :
  NoDup (pairs l).*1 → replacements l !! x = Some y ↔ (x, y) ∈ pairs l.
Proof.
  intros Hnd. rewrite replacements_pairs, foldl_insert_lookup by done. split.
  - destruct (list_find _ _) as [[j [s t]]|] eqn:E; [|by rewrite lookup_empty].
    apply list_find_Some in E as (Hp & <- & _). intros [= <-]. by eapply list_elem_of_lookup_2.
  - intros Hin. destruct (list_find _ _) as [[j [s t]]|] eqn:E.
    + apply list_find_Some in E as (Hp & Heq & _). cbn in *. subst s.
      apply list_elem_of_lookup in Hin as [j' Hj'].
      assert (j = j') as <-; [|congruence].
      eapply NoDup_lookup; [exact Hnd|rewrite list_lookup_fmap, Hp; done|by rewrite list_lookup_fmap, Hj'].
    + exfalso. apply list_find_None in E. rewrite Forall_forall in E. by apply (E (x, y)).
Qed.

(** On names that are no target of a pair, replacing is swapping. *)
Lemma replace_swaps l x :
  disjoint_pairs (pairs l) → x ∉ (pairs l).*2 → replace_participant (replacements l) x = swaps (pairs l) x.
Proof.
  intros Hd Hx. unfold replace_participant.
  assert (NoDup (pairs l).*1) as Hnd by (destruct Hd as [[? _]%NoDup_app _]; done).
  destruct (replacements l !! x) as [y|] eqn:E; cbn.
  - apply replacements_lookup in E; [|done]. by destruct (swaps_pair _ _ _ Hd E) as [-> _].
  - rewrite swaps_other; [done|]. unfold pair_names. rewrite elem_of_app. intros [Hin|?]; [|done].
    apply list_elem_of_fmap in Hin as ([s t] & -> & Hin). apply replacements_lookup in Hin; [|done]. cbn in E. congruence.
Qed.

(** ** Planning *)

Definition mixed_scope (l : list string) : bool := has_scope "personal"%stdpp l && has_scope "ucla"%stdpp l.

Definition planned_conversation (R : gmap string string) (c : conversationPlan) : conversationPlan :=
  mkPlan (cp_id c) (replace_participant R <$> cp_participants c)
    (cp_changed c || existsb (λ a, bool_decide (is_Some (R !! a))) (cp_participants c)).

Lemma planConversations_spec R l :
  match planConversations R l with
  | Ok l' => l' = planned_conversation R <$> l ∧
             Forall (λ c, mixed_scope (replace_participant R <$> cp_participants c) = false) l
  | Err e => ¬ Forall (λ c, mixed_scope (replace_participant R <$> cp_participants c) = false) l ∧
             ∃ refusal, e = RefusalError [refusal]
  end.
Proof.
  induction l as [|c l IH]; [by split|]. cbn [planConversations]. cbv zeta. fold (mixed_scope (replace_participant R <$> cp_participants c)).
  destruct (mixed_scope _) eqn:Hm.
  - split; [|by eexists]. intros [? _]%Forall_cons. congruence.
  - destruct (planConversations R l) as [l'|e].
    + destruct IH as [-> ?]. split; [done|by constructor].
    + destruct IH as [Hn ?]. split; [|done]. by intros [_ ?]%Forall_cons.
Qed.

Definition planned (i : inspection) (m : mapping) : mapping :=
  if bool_decide (SourceID (row m) = TargetID (row m)) then m
  else let present_source := bool_decide (SourceID (row m) ∈ present i) in
       mkMapping (row m) present_source (negb present_source && bool_decide (TargetID (row m) ∈ present i)).

Definition occupied (i : inspection) (m : mapping) : Prop :=
  SourceID (row m) ≠ TargetID (row m) ∧ SourceID (row m) ∈ present i ∧ TargetID (row m) ∈ present i.

Definition sum (l : list Z) : Z := foldr Z.add 0 l.

Definition cells (i : inspection) (a : string) : Z := sum ((λ s, occurrence i s a) <$> surfaces).

Definition moved_cells (i : inspection) (l : list mapping) : Z := sum ((λ p, cells i p.1) <$> pairs l).

Definition applied_mappings (l : list mapping) : Z :=
  Z.of_nat (length (filter (λ m, alreadyApplied m = true) l)).

Lemma sum_app l k : sum (l ++ k) = sum l + sum k.
Proof. induction l as [|x l IH]; cbn; [done|]. fold (sum (l ++ k)) (sum l). lia. Qed.

Lemma sum_nonneg l : Forall (λ x, 0 ≤ x) l → 0 ≤ sum l.
Proof. induction 1; cbn; [done|]. fold (sum l). lia. Qed.

Lemma count_rewrites_total i a l : ∀ r,
  let r' := foldl (λ r s, count_rewrites s (occurrence i s a) r) r l in
  Report.TotalRewrites r' = Report.TotalRewrites r + sum ((λ s, occurrence i s a) <$> l) ∧
  Report.AlreadyAppliedMappings r' = Report.AlreadyAppliedMappings r.
Proof.
  induction l as [|s l IH]; intros r r'; [cbn; lia|]. destruct (IH (count_rewrites s (occurrence i s a) r)) as [H1 H2].
  unfold r'. cbn [foldl]. rewrite H1, H2. cbn. fold (sum ((λ s, occurrence i s a) <$> l)). lia.
Qed.

Lemma preflight_mapping_spec i m r :
  active m = false → alreadyApplied m = false →
  match preflight_mapping i m r with
  | (r', Ok m') => m' = planned i m ∧ ¬ occupied i m ∧
      Report.TotalRewrites r' = Report.TotalRewrites r + (if active m' then cells i (SourceID (row m)) else 0) ∧
      Report.AlreadyAppliedMappings r'
      = Report.AlreadyAppliedMappings r + (if alreadyApplied m' then 1 else 0)
  | (r', Err e) => occupied i m ∧ ∃ refusal, e = RefusalError [refusal]
  end.
Proof.
  intros Hact Happ. unfold preflight_mapping, planned, occupied. cbv zeta.
  case_bool_decide as Heq; [rewrite Hact, Happ; cbn; split_and!; [done|naive_solver|lia|lia]|].
  case_bool_decide as Hs; case_bool_decide as Ht; cbn [andb negb active alreadyApplied row]; try (split; [done|by eexists]).
  - destruct (count_rewrites_total i (SourceID (row m)) surfaces (count_planned (row_disposition (row m)) r)) as [H1 H2].
    rewrite H1, H2. split_and!; [done|naive_solver|done|cbn; lia].
  - split_and!; [done|naive_solver|cbn; lia|cbn; lia].
  - split_and!; [done|naive_solver|cbn; lia|cbn; lia].
Qed.

Lemma applied_mappings_cons m l :
  applied_mappings (m :: l) = (if alreadyApplied m then 1 else 0) + applied_mappings l.
Proof.
  unfold applied_mappings. rewrite filter_cons. destruct (alreadyApplied m); [rewrite decide_True by done|rewrite decide_False by done];
    cbn [length]; lia.
Qed.

Lemma moved_cells_cons i m l :
  moved_cells i (m :: l) = (if active m then cells i (SourceID (row m)) else 0) + moved_cells i l.
Proof. unfold moved_cells. rewrite pairs_cons. by destruct (active m). Qed.

Lemma row_planned i m : row (planned i m) = row m.
Proof. unfold planned. by case_bool_decide. Qed.

Lemma preflight_mappings_spec i l : ∀ r,
  Forall (λ m, active m = false ∧ alreadyApplied m = false) l →
  match preflight_mappings i l r with
  | (r', Ok l') => l' = planned i <$> l ∧ Forall (λ m, ¬ occupied i m) l ∧
      Report.TotalRewrites r' = Report.TotalRewrites r + moved_cells i l' ∧
      Report.AlreadyAppliedMappings r' = Report.AlreadyAppliedMappings r + applied_mappings l'
  | (r', Err e) => ¬ Forall (λ m, ¬ occupied i m) l ∧ ∃ refusal, e = RefusalError [refusal]
  end.
Proof.
  induction l as [|m l IH]; intros r Hl; [cbn; split_and!; [done|constructor|unfold moved_cells; cbn; lia|unfold applied_mappings; cbn; lia]|].
  apply Forall_cons in Hl as [[Hact Happ] Hl]. cbn [preflight_mappings].
  pose proof (preflight_mapping_spec i m r Hact Happ) as Hm.
  destruct (preflight_mapping i m r) as [r1 [m'|e]].
  - destruct Hm as (-> & Hocc & Ht1 & Ha1). specialize (IH r1 Hl).
    destruct (preflight_mappings i l r1) as [r2 [l'|e]].
    + destruct IH as (-> & Hf & Ht2 & Ha2). rewrite fmap_cons, moved_cells_cons, applied_mappings_cons, row_planned.
      split_and!; [done|by constructor|lia|lia].
    + destruct IH as [Hn ?]. split; [|done]. by intros [_ ?]%Forall_cons.
  - destruct Hm as [Hocc ?]. split; [|done]. by intros [? _]%Forall_cons.
Qed.

(** ** The selection *)

Definition selection (rows : list ManifestRow) (a : Authority) : list ManifestRow :=
  filter (λ r, SourceAuthority r = a) rows.

Definition unplanned (r : ManifestRow) : mapping := mkMapping r false false.

Lemma selectMappings_spec rows a : ∀ l r,
  ∃ r', foldl (λ '(selected, r) row,
      if bool_decide (SourceAuthority row ≠ a) then (selected, r)
      else (selected ++ [mkMapping row false false], count_row (row_disposition row) r)) (l, r) rows
    = (l ++ (unplanned <$> selection rows a), r') ∧
    Report.TotalRewrites r' = Report.TotalRewrites r ∧
    Report.AlreadyAppliedMappings r' = Report.AlreadyAppliedMappings r ∧
    Report.ManifestRows r' = Report.ManifestRows r + Z.of_nat (length (selection rows a)).
Proof.
  induction rows as [|x rows IH]; intros l r; [exists r; cbn; rewrite app_nil_r; split_and!; [done..|lia]|].
  cbn [foldl]. unfold selection. rewrite filter_cons. case_bool_decide as Hx.
  - rewrite decide_False by done. apply IH.
  - rewrite decide_True by done.
    destruct (IH (l ++ [mkMapping x false false]) (count_row (row_disposition x) r)) as (r' & H & Ht & Ha & Hr).
    exists r'. fold (selection rows a). rewrite fmap_cons. rewrite H, <-app_assoc.
    split_and!; [done|by rewrite Ht|by rewrite Ha|rewrite Hr; cbn; lia].
Qed.

(** ** The plan

    Where the manifest sends an identity, and when a plan is accepted. *)
Definition target_of (a : Authority) (rows : list ManifestRow) (x : string) : string :=
  match list_find (λ r, SourceID r = x) (selection rows a) with
  | Some (_, r) => TargetID r
  | None => x
  end.

Record plan_ok (a : Authority) (rows : list ManifestRow) (t : Tables) : Prop := {
  (** Every identity is named by the manifest. *)
  po_named : ∀ x, x ∈ identities t →
    ∃ r, r ∈ selection rows a ∧ (SourceID r = x ∨ TargetID r = x);
  (** No rename meets an identity already there. *)
  po_free : ∀ r, r ∈ selection rows a → SourceID r ≠ TargetID r →
    SourceID r ∈ identities t → TargetID r ∉ identities t;
  (** No conversation ends up with both scopes. *)
  po_scopes : ∀ id c, t_conversations t !! id = Some c →
    mixed_scope (target_of a rows <$> ConversationRow.participants c) = false }.

(** The rows that rename something in the database. *)
Definition movers (a : Authority) (rows : list ManifestRow) (ids : gset string) : list ManifestRow :=
  filter (λ r, SourceID r ≠ TargetID r ∧ SourceID r ∈ ids) (selection rows a).

Definition pair_of (r : ManifestRow) : string * string := (SourceID r, TargetID r).

Definition plan (i : inspection) (a : Authority) (rows : list ManifestRow) : list mapping :=
  planned i <$> (unplanned <$> selection rows a).

Lemma plan_pairs i a rows : pairs (plan i a rows) = pair_of <$> movers a rows (present i).
Proof.
  unfold plan, movers. induction (selection rows a) as [|r l IH]; [done|].
  rewrite !fmap_cons, pairs_cons, filter_cons, IH, row_planned. unfold planned, unplanned. cbn [row].
  case_bool_decide as Heq; cbn [active]; [by rewrite decide_False by naive_solver|].
  case_bool_decide; [by rewrite decide_True|by rewrite decide_False by naive_solver].
Qed.

(** What the planning needs of a manifest. *)
Record plain_manifest (a : Authority) (rows : list ManifestRow) : Prop := {
  pm_sources : NoDup (SourceID <$> selection rows a);
  pm_targets : NoDup (TargetID <$> selection rows a);
  pm_names : ∀ r, r ∈ selection rows a → SourceID r ≠ ε ∧ TargetID r ≠ ε }.

Lemma NoDup_filter_fmap {A B} (f : A → B) (P : A → Prop) `{!∀ x, Decision (P x)} l :
  NoDup (f <$> l) → NoDup (f <$> filter P l).
Proof. intros Hnd. eapply sublist_NoDup; [exact Hnd|]. apply fmap_sublist, sublist_filter. Qed.

Lemma manifest_ok_plain a rows : manifest_ok rows → plain_manifest a rows.
Proof.
  intros [_ _ Hf Hs Ht _].
  assert (∀ g : ManifestRow → string, NoDup ((λ r, (SourceAuthority r, g r)) <$> rows) →
    NoDup (g <$> selection rows a)) as Hnd.
  { intros g Hg. unfold selection. apply (NoDup_filter_fmap _ (λ r, SourceAuthority r = a)) in Hg. revert Hg.
    assert (Forall (λ r, SourceAuthority r = a) (filter (λ r, SourceAuthority r = a) rows)) as Ha.
    { apply Forall_forall. by intros r [? _]%list_elem_of_filter. }
    induction Ha as [|r l Hr Ha IH]; [intros _; constructor|]. rewrite !fmap_cons, !NoDup_cons. intros [Hn ?]. split; [|by apply IH].
    intros (r' & Heq & Hin)%list_elem_of_fmap. apply Hn, list_elem_of_fmap. exists r'. split; [|done].
    rewrite Forall_forall in Ha. cbn. by rewrite Heq, Hr, (Ha r' Hin). }
  constructor; [by apply Hnd|by apply Hnd|].
  intros r [_ Hr]%list_elem_of_filter. rewrite Forall_forall in Hf. destruct (Hf r Hr) as [Hfields _ _].
  rewrite !Forall_cons in Hfields. destruct Hfields as ((_ & _ & ?) & (_ & _ & ?) & _). done.
Qed.

Section plan.
Context (a : Authority) (rows : list ManifestRow) (t : Tables).
Context (Hm : plain_manifest a rows).

Lemma elem_of_movers ids r :
  r ∈ movers a rows ids ↔ r ∈ selection rows a ∧ SourceID r ≠ TargetID r ∧ SourceID r ∈ ids.
Proof using Type. unfold movers. rewrite list_elem_of_filter. tauto. Qed.

Lemma target_of_source r : r ∈ selection rows a → target_of a rows (SourceID r) = TargetID r.
Proof using Hm.
  intros Hr. unfold target_of. destruct (list_find _ _) as [[j r']|] eqn:E.
  - apply list_find_Some in E as (Hj & Hs & _). apply list_elem_of_lookup in Hr as [j' Hj'].
    assert (j = j') as <-; [|congruence].
    eapply NoDup_lookup; [apply Hm|rewrite list_lookup_fmap, Hj; done|rewrite list_lookup_fmap, Hj'; cbn; by rewrite Hs].
  - exfalso. apply list_find_None in E. rewrite Forall_forall in E. by apply (E r).
Qed.

Lemma target_of_other x : (∀ r, r ∈ selection rows a → SourceID r ≠ x) → target_of a rows x = x.
Proof using Type.
  intros Hx. unfold target_of. destruct (list_find _ _) as [[j r]|] eqn:E; [|done].
  apply list_find_Some in E as (Hj & Hs & _). exfalso. eapply Hx, Hs. by eapply list_elem_of_lookup_2.
Qed.

Lemma target_of_empty : target_of a rows ε = ε.
Proof using Hm. apply target_of_other. intros r Hr. by apply (pm_names _ _ Hm). Qed.

Lemma movers_disjoint :
  (∀ r, r ∈ selection rows a → SourceID r ≠ TargetID r → SourceID r ∈ identities t → TargetID r ∉ identities t) →
  disjoint_pairs (pair_of <$> movers a rows (identities t)).
Proof using Hm.
  intros Hfree. unfold disjoint_pairs, pair_names. rewrite <-!list_fmap_compose.
  change (fst ∘ pair_of) with SourceID. change (snd ∘ pair_of) with TargetID. split.
  - apply NoDup_app. split_and!.
    + apply NoDup_filter_fmap, Hm.
    + intros x (r & -> & (Hr & Hne & Hin)%elem_of_movers)%list_elem_of_fmap (r' & Heq & (Hr' & Hne' & Hin')%elem_of_movers)%list_elem_of_fmap.
      apply (Hfree r' Hr' Hne' Hin'). by rewrite <-Heq.
    + apply NoDup_filter_fmap, Hm.
  - rewrite elem_of_app. intros [(r & Heq & (Hr & _)%elem_of_movers)%list_elem_of_fmap|(r & Heq & (Hr & _)%elem_of_movers)%list_elem_of_fmap];
      by destruct (pm_names _ _ Hm r Hr).
Qed.

(** On the identities of the database the swaps are the manifest's renaming. *)
Lemma swaps_target x :
  (∀ r, r ∈ selection rows a → SourceID r ≠ TargetID r → SourceID r ∈ identities t → TargetID r ∉ identities t) →
  x ∈ identities t ∨ x = ε → swaps (pair_of <$> movers a rows (identities t)) x = target_of a rows x.
Proof using Hm.
  intros Hfree Hx. pose proof (movers_disjoint Hfree) as Hd. destruct Hx as [Hx| ->].
  2: by rewrite swaps_empty, target_of_empty.
  destruct (decide (Exists (λ r, SourceID r = x) (selection rows a))) as [Hs|Hs].
  - apply Exists_exists in Hs as (r & Hr & <-). rewrite target_of_source by done.
    destruct (decide (SourceID r = TargetID r)) as [Heq|Hne].
    + rewrite <-Heq, swaps_other; [done|]. unfold pair_names. rewrite <-!list_fmap_compose, elem_of_app.
      intros [(r' & Heq' & (Hr' & Hne' & _)%elem_of_movers)%list_elem_of_fmap|(r' & Heq' & (Hr' & Hne' & Hin')%elem_of_movers)%list_elem_of_fmap]; cbn in Heq'.
      * apply Hne'. assert (target_of a rows (SourceID r) = target_of a rows (SourceID r')) as H by by rewrite Heq'.
        rewrite !target_of_source in H by done. congruence.
      * apply (Hfree r' Hr' Hne' Hin'). by rewrite <-Heq'.
    + eapply proj1, swaps_pair; [done|]. apply (list_elem_of_fmap_2 pair_of). by apply elem_of_movers.
  - rewrite target_of_other.
    2: { intros r Hr Heq. apply Hs, Exists_exists. eauto. }
    apply swaps_other. unfold pair_names. rewrite <-!list_fmap_compose, elem_of_app.
    intros [(r & -> & (Hr & _)%elem_of_movers)%list_elem_of_fmap|(r & -> & (Hr & Hne & Hin)%elem_of_movers)%list_elem_of_fmap]; cbn in *.
    + apply Hs, Exists_exists. eauto.
    + by apply (Hfree r Hr Hne Hin).
Qed.
End plan.

(** ** Identities *)

Lemma elem_of_concat {A} (x : A) (ls : list (list A)) : x ∈ concat ls ↔ ∃ l, x ∈ l ∧ l ∈ ls.
Proof. induction ls as [|l ls IH]; cbn; [set_solver|]. rewrite elem_of_app, IH. set_solver. Qed.

Lemma filter_iff_in {A} (P Q : A → Prop) `{!∀ x, Decision (P x), !∀ x, Decision (Q x)} (l : list A) :
  (∀ x, x ∈ l → P x ↔ Q x) → filter P l = filter Q l.
Proof.
  induction l as [|x l IH]; intros Hl; [done|]. rewrite !filter_cons, IH by (intros y Hy; apply Hl; by right).
  destruct (decide (P x)), (decide (Q x)); try done; exfalso; pose proof (Hl x); set_solver.
Qed.

Lemma identity_or_empty t x : x ∈ concat ((λ q, q.2 t) <$> queries) ++ all_participants t → x ∈ identities t ∨ x = ε.
Proof.
  intros Hx. destruct (decide (x = ε)); [by right|left]. unfold identities, occurrences_in.
  apply elem_of_list_to_set, list_elem_of_filter. done.
Qed.

Lemma query_identity t q x : q ∈ queries → x ∈ q.2 t → x ∈ identities t ∨ x = ε.
Proof.
  intros Hq Hx. apply identity_or_empty, elem_of_app. left. apply elem_of_concat. exists (q.2 t).
  split; [done|]. by apply (list_elem_of_fmap_2 (λ q : Query, q.2 t)).
Qed.

Lemma participant_identity t id c x :
  t_conversations t !! id = Some c → x ∈ ConversationRow.participants c → x ∈ identities t ∨ x = ε.
Proof.
  intros Hc Hx. apply identity_or_empty, elem_of_app. right. apply elem_of_concat.
  exists (ConversationRow.participants c). split; [done|].
  apply (list_elem_of_fmap_2 (λ p, ConversationRow.participants p.2) _ (id, c)). by apply elem_of_map_to_list.
Qed.

Lemma identities_empty t : ε ∉ identities t.
Proof. unfold identities, occurrences_in. rewrite elem_of_list_to_set, list_elem_of_filter. tauto. Qed.

(** A renaming is told by what it does to the identities of the database. *)
Lemma rename_ext f g t :
  (∀ x, x ∈ identities t ∨ x = ε → f x = g x) → rename f t = rename g t.
Proof.
  intros Hfg. assert (∀ q x, q ∈ queries → x ∈ q.2 t → f x = g x) as Hq.
  { intros q x Hq Hx. by eapply Hfg, query_identity. }
  assert (∀ k, is_Some (t_idempotency t !! k) → f k.1.1 = g k.1.1 ∧ f k.1.2 = g k.1.2) as Hr.
  { intros k Hk. apply elem_of_keys in Hk. split.
    - apply (Hq (s_receipt_from, select_receipt_from)); [unfold queries; set_solver|]. cbn. by do 2 apply list_elem_of_fmap_2.
    - destruct (decide (k.1.2 = ε)) as [->|Hne]; [by apply Hfg; right|].
      apply (Hq (s_receipt_to, select_receipt_to)); [unfold queries; set_solver|]. cbn. apply list_elem_of_filter. split; [done|].
      by apply (list_elem_of_fmap_2 snd), list_elem_of_fmap_2. }
  unfold rename, rename_columns, with_conversations. cbn. f_equal.
  - apply kmap_ext_dom. intros k Hk. apply (Hq (s_agents, select_agents)); [unfold queries; set_solver|by apply elem_of_keys].
  - apply map_fmap_ext. intros id c Hc. unfold rename_conversation. f_equal. apply list_fmap_ext.
    intros j x Hx%list_elem_of_lookup_2. by eapply Hfg, participant_identity.
  - apply map_fmap_ext. intros id m Hm. apply elem_of_map_to_list in Hm. unfold rename_message.
    rewrite (Hq (s_from, select_from) (MessageRow.from_agent m)).
    2: unfold queries; set_solver.
    2: { cbn. unfold select_from. apply list_elem_of_fmap_2. by apply (list_elem_of_fmap_2 snd _ (id, m)). }
    destruct (decide (MessageRow.to_agent m = ε)) as [->|Hne]; [by rewrite (Hfg ε) by by right|].
    rewrite (Hq (s_to, select_to) (MessageRow.to_agent m)); [done|unfold queries; set_solver|].
    cbn. unfold select_to. apply list_elem_of_filter. split; [done|]. apply list_elem_of_fmap_2.
    by apply (list_elem_of_fmap_2 snd _ (id, m)).
  - apply kmap_ext_dom. intros k Hk. apply (Hq (s_cursors, select_cursors)); [unfold queries; set_solver|by apply elem_of_keys].
  - apply kmap_ext_dom. intros [k n] Hk. cbn. rewrite (Hq (s_deliveries, select_deliveries) k); [done|unfold queries; set_solver|].
    cbn. apply (list_elem_of_fmap_2 fst _ (k, n)). by apply elem_of_keys.
  - apply kmap_ext_dom. intros k Hk. unfold rename_receipt. destruct (Hr k Hk) as [-> ->]. done.
Qed.

Lemma rename_id t : rename id t = t.
Proof.
  unfold rename. rewrite rename_columns_id. destruct t. unfold with_conversations. cbn. f_equal.
  rewrite <-(map_fmap_id t_conversations) at 2. apply map_fmap_ext. intros id [] _.
  unfold rename_conversation, set_participants. cbn. by rewrite list_fmap_id.
Qed.

(** *** Counting the cells that change *)

Lemma cells_occurs t i a : inspected t i → a ≠ ε → cells i a = occurs a (occurrences_in t).
Proof.
  intros Hi Ha. unfold cells, occurrences_in. rewrite occurs_nonempty by done. rewrite occurs_app.
  pose proof (λ q Hq, in_queries _ _ Hi q a Hq Ha) as Hq. apply Forall_forall in Hq. unfold queries in Hq |- *.
  rewrite !Forall_cons in Hq. destruct Hq as (H1 & H2 & H3 & H4 & H5 & H6 & H7 & _). cbn [fst snd] in *.
  unfold surfaces, sum. rewrite !fmap_cons. cbn [foldr fmap list_fmap].
  rewrite H1, H2, H3, H4, H5, H6, H7, (in_participants _ _ Hi a Ha).
  cbn [concat snd]. rewrite !occurs_app. change (occurs a []) with 0. lia.
Qed.

Lemma sum_occurs (ks L : list string) :
  NoDup ks → sum ((λ k, occurs k L) <$> ks) = Z.of_nat (length (filter (λ x, x ∈ ks) L)).
Proof.
  intros Hnd. induction L as [|x L IH].
  { cbn. clear. induction ks as [|k ks IH]; [done|]. rewrite fmap_cons. unfold sum in *. cbn [foldr]. rewrite IH. done. }
  assert (sum ((λ k, occurs k (x :: L)) <$> ks)
    = (if bool_decide (x ∈ ks) then 1 else 0) + sum ((λ k, occurs k L) <$> ks)) as ->.
  { clear IH. induction Hnd as [|k ks Hk Hnd IH]; [rewrite bool_decide_eq_false_2 by apply not_elem_of_nil; done|].
    rewrite !fmap_cons. unfold sum in *. cbn [foldr]. rewrite IH, occurs_cons.
    destruct (decide (k = x)) as [->|Hne].
    - rewrite (bool_decide_eq_true_2 (x = x)), (bool_decide_eq_false_2 (x ∈ ks)), (bool_decide_eq_true_2 (x ∈ _ :: _)) by (done || by left). lia.
    - rewrite (bool_decide_eq_false_2 (k = x)) by done. rewrite (bool_decide_ext (x ∈ k :: ks) (x ∈ ks)) by set_solver. lia. }
  rewrite IH, filter_cons. case_bool_decide; [rewrite decide_True by done|rewrite decide_False by done]; cbn [length]; lia.
Qed.

Lemma moved_cells_count a rows t i :
  plain_manifest a rows → inspected t i →
  moved_cells i (plan i a rows)
  = Z.of_nat (length (filter (λ x, target_of a rows x ≠ x) (occurrences_in t))).
Proof.
  intros Hm Hi. unfold moved_cells. rewrite plan_pairs, (in_present _ _ Hi).
  transitivity (sum ((λ k, occurs k (occurrences_in t)) <$> (SourceID <$> movers a rows (identities t)))).
  - f_equal. rewrite <-!list_fmap_compose. apply list_fmap_ext. intros j r Hr%list_elem_of_lookup_2.
    apply elem_of_movers in Hr as (Hr & _). cbn. apply cells_occurs; [done|]. by apply (pm_names _ _ Hm).
  - rewrite sum_occurs by (apply NoDup_filter_fmap, Hm). do 2 f_equal. apply filter_iff_in.
    intros x Hx. assert (x ∈ identities t) as Hid by by apply elem_of_list_to_set. rewrite list_elem_of_fmap. split.
    + intros (r & -> & (Hr & Hne & _)%elem_of_movers). rewrite target_of_source by done. congruence.
    + intros Hne. unfold target_of in Hne. destruct (list_find _ _) as [[j r]|] eqn:E; [|done].
      apply list_find_Some in E as (Hj & <- & _). exists r. split; [done|]. apply elem_of_movers.
      split_and!; [by eapply list_elem_of_lookup_2|congruence|done].
Qed.

(** ** The whole plan *)

Definition planned_inspection (a : Authority) (rows : list ManifestRow) (i : inspection) : inspection :=
  mkInspection (present i) (occurrences i)
    (planned_conversation (replacements (plan i a rows)) <$> conversations i).

Section apply_plan.
Context (Error : DBError → string) (a : Authority) (rows : list ManifestRow) (t : Tables) (i : inspection).
Context (Hm : plain_manifest a rows) (Hi : inspected t i).
Context (Hfree : ∀ r, r ∈ selection rows a → SourceID r ≠ TargetID r →
  SourceID r ∈ identities t → TargetID r ∉ identities t).

Let P := pair_of <$> movers a rows (identities t).
Let R := replacements (plan i a rows).

Lemma plan_pairs_inspected : pairs (plan i a rows) = P.
Proof using Hi. unfold P. by rewrite plan_pairs, (in_present _ _ Hi). Qed.

(** A participant is replaced as the manifest says. *)
Lemma replace_target x : x ∈ identities t ∨ x = ε → replace_participant R x = target_of a rows x.
Proof using Hm Hi Hfree.
  intros Hx. pose proof (movers_disjoint a rows t Hm Hfree) as Hd. rewrite <-(swaps_target a rows t Hm x Hfree Hx).
  fold P. unfold R. rewrite <-plan_pairs_inspected. apply replace_swaps; [by rewrite plan_pairs_inspected|].
  rewrite plan_pairs_inspected. unfold P. rewrite <-list_fmap_compose.
  intros (r & -> & (Hr & Hne & Hs)%elem_of_movers)%list_elem_of_fmap. destruct Hx as [Hx|Hx].
  - by apply (Hfree r Hr Hne Hs).
  - by apply (pm_names _ _ Hm r Hr).
Qed.

Lemma replace_participants id c :
  t_conversations t !! id = Some c →
  replace_participant R <$> ConversationRow.participants c = target_of a rows <$> ConversationRow.participants c.
Proof using Hm Hi Hfree.
  intros Hc. apply list_fmap_ext. intros j x Hx%list_elem_of_lookup_2. by eapply replace_target, participant_identity.
Qed.

Lemma planned_conversations c :
  c ∈ merge_sort plan_le (conversations (planned_inspection a rows i)) ↔
  ∃ id r, t_conversations t !! id = Some r ∧ c = planned_conversation R (plan_of (id, r)).
Proof using Hi.
  rewrite merge_sort_Permutation. cbn. rewrite (in_conversations _ _ Hi), select_conversations_perm, <-list_fmap_compose.
  rewrite list_elem_of_fmap. split.
  - intros ([id r] & -> & Hin%elem_of_map_to_list). eauto.
  - intros (id & r & Hr & ->). exists (id, r). split; [done|by apply elem_of_map_to_list].
Qed.

Lemma runs_applyPlan :
  runs (applyPlan Error (plan i a rows) (planned_inspection a rows i)) t None (rename (target_of a rows) t).
Proof using Hm Hi Hfree.
  pose proof (movers_disjoint a rows t Hm Hfree) as Hd. fold P in Hd.
  set (t1 := rename_columns (swaps P) t).
  destruct (runs_apply_conversations Error (merge_sort plan_le (conversations (planned_inspection a rows i))) t1)
    as (M & Hruns & HM & HM').
  { intros c (id & r & Hr & ->)%planned_conversations _. by exists r. }
  { rewrite merge_sort_Permutation. cbn. rewrite (in_conversations _ _ Hi), select_conversations_perm, <-!list_fmap_compose.
    apply NoDup_fst_map_to_list. }
  unfold applyPlan. eapply runs_bind.
  { rewrite <-(rename_columns_id t) at 1.
    apply (runs_apply_mappings Error (planned_inspection a rows i) (plan i a rows) t id); rewrite ?plan_pairs_inspected; try done.
    - intros T q HT Hq Hin. unfold P in HT. rewrite <-list_fmap_compose in HT.
      apply list_elem_of_fmap in HT as (r & -> & (Hr & Hne & Hs)%elem_of_movers).
      destruct (query_identity t q _ Hq Hin) as [Hin'|Hin'].
      + by apply (Hfree r Hr Hne Hs).
      + by apply (pm_names _ _ Hm r Hr).
    - intros S q HS Hq. change (occurrence i q.1 S = occurs S (q.2 t)). apply (in_queries _ _ Hi); [done|].
      intros ->. destruct Hd as [_ He]. apply He. unfold pair_names. rewrite elem_of_app. by left. }
  cbn beta iota. rewrite plan_pairs_inspected. change (swaps P ∘ id) with (swaps P). fold t1.
  enough (with_conversations M t1 = rename (target_of a rows) t) as <- by done.
  rewrite <-(rename_ext (swaps P)) by (intros x Hx; by apply swaps_target).
  unfold rename. fold t1. f_equal. apply map_eq. intros k. rewrite lookup_fmap.
  change (t_conversations t1) with (t_conversations t) in *.
  destruct (t_conversations t !! k) as [r|] eqn:Hk; cbn.
  2: { rewrite HM'; [done|]. intros c (id & r & Hr & ->)%planned_conversations _. cbn. intros ->. congruence. }
  assert (replace_participant R <$> ConversationRow.participants r = swaps P <$> ConversationRow.participants r) as Hrep.
  { rewrite (replace_participants k) by done. apply list_fmap_ext. intros j x Hx%list_elem_of_lookup_2. symmetry.
    apply swaps_target; [done..|]. by eapply participant_identity. }
  set (c := planned_conversation R (plan_of (k, r))).
  assert (c ∈ merge_sort plan_le (conversations (planned_inspection a rows i))) as Hc
    by (apply planned_conversations; by exists k, r).
  destruct (cp_changed c) eqn:Hch.
  - change k with (cp_id c) at 1. rewrite HM by done. cbn. rewrite Hk. cbn. unfold rename_conversation. by rewrite <-Hrep.
  - rewrite HM'.
    2: { intros c' (id & r' & Hr' & ->)%planned_conversations Hch' Hid. cbn in Hid. subst id.
         assert (r' = r) as -> by congruence. fold c in Hch'. congruence. }
    rewrite Hk. f_equal. unfold rename_conversation. rewrite <-Hrep.
    assert (replace_participant R <$> ConversationRow.participants r = ConversationRow.participants r) as ->; [|by destruct r].
    rewrite <-(list_fmap_id (ConversationRow.participants r)) at 2. apply list_fmap_ext. intros j x Hx%list_elem_of_lookup_2.
    unfold c in Hch. cbn in Hch. unfold replace_participant. destruct (R !! x) eqn:HR; [|done]. exfalso.
    rewrite (proj2 (existsb_exists _ _)) in Hch; [done|]. exists x. split; [by apply list_elem_of_In|].
    apply bool_decide_eq_true. by eexists.
Qed.
End apply_plan.
