(* ===== verification/NsmigrateProps.v ===== *)
(** * Properties of the namespace migration

    A run applies exactly the renaming of the manifest or leaves the database
    as it was, whatever fails; a plan the checks accept is carried out; the
    undo plan restores the database. *)
From stdpp Require Import gmap strings list sorting.
From Stdlib Require Import ZArith Lia Ascii.
From S2P Require Import Prelude GoBase Json Types Scope Rfc3339 Sqlite Delivery Ledger SqliteReads Migrate MigrateSpec Manifest ManifestProps Nsmigrate NsmigrateSpec.

(** ** Runs and faults *)

Lemma runs_unique {A} (m : Db A) t a t1 b t2 : runs m t a t1 → runs m t b t2 → a = b ∧ t1 = t2.
Proof. intros H1 H2. destruct (H1 O) as [n1 E1], (H2 O) as [n2 E2]. rewrite E1 in E2. by injection E2 as -> -> ->. Qed.

(** Whatever fails, the result is a bad one or that of the run without faults. *)
Definition honest {A} (bad : A → Prop) (m : Db A) : Prop := ∀ f w,
  match m f w with
  | (Ok a, w') => bad a ∨ runs m w.2 a w'.2
  | (Err _, _) => False
  end.

Lemma honest_ret {A} (bad : A → Prop) a : honest bad (mret a).
Proof. intros f w. right. apply runs_ret. Qed.

Lemma honest_bind {A B} (bad : A → Prop) (bad' : B → Prop) m (g : A → Db B) :
  honest bad m → (∀ a, honest bad' (g a)) → (∀ a f w, bad a → match g a f w with (Ok b, _) => bad' b | _ => False end) →
  honest bad' (m ≫= g).
Proof.
  intros Hm Hg Hbad f w. rewrite bind_run. specialize (Hm f w). destruct (m f w) as [[a|] w1]; [|done].
  specialize (Hg a f w1). specialize (Hbad a f w1). destruct (g a f w1) as [[b|] w2]; [|done].
  destruct Hm as [Ha|Ha]; [left; by apply Hbad|]. destruct Hg as [Hb|Hb]; [by left|right]. by eapply runs_bind.
Qed.

(** As above, when a bad result is returned at once. *)
Lemma honest_bind_ret {A B} (bad : A → Prop) (bad' : B → Prop) m (g : A → Db B) :
  honest bad m → (∀ a, honest bad' (g a)) → (∀ a, bad a → ∃ b, g a = mret b ∧ bad' b) → honest bad' (m ≫= g).
Proof.
  intros Hm Hg Hbad. eapply honest_bind; [done..|]. intros a f w (b & -> & Hb)%Hbad. done.
Qed.

Definition is_error {A B} (r : result A B) : Prop := match r with Err _ => True | Ok _ => False end.

Lemma honest_call {A} (stmt : Tables → result DBError (A * Tables)) : honest is_error (try (call stmt)).
Proof.
  intros f w. unfold try, call. destruct (f w.1) as [[]|]; [by left..|].
  destruct (stmt w.2) as [[a t]|e] eqn:Hs; [right|by left]. intros n. exists (S n). cbn. by rewrite Hs.
Qed.

Definition cut_short {A B C} (r : result A (B * option C)) : Prop :=
  match r with Ok (_, None) => False | _ => True end.

Lemma honest_rows {A} (select : Tables → list A) : honest cut_short (try (read_rows select)).
Proof.
  intros f w. unfold try, read_rows. destruct (f w.1) as [[]|]; [by left..|]. right. intros n. by exists (S n).
Qed.

Lemma honest_inspect_queries l : ∀ i, honest is_error (inspect_queries l i).
Proof.
  induction l as [|[s select] l IH]; intros i; [apply honest_ret|].
  cbn [inspect_queries]. eapply honest_bind_ret; [apply honest_rows| |].
  - intros [[rows [e|]]|e]; [apply honest_ret|apply IH|apply honest_ret].
  - intros [[rows [e|]]|e] Hbad; [by eexists|done|by eexists].
Qed.

Lemma honest_inspect mf : honest is_error (inspect mf).
Proof.
  eapply honest_bind_ret; [apply honest_inspect_queries| |].
  - intros [i|e]; [|apply honest_ret]. eapply honest_bind_ret; [apply honest_rows|intros ?; apply honest_ret|].
    intros [[l [e|]]|e] Hbad; [|done|by eexists]. eexists. split; [done|]. by destruct (inspect_participants mf l i).
  - intros [i|e] Hbad; [done|by eexists].
Qed.

Definition is_some {A} (o : option A) : Prop := match o with Some _ => True | None => False end.

Lemma honest_until_error {A} (body : A → Db (option string)) l :
  (∀ a, honest is_some (body a)) → honest is_some (until_error body l).
Proof.
  intros Hb. induction l as [|a l IH]; [apply honest_ret|]. cbn [until_error].
  eapply honest_bind_ret; [apply Hb|intros [e|]; [apply honest_ret|done]|]. intros [e|] He; [by eexists|done].
Qed.

Lemma honest_applyPlan Error l i : honest is_some (applyPlan Error l i).
Proof.
  unfold applyPlan. eapply honest_bind_ret; [| |intros [e|] He; [by eexists|done]].
  - apply honest_until_error. intros m. unfold apply_mapping. destruct (active m); [|apply honest_ret].
    apply honest_until_error. intros u. eapply honest_bind_ret; [apply honest_call|intros ?; apply honest_ret|].
    intros [n|e] He; [done|by eexists].
  - intros [e|]; [apply honest_ret|]. apply honest_until_error. intros c. unfold apply_conversation.
    destruct (cp_changed c); [|apply honest_ret]. eapply honest_bind_ret; [apply honest_call|intros ?; apply honest_ret|].
    intros [n|e] He; [done|by eexists].
Qed.

(** ** The plan of a run *)

Section preflight.
Context (a : Authority) (rows : list ManifestRow) (t : Tables) (i : inspection).
Context (Hm : plain_manifest a rows) (Hi : inspected t i).

Lemma named_iff :
  present i ⊆ list_to_set ((λ m, SourceID (row m)) <$> (unplanned <$> selection rows a))
              ∪ list_to_set ((λ m, TargetID (row m)) <$> (unplanned <$> selection rows a)) ↔
  ∀ x, x ∈ identities t → ∃ r, r ∈ selection rows a ∧ (SourceID r = x ∨ TargetID r = x).
Proof using Hi.
  rewrite (in_present _ _ Hi), <-!list_fmap_compose. split.
  - intros Hsub x Hx%Hsub. rewrite elem_of_union, !elem_of_list_to_set, !list_elem_of_fmap in Hx.
    destruct Hx as [(r & -> & Hr)|(r & -> & Hr)]; exists r; cbn; auto.
  - intros Hn x (r & Hr & Hx)%Hn. rewrite elem_of_union, !elem_of_list_to_set, !list_elem_of_fmap.
    destruct Hx as [<-|<-]; [left|right]; by exists r.
Qed.

Lemma free_iff :
  Forall (λ m, ¬ occupied i m) (unplanned <$> selection rows a) ↔
  ∀ r, r ∈ selection rows a → SourceID r ≠ TargetID r → SourceID r ∈ identities t → TargetID r ∉ identities t.
Proof using Hi.
  rewrite Forall_fmap, Forall_forall. unfold occupied, compose, unplanned. cbn [row].
  rewrite (in_present _ _ Hi). naive_solver.
Qed.

Lemma scopes_iff :
  (∀ r, r ∈ selection rows a → SourceID r ≠ TargetID r → SourceID r ∈ identities t → TargetID r ∉ identities t) →
  Forall (λ c, mixed_scope (replace_participant (replacements (plan i a rows)) <$> cp_participants c) = false) (conversations i) ↔
  ∀ id c, t_conversations t !! id = Some c →
    mixed_scope (target_of a rows <$> ConversationRow.participants c) = false.
Proof using Hm Hi.
  intros Hfree. rewrite (in_conversations _ _ Hi), Forall_fmap, Forall_forall. unfold compose, plan_of. cbn [cp_participants].
  split.
  - intros H id c Hc. rewrite <-(replace_participants a rows t i Hm Hi Hfree id c Hc). apply (H (id, c)).
    rewrite select_conversations_perm. by apply elem_of_map_to_list.
  - intros H [id c] Hc. rewrite select_conversations_perm in Hc. apply elem_of_map_to_list in Hc. cbn.
    rewrite (replace_participants a rows t i Hm Hi Hfree id c Hc). by eapply H.
Qed.

Lemma preflight_spec r :
  match preflight (unplanned <$> selection rows a) i r with
  | (r', Ok (l, i')) => plan_ok a rows t ∧ l = plan i a rows ∧ i' = planned_inspection a rows i ∧
      Report.TotalRewrites r'
      = Report.TotalRewrites r + Z.of_nat (length (filter (λ x, target_of a rows x ≠ x) (occurrences_in t))) ∧
      Report.AlreadyAppliedMappings r'
      = Report.AlreadyAppliedMappings r + applied_mappings (plan i a rows)
  | (r', Err e) => ¬ plan_ok a rows t ∧ ∃ refusal, e = RefusalError [refusal]
  end.
Proof using Hm Hi.
  unfold preflight. cbv zeta. case_bool_decide as Hn; cbn [negb].
  2: { split; [|by eexists]. intros [H _ _]. by apply Hn, named_iff. }
  rewrite named_iff in Hn.
  pose proof (preflight_mappings_spec i (unplanned <$> selection rows a) r) as Hp.
  assert (Forall (λ m, active m = false ∧ alreadyApplied m = false) (unplanned <$> selection rows a)) as Hun.
  { apply Forall_fmap, Forall_forall. done. }
  specialize (Hp Hun). destruct (preflight_mappings _ _ _) as [r1 [l|e]].
  - destruct Hp as (-> & Hfree & Ht & Ha). fold (plan i a rows) in *. rewrite free_iff in Hfree.
    pose proof (planConversations_spec (replacements (plan i a rows)) (conversations i)) as Hc.
    pose proof (scopes_iff Hfree) as Hsc. destruct (planConversations _ _) as [c|e].
    + destruct Hc as [-> Hs]. pose proof (proj1 Hsc Hs). split_and!; [done..|by rewrite Ht, (moved_cells_count a rows t)|done].
    + destruct Hc as [Hs ?]. split; [|done]. intros [_ _ Hsok]. by apply Hs, (proj2 Hsc).
  - destruct Hp as [Hfree ?]. split; [|done]. intros [_ Hf _]. by apply Hfree, free_iff.
Qed.
End preflight.

Lemma runs_inspect_malformed mf t :
  (∃ id, is_Some (t_conversations t !! id) ∧ mf id = true) → ∃ e, runs (inspect mf) t (Err (RefusalError [e])) t.
Proof.
  intros (id & [c Hc] & Hid).
  assert (∀ l i, (id, c) ∈ l → ∃ e, inspect_participants mf l i = Err (RefusalError [e])) as H.
  { induction l as [|[id' c'] l IH]; intros i Hin; [by apply not_elem_of_nil in Hin|]. cbn [inspect_participants].
    destruct (mf id') eqn:E; [by eexists|]. apply elem_of_cons in Hin as [[= <- <-]|Hin]; [congruence|by apply IH]. }
  destruct (H (select_conversations t) (foldl (λ i (q : Query), note q.1 (q.2 t) i) (mkInspection ∅ ∅ []) queries)) as [e He].
  { rewrite select_conversations_perm. by apply elem_of_map_to_list. }
  exists e. unfold inspect. eapply runs_bind; [apply runs_inspect_queries|]. cbn beta iota.
  unfold inspectConversations. eapply runs_bind; [apply runs_read_rows|]. cbn beta iota. rewrite He. apply runs_ret.
Qed.

(** How many cells hold an identity that moves. *)
Definition rewrites (a : Authority) (rows : list ManifestRow) (t : Tables) : Z :=
  Z.of_nat (length (filter (λ x, target_of a rows x ≠ x) (occurrences_in t))).

Lemma no_rewrites a rows t x : rewrites a rows t = 0 → x ∈ identities t → target_of a rows x = x.
Proof.
  unfold rewrites. intros Hz Hx. destruct (filter _ _) as [|y l] eqn:Hf; [|done].
  destruct (decide (target_of a rows x = x)) as [|Hne]; [done|]. exfalso.
  assert (x ∈ filter (λ x, target_of a rows x ≠ x) (occurrences_in t)) as Hin.
  { apply list_elem_of_filter. split; [done|]. by apply elem_of_list_to_set in Hx. }
  rewrite Hf in Hin. by apply not_elem_of_nil in Hin.
Qed.

(** How many renames the database has behind it. *)
Definition already (a : Authority) (rows : list ManifestRow) (t : Tables) : Z :=
  Z.of_nat (length (filter (λ r, SourceID r ≠ TargetID r ∧ (SourceID r ∉ identities t) ∧ TargetID r ∈ identities t)
                           (selection rows a))).

(** ** Running again, and back *)

Lemma all_participants_rename π t : all_participants (rename π t) ≡ₚ π <$> all_participants t.
Proof.
  unfold all_participants, rename. cbn. rewrite map_to_list_fmap, <-list_fmap_compose.
  induction (map_to_list (t_conversations t)) as [|[id c] l IH]; [done|].
  rewrite !fmap_cons. cbn [concat]. rewrite fmap_app. by rewrite <-IH.
Qed.

Lemma occurrences_rename π `{!Inj (=) (=) π} t :
  π ε = ε → occurrences_in (rename π t) ≡ₚ π <$> occurrences_in t.
Proof.
  intros Hε. unfold occurrences_in. rewrite <-(filter_fmap_fixed π) by done. rewrite fmap_app, all_participants_rename.
  apply filter_Permutation, Permutation_app_tail.
  assert (∀ q, q ∈ queries → q.2 (rename π t) ≡ₚ π <$> q.2 t) as Hq.
  { intros q Hq. rewrite <-(rename_columns_query π t q Hε Hq).
    revert q Hq. apply Forall_forall. unfold queries. repeat (apply Forall_cons; split; [reflexivity|]). apply Forall_nil_2. }
  revert Hq. generalize queries. induction l as [|q l IH]; intros Hq; [done|].
  rewrite !fmap_cons. cbn [concat]. rewrite fmap_app. apply Permutation_app; [apply Hq; by left|].
  apply IH. intros q' Hq'. apply Hq. by right.
Qed.

Section again.
Context (a : Authority) (rows : list ManifestRow) (t : Tables).
Context (Hm : plain_manifest a rows) (Hok : plan_ok a rows t).

Let π := swaps (pair_of <$> movers a rows (identities t)).
Let t1 := rename (target_of a rows) t.

Lemma pi_disjoint : disjoint_pairs (pair_of <$> movers a rows (identities t)).
Proof using Hm Hok. apply movers_disjoint; [done|apply Hok]. Qed.

Lemma pi_empty : π ε = ε.
Proof using Hm Hok. apply swaps_empty, pi_disjoint. Qed.

Lemma pi_target x : x ∈ identities t ∨ x = ε → π x = target_of a rows x.
Proof using Hm Hok. apply swaps_target; [done|apply Hok]. Qed.

Lemma pi_involutive x : π (π x) = x.
Proof using Hm Hok. apply swaps_involutive, pi_disjoint. Qed.

Lemma pi_other x :
  (∀ r, r ∈ selection rows a → SourceID r ≠ TargetID r → SourceID r ∈ identities t →
        SourceID r ≠ x ∧ TargetID r ≠ x) → π x = x.
Proof using Type.
  intros Hx. apply swaps_other. unfold pair_names. rewrite <-!list_fmap_compose, elem_of_app.
  intros [(r & Heq & (Hr & Hne & Hs)%elem_of_movers)%list_elem_of_fmap|(r & Heq & (Hr & Hne & Hs)%elem_of_movers)%list_elem_of_fmap];
    cbn in Heq; by destruct (Hx r Hr Hne Hs).
Qed.

Lemma renamed_pi : t1 = rename π t.
Proof using Hm Hok. apply rename_ext. intros x Hx. symmetry. by apply pi_target. Qed.

Lemma identity_renamed x : x ∈ identities t1 ↔ ∃ y, y ∈ identities t ∧ x = target_of a rows y.
Proof using Hm Hok.
  rewrite renamed_pi. unfold identities at 1. rewrite elem_of_list_to_set.
  rewrite (occurrences_rename π) by apply pi_empty. rewrite list_elem_of_fmap. split.
  - intros (y & -> & Hy%(elem_of_list_to_set (C := gset string))). exists y. split; [done|]. apply pi_target. by left.
  - intros (y & Hy & ->). exists y. split; [by rewrite pi_target by by left|]. by apply elem_of_list_to_set in Hy.
Qed.

(** A name is there after the renaming when its partner was there before. *)
Lemma identity_renamed_pi x : x ∈ identities t1 ↔ π x ∈ identities t.
Proof using Hm Hok.
  rewrite identity_renamed. split.
  - intros (y & Hy & ->). rewrite <-pi_target by by left. by rewrite pi_involutive.
  - intros Hx. exists (π x). split; [done|]. rewrite <-pi_target by by left. by rewrite pi_involutive.
Qed.

Lemma rewrites_renamed rows' :
  rewrites a rows' t1 = Z.of_nat (length (filter (λ x, target_of a rows' (π x) ≠ π x) (occurrences_in t))).
Proof using Hm Hok.
  unfold rewrites. rewrite renamed_pi. do 1 f_equal.
  rewrite (occurrences_rename π) by apply pi_empty. induction (occurrences_in t) as [|x l IH]; [done|].
  rewrite fmap_cons, !filter_cons. destruct (decide (target_of a rows' (π x) ≠ π x)) as [Hx|Hx]; cbn [length]; lia.
Qed.

(** No target of the manifest is the source of another rename. *)
Definition one_way : Prop := ∀ r r', r ∈ selection rows a → r' ∈ selection rows a →
  SourceID r ≠ TargetID r → SourceID r' ≠ TargetID r' → TargetID r ≠ SourceID r'.

Lemma sources_gone r :
  one_way → r ∈ selection rows a → SourceID r ≠ TargetID r → SourceID r ∉ identities t1.
Proof using Hm Hok.
  intros Hone Hr Hne. rewrite identity_renamed_pi. destruct (decide (SourceID r ∈ identities t)) as [Hs|Hs].
  - rewrite pi_target, target_of_source by (done || by left). by apply (po_free _ _ _ Hok).
  - rewrite pi_other; [done|]. intros r' Hr' Hne' Hs'. split; [by intros Heq; rewrite <-Heq in Hs|]. by apply Hone.
Qed.

Lemma again_no_rewrites : one_way → rewrites a rows t1 = 0.
Proof using Hm Hok.
  intros Hone. unfold rewrites. destruct (filter _ _) as [|x l] eqn:Hf; [done|]. exfalso.
  assert (x ∈ filter (λ x, target_of a rows x ≠ x) (occurrences_in t1)) as Hx by (rewrite Hf; by left).
  apply list_elem_of_filter in Hx as [Hne Hx]. apply (elem_of_list_to_set (C := gset string)) in Hx.
  unfold target_of in Hne. destruct (list_find _ _) as [[j r]|] eqn:E; [|done].
  apply list_find_Some in E as (Hj & <- & _). apply list_elem_of_lookup_2 in Hj.
  by apply (sources_gone r Hone Hj); [congruence|].
Qed.

Lemma again_plan : one_way → plan_ok a rows t1.
Proof using Hm Hok.
  intros Hone. constructor.
  - intros x (y & Hy & ->)%identity_renamed. destruct (po_named _ _ _ Hok y Hy) as (r & Hr & Hn).
    unfold target_of. destruct (list_find _ _) as [[j r']|] eqn:E; [|by exists r].
    apply list_find_Some in E as (Hj & _). apply list_elem_of_lookup_2 in Hj. exists r'. auto.
  - intros r Hr Hne Hs. by apply sources_gone in Hs.
  - intros id c Hc. unfold t1, rename in Hc. cbn in Hc. rewrite lookup_fmap in Hc.
    destruct (t_conversations t !! id) as [c0|] eqn:Hc0; [|done]. injection Hc as <-.
    rewrite <-(po_scopes _ _ _ Hok id c0 Hc0). f_equal. cbn. rewrite <-list_fmap_compose. apply list_fmap_ext.
    intros j x Hx%list_elem_of_lookup_2. cbn.
    destruct (participant_identity t id c0 x Hc0 Hx) as [Hid| ->]; [|by rewrite !target_of_empty].
    set (y := target_of a rows x). destruct (decide (target_of a rows y = y)) as [|Hne]; [done|]. exfalso.
    unfold target_of in Hne. destruct (list_find _ _) as [[k r]|] eqn:E; [|done].
    apply list_find_Some in E as (Hk & Hs & _). apply list_elem_of_lookup_2 in Hk.
    apply (sources_gone r Hone Hk); [congruence|]. rewrite Hs. apply identity_renamed. by exists x.
Qed.
End again.

(** *** The undo plan *)

Lemma selection_invert rows a : selection (invert_row <$> rows) a = invert_row <$> selection rows a.
Proof.
  unfold selection. induction rows as [|r rows IH]; [done|]. rewrite fmap_cons, !filter_cons, IH.
  cbn [invert_row SourceAuthority]. by case_decide.
Qed.

Section undo.
Context (a : Authority) (rows : list ManifestRow) (t : Tables).
Context (Hm : plain_manifest a rows) (Hok : plan_ok a rows t) (Hfirst : already a rows t = 0).

Let π := swaps (pair_of <$> movers a rows (identities t)).
Let t1 := rename (target_of a rows) t.
Let undo := invert_row <$> rows.

Lemma undo_plain : plain_manifest a undo.
Proof using Hm.
  destruct Hm as [Hs Ht Hn]. constructor; unfold undo; rewrite selection_invert.
  - by rewrite <-list_fmap_compose.
  - by rewrite <-list_fmap_compose.
  - intros r (r' & -> & Hr)%list_elem_of_fmap. cbn. destruct (Hn r' Hr). done.
Qed.

(** A target that is there has a source that is not to be moved to it. *)
Lemma target_moved r :
  r ∈ selection rows a → SourceID r ≠ TargetID r → TargetID r ∉ identities t.
Proof using Hok Hfirst.
  intros Hr Hne Ht. destruct (decide (SourceID r ∈ identities t)) as [Hs|Hs]; [by apply (po_free _ _ _ Hok r Hr Hne)|].
  unfold already in Hfirst. destruct (filter _ _) as [|r' l] eqn:Hf; [|done].
  assert (r ∈ filter (λ r, SourceID r ≠ TargetID r ∧ (SourceID r ∉ identities t) ∧ TargetID r ∈ identities t) (selection rows a)) as Hin
    by by apply list_elem_of_filter.
  rewrite Hf in Hin. by apply not_elem_of_nil in Hin.
Qed.

Lemma undo_back y : y ∈ identities t ∨ y = ε → target_of a undo (target_of a rows y) = y.
Proof using Hm Hok Hfirst.
  intros Hy. destruct (decide (Exists (λ r, SourceID r = y) (selection rows a))) as [Hs|Hs].
  - apply Exists_exists in Hs as (r & Hr & <-). rewrite target_of_source by done.
    change (TargetID r) with (SourceID (invert_row r)). rewrite (target_of_source a undo undo_plain); [done|].
    unfold undo. rewrite selection_invert. by apply list_elem_of_fmap_2.
  - rewrite (target_of_other a rows y) by (intros r Hr Heq; apply Hs, Exists_exists; eauto).
    apply target_of_other. unfold undo. rewrite selection_invert. intros r (r' & -> & Hr')%list_elem_of_fmap Heq. cbn in Heq.
    destruct Hy as [Hy| ->]; [|by destruct (pm_names _ _ Hm r' Hr')].
    destruct (decide (SourceID r' = TargetID r')) as [He|Hne].
    + apply Hs, Exists_exists. exists r'. split; [done|]. congruence.
    + apply (target_moved r' Hr' Hne). by rewrite Heq.
Qed.

Lemma undo_rename : rename (target_of a undo) t1 = t.
Proof using Hm Hok Hfirst.
  transitivity (rename π t1).
  - apply rename_ext. intros x [(y & Hy & ->)%(identity_renamed a rows t Hm Hok)| ->].
    + rewrite undo_back by by left. unfold π. rewrite <-(pi_target a rows t Hm Hok) by by left. symmetry. by apply pi_involutive.
    + rewrite (target_of_empty a undo undo_plain). symmetry. by apply pi_empty.
  - unfold t1. rewrite (renamed_pi a rows t Hm Hok), rename_compose by apply _. fold π.
    rewrite <-(rename_id t) at 2. apply rename_ext. intros x _. by apply pi_involutive.
Qed.

Lemma undo_rewrites : rewrites a undo t1 = rewrites a rows t.
Proof using Hm Hok Hfirst.
  unfold t1. rewrite (rewrites_renamed a rows t Hm Hok). unfold rewrites. do 2 f_equal. apply filter_iff_in.
  intros x Hx. assert (x ∈ identities t) as Hid by by apply elem_of_list_to_set.
  fold π. unfold π. rewrite (pi_target a rows t Hm Hok), undo_back by by left. naive_solver.
Qed.

Lemma undo_plan :
  (∀ id c, t_conversations t !! id = Some c → mixed_scope (ConversationRow.participants c) = false) →
  plan_ok a undo t1.
Proof using Hm Hok Hfirst.
  intros Hmix. constructor.
  - intros x (y & Hy & ->)%(identity_renamed a rows t Hm Hok). destruct (po_named _ _ _ Hok y Hy) as (r & Hr & Hn).
    unfold undo. rewrite selection_invert. unfold target_of. destruct (list_find _ _) as [[j r']|] eqn:E.
    + apply list_find_Some in E as (Hj & _). apply list_elem_of_lookup_2 in Hj.
      exists (invert_row r'). split; [by apply list_elem_of_fmap_2|by left].
    + exists (invert_row r). split; [by apply list_elem_of_fmap_2|]. cbn. tauto.
  - unfold undo. rewrite selection_invert. intros r (r' & -> & Hr)%list_elem_of_fmap. cbn. intros Hne Ht.
    apply not_eq_sym in Hne. intros Hs.
    apply (identity_renamed_pi a rows t Hm Hok) in Hs. apply (identity_renamed_pi a rows t Hm Hok) in Ht. fold π in Hs, Ht.
    destruct (decide (SourceID r' ∈ identities t)) as [Hin|Hin].
    + unfold π in Hs. rewrite (pi_target a rows t Hm Hok), target_of_source in Hs by (done || by left).
      by apply (target_moved r' Hr Hne).
    + unfold π in Ht. rewrite pi_other in Ht; [by apply (target_moved r' Hr Hne)|].
      intros r Hr0 Hne0 Hs0. split; intros Heq.
      * apply (target_moved r' Hr Hne). by rewrite <-Heq.
      * assert (r = r') as ->; [|done]. destruct (proj1 (list_elem_of_lookup _ _) Hr0) as [j Hj].
        destruct (proj1 (list_elem_of_lookup _ _) Hr) as [j' Hj'].
        assert (j = j') as <-; [|congruence].
        eapply NoDup_lookup; [apply (pm_targets _ _ Hm)|rewrite list_lookup_fmap, Hj; done|rewrite list_lookup_fmap, Hj'; cbn; by rewrite Heq].
  - intros id c Hc. unfold t1, rename in Hc. cbn in Hc. rewrite lookup_fmap in Hc.
    destruct (t_conversations t !! id) as [c0|] eqn:Hc0; [|done]. injection Hc as <-.
    rewrite <-(Hmix id c0 Hc0). f_equal. cbn. rewrite <-list_fmap_compose.
    rewrite <-(list_fmap_id (ConversationRow.participants c0)) at 2. apply list_fmap_ext.
    intros j x Hx%list_elem_of_lookup_2. cbn. apply undo_back. by eapply participant_identity.
Qed.
End undo.

(** ** One run *)

Section run.
Context (Quote FileURL : string → string).
Context (Error : DBError → string) (Code : DBError → option Z).
Context (range : gset string → list string).

#[local] Abbreviation Run := (Run Quote FileURL Error Code range).

(** What the run checks before it opens the database, that it can be opened,
    and that participants are arrays of strings. *)
Record admissible (env : Env.t) (rows : list ManifestRow) (o : Options.t) (a : Authority) (t : Tables) : Prop := {
  ad_copy : Options.AcknowledgeCopy o = true;
  ad_authority : Options.Authority o = Authority_string a;
  ad_path : validateDBPath env (Options.DBPath o) = None;
  ad_rows : selection rows a ≠ [];
  ad_control : validateControlPlaneAgreement Quote range (unplanned <$> selection rows a)
                 (Options.ControlPlaneAgents o) = None;
  ad_open : openExistingDB FileURL env (Options.DBPath o) (Options.Apply o) = None;
  ad_arrays : ∀ id, is_Some (t_conversations t !! id) → Env.malformed env id = false }.

(** The report of a run that was not refused. *)
Definition status_of (o : Options.t) (n : Z) : string :=
  (if n =? 0 then "no-op" else if Options.Apply o then "applied" else "ready")%stdpp.

Lemma refused_reject r code location detail :
  ∃ r' e, reject r code location detail = (r', Some (RefusalError [e])) ∧ Report.Status r' = "refused"%stdpp.
Proof. by do 2 eexists. Qed.

Lemma refused_from_error r e :
  ∃ r' l, rejectFromError r e = (r', Some (RefusalError l)) ∧ Report.Status r' = "refused"%stdpp.
Proof. destruct e as [l|text]; by do 2 eexists. Qed.

(** The outcomes of the transaction. *)
Definition tx_shape (o : Options.t) (x : Report.t * option NsError * bool) : Prop :=
  match x with
  | ((r, None), true) => Report.Status r = "applied"%stdpp ∧ Options.Apply o = true
  | ((r, None), false) => Report.Status r = "no-op"%stdpp ∨ Report.Status r = "ready"%stdpp
  | ((r, Some e), committed) => committed = false ∧ Report.Status r = "refused"%stdpp ∧ ∃ l, e = RefusalError l
  end.

Definition tx_bad (x : Report.t * option NsError * bool) : Prop := is_some x.1.2.

(** Every result of a computation. *)
Definition yields {A} (Φ : A → Prop) (m : Db A) : Prop := ∀ f w, match m f w with (Ok a, _) => Φ a | _ => False end.

Lemma yields_bind {A B} (Φ : A → Prop) (Ψ : B → Prop) m (g : A → Db B) :
  yields Φ m → (∀ a, Φ a → yields Ψ (g a)) → yields Ψ (m ≫= g).
Proof.
  intros Hm Hg f w. rewrite bind_run. specialize (Hm f w). destruct (m f w) as [[a|] w1]; [|done]. by apply Hg.
Qed.

Lemma honest_yields {A} (bad : A → Prop) m : honest bad m → yields (λ _, True) m.
Proof. intros Hm f w. specialize (Hm f w). by destruct (m f w) as [[] ?]. Qed.

Lemma yields_ret {A} (Φ : A → Prop) a : Φ a → yields Φ (mret a).
Proof. intros Ha f w. done. Qed.

Lemma shape_reject o r code location detail : tx_shape o (reject r code location detail, false).
Proof. cbn. eauto. Qed.

Lemma finish_shape o what r :
  Report.Status r = "no-op"%stdpp ∨ Report.Status r = "ready"%stdpp → yields (tx_shape o) (finish Error what r).
Proof.
  intros Hr. eapply yields_bind; [eapply honest_yields, honest_call|]. intros [u|e] _; apply yields_ret; [done|].
  apply shape_reject.
Qed.

Lemma run_tx_shape env o selected r : yields (tx_shape o) (run_tx Error env o selected r).
Proof.
  unfold run_tx. eapply yields_bind; [eapply honest_yields, honest_inspect|]. intros [i|e] _.
  2: { apply yields_ret. destruct (refused_from_error r e) as (r' & l & -> & ?). cbn. eauto. }
  destruct (preflight selected i r) as [r1 [[l i']|e]].
  2: { apply yields_ret. destruct (refused_from_error r1 e) as (r' & l & -> & ?). cbn. eauto. }
  destruct (Report.TotalRewrites r1 =? 0); [apply finish_shape; by left|].
  destruct (Options.Apply o) eqn:Ho; cbn [negb]; [|apply finish_shape; by right].
  eapply yields_bind; [eapply honest_yields, honest_applyPlan|]. intros [e|] _; [apply yields_ret, shape_reject|].
  eapply yields_bind; [eapply honest_yields, honest_call|]. intros [u|e] _; apply yields_ret; [done|apply shape_reject].
Qed.

Lemma honest_finish what r : honest tx_bad (finish Error what r).
Proof.
  eapply honest_bind_ret; [apply honest_call|intros ?; apply honest_ret|]. intros [u|e] He; [done|by eexists].
Qed.

Lemma honest_run_tx env o selected r : honest tx_bad (run_tx Error env o selected r).
Proof.
  unfold run_tx. eapply honest_bind_ret; [apply honest_inspect| |].
  2: { intros [i|e] He; [done|]. eexists. split; [done|]. by destruct (refused_from_error r e) as (r' & l & -> & ?). }
  intros [i|e]; [|apply honest_ret]. destruct (preflight selected i r) as [r1 [[l i']|e]]; [|apply honest_ret].
  destruct (Report.TotalRewrites r1 =? 0); [apply honest_finish|].
  destruct (negb (Options.Apply o)); [apply honest_finish|].
  eapply honest_bind_ret; [apply honest_applyPlan| |intros [e|] He; [by eexists|done]].
  intros [e|]; [apply honest_ret|].
  eapply honest_bind_ret; [apply honest_call|intros ?; apply honest_ret|]. intros [u|e] He; [done|by eexists].
Qed.

Lemma plan_ok_or_not a rows t : plain_manifest a rows → plan_ok a rows t ∨ ¬ plan_ok a rows t.
Proof.
  intros Hm. destruct (runs_inspect (λ _, false) t) as (i & _ & Hi); [done|].
  pose proof (preflight_spec a rows t i Hm Hi (newReport (Options.mk ε ε false false []))) as Hp.
  destruct (preflight _ _ _) as [r' [[l i']|e]]; [left|right]; apply Hp.
Qed.

Lemma plan_already a rows t i : inspected t i → applied_mappings (plan i a rows) = already a rows t.
Proof.
  intros Hi. unfold already, applied_mappings, plan. f_equal.
  induction (selection rows a) as [|r l IH]; [done|]. rewrite !fmap_cons, !filter_cons.
  assert (alreadyApplied (planned i (unplanned r)) = true ↔
    SourceID r ≠ TargetID r ∧ (SourceID r ∉ identities t) ∧ TargetID r ∈ identities t) as H.
  { unfold planned, unplanned. cbn [row]. rewrite (in_present _ _ Hi). repeat case_bool_decide; cbn; naive_solver. }
  destruct (decide (alreadyApplied _ = true)) as [Hy|Hn].
  - rewrite decide_True by by apply H. cbn [length]. by rewrite IH.
  - rewrite decide_False by by rewrite <-H. done.
Qed.

Definition fresh_report (r : Report.t) : Prop :=
  Report.TotalRewrites r = 0 ∧ Report.AlreadyAppliedMappings r = 0.

Lemma runs_finish what r t : runs (finish Error what r) t ((r, None), false) t.
Proof. eapply runs_bind; [apply runs_try, runs_exec|]. apply runs_ret. Qed.

Section tx.
Context (env : Env.t) (o : Options.t) (a : Authority) (rows : list ManifestRow) (t : Tables).
Context (Hm : plain_manifest a rows) (Harr : ∀ id, is_Some (t_conversations t !! id) → Env.malformed env id = false).

Lemma run_tx_accepted r :
  plan_ok a rows t → fresh_report r →
  ∃ r' committed t', runs (run_tx Error env o (unplanned <$> selection rows a) r) t ((r', None), committed) t' ∧
    Report.Status r' = status_of o (rewrites a rows t) ∧ Report.TotalRewrites r' = rewrites a rows t ∧
    Report.AlreadyAppliedMappings r' = already a rows t ∧
    committed = negb (rewrites a rows t =? 0) && Options.Apply o ∧
    (committed = true → t' = rename (target_of a rows) t).
Proof using Hm Harr.
  intros Hok [Hr0 Hr1]. destruct (runs_inspect (Env.malformed env) t Harr) as (i & Hins & Hi).
  pose proof (preflight_spec a rows t i Hm Hi r) as Hp. rewrite Hr0, Hr1, (plan_already _ _ _ _ Hi) in Hp.
  fold (rewrites a rows t) in Hp.
  destruct (preflight (unplanned <$> selection rows a) i r) as [r1 [[l i']|e]] eqn:Hpre; [|by destruct Hp].
  destruct Hp as (_ & -> & -> & Htot & Halr). rewrite Z.add_0_l in Htot, Halr. unfold status_of.
  destruct (rewrites a rows t =? 0) eqn:Hz; [|destruct (Options.Apply o) eqn:Ho]; cbn [negb andb].
  - exists (set_status "no-op"%stdpp r1), false, t. split; [|by split_and!].
    eapply runs_bind; [exact Hins|]. cbn beta iota. rewrite Hpre, Htot, Hz. apply runs_finish.
  - exists (set_status "applied"%stdpp r1), true, (rename (target_of a rows) t). split; [|by split_and!].
    eapply runs_bind; [exact Hins|]. cbn beta iota. rewrite Hpre, Htot, Hz, Ho. cbn [negb].
    eapply runs_bind; [apply runs_applyPlan; [done|done|apply Hok]|]. cbn beta iota.
    eapply runs_bind; [apply runs_try, runs_exec|]. apply runs_ret.
  - exists (set_status "ready"%stdpp r1), false, t. split; [|by split_and!].
    eapply runs_bind; [exact Hins|]. cbn beta iota. rewrite Hpre, Htot, Hz, Ho. apply runs_finish.
Qed.

Lemma run_tx_refused r :
  ¬ plan_ok a rows t →
  ∃ r' e, runs (run_tx Error env o (unplanned <$> selection rows a) r) t ((r', Some (RefusalError [e])), false) t ∧
    Report.Status r' = "refused"%stdpp.
Proof using Hm Harr.
  intros Hno. destruct (runs_inspect (Env.malformed env) t Harr) as (i & Hins & Hi).
  pose proof (preflight_spec a rows t i Hm Hi r) as Hp.
  destruct (preflight (unplanned <$> selection rows a) i r) as [r1 [[l i']|e]] eqn:Hpre; [by destruct Hp|].
  destruct Hp as [_ [refusal ->]]. do 2 eexists. split.
  - eapply runs_bind; [exact Hins|]. cbn beta iota. rewrite Hpre. apply runs_ret.
  - done.
Qed.
End tx.

(** *** The transaction under faults *)

(** A run that commits has carried out an accepted plan. *)
Lemma run_tx_committed env o a rows t f n r x k t' :
  plain_manifest a rows → fresh_report r →
  run_tx Error env o (unplanned <$> selection rows a) r f (n, t) = (Ok (x, true), (k, t')) →
  x.2 = None ∧ Report.Status x.1 = "applied"%stdpp ∧ Options.Apply o = true ∧ plan_ok a rows t ∧
  t' = rename (target_of a rows) t ∧ (∀ id, is_Some (t_conversations t !! id) → Env.malformed env id = false) ∧
  runs (run_tx Error env o (unplanned <$> selection rows a) r) t (x, true) t'.
Proof.
  intros Hm Hr Hrun. pose proof (run_tx_shape env o (unplanned <$> selection rows a) r f (n, t)) as Hs.
  pose proof (honest_run_tx env o (unplanned <$> selection rows a) r f (n, t)) as Hh. rewrite Hrun in Hs, Hh.
  destruct x as [r' [e|]]; [by destruct Hs|]. destruct Hs as [Hst Ho]. destruct Hh as [[]|Hh]. cbn [snd] in Hh.
  destruct (decide (map_Forall (λ id _, Env.malformed env id = false) (t_conversations t))) as [Harr|Harr].
  - assert (∀ id, is_Some (t_conversations t !! id) → Env.malformed env id = false) as Harr' by (intros id [c Hc]; by eapply Harr).
    pose proof (run_tx_refused env o a rows t Hm Harr' r) as Href.
    pose proof (λ H, run_tx_accepted env o a rows t Hm Harr' r H Hr) as Hacc.
    destruct (plan_ok_or_not a rows t Hm) as [Hok|Hno].
    + destruct (Hacc Hok) as (r1 & c & t1 & H1 & _ & _ & _ & _ & Ht1).
      destruct (runs_unique _ _ _ _ _ _ Hh H1) as [[= -> <-] ->]. split_and!; [done..|by apply Ht1|done|done].
    + destruct (Href Hno) as (r1 & e & H1 & _). by destruct (runs_unique _ _ _ _ _ _ Hh H1).
  - apply map_not_Forall in Harr as (id & c & Hc & Hid); [|apply _].
    destruct (runs_inspect_malformed (Env.malformed env) t) as [e He].
    { exists id. split; [by exists c|]. by destruct (Env.malformed env id). }
    assert (runs (run_tx Error env o (unplanned <$> selection rows a) r) t (rejectFromError r (RefusalError [e]), false) t) as H1.
    { eapply runs_bind; [exact He|]. apply runs_ret. }
    by destruct (runs_unique _ _ _ _ _ _ Hh H1).
Qed.

(** *** From the options to the transaction *)

Lemma runs_unless_committed {A} (body : Db (A * bool)) t x t' :
  runs body t x t' → runs (unless_committed body) t x.1 (if x.2 then t' else t).
Proof.
  intros Hb n. destruct (Hb n) as [n' H]. exists n'. unfold unless_committed. rewrite H.
  by destruct x as [? []].
Qed.

(** The report when the transaction starts. *)
Definition report0 (rows : list ManifestRow) (a : Authority) (o : Options.t) : Report.t :=
  (selectMappings rows a (newReport o)).2.

Lemma selectMappings_run rows a o :
  selectMappings rows a (newReport o) = (unplanned <$> selection rows a, report0 rows a o) ∧
  fresh_report (report0 rows a o).
Proof.
  destruct (selectMappings_spec rows a [] (newReport o)) as (r & H & Ht & Ha & _). unfold report0.
  change (selectMappings rows a (newReport o) = ([] ++ (unplanned <$> selection rows a), r)) in H. by rewrite H.
Qed.

Lemma ParseAuthority_string a : ParseAuthority Quote (Authority_string a) = Ok a.
Proof. by destruct a. Qed.

Lemma length_unplanned rows a : selection rows a ≠ [] → (length (unplanned <$> selection rows a) =? 0)%nat = false.
Proof. by destruct (selection rows a). Qed.

Lemma run_admissible env rows o a t :
  admissible env rows o a t →
  ∀ x t', runs (run_tx Error env o (unplanned <$> selection rows a) (report0 rows a o)) t x t' →
    run_db (Run env rows o) no_faults t = (Ok x.1, if x.2 then t' else t).
Proof.
  intros []. destruct (selectMappings_run rows a o) as [Hsel _].
  intros x t' Htx. apply runs_run_db. unfold Nsmigrate.Run.
  rewrite ad_copy0, ad_authority0, ParseAuthority_string, ad_path0, Hsel. cbn [negb].
  rewrite length_unplanned, ad_control0, ad_open0 by done.
  eapply runs_bind; [apply runs_try, runs_exec|]. cbn beta iota. by apply runs_unless_committed.
Qed.

(** A run that reports no error has passed the checks. *)
Lemma run_reported env rows o f t r t' :
  run_db (Run env rows o) f t = (Ok (r, None), t') →
  ∃ a k k' t1 committed, Options.AcknowledgeCopy o = true ∧ Options.Authority o = Authority_string a ∧
    validateDBPath env (Options.DBPath o) = None ∧ selection rows a ≠ [] ∧
    validateControlPlaneAgreement Quote range (unplanned <$> selection rows a) (Options.ControlPlaneAgents o) = None ∧
    openExistingDB FileURL env (Options.DBPath o) (Options.Apply o) = None ∧
    run_tx Error env o (unplanned <$> selection rows a) (report0 rows a o) f (k, t) = (Ok ((r, None), committed), (k', t1)) ∧
    t' = if committed then t1 else t.
Proof.
  unfold run_db, Nsmigrate.Run. destruct (Options.AcknowledgeCopy o); cbn [negb]; [|done].
  destruct (ParseAuthority _ _) as [a|e] eqn:Ha; [|done]. apply ParseAuthority_Ok in Ha.
  destruct (validateDBPath _ _); [done|]. destruct (selectMappings_run rows a o) as [-> _].
  destruct (decide (selection rows a = [])) as [->|Hne]; [done|]. rewrite length_unplanned by done.
  destruct (validateControlPlaneAgreement _ _ _ _) as [e|] eqn:Hctl; [by destruct e|].
  destruct (openExistingDB _ _ _ _); [done|]. rewrite bind_run.
  destruct (try (exec id) f (0%nat, t)) as [[[u|e]|e] [k t0]] eqn:Hb; [|by destruct (_ && _)|done].
  assert (t0 = t) as -> by (unfold try, exec, call in Hb; destruct (f _) as [[]|]; cbn in Hb; congruence).
  unfold unless_committed. destruct (run_tx _ _ _ _ _ f (k, t)) as [[[x []]|e] [k' t1]] eqn:Htx; [| |done];
    intros [= -> <-].
  - by exists a, k, k', t1, true.
  - by exists a, k, k', t1, false.
Qed.

Lemma run_clean env rows o a t :
  manifest_ok rows → admissible env rows o a t →
  ∃ r err t', run_db (Run env rows o) no_faults t = (Ok (r, err), t') ∧
    (plan_ok a rows t → err = None ∧ Report.Status r = status_of o (rewrites a rows t) ∧
       Report.TotalRewrites r = rewrites a rows t ∧ Report.AlreadyAppliedMappings r = already a rows t ∧
       t' = if Options.Apply o then rename (target_of a rows) t else t) ∧
    (¬ plan_ok a rows t → (∃ e, err = Some (RefusalError [e])) ∧ Report.Status r = "refused"%stdpp ∧ t' = t).
Proof.
  intros Hman Had. pose proof (manifest_ok_plain a rows Hman) as Hm.
  pose proof (run_admissible env rows o a t Had) as Hrun. pose proof (proj2 (selectMappings_run rows a o)) as Hr0.
  pose proof (ad_arrays _ _ _ _ _ Had) as Harr.
  destruct (plan_ok_or_not a rows t Hm) as [Hok|Hno].
  - destruct (run_tx_accepted env o a rows t Hm Harr _ Hok Hr0) as (r & c & t1 & Htx & Hst & Htot & Halr & Hc & Ht1).
    exists r, None, (if c then t1 else t). split; [apply (Hrun _ _ Htx)|].
    split; [|done]. intros _. split_and!; [done..|]. subst c. destruct (Options.Apply o); [|by rewrite andb_false_r].
    rewrite andb_true_r in *. destruct (rewrites a rows t =? 0) eqn:Hz; cbn in *; [|by apply Ht1].
    symmetry. rewrite (rename_ext _ id); [apply rename_id|]. intros x [Hx| ->]; [|by apply target_of_empty].
    prop_bool. by apply (no_rewrites a rows t).
  - destruct (run_tx_refused env o a rows t Hm Harr (report0 rows a o) Hno) as (r & e & Htx & Hst).
    exists r, (Some (RefusalError [e])), t. split; [apply (Hrun _ _ Htx)|].
    split; [done|]. intros _. split_and!; [by eexists|done..].
Qed.

(** C16: Without faults, a run the checks let through carries out the manifest
    on every surface, so that each identity is replaced by the target of its row
    and nothing else changes, and reports exactly how many values it rewrote; or,
    when the plan is not acceptable, it refuses and changes nothing.  A dry run
    says the same and changes nothing. *)
Theorem Run_applies env rows o a t :
  manifest_ok rows → admissible env rows o a t →
  ∃ r err t', run_db (Run env rows o) no_faults t = (Ok (r, err), t') ∧
    (plan_ok a rows t → err = None ∧ Report.Status r = status_of o (rewrites a rows t) ∧
       Report.TotalRewrites r = rewrites a rows t ∧ Report.AlreadyAppliedMappings r = already a rows t ∧
       t' = if Options.Apply o then rename (target_of a rows) t else t) ∧
    (¬ plan_ok a rows t → (∃ e, err = Some (RefusalError [e])) ∧ Report.Status r = "refused"%stdpp ∧ t' = t).
Proof. apply run_clean. Qed.

Lemma run_applied env rows o f t r t' :
  manifest_ok rows → run_db (Run env rows o) f t = (Ok (r, None), t') →
  (∃ a, Options.Authority o = Authority_string a ∧ plan_ok a rows t ∧ Report.Status r = "applied"%stdpp ∧
        Options.Apply o = true ∧ Options.AcknowledgeCopy o = true ∧ t' = rename (target_of a rows) t) ∨
  (Report.Status r = "no-op"%stdpp ∨ Report.Status r = "ready"%stdpp) ∧ t' = t.
Proof.
  intros Hman (a & k & k' & t1 & c & Hcopy & Ha & _ & _ & _ & _ & Htx & ->)%run_reported.
  destruct c.
  - left. exists a. apply run_tx_committed in Htx as (_ & ? & ? & ? & -> & _); [done|by apply manifest_ok_plain|apply selectMappings_run].
  - right. pose proof (run_tx_shape env o (unplanned <$> selection rows a) (report0 rows a o) f (k, t)) as Hs. by rewrite Htx in Hs.
Qed.

(** A refused run. *)
Lemma run_refused env rows o f t :
  match run_db (Run env rows o) f t with
  | (Ok (r, Some e), t') => Report.Status r = "refused"%stdpp ∧ (∃ l, e = RefusalError l) ∧ t' = t
  | (Ok (r, None), _) => True
  | (Err _, _) => False
  end.
Proof.
  unfold run_db, Nsmigrate.Run. destruct (Options.AcknowledgeCopy o); cbn [negb]; [|cbn; eauto].
  destruct (ParseAuthority _ _) as [a|e]; [|cbn; eauto]. destruct (validateDBPath _ _); [cbn; eauto|].
  destruct (selectMappings _ _ _) as [l r]. destruct (length l =? 0)%nat; [cbn; eauto|].
  destruct (validateControlPlaneAgreement _ _ _ _) as [e|]; [destruct e; cbn; eauto|].
  destruct (openExistingDB _ _ _ _); [cbn; eauto|]. rewrite bind_run.
  destruct (try (exec id) f (0%nat, t)) as [[[u|e]|e] [k t0]] eqn:Hb;
    unfold try, exec, call in Hb; destruct (f _) as [[]|]; cbn in Hb; simplify_eq.
  - pose proof (run_tx_shape env o l r f (1%nat, t0)) as Hs. unfold unless_committed.
    destruct (run_tx _ _ _ _ _ f _) as [[[[r' [e|]] []]|e] [k' t1]]; cbn in Hs |- *; naive_solver.
  - destruct (_ && _); cbn; eauto.
  - destruct (_ && _); cbn; eauto.
Qed.

(** C22: Whatever call of the engine fails, a run either reports that it was
    applied, and then the plan was acceptable and the database is renamed by the
    manifest and otherwise untouched, or it leaves the database as it was. *)
Theorem Run_all_or_nothing env rows o f t :
  manifest_ok rows →
  match run_db (Run env rows o) f t with
  | (Ok (r, None), t') =>
      (∃ a, Options.Authority o = Authority_string a ∧ plan_ok a rows t ∧ Report.Status r = "applied"%stdpp ∧
            Options.Apply o = true ∧ Options.AcknowledgeCopy o = true ∧ t' = rename (target_of a rows) t) ∨
      (Report.Status r = "no-op"%stdpp ∨ Report.Status r = "ready"%stdpp) ∧ t' = t
  | (Ok (r, Some e), t') => Report.Status r = "refused"%stdpp ∧ (∃ l, e = RefusalError l) ∧ t' = t
  | (Err _, _) => False
  end.
Proof.
  intros Hman. pose proof (run_refused env rows o f t) as Href.
  destruct (run_db (Run env rows o) f t) as [[[r [e|]]|e] t'] eqn:Hrun; [done| |done]. by eapply run_applied.
Qed.


(** *** Running again, and back *)

(** A run that was applied would have been without faults, with the same
    report. *)
Lemma run_applied_clean env rows o f t r t' :
  manifest_ok rows → run_db (Run env rows o) f t = (Ok (r, None), t') → Report.Status r = "applied"%stdpp →
  ∃ a, admissible env rows o a t ∧ plan_ok a rows t ∧ Options.Apply o = true ∧ t' = rename (target_of a rows) t ∧
    run_db (Run env rows o) no_faults t = (Ok (r, None), t').
Proof.
  intros Hman (a & k & k' & t1 & c & Hcopy & Ha & Hp & Hne & Hctl & Hopen & Htx & ->)%run_reported Hst. exists a. destruct c.
  - apply run_tx_committed in Htx as (_ & _ & ? & ? & Ht1 & Harr & Hruns);
      [|by apply manifest_ok_plain|apply selectMappings_run].
    assert (admissible env rows o a t) as Had by by constructor. split_and!; [done..|].
    apply (run_admissible env rows o a t Had (r, None, true) t1 Hruns).
  - pose proof (run_tx_shape env o (unplanned <$> selection rows a) (report0 rows a o) f (k, t)) as Hs. rewrite Htx in Hs.
    exfalso. destruct Hs as [H|H]; rewrite Hst in H; done.
Qed.

Lemma control_invert rows a configured :
  manifest_ok rows →
  validateControlPlaneAgreement Quote range (unplanned <$> selection (invert_row <$> rows) a) configured
  = validateControlPlaneAgreement Quote range (unplanned <$> selection rows a) configured.
Proof.
  intros [_ _ Hf _ _ _]. unfold validateControlPlaneAgreement. rewrite selection_invert.
  assert (∀ l, Forall row_ok l →
    omap (λ m, if ControlPlane (row m) then Some (SourceID (row m)) else None) (unplanned <$> (invert_row <$> l))
    = omap (λ m, if ControlPlane (row m) then Some (SourceID (row m)) else None) (unplanned <$> l)) as H.
  { induction 1 as [|r l [_ _ Hr] Hl IH]; [done|]. rewrite !fmap_cons. cbn. rewrite IH.
    destruct (ControlPlane r) eqn:Hc; [|done].
    destruct Hr as [(_ & Heq & _)|(_ & Hnc & _)]; [by rewrite Heq|congruence]. }
  rewrite H; [done|]. unfold selection. rewrite Forall_forall in Hf |- *.
  intros r [_ Hr]%list_elem_of_filter. by apply Hf.
Qed.

(** C23: The undo plan restores the database: after a run that was applied to a
    database the manifest had not been applied to before, not even in part, and
    that had no conversation across the private scopes, a run with the inverse
    manifest in which no call of the engine fails is applied too, rewrites as
    many values and leaves every table as it was at first.  Without the first
    condition the undo takes back too much ([undo_takes_back_too_much]); without
    the second it can be refused ([undo_refused]). *)
Theorem Run_undo env rows o f t r t1 :
  manifest_ok rows → run_db (Run env rows o) f t = (Ok (r, None), t1) →
  Report.Status r = "applied"%stdpp → Report.AlreadyAppliedMappings r = 0 →
  (∀ id c, t_conversations t !! id = Some c → mixed_scope (ConversationRow.participants c) = false) →
  ∃ r', run_db (Run env (invert_row <$> rows) o) no_faults t1 = (Ok (r', None), t) ∧
    Report.Status r' = "applied"%stdpp ∧ Report.TotalRewrites r' = Report.TotalRewrites r.
Proof.
  intros Hman Hrun Hst Halr Hmix. destruct (run_applied_clean env rows o f t r t1 Hman Hrun Hst) as (a & Had & Hok & Ho & -> & Hclean).
  pose proof (manifest_ok_plain a rows Hman) as Hm.
  destruct (run_clean env rows o a t Hman Had) as (r0 & e0 & t0 & Hr0 & Hacc & _). rewrite Hclean in Hr0.
  injection Hr0 as <- <- <-. destruct (Hacc Hok) as (_ & Hst0 & Htot & Halr0 & _). rewrite Halr in Halr0. symmetry in Halr0.
  set (t1 := rename (target_of a rows) t) in *.
  assert (admissible env (invert_row <$> rows) o a t1) as Had'.
  { destruct Had. constructor; try done.
    - rewrite selection_invert. by destruct (selection rows a).
    - by rewrite control_invert.
    - intros id. unfold t1, rename. cbn. rewrite lookup_fmap, fmap_is_Some. apply ad_arrays0. }
  destruct (run_clean env (invert_row <$> rows) o a t1 (manifest_ok_invert _ Hman) Had') as (r' & e' & t' & Hr' & Hacc' & _).
  destruct (Hacc' (undo_plan a rows t Hm Hok Halr0 Hmix)) as (-> & Hst' & Htot' & _ & ->).
  pose proof (undo_rename a rows t Hm Hok Halr0) as Hback. pose proof (undo_rewrites a rows t Hm Hok Halr0) as Hcount.
  fold t1 in Hback, Hcount. rewrite Ho, Hback in Hr'. exists r'. rewrite Hcount in Hst', Htot'. split_and!; [done|congruence..].
Qed.

(** A second run finds nothing to do, when no target of the manifest is the
    source of another rename. *)
Theorem Run_again env rows o f t r t1 :
  manifest_ok rows → run_db (Run env rows o) f t = (Ok (r, None), t1) → Report.Status r = "applied"%stdpp →
  (∀ a, one_way a rows) →
  ∃ r', run_db (Run env rows o) no_faults t1 = (Ok (r', None), t1) ∧
    Report.Status r' = "no-op"%stdpp ∧ Report.TotalRewrites r' = 0.
Proof.
  intros Hman Hrun Hst Hone. destruct (run_applied_clean env rows o f t r t1 Hman Hrun Hst) as (a & Had & Hok & Ho & -> & _).
  pose proof (manifest_ok_plain a rows Hman) as Hm. set (t1 := rename (target_of a rows) t) in *.
  assert (admissible env rows o a t1) as Had'.
  { destruct Had. constructor; try done. intros id. unfold t1, rename. cbn. rewrite lookup_fmap, fmap_is_Some. apply ad_arrays0. }
  destruct (run_clean env rows o a t1 Hman Had') as (r' & e' & t' & Hr' & Hacc & _).
  destruct (Hacc (again_plan a rows t Hm Hok (Hone a))) as (-> & Hst' & Htot & _ & ->).
  pose proof (again_no_rewrites a rows t Hm Hok (Hone a)) as Hz. fold t1 in Hz. rewrite Hz in Hst', Htot.
  exists r'. split; [|done]. rewrite Hr', Ho. f_equal.
  rewrite (rename_ext _ id); [apply rename_id|]. intros x [Hx| ->]; [|by apply target_of_empty].
  exact (no_rewrites a rows t1 x Hz Hx).
Qed.
End run.

(** ** Concrete runs *)

Definition agent_named : AgentRow.t :=
  AgentRow.mk [] [] [] "secret"%stdpp ε ε ε ε None None AgentModePull ε AgentStatusActive ε ε 60.
Definition talk (l : list string) : ConversationRow.t := ConversationRow.mk "planner"%stdpp l ε 1 ε ε None.
Definition letter (from to body : string) : MessageRow.t :=
  MessageRow.mk MessageTypeRequest from to "c-1"%stdpp ε ε body None [] StatePending ε ε ε ε ε ε 0.

(** A bus with two legacy names, a scoped one and a control-plane one. *)
Definition before : Tables := mkTables
  {["planner"%stdpp := agent_named; "archive"%stdpp := agent_named;
    "personal.steady"%stdpp := agent_named; "hub"%stdpp := agent_named]}
  {["c-1"%stdpp := talk ["planner"; "archive"; "hub"]%stdpp]}
  {["m-1"%stdpp := letter "planner"%stdpp "archive"%stdpp "planner"%stdpp; "m-2"%stdpp := letter "archive"%stdpp ε ε]}
  {[("c-1"%stdpp, 0) := "m-1"%stdpp]} ∅ {["archive"%stdpp := CursorRow.mk 1 0]}
  {[("archive"%stdpp, 0) := DeliveryRow.mk "m-1"%stdpp Pending ε 0 ε ε ε]}
  {[("planner"%stdpp, "archive"%stdpp, "r-1"%stdpp) := ReceiptRow.mk "m-1"%stdpp ε ε]} ∅.

Definition fleet : list ManifestRow :=
  [plan_row AuthorityJK "planner" "personal.planner" DispositionMigrate false 2;
   plan_row AuthorityJK "archive" "personal.archive" DispositionRetire false 3;
   plan_row AuthorityJK "personal.steady" "personal.steady" DispositionUnchanged false 4;
   plan_row AuthorityJK "hub" "hub" DispositionUnchanged true 5]%stdpp.

Definition plain_files : Env.t := Env.mk (λ _, Ok (false, true)) Ok (λ _, None) (λ _, None) (λ _, false).
Definition applying : Options.t := Options.mk "copy.db"%stdpp "jk"%stdpp true true ["hub"%stdpp].

Definition migrate (rows : list ManifestRow) (o : Options.t) (t : Tables) :=
  run_db (Run id id (λ _, ε) (λ _, None) elements plain_files rows o) no_faults t.

(** The database and the undo plan after a run. *)
Definition after : Tables := (migrate fleet applying before).2.

Lemma written_ok rows :
  ParseManifest id in_map_order (Ok <$> WriteManifest rows) = Ok rows → manifest_ok rows.
Proof. apply ParseManifest_sound. intros m. apply enumerates_elements. Qed.

Lemma fleet_ok : manifest_ok fleet.
Proof. apply written_ok. vm_compute. reflexivity. Qed.

Lemma fleet_admissible : admissible id id elements plain_files fleet applying AuthorityJK before.
Proof. by constructor; try (vm_compute; reflexivity). Qed.

(** What a report says. *)
Definition summary (x : result DBError (Report.t * option NsError)) : option (string * Z * Z * option NsError) :=
  match x with
  | Ok (r, e) => Some (Report.Status r, Report.TotalRewrites r, Report.AlreadyAppliedMappings r, e)
  | Err _ => None
  end.

Lemma applied_run rows o t n k :
  summary (migrate rows o t).1 = Some ("applied"%stdpp, n, k, None) →
  ∃ r, migrate rows o t = (Ok (r, None), (migrate rows o t).2) ∧ Report.Status r = "applied"%stdpp ∧
    Report.TotalRewrites r = n ∧ Report.AlreadyAppliedMappings r = k.
Proof. destruct (migrate rows o t) as [[[r e]|] t']; cbn; [|done]. intros [= ? ? ? ->]. by exists r. Qed.

Lemma fleet_run : summary (migrate fleet applying before).1 = Some ("applied"%stdpp, 11, 0, None).
Proof. vm_compute. reflexivity. Qed.

Lemma fleet_plan : plan_ok AuthorityJK fleet before.
Proof.
  destruct (applied_run _ _ _ _ _ fleet_run) as (r & Hr & Hst & _).
  destruct (run_applied _ _ _ _ _ _ _ _ _ _ _ _ fleet_ok Hr) as [([] & Ha & Hok & _)|[[Hn|Hn] _]];
    [done|done|rewrite Hst in Hn; done..].
Qed.

(** Participants, senders and targets move; a message's body and the title of
    a conversation, which hold the same texts, do not. *)
Lemma Run_applies_witness :
  manifest_ok fleet ∧ admissible id id elements plain_files fleet applying AuthorityJK before ∧
  plan_ok AuthorityJK fleet before ∧
  ∃ r t', run_db (Run id id (λ _, ε) (λ _, None) elements plain_files fleet applying) no_faults before
          = (Ok (r, None), t') ∧ Report.Status r = "applied"%stdpp ∧ Report.TotalRewrites r = 11 ∧
    t' = rename (target_of AuthorityJK fleet) before ∧
    t_messages t' !! "m-1"%stdpp = Some (letter "personal.planner"%stdpp "personal.archive"%stdpp "planner"%stdpp) ∧
    t_conversations t' !! "c-1"%stdpp = Some (talk ["personal.planner"; "personal.archive"; "hub"]%stdpp).
Proof.
  split; [exact fleet_ok|]. split; [exact fleet_admissible|]. split; [exact fleet_plan|].
  destruct (Run_applies id id (λ _, ε) (λ _, None) elements plain_files fleet applying AuthorityJK before fleet_ok fleet_admissible)
    as (r & err & t' & Hrun & Hacc & _).
  destruct (Hacc fleet_plan) as (-> & Hst & Htot & _ & Ht').
  exists r, t'. split; [exact Hrun|]. split; [rewrite Hst; vm_compute; reflexivity|].
  split; [rewrite Htot; vm_compute; reflexivity|]. split; [exact Ht'|].
  rewrite Ht'. split; vm_compute; reflexivity.
Defined.

(** The commit fails. *)
Definition full_disk : Sqlite.Faults := λ n, if (n =? 24)%nat then Some (CallFails "disk full"%stdpp) else None.

Lemma Run_all_or_nothing_witness :
  manifest_ok fleet ∧
  let x := run_db (Run id id (λ _, ε) (λ _, None) elements plain_files fleet applying)
             full_disk before in
  summary x.1 = Some ("refused"%stdpp, 11, 0,
    Some (RefusalError [mkRefusal "apply_failed" "database" "commit transaction: "]%stdpp)) ∧ x.2 = before.
Proof.
  split; [exact fleet_ok|].
  pose proof (Run_all_or_nothing id id (λ _, ε) (λ _, None) elements plain_files fleet applying
    full_disk before fleet_ok) as H.
  cbv zeta. split; [vm_compute; reflexivity|].
  match goal with |- ?x.2 = _ => assert (∃ r e, x.1 = Ok (r, Some e)) as (r & e & He) by (vm_compute; eauto) end.
  revert H He. generalize (run_db (Run id id (λ _, ε) (λ _, None) elements plain_files fleet applying)
    full_disk before).
  intros [res t'] H He. cbn in He. subst res. apply H.
Defined.

Lemma Run_undo_witness :
  manifest_ok fleet ∧
  (∃ r, run_db (Run id id (λ _, ε) (λ _, None) elements plain_files fleet applying) no_faults before = (Ok (r, None), after)) ∧
  after ≠ before ∧
  ∃ r', run_db (Run id id (λ _, ε) (λ _, None) elements plain_files (invert_row <$> fleet) applying) no_faults after
        = (Ok (r', None), before).
Proof.
  split; [exact fleet_ok|].
  destruct (applied_run _ _ _ _ _ fleet_run) as (r & Hr & Hst & _ & Halr).
  split; [by exists r|]. split.
  { intros H. assert (is_Some (t_agents after !! "planner"%stdpp)) as [x Hx] by (rewrite H; vm_compute; eauto).
    vm_compute in Hx. discriminate Hx. }
  destruct (Run_undo id id (λ _, ε) (λ _, None) elements plain_files fleet applying no_faults before r after
    fleet_ok Hr Hst Halr) as (r' & Hr' & _).
  { change (map_Forall (λ _ c, mixed_scope (ConversationRow.participants c) = false) (t_conversations before)).
    match goal with |- ?P => refine (proj1 (bool_decide_eq_true P) _); vm_compute; reflexivity end. }
  exists r'. exact Hr'.
Defined.

(** ** Behaviour the tool does not intend

    A manifest may hold a rename and its inverse: every apply then swaps the
    two names, so a second one is not a no-op. *)
Definition two_way : list ManifestRow :=
  (fleet ++ [plan_row AuthorityJK "personal.planner" "planner" DispositionMigrate false 6])%stdpp.

Example second_apply_reverts :
  manifest_ok two_way ∧
  summary (migrate two_way applying before).1 = Some ("applied"%stdpp, 11, 1, None) ∧
  let once := (migrate two_way applying before).2 in
  summary (migrate two_way applying once).1 = Some ("applied"%stdpp, 4, 2, None) ∧
  t_agents (migrate two_way applying once).2 !! "planner"%stdpp = Some agent_named.
Proof. split; [apply written_ok|cbv zeta; split_and!]; vm_compute; reflexivity. Qed.

(** An undo plan also takes back a rename that an earlier run, or nobody, had
    made: on a database that was partly migrated it does not restore it. *)
Definition partly : Tables :=
  with_agents {["planner"%stdpp := agent_named; "personal.archive"%stdpp := agent_named]} emptyTables.

Example undo_takes_back_too_much :
  summary (migrate fleet applying partly).1 = Some ("applied"%stdpp, 1, 1, None) ∧
  let once := (migrate fleet applying partly).2 in
  summary (migrate (invert_row <$> fleet) applying once).1 = Some ("applied"%stdpp, 2, 0, None) ∧
  t_agents (migrate (invert_row <$> fleet) applying once).2 !! "personal.archive"%stdpp = None ∧
  t_agents partly !! "personal.archive"%stdpp = Some agent_named.
Proof. cbv zeta. split_and!; vm_compute; reflexivity. Qed.

(** Nor does it restore a database with a conversation across the two private
    scopes from which a rename took a name out: the undo would put it back, and
    is refused. *)
Definition across : Tables :=
  with_conversations {["c-1"%stdpp := talk ["personal.archive"; "ucla.lab"]%stdpp]}
    (with_agents {["personal.archive"%stdpp := agent_named; "ucla.lab"%stdpp := agent_named;
                   "hub"%stdpp := agent_named]} emptyTables).

Definition unscoping : list ManifestRow :=
  [plan_row AuthorityJK "personal.archive" "archive" DispositionMigrate false 2;
   plan_row AuthorityJK "ucla.lab" "ucla.lab" DispositionUnchanged false 3;
   plan_row AuthorityJK "hub" "hub" DispositionUnchanged true 4]%stdpp.

Example undo_refused :
  manifest_ok unscoping ∧
  summary (migrate unscoping applying across).1 = Some ("applied"%stdpp, 2, 0, None) ∧
  let once := (migrate unscoping applying across).2 in
  (Report.Status <$> (match (migrate (invert_row <$> unscoping) applying once).1 with
                      | Ok (r, _) => Some r | Err _ => None end)) = Some "refused"%stdpp ∧
  (migrate (invert_row <$> unscoping) applying once).2 = once ∧ t_conversations once ≠ t_conversations across.
Proof.
  split; [apply written_ok; vm_compute; reflexivity|]. cbv zeta.
  split_and!; [vm_compute; reflexivity..|]. intros H%(f_equal (lookup "c-1"%stdpp)). vm_compute in H. discriminate H.
Qed.

(** The refusal names the control-plane identity the map is ranged over first. *)
Example mismatch_depends_on_order :
  let l := unplanned <$> [plan_row AuthorityJK "hub" "hub" DispositionUnchanged true 2;
                          plan_row AuthorityJK "root" "root" DispositionUnchanged true 3]%stdpp in
  validateControlPlaneAgreement id elements l [] ≠
  validateControlPlaneAgreement id (λ s, reverse (elements s)) l [].
Proof. vm_compute. discriminate. Qed.

(** ** The ledger of a renamed database *)

Lemma rename_ledger π `{!Inj (=) (=) π} t : ledger_ok t → ledger_ok (rename π t).
Proof.
  intros [Hseq Hcur Huniq Href Hack]. constructor; cbn.
  - intros a n d (k & Hk & Hd)%(lookup_kmap_Some _). destruct k as [b m]. injection Hk as -> ->.
    destruct (Hseq b m d Hd) as (c & Hc & ?). exists c. by rewrite lookup_kmap.
  - intros a c (b & -> & Hc)%(lookup_kmap_Some _). by apply (Hcur b).
  - intros k k' d d' (j & -> & Hd)%(lookup_kmap_Some _) (j' & -> & Hd')%(lookup_kmap_Some _) Hm.
    by rewrite (Huniq j j' d d' Hd Hd' Hm).
  - intros k d (j & _ & Hd)%(lookup_kmap_Some _). rewrite lookup_fmap, fmap_is_Some. by eapply Href.
  - intros a n d c ([b m] & Hk & Hd)%(lookup_kmap_Some _) Hc Hlt. injection Hk as -> ->.
    rewrite lookup_kmap in Hc by done. by eapply Hack.
Qed.

(** Whatever fails, a run keeps the ledger well-formed. *)
Theorem Run_ledger Quote FileURL Error Code range env rows o f t :
  manifest_ok rows → ledger_ok t → ledger_ok (run_db (Run Quote FileURL Error Code range env rows o) f t).2.
Proof.
  intros Hman Hok. pose proof (run_refused Quote FileURL Error Code range env rows o f t) as Href.
  destruct (run_db _ f t) as [[[r [e|]]|e] t'] eqn:Hrun; [by destruct Href as (_ & _ & ->)| |done]. cbn.
  destruct (run_applied _ _ _ _ _ _ _ _ _ _ _ _ Hman Hrun) as [(a & _ & Hplan & _ & _ & _ & ->)|[_ ->]]; [|done].
  rewrite (renamed_pi a rows t (manifest_ok_plain a rows Hman) Hplan). by apply rename_ledger; [apply _|].
Qed.
