(* ===== verification/Compare.v ===== *)
(** * The logical comparison of two databases: [internal/nsmigrate/compare.go]

    A database here is what the comparison can read of it: the text of each
    table's schema, its columns, and its rows with every value as [quote()]
    renders it.  Each query may fail, as [fault] says.  The JSON encoder of
    strings and lists of strings is an argument, and so is the order in which
    a map of tables is ranged over, which only decides the first error. *)
From stdpp Require Import gmap strings list sorting.
From Stdlib Require Import ZArith Lia Ascii.
From S2P Require Import Prelude GoBase Utf8 Sha256 Text Nsmigrate.

Module RawTable.
Record t := mk { schema : string; columns : list string; rows : list (list string) }.
End RawTable.

Abbreviation RawDB := (gmap string RawTable.t).

(** The queries on one database. *)
Inductive Read := OpenDB | SchemaRows | ColumnsOf (table : string) | RowsOf (table : string).

Record logicalTable := mkLogical { lt_name : string; lt_schema : string; lt_digest : string }.

Module ComparisonReport.
Record t := mk { Equal : bool; TableCount : Z; Tables : list string; MismatchedTables : list string }.
End ComparisonReport.

(** The pattern [sqlite_%] of [LIKE]: without regard to case, the prefix and one more
    character, any character. *)
Definition like_internal (name : string) : bool :=
  bool_decide (take 6 (bytes (ToLower name)) = bytes "sqlite"%stdpp) && (7 <=? len name).

(** The name between double quotes, with those inside it doubled. *)
Definition quote_char : ascii := "034"%char.

Fixpoint double_quotes (l : list ascii) : list ascii :=
  match l with
  | [] => []
  | c :: l => if bool_decide (c = quote_char) then c :: c :: double_quotes l else c :: double_quotes l
  end.

Definition quoteIdentifier (value : string) : string :=
  of_bytes (quote_char :: double_quotes (bytes value) ++ [quote_char]).

(** [strings.Join] with commas *)
Fixpoint Join (l : list string) : string :=
  match l with
  | [] => ε
  | [x] => x
  | x :: l => x +:+ ","%stdpp +:+ Join l
  end.

Definition quoted_columns (columns : list string) : string :=
  Join ((λ c, "quote("%stdpp +:+ quoteIdentifier c +:+ ")"%stdpp) <$> columns).

Definition row_query (table : string) (columns : list string) : string :=
  "SELECT "%stdpp +:+ quoted_columns columns +:+ " FROM "%stdpp +:+ quoteIdentifier table
  +:+ " ORDER BY "%stdpp +:+ quoted_columns columns.

(** [ORDER BY] on all the columns of a row. *)
Fixpoint row_le (l k : list string) : Prop :=
  match l, k with
  | [], _ => True
  | _, [] => False
  | x :: l, y :: k => x ≠ y ∧ String.le x y ∨ x = y ∧ row_le l k
  end.

#[export] Instance row_le_dec : RelDecision row_le.
Proof.
  intros l. induction l as [|x l IH]; intros [|y k]; cbn; apply _.
Defined.

Definition newline : ascii := "010"%char.

Section compare.
Context (Quote : string → string).
Context (EncodeString : string → string) (EncodeStrings : list string → string).
Context (range : gmap string logicalTable → list string).

(** One [encoder.Encode]: the text and a newline. *)
Definition line (text : string) : string := text +:+ String newline ε.

Definition header (schema : string) (columns : list string) : string :=
  line (EncodeString schema) +:+ line (EncodeStrings columns).

Fixpoint encoded_rows (rows : list (list string)) : string :=
  match rows with
  | [] => ε
  | values :: rows => line (EncodeStrings values) +:+ encoded_rows rows
  end.

(** The rows of the query, in its order. *)
Definition ordered_rows (t : RawTable.t) : list (list string) := merge_sort row_le (RawTable.rows t).

(** What is hashed. *)
Definition table_stream (t : RawTable.t) : string :=
  header (RawTable.schema t) (RawTable.columns t)
  +:+ (if (length (RawTable.columns t) =? 0)%nat then ε else encoded_rows (ordered_rows t)).

Section one_database.
Context (fault : Read → option string) (db : RawDB).

Definition tableColumns (table : string) : result string (list string) :=
  match fault (ColumnsOf table) with
  | Some e => Err e
  | None => Ok (match db !! table with Some t => RawTable.columns t | None => [] end)
  end.

Definition logicalTableDigest (name schema : string) : result string string :=
  match tableColumns name with
  | Err e => Err e
  | Ok [] => Ok (Sum256 (header schema []))
  | Ok columns =>
      match fault (RowsOf name) with
      | Some e => Err e
      | None =>
          let rows := match db !! name with Some t => ordered_rows t | None => [] end in
          Ok (Sum256 (header schema columns +:+ encoded_rows rows))
      end
  end.

(** The tables that are not the engine's. *)
Definition user_tables : gmap string RawTable.t := filter (λ '(name, _), like_internal name = false) db.

Fixpoint digest_tables (order : list string) (tables : gmap string logicalTable)
    : result string (gmap string logicalTable) :=
  match order with
  | [] => Ok tables
  | name :: order =>
      match tables !! name with
      | None => digest_tables order tables
      | Some table =>
          match logicalTableDigest name (lt_schema table) with
          | Err e => Err ("table "%stdpp +:+ Quote name +:+ ": "%stdpp +:+ e)
          | Ok digest => digest_tables order (<[name := mkLogical (lt_name table) (lt_schema table) digest]> tables)
          end
      end
  end.

Definition logicalTables : result string (gmap string logicalTable) :=
  match fault OpenDB with
  | Some e => Err e
  | None =>
      match fault SchemaRows with
      | Some e => Err e
      | None =>
          let tables := map_imap (λ name t, Some (mkLogical name (RawTable.schema t) ε)) user_tables in
          digest_tables (range tables) tables
      end
  end.
End one_database.

(** The databases are reached by path. *)
Context (faults : string → Read → option string) (disk : string → RawDB).

Definition differs (expected actual : gmap string logicalTable) (name : string) : bool :=
  match expected !! name, actual !! name with
  | Some l, Some r =>
      negb (bool_decide (lt_schema l = lt_schema r)) || negb (bool_decide (lt_digest l = lt_digest r))
  | _, _ => true
  end.

Definition comparison (expected actual : gmap string logicalTable) : ComparisonReport.t :=
  let tables := merge_sort String.le (elements (dom expected ∪ dom actual)) in
  let mismatched := List.filter (differs expected actual) tables in
  ComparisonReport.mk (length mismatched =? 0)%nat (Z.of_nat (length tables)) tables mismatched.

Definition CompareLogicalDatabases (env : Env.t) (expectedPath actualPath : string)
    : result string ComparisonReport.t :=
  match validateDBPath env expectedPath with
  | Some e => Err ("expected database: "%stdpp +:+ e)
  | None =>
      match validateDBPath env actualPath with
      | Some e => Err ("actual database: "%stdpp +:+ e)
      | None =>
          match logicalTables (faults expectedPath) (disk expectedPath) with
          | Err e => Err ("read expected database: "%stdpp +:+ e)
          | Ok expected =>
              match logicalTables (faults actualPath) (disk actualPath) with
              | Err e => Err ("read actual database: "%stdpp +:+ e)
              | Ok actual => Ok (comparison expected actual)
              end
          end
      end
  end.
End compare.
