(* ===== verification/CompareProps.v ===== *)
(** * Properties of the logical comparison

    Without failing queries the report is exact: the tables compared are those
    that are not the engine's, and the mismatched ones are those that differ in
    schema, columns or the rows they have, whatever their order, provided no
    two of the texts hashed have the same digest. *)
From stdpp Require Import gmap strings list sorting.
From Stdlib Require Import ZArith Lia Ascii.
From S2P Require Import Prelude GoBase Utf8 Sha256 Text Nsmigrate Compare.

(** ** The order of rows *)

#[export] Instance row_le_trans : Transitive row_le.
Proof.
  intros l. induction l as [|x l IH]; intros [|y k] [|z m]; cbn; try done.
  intros [[Hne Hl]|[-> Hl]] [[Hne' Hk]|[-> Hk]].
  - left. split; [|by etransitivity]. intros ->. apply Hne. by apply (anti_symm String.le).
  - by left.
  - by left.
  - right. split; [done|]. by eapply IH.
Qed.

#[export] Instance row_le_antisymm : AntiSymm (=) row_le.
Proof.
  intros l. induction l as [|x l IH]; intros [|y k]; cbn; try done.
  intros [[Hne Hl]|[-> Hl]] [[Hne' Hk]|[Heq Hk]]; [|congruence|congruence|].
  - exfalso. apply Hne. by apply (anti_symm String.le).
  - f_equal. by apply IH.
Qed.

#[export] Instance row_le_total : Total row_le.
Proof.
  intros l. induction l as [|x l IH]; intros [|y k]; cbn; auto.
  destruct (decide (x = y)) as [->|Hne].
  - destruct (IH k); auto.
  - destruct (String.le_total x y); [left|right]; left; auto.
Qed.

(** The rows of two tables come in the same order when they are the same. *)
Lemma ordered_rows_perm t u : RawTable.rows t ≡ₚ RawTable.rows u ↔ ordered_rows t = ordered_rows u.
Proof.
  unfold ordered_rows. split.
  - intros Hp. apply (StronglySorted_unique row_le); [apply (StronglySorted_merge_sort row_le)..|].
    etransitivity; [apply merge_sort_Permutation|]. etransitivity; [exact Hp|]. symmetry. apply merge_sort_Permutation.
  - intros H. etransitivity; [symmetry; apply (merge_sort_Permutation row_le)|]. rewrite H. apply merge_sort_Permutation.
Qed.

(** ** Texts of lines *)

Lemma append_empty (x : string) : x +:+ ε = x.
Proof. apply bytes_inj. by rewrite bytes_app, app_nil_r. Qed.

Lemma append_assoc (x y z : string) : (x +:+ y) +:+ z = x +:+ (y +:+ z).
Proof. apply bytes_inj. by rewrite !bytes_app, app_assoc. Qed.


Definition no_newline (s : string) : Prop := newline ∉ bytes s.

Lemma bytes_line s : bytes (line s) = bytes s ++ [newline].
Proof. unfold line. by rewrite bytes_app. Qed.

Lemma line_split s s' r r' :
  no_newline s → no_newline s' → line s +:+ r = line s' +:+ r' → s = s' ∧ r = r'.
Proof.
  intros Hs Hs' H. apply (f_equal bytes) in H. rewrite !bytes_app, !bytes_line, <-!app_assoc in H. cbn in H.
  pose proof (cut_bytes_app newline (bytes s) (bytes r) Hs) as H1.
  rewrite H, (cut_bytes_app newline (bytes s') (bytes r') Hs') in H1. injection H1 as H1 H2.
  split; by apply bytes_inj.
Qed.

Lemma is_Some_imap {A B} (f : string → A → B) (m : gmap string A) k :
  is_Some (map_imap (λ k a, Some (f k a)) m !! k) ↔ is_Some (m !! k).
Proof. rewrite map_lookup_imap. destruct (m !! k); cbn; [split; by eexists|]. by split; intros [? ?]. Qed.

Lemma agree_Some {A} (R : relation A) x y : option_Forall2 R (Some x) (Some y) ↔ R x y.
Proof. split; [by inversion 1|by constructor]. Qed.

Lemma elem_of_snoc_ne (k name : string) l : k ≠ name → k ∈ l ↔ k ∈ l ++ [name].
Proof. intros Hne. rewrite elem_of_app, list_elem_of_singleton. tauto. Qed.

Section props.
Context (EncodeString : string → string) (EncodeStrings : list string → string).
(** The encoder: one line for each value, and valid text can be read back. *)
Context (string_line : ∀ s, no_newline (EncodeString s)) (strings_line : ∀ l, no_newline (EncodeStrings l)).
Context (string_inj : ∀ s s', ValidString s = true → ValidString s' = true →
  EncodeString s = EncodeString s' → s = s').
Context (strings_inj : ∀ l l', Forall (λ s, ValidString s = true) l → Forall (λ s, ValidString s = true) l' →
  EncodeStrings l = EncodeStrings l' → l = l').

#[local] Abbreviation stream := (table_stream EncodeString EncodeStrings).

Record valid_table (t : RawTable.t) : Prop := {
  vt_schema : ValidString (RawTable.schema t) = true;
  vt_columns : Forall (λ s, ValidString s = true) (RawTable.columns t);
  vt_rows : Forall (Forall (λ s, ValidString s = true)) (RawTable.rows t);
  vt_width : Forall (λ r, length r = length (RawTable.columns t)) (RawTable.rows t) }.

(** The same table: rows in any order. *)
Record same_table (t u : RawTable.t) : Prop := {
  st_schema : RawTable.schema t = RawTable.schema u;
  st_columns : RawTable.columns t = RawTable.columns u;
  st_rows : RawTable.columns t ≠ [] → RawTable.rows t ≡ₚ RawTable.rows u }.

Lemma encoded_rows_inj l : ∀ k,
  Forall (Forall (λ s, ValidString s = true)) l → Forall (Forall (λ s, ValidString s = true)) k →
  encoded_rows EncodeStrings l = encoded_rows EncodeStrings k → l = k.
Proof using strings_inj strings_line.
  induction l as [|x l IH]; intros [|y k] Hl Hk; cbn.
  - done.
  - intros H%(f_equal bytes). rewrite bytes_app, bytes_line in H. by destruct (bytes (EncodeStrings y)).
  - intros H%(f_equal bytes). rewrite bytes_app, bytes_line in H. by destruct (bytes (EncodeStrings x)).
  - apply Forall_cons in Hl as [Hx Hl], Hk as [Hy Hk].
    intros [He Hr]%line_split; [|apply strings_line..]. f_equal; [by apply strings_inj|by apply IH].
Qed.

Lemma valid_ordered t : valid_table t → Forall (Forall (λ s, ValidString s = true)) (ordered_rows t).
Proof using Type. intros Ht. unfold ordered_rows. rewrite merge_sort_Permutation. apply Ht. Qed.

(** The hashed texts are equal exactly for the same tables. *)
Lemma stream_iff t u : valid_table t → valid_table u → stream t = stream u ↔ same_table t u.
Proof using string_line strings_line string_inj strings_inj.
  intros Ht Hu. unfold table_stream, header. rewrite !append_assoc. split.
  - intros [Hs H]%line_split; [|apply string_line..]. apply line_split in H as [Hc H]; [|apply strings_line..].
    apply string_inj in Hs; [|apply Ht|apply Hu]. apply strings_inj in Hc; [|apply Ht|apply Hu].
    constructor; [done..|]. intros Hne. rewrite <-Hc in H. destruct (RawTable.columns t); [done|]. cbn in H.
    apply ordered_rows_perm, encoded_rows_inj; [by apply valid_ordered..|done].
  - intros [-> Hc Hr]. rewrite Hc in *. destruct (RawTable.columns u); [done|]. cbn.
    rewrite (proj1 (ordered_rows_perm t u)); [done|by apply Hr].
Qed.

(** ** Reading a database *)

Section one_database.
Context (Quote : string → string) (range : gmap string logicalTable → list string).
Context (range_ok : ∀ m, enumerates (range m) m).
Context (fault : Read → option string) (no_fault : ∀ r, fault r = None) (db : RawDB).

Definition logical (name : string) (t : RawTable.t) : logicalTable :=
  mkLogical name (RawTable.schema t) (Sum256 (stream t)).

Lemma digest_stream name t :
  db !! name = Some t →
  logicalTableDigest EncodeString EncodeStrings fault db name (RawTable.schema t) = Ok (Sum256 (stream t)).
Proof using no_fault.
  intros Hn. unfold logicalTableDigest, tableColumns, table_stream. rewrite !no_fault, Hn.
  destruct (RawTable.columns t) as [|c l]; [|reflexivity].
  cbn [length Nat.eqb]. by rewrite append_empty.
Qed.

Lemma digest_tables_ok order : ∀ done tables,
  NoDup order → (∀ k, k ∈ order → k ∉ done) →
  (∀ k, tables !! k = (λ t, if bool_decide (k ∈ done) then logical k t else mkLogical k (RawTable.schema t) ε)
                      <$> user_tables db !! k) →
  ∃ tables', digest_tables Quote EncodeString EncodeStrings fault db order tables = Ok tables' ∧
    ∀ k, tables' !! k = (λ t, if bool_decide (k ∈ done ++ order) then logical k t else mkLogical k (RawTable.schema t) ε)
                        <$> user_tables db !! k.
Proof using no_fault.
  induction order as [|name order IH]; intros done tables Hnd Hdis Htab.
  { exists tables. split; [done|]. by rewrite app_nil_r. }
  apply NoDup_cons in Hnd as [Hname Hnd]. cbn [digest_tables]. rewrite Htab.
  destruct (user_tables db !! name) as [t|] eqn:Ht; cbn.
  - assert (db !! name = Some t) as Hdb by (unfold user_tables in Ht; by apply map_lookup_filter_Some in Ht as [? _]).
    rewrite (bool_decide_eq_false_2 (name ∈ done)) by (apply Hdis; by left). cbn. rewrite digest_stream by done.
    destruct (IH (done ++ [name]) (<[name := logical name t]> tables)) as (tables' & H1 & H2); [done| | |].
    + intros k Hk. rewrite elem_of_app. intros [?|Heq%list_elem_of_singleton]; [by apply (Hdis k); [right|]|]. by subst.
    + intros k. destruct (decide (k = name)) as [->|Hne].
      * rewrite lookup_insert_eq, Ht. cbn. by rewrite bool_decide_eq_true_2 by (apply elem_of_app; right; by left).
      * rewrite lookup_insert_ne, Htab by done. destruct (user_tables db !! k); [|done]. cbn. f_equal.
        by rewrite (bool_decide_ext _ _ (elem_of_snoc_ne k name done Hne)).
    + exists tables'. split; [exact H1|]. intros k. rewrite H2. by rewrite <-app_assoc.
  - destruct (IH (done ++ [name]) tables) as (tables' & H1 & H2); [done| | |].
    + intros k Hk. rewrite elem_of_app. intros [?|Heq%list_elem_of_singleton]; [by apply (Hdis k); [right|]|]. by subst.
    + intros k. rewrite Htab. destruct (decide (k = name)) as [->|Hne]; [by rewrite Ht|].
      destruct (user_tables db !! k); [|done]. cbn. f_equal.
      by rewrite (bool_decide_ext _ _ (elem_of_snoc_ne k name done Hne)).
    + exists tables'. split; [exact H1|]. intros k. rewrite H2. by rewrite <-app_assoc.
Qed.

Lemma logicalTables_ok :
  logicalTables Quote EncodeString EncodeStrings range fault db = Ok (map_imap (λ k t, Some (logical k t)) (user_tables db)).
Proof using no_fault range_ok.
  unfold logicalTables. rewrite !no_fault. set (tables := map_imap _ (user_tables db)).
  destruct (range_ok tables) as [Hnd Hdom].
  destruct (digest_tables_ok (range tables) [] tables Hnd) as (tables' & H1 & H2).
  - intros k _. apply not_elem_of_nil.
  - intros k. unfold tables. rewrite map_lookup_imap. destruct (user_tables db !! k); [|done]. cbn.
    by rewrite bool_decide_eq_false_2 by apply not_elem_of_nil.
  - rewrite H1. f_equal. apply map_eq. intros k. rewrite H2, map_lookup_imap.
    destruct (user_tables db !! k) as [t|] eqn:Ht; [|done]. cbn. rewrite bool_decide_eq_true_2; [done|].
    apply Hdom. unfold tables. rewrite map_lookup_imap, Ht. by eexists.
Qed.
End one_database.

(** ** The report *)

Section report.
Context (Quote : string → string) (range : gmap string logicalTable → list string).
Context (range_ok : ∀ m, enumerates (range m) m).
Context (disk : string → RawDB) (env : Env.t) (expectedPath actualPath : string).

#[local] Abbreviation expected := (user_tables (disk expectedPath)).
#[local] Abbreviation actual := (user_tables (disk actualPath)).

(** The databases agree on a table, or neither has it. *)
Definition agree (name : string) : Prop := option_Forall2 same_table (expected !! name) (actual !! name).

(** C20: Without failures the comparison of the tables its filter leaves is
    exact.  When what those hold is valid UTF-8, which the JSON encoder needs to
    keep distinct texts apart, and the digest does not collide on them, the
    report lists every table that [name NOT LIKE 'sqlite_%'] leaves of either
    database, once and in order; it names as mismatched exactly those that
    one lacks or whose schema, columns or rows, as a multiset, differ; and it says
    equal exactly when there are none.  The tables the filter drops are not
    compared ([table_not_compared] is one that is not the engine's). *)
Theorem compare_exact :
  validateDBPath env expectedPath = None → validateDBPath env actualPath = None →
  (∀ name t, expected !! name = Some t ∨ actual !! name = Some t → valid_table t) →
  (∀ name t u, expected !! name = Some t → actual !! name = Some u →
     Sum256 (stream t) = Sum256 (stream u) → stream t = stream u) →
  ∃ r, CompareLogicalDatabases Quote EncodeString EncodeStrings range (λ _ _, None) disk env expectedPath actualPath = Ok r ∧
    StronglySorted String.le (ComparisonReport.Tables r) ∧ NoDup (ComparisonReport.Tables r) ∧
    (∀ name, name ∈ ComparisonReport.Tables r ↔ is_Some (expected !! name) ∨ is_Some (actual !! name)) ∧
    (∀ name, name ∈ ComparisonReport.MismatchedTables r ↔ ¬ agree name) ∧
    (ComparisonReport.Equal r = true ↔ ∀ name, agree name).
Proof using string_line strings_line string_inj strings_inj range_ok.
  intros He Ha Hvalid Hcol. eexists. split.
  { unfold CompareLogicalDatabases. rewrite He, Ha, !logicalTables_ok by done. reflexivity. }
  set (L := map_imap (λ k t, Some (logical k t)) expected). set (R := map_imap (λ k t, Some (logical k t)) actual).
  set (tables := merge_sort String.le (elements (dom L ∪ dom R))).
  assert (∀ name, name ∈ tables ↔ is_Some (expected !! name) ∨ is_Some (actual !! name)) as Hin.
  { intros name. unfold tables. rewrite merge_sort_Permutation, elem_of_elements, elem_of_union, !elem_of_dom.
    unfold L, R. by rewrite !is_Some_imap. }
  assert (∀ name, differs L R name = true ↔ ¬ agree name ∨ (expected !! name = None ∧ actual !! name = None)) as Hdiff.
  { intros name. unfold differs, agree, L, R. rewrite !map_lookup_imap.
    destruct (expected !! name) as [t|] eqn:Et, (actual !! name) as [u|] eqn:Eu; cbn.
    - rewrite orb_true_iff, !negb_true_iff, !bool_decide_eq_false, agree_Some.
      rewrite <-(stream_iff t u) by eauto. split.
      + intros Hd. left. intros Hs. destruct Hd as [Hd|Hd]; apply Hd; [|by rewrite Hs].
        apply stream_iff in Hs as [? _ _]; [done|eauto..].
      + intros [Hn|[? _]]; [|done]. right. intros Hs. by eapply Hn, Hcol.
    - split; [intros _; left; by inversion 1|done].
    - split; [intros _; left; by inversion 1|done].
    - split; [by right|done]. }
  assert (∀ name, differs L R name = false → agree name) as Hsame.
  { intros name. unfold differs, agree, L, R. rewrite !map_lookup_imap.
    destruct (expected !! name) as [t|] eqn:Et, (actual !! name) as [u|] eqn:Eu; cbn; [|done..].
    rewrite orb_false_iff, !negb_false_iff, !bool_decide_eq_true. intros [_ Hs]. constructor.
    apply stream_iff; [eauto..|]. by eapply Hcol. }
  assert (∀ name, name ∈ List.filter (differs L R) tables ↔ ¬ agree name) as Hmis.
  { intros name. rewrite list_elem_of_In, filter_In, <-list_elem_of_In, Hin, Hdiff. split.
    - intros [[[? H]|[? H]] [?|[]]]; congruence.
    - intros Hn. split; [|by left]. unfold agree in Hn.
      destruct (expected !! name), (actual !! name); eauto. exfalso. apply Hn. constructor. }
  cbn [ComparisonReport.Tables ComparisonReport.MismatchedTables ComparisonReport.Equal comparison]. fold L R tables.
  split_and!; [by apply (StronglySorted_merge_sort String.le)| |done|done|].
  { unfold tables. rewrite merge_sort_Permutation. apply NoDup_elements. }
  rewrite Nat.eqb_eq, length_zero_iff_nil. split.
  - intros Hnil name. destruct (differs L R name) eqn:Hd.
    + destruct (proj1 (Hdiff name) Hd) as [Hn|[E1 E2]]; [|unfold agree; rewrite E1, E2; constructor].
      apply Hmis in Hn. rewrite Hnil in Hn. by apply not_elem_of_nil in Hn.
    + by apply Hsame.
  - intros Hall. destruct (List.filter (differs L R) tables) as [|name l] eqn:Hf; [done|]. exfalso.
    assert (¬ agree name) as Hn by (apply Hmis; by left). apply Hn, Hall.
Qed.
End report.
End props.

(** ** Identifiers

    The engine reads a quoted identifier back as the name it was made of. *)
Fixpoint undouble (l : list ascii) : option (list ascii) :=
  match l with
  | [] => None
  | c :: l' =>
      if bool_decide (c = quote_char) then
        match l' with
        | [] => Some []
        | d :: l'' => if bool_decide (d = quote_char) then cons c <$> undouble l'' else None
        end
      else cons c <$> undouble l'
  end.

Definition read_identifier (s : string) : option string :=
  match bytes s with
  | c :: l => if bool_decide (c = quote_char) then of_bytes <$> undouble l else None
  | [] => None
  end.

Lemma undouble_double l : undouble (double_quotes l ++ [quote_char]) = Some l.
Proof.
  induction l as [|c l IH]; [done|]. cbn. case_bool_decide as Hc; cbn.
  - by rewrite !bool_decide_eq_true_2, IH by done.
  - by rewrite bool_decide_eq_false_2, IH by done.
Qed.

Lemma read_quoteIdentifier s : read_identifier (quoteIdentifier s) = Some s.
Proof.
  unfold read_identifier, quoteIdentifier. rewrite bytes_of_bytes. cbn. rewrite undouble_double. cbn. by rewrite of_bytes_bytes.
Qed.

(** ** Concrete databases *)

(** An encoder of one line: hexadecimal digits and commas. *)
Definition hex_strings (l : list string) : string := of_bytes (concat ((λ s, bytes (EncodeToString s) ++ [","%char]) <$> l)).

Lemma hex_plain c s : c ∈ bytes (EncodeToString s) → is_Some (hex_value c).
Proof. unfold EncodeToString. rewrite bytes_of_bytes. apply hex_encoded. Qed.

Lemma hex_line s : no_newline (EncodeToString s).
Proof. intros H%hex_plain. revert H. vm_compute. by intros []. Qed.

Lemma hex_strings_line l : no_newline (hex_strings l).
Proof.
  unfold no_newline, hex_strings. rewrite bytes_of_bytes. induction l as [|s l IH]; [apply not_elem_of_nil|].
  rewrite fmap_cons. cbn [concat]. rewrite !elem_of_app, list_elem_of_singleton. intros [[H|H]|H]; [by apply hex_line in H|done|done].
Qed.

Lemma EncodeToString_inj s s' : EncodeToString s = EncodeToString s' → s = s'.
Proof.
  intros H. assert (Some s = Some s') as [= ->]; [|done]. by rewrite <-!DecodeString_EncodeToString, H.
Qed.

Lemma hex_strings_inj l : ∀ l', hex_strings l = hex_strings l' → l = l'.
Proof.
  induction l as [|s l IH]; intros [|s' l'] H; apply (f_equal bytes) in H; unfold hex_strings in H;
    rewrite ?fmap_cons, !bytes_of_bytes in H; cbn [concat fmap list_fmap] in H; [done| | |].
  - by destruct (bytes (EncodeToString s')).
  - by destruct (bytes (EncodeToString s)).
  - assert (∀ x, ","%char ∉ bytes (EncodeToString x)) as Hc.
    { intros x Hx%hex_plain. revert Hx. vm_compute. by intros []. }
    rewrite <-!app_assoc in H. cbn in H.
    pose proof (cut_bytes_app ","%char _ (concat ((λ s, bytes (EncodeToString s) ++ [","%char]) <$> l)) (Hc s)) as E.
    rewrite H, cut_bytes_app in E by apply Hc. injection E as E1 E2. f_equal.
    + by apply EncodeToString_inj, bytes_inj.
    + apply IH. unfold hex_strings. by rewrite E2.
Qed.

Definition counters_table (rows : list (list string)) : RawTable.t :=
  RawTable.mk "CREATE TABLE counters (key TEXT, value INTEGER)"%stdpp ["key"; "value"]%stdpp rows.

(** Two copies with the rows in another order, and one that differs. *)
Definition shelf (path : string) : RawDB :=
  if bool_decide (path = "expected.db"%stdpp)
  then {["counters"%stdpp := counters_table [["'a'"; "1"]; ["'b'"; "2"]]%stdpp]}
  else if bool_decide (path = "same.db"%stdpp)
  then {["counters"%stdpp := counters_table [["'b'"; "2"]; ["'a'"; "1"]]%stdpp]}
  else {["counters"%stdpp := counters_table [["'a'"; "1"]]%stdpp]}.

Definition regular_files : Env.t := Env.mk (λ _, Ok (false, true)) Ok (λ _, None) (λ _, None) (λ _, false).
Definition any_order (m : gmap string logicalTable) : list string := elements (dom m).

Definition compare_with (actual : string) : result string ComparisonReport.t :=
  CompareLogicalDatabases id EncodeToString hex_strings any_order (λ _ _, None) shelf regular_files "expected.db"%stdpp actual.

Example compare_ex :
  compare_with "same.db"%stdpp = Ok (ComparisonReport.mk true 1 ["counters"%stdpp] []) ∧
  compare_with "other.db"%stdpp = Ok (ComparisonReport.mk false 1 ["counters"%stdpp] ["counters"%stdpp]).
Proof. split; vm_compute; reflexivity. Qed.

Lemma shelf_valid path name t : user_tables (shelf path) !! name = Some t → valid_table t.
Proof.
  unfold user_tables, shelf. intros [H _]%map_lookup_filter_Some. revert H.
  repeat case_bool_decide; intros [<- <-]%lookup_singleton_Some; constructor; by repeat constructor.
Qed.

Lemma compare_exact_witness :
  (∀ s, no_newline (EncodeToString s)) ∧ (∀ l, no_newline (hex_strings l)) ∧
  ∃ r, compare_with "same.db"%stdpp = Ok r ∧
    (ComparisonReport.Equal r = true ↔ ∀ name, agree shelf "expected.db"%stdpp "same.db"%stdpp name).
Proof.
  split; [exact hex_line|]. split; [exact hex_strings_line|].
  destruct (compare_exact EncodeToString hex_strings hex_line hex_strings_line
    (λ s s' _ _ H, EncodeToString_inj s s' H) (λ l l' _ _ H, hex_strings_inj l l' H)
    id any_order (λ m, enumerates_elements m) shelf regular_files "expected.db"%stdpp "same.db"%stdpp)
    as (r & Hr & _ & _ & _ & _ & Heq); [reflexivity|reflexivity| | |].
  - intros name t [H|H]; eapply shelf_valid; exact H.
  - intros name t u Ht Hu _.
    assert (t = counters_table [["'a'"; "1"]; ["'b'"; "2"]]%stdpp) as ->.
    { unfold user_tables in Ht. apply map_lookup_filter_Some in Ht as [Ht _].
      change (({["counters"%stdpp := counters_table [["'a'"; "1"]; ["'b'"; "2"]]%stdpp]} : RawDB) !! name = Some t) in Ht.
      apply lookup_singleton_Some in Ht as [_ <-]. reflexivity. }
    assert (u = counters_table [["'b'"; "2"]; ["'a'"; "1"]]%stdpp) as ->.
    { unfold user_tables in Hu. apply map_lookup_filter_Some in Hu as [Hu _].
      change (({["counters"%stdpp := counters_table [["'b'"; "2"]; ["'a'"; "1"]]%stdpp]} : RawDB) !! name = Some u) in Hu.
      apply lookup_singleton_Some in Hu as [_ <-]. reflexivity. }
    vm_compute. reflexivity.
  - exists r. split; [exact Hr|exact Heq].
Defined.

(** The pattern that leaves out the engine's tables has a wildcard: a table of
    the application whose name continues the prefix in another way is not
    compared either. *)
Definition notes (body : string) : RawDB :=
  {["SQLiteNotes"%stdpp := RawTable.mk "CREATE TABLE SQLiteNotes (body TEXT)"%stdpp ["body"%stdpp] [[body]]]}.

Example table_not_compared :
  CompareLogicalDatabases id EncodeToString hex_strings any_order (λ _ _, None)
    (λ path, notes path) regular_files "one.db"%stdpp "two.db"%stdpp
  = Ok (ComparisonReport.mk true 0 [] []).
Proof. vm_compute. reflexivity. Qed.
