(* ===== verification/Configutil.v ===== *)
(** * Configuration values: [internal/configutil/config.go] and the list
    parsers of [pkg/httpapi]

    [ParseSHA256Map] reads the digests of [CONTROL_PLANE_AGENT_SECRET_HASHES];
    a digest is the 32-byte string it decodes to.  [Quote] is
    [strconv.Quote], which only words errors. *)
From stdpp Require Import gmap strings list.
From Stdlib Require Import ZArith Lia Ascii.
From S2P Require Import Prelude GoBase Utf8 Text.

(** ** Lists separated by commas *)

(** The loop body of [SplitCSV], [parseTokenEnv] and [parseAllowlistEnv]. *)
Definition csv_value (entry : string) : option string :=
  let value := TrimSpace entry in if is_empty value then None else Some value.

Definition SplitCSV (raw : string) : list string := omap csv_value (Split raw ","%char).

Definition parseTokenEnv (raw : string) : gset string := list_to_set (SplitCSV raw).
Definition parseAllowlistEnv (raw : string) : gset string := list_to_set (SplitCSV raw).

(** ** Identity digests *)

Section hashes.
Context (Quote : string → string).

Definition parse_entry (result : gmap string string) (rawEntry : string)
    : Prelude.result string (gmap string string) :=
  let entry := TrimSpace rawEntry in
  if is_empty entry then Err "empty identity-to-hash entry"%stdpp else
  let '(identity, encoded, ok) := Cut entry "="%char in
  let identity := TrimSpace identity in
  let encoded := TrimSpace encoded in
  if negb ok || is_empty identity || is_empty encoded then
    Err "malformed identity-to-hash entry"%stdpp
  else
  match result !! identity with
  | Some _ => Err ("duplicate identity "%stdpp +:+ Quote identity)
  | None =>
      if negb (len encoded =? 64) then
        Err ("identity "%stdpp +:+ Quote identity
               +:+ " must have a 64-character SHA-256 digest"%stdpp)
      else
      match DecodeString encoded with
      | None => Err ("identity "%stdpp +:+ Quote identity +:+ " has invalid SHA-256 encoding"%stdpp)
      | Some decoded => Ok (<[identity := decoded]> result)
      end
  end.

Fixpoint parse_entries (result : gmap string string) (entries : list string)
    : Prelude.result string (gmap string string) :=
  match entries with
  | [] => Ok result
  | e :: entries =>
      match parse_entry result e with
      | Err err => Err err
      | Ok result => parse_entries result entries
      end
  end.

Definition ParseSHA256Map (raw : string) : result string (gmap string string) :=
  if is_empty (TrimSpace raw) then Ok ∅ else parse_entries ∅ (Split raw ","%char).

(** ** What an accepted text means *)

(** An accepted entry adds one identity with a digest of 32 bytes. *)
Lemma parse_entry_Ok m e m' :
  parse_entry m e = Ok m' →
  ∃ id digest, id ≠ ε ∧ trimmed id ∧ m !! id = None ∧ length (bytes digest) = 32%nat ∧
    m' = <[id := digest]> m.
Proof.
  unfold parse_entry. cbv zeta. destruct (is_empty (TrimSpace e)); [done|].
  destruct (Cut _ _) as [[id enc] ok].
  destruct (negb ok || is_empty (TrimSpace id) || is_empty (TrimSpace enc)) eqn:Eb; [done|].
  destruct (m !! TrimSpace id) eqn:Em; [done|].
  destruct (negb (len (TrimSpace enc) =? 64)) eqn:El; [done|].
  destruct (DecodeString (TrimSpace enc)) as [d|] eqn:Ed; [|done]. intros [= <-].
  apply negb_false_iff, Z.eqb_eq in El.
  exists (TrimSpace id), d. split_and!; [|apply TrimSpace_trimmed|done| |done].
  - unfold is_empty in Eb. prop_bool. tauto.
  - apply DecodeString_length in Ed. unfold len in El. lia.
Qed.

(** Fail closed: one bad entry refuses the whole text; otherwise every entry
    names a new identity, so the map has as many. *)
Lemma parse_entries_Ok entries : ∀ m m',
  parse_entries m entries = Ok m' →
  size m' = (size m + length entries)%nat ∧
  (map_Forall (λ id d, id ≠ ε ∧ trimmed id ∧ length (bytes d) = 32%nat) m →
   map_Forall (λ id d, id ≠ ε ∧ trimmed id ∧ length (bytes d) = 32%nat) m').
Proof.
  induction entries as [|e entries IH]; intros m m'; cbn [parse_entries].
  { intros [= <-]. split; [cbn; lia|done]. }
  destruct (parse_entry m e) as [m1|] eqn:E1; [|done]. intros Hrest.
  destruct (parse_entry_Ok _ _ _ E1) as (id & d & Hne & Ht & Hm & Hd & ->).
  destruct (IH _ _ Hrest) as [Hsize Hall]. split.
  - rewrite Hsize, map_size_insert_None by done. cbn. lia.
  - intros H. apply Hall. by apply map_Forall_insert_2.
Qed.

End hashes.
