(* ===== verification/Http.v ===== *)
(** * Requests, credentials and server state: [pkg/httpapi/auth.go] and the
    helpers of [pkg/httpapi/server.go]

    The store behind the server is any instance of [API], the interface of
    [pkg/bus/api.go], over a state [Σ].  [net/http] supplies requests:
    [header] is [r.Header.Get], the query is parsed by [Text.query_get].
    [decode_*] are [json.Unmarshal] into the request structs; [Quote] is
    [strconv.Quote].  Denials and reloads are logged by the code; logging is
    not modelled. *)
From stdpp Require Import gmap strings list sorting.
From Stdlib Require Import ZArith Lia Ascii.
From S2P Require Import Prelude GoBase Sha256 Utf8 Json Types Text Configutil.

(** ** The store behind the server *)

(** A Go [error]: a [*bus.Error] or any other, by its text. *)
Inductive ApiError := BusE (e : Error.t) | PlainE (text : string).

(** [AgentSecretStore] *)
Record SecretStore (Σ : Type) := mkSecretStore {
  AgentSecrets : Σ → result string (gmap string string);
  SetAgentSecret : string → string → Σ → Σ * option string }.
Arguments mkSecretStore {Σ}.
Arguments AgentSecrets {Σ}.
Arguments SetAgentSecret {Σ}.

Class API (Σ : Type) := {
  API_RegisterAgent : RegisterAgentInput.t → Σ → Σ * result ApiError Agent.t;
  API_ListAgents : string → Σ → Σ * list Agent.t;
  API_CreateConversation : CreateConversationInput.t → Σ → Σ * result ApiError Conversation.t;
  API_ListConversations : ListConversationsFilter.t → Σ → Σ * list Conversation.t;
  API_SendMessage : SendMessageInput.t → Σ → Σ * result ApiError (Message.t * bool);
  API_PollInbox : PollInboxInput.t → Σ → Σ * result ApiError (list InboxEvent.t * Z);
  API_Ack : AckInput.t → Σ → Σ * option ApiError;
  API_PostEvent : EventInput.t → Σ → Σ * option ApiError;
  API_Inject : InjectInput.t → Σ → Σ * result ApiError Message.t;
  API_ListConversationMessages : ListConversationMessagesInput.t → Σ →
    Σ * result ApiError (string * list Message.t * Z);
  API_ObserveSince : Z → ObserveFilter.t → Duration → Σ → Σ * (list ObserveEvent.t * Z);
  API_Health : Σ → Σ * json;
  API_Metrics : Σ → Σ * string;
  API_SystemStatus : Σ → Σ * json;
  (** the optional interfaces *)
  API_secrets : option (SecretStore Σ);
  API_ObserveEpoch : option (Σ → string) }.

(** What the server relies on: the store registers the identity it is asked to. *)
Class RegistersRequested (Σ : Type) `{API Σ} : Prop := registers_requested req s s' a :
  API_RegisterAgent req s = (s', Ok a) →
  Agent.AgentID a = TrimSpace (RegisterAgentInput.AgentID req).

(** ** Requests and responses *)

Module ConversationRequest.
Record t := mk { ConversationID : string; Title : string; Participants : list string; Meta : json }.
End ConversationRequest.

Module EventRequest.
Record t := mk { MessageID : string; Typ : string; Body : string; Meta : json }.
End EventRequest.

(** The other request structs have the fields of the operation's input. *)
Class Decoder := {
  decode_register : string → result string RegisterAgentInput.t;
  decode_conversation : string → result string ConversationRequest.t;
  decode_message : string → result string SendMessageInput.t;
  decode_ack : string → result string AckInput.t;
  decode_event : string → result string EventRequest.t;
  decode_inject : string → result string InjectInput.t }.

Inductive Method := GET | POST | HEAD | CONNECT | OtherMethod.
#[export] Instance Method_eq_dec : EqDecision Method.
Proof. solve_decision. Defined.

(** A body that is not nil: its bytes and the error, if any, that ends them. *)
Record Body := mkBody { content : string; read_error : option string }.

(** [EscapedPath] is [r.URL.EscapedPath()]. *)
Record Request := mkRequest {
  method : Method;
  EscapedPath : string;
  RawQuery : string;
  header : string → string;
  body : option Body;
  flushes : bool }.

(** [r.URL.Path]; a target that does not unescape never reaches a handler. *)
Definition Path (r : Request) : string := default (EscapedPath r) (PathUnescape (EscapedPath r)).

Definition query (r : Request) (key : string) : string := query_get (RawQuery r) key.

(** The JSON objects the handlers write, by their contents. *)
Inductive Payload :=
| NoPayload
| PError (code : ErrorCode) (message : string) (transient : bool) (retry_after : option Z)
| PRegistered (agent_id : string) (expires_at : Time)
| PAgents (agents : list Agent.t)
| PConversationID (conversation_id : string)
| PConversations (conversations : list Conversation.t)
| PMessages (conversation_id : string) (messages : list Message.t) (cursor : string)
| PSent (message_id : string) (duplicate : bool)
| PInbox (events : list InboxEvent.t) (cursor : string)
| POk
| PInjected (message_id : string)
| PMap (fields : json)
| PText (text : string)
| PStream (frames : list string).

Record Response := mkResponse {
  status : Z; headers : list (string * string); payload : Payload }.

Definition json_headers : list (string * string) := [("Content-Type", "application/json")]%stdpp.

Definition writeJSON (status : Z) (payload : Payload) : Response :=
  mkResponse status json_headers payload.

Definition writeHeader (status : Z) : Response := mkResponse status [] NoPayload.

Definition busErrorOrValidation (err : ApiError) : ApiError :=
  match err with BusE e => BusE e | PlainE text => BusE (NewValidationJSONError text) end.

Definition writeBusError (err : ApiError) : Response :=
  match err with
  | BusE be =>
      let retry := 0 <? Error.RetryAfter be in
      mkResponse (Error.Status be)
        ((if retry then [("Retry-After"%stdpp, FormatInt (Error.RetryAfter be))] else []) ++ json_headers)
        (PError (Error.Code be) (Error.Message be) (Error.Transient be)
           (if retry then Some (Error.RetryAfter be) else None))
  | PlainE text => writeJSON 500 (PError CodeInternal text true None)
  end.

(** A [bus.Error] literal. *)
Definition bus_error (code : ErrorCode) (message : string) (status : Z) : ApiError :=
  BusE (Error.mk code message false 0 status).

Definition forbiddenError (message : string) : ApiError := bus_error CodeUnauthorized message 403.

(** ** Query values *)

Definition parseInt (value : string) (def : Z) : Z :=
  if is_empty (TrimSpace value) then def
  else match Atoi value with Ok v => v | Err _ => def end.

Definition parseWaitSeconds (value : string) : Duration :=
  if is_empty (TrimSpace value) then 0
  else match Atoi value with
       | Ok v => let v := if v <? 0 then 0 else v in seconds v
       | Err _ => 0
       end.

Definition parseObserveCursor (r : Request) : Z :=
  let cursor := TrimSpace (query r "cursor"%stdpp) in
  let cursor := if is_empty cursor then TrimSpace (header r "Last-Event-ID"%stdpp) else cursor in
  if is_empty cursor then 0
  else match ParseInt cursor with
       | Ok v => if v <? 0 then 0 else v
       | Err _ => 0
       end.

Definition defaultMaxBodyBytes : Z := Z.shiftl 2 20.

Definition NumError_string (e : NumError) : string :=
  match e with ErrSyntax => "invalid syntax" | ErrRange => "value out of range" end%stdpp.

Definition parseMaxBodyBytes (Quote : string → string) (raw : string) : result string Z :=
  let raw := TrimSpace raw in
  if is_empty raw then Ok defaultMaxBodyBytes
  else match ParseInt raw with
       | Err e => Err ("invalid MAX_BODY_BYTES "%stdpp +:+ Quote raw +:+ ": strconv.ParseInt: parsing "%stdpp
                       +:+ Quote raw +:+ ": "%stdpp +:+ NumError_string e)
       | Ok v => Ok (if v <? 0 then 0 else v)
       end.

(** ** Tokens *)

Definition bearerToken (r : Request) : string :=
  let auth := TrimSpace (header r "Authorization"%stdpp) in
  if is_empty auth then ε else
  let '(scheme, token, ok) := Cut auth " "%char in
  if negb ok || negb (EqualFold (TrimSpace scheme) "Bearer"%stdpp) then ε else TrimSpace token.

Definition tokenAllowed (allowset : gset string) (token : string) : bool :=
  let token := TrimSpace token in
  if bool_decide (allowset = ∅) || is_empty token then false
  else existsb (λ allowed, bool_decide (token = allowed)) (elements allowset).

(** ** Allowlists *)

(** The lines a [bufio.Scanner] yields from a file with [content]. *)
Definition scan_lines (content : string) : list string :=
  let lines := Split content (ascii_of_N 10) in
  match last lines with
  | Some l => if is_empty l then take (length lines - 1) lines else lines
  | None => lines
  end.

(** The scanner's buffer holds a mebibyte. *)
Definition max_line : Z := 1024 * 1024.

Definition allowlist_line (line : string) : option string :=
  let line := TrimSpace line in
  if is_empty line || HasPrefix line "#"%stdpp then None else Some line.

(** [file] is what opening and reading the file yields. *)
Definition loadAllowlistFile (file : result string string) : result string (gset string) :=
  match file with
  | Err err => Err err
  | Ok content =>
      let lines := scan_lines content in
      if existsb (λ l, max_line <=? len l) lines then Err "bufio.Scanner: token too long"%stdpp
      else Ok (list_to_set (omap allowlist_line lines))
  end.

Definition diffAllowsetKeys (oldSet newSet : gset string) : list string :=
  merge_sort String.le (List.filter (λ id, negb (bool_decide (id ∈ oldSet))) (elements newSet)).

(** ** The server *)

Record Options := mkOptions {
  injectTokens : gset string; observeTokens : gset string; maxBodyBytes : Z }.

Record Server (Σ : Type) := mkServer {
  store : Σ;
  agentSecrets : gmap string string;
  agentAllowset : gset string }.
Arguments mkServer {Σ}.
Arguments store {Σ}.
Arguments agentSecrets {Σ}.
Arguments agentAllowset {Σ}.

Section server.
Context {Σ : Type} (O : Options).

Definition set_store (s : Σ) (srv : Server Σ) : Server Σ :=
  mkServer s (agentSecrets srv) (agentAllowset srv).

Definition swapAgentAllowset (next : gset string) (srv : Server Σ)
    : Server Σ * (list string * list string * Z) :=
  let added := diffAllowsetKeys (agentAllowset srv) next in
  let removed := diffAllowsetKeys next (agentAllowset srv) in
  (mkServer (store srv) (agentSecrets srv) next, (added, removed, Z.of_nat (size next))).

(** A file that cannot be read leaves the list as it is. *)
Definition reloadAllowlistFile (file : result string string) (srv : Server Σ)
    : Server Σ * option string :=
  match loadAllowlistFile file with
  | Err err => (srv, Some err)
  | Ok next => ((swapAgentAllowset next srv).1, None)
  end.

Definition isAgentAllowed (srv : Server Σ) (agentID : string) : bool :=
  bool_decide (agentAllowset srv = ∅) || bool_decide (agentID ∈ agentAllowset srv).

(** ** Bodies *)

(** [MaxBytesReader] fails on the first byte beyond the limit; an error of the
    connection within it comes first. *)
Definition readBody (r : Request) : result ApiError string :=
  match body r with
  | None => Ok "{}"%stdpp
  | Some b =>
      if (0 <? maxBodyBytes O) && (maxBodyBytes O <? len (content b)) then
        Err (bus_error CodePayloadTooLarge
               ("request body exceeds "%stdpp +:+ FormatInt (maxBodyBytes O) +:+ " bytes"%stdpp) 413)
      else match read_error b with
           | Some err => Err (PlainE err)
           | None => Ok (if is_empty (content b) then "{}"%stdpp else content b)
           end
  end.

(** ** Signatures *)

(** The signature without its optional prefix. *)
Definition strip_sha256 (sig : string) : string :=
  if HasPrefix (ToLower sig) "sha256="%stdpp then of_bytes (drop 7 (bytes sig)) else sig.

Definition unauthorized (message : string) : ApiError := bus_error CodeUnauthorized message 401.

Definition verifySignature (srv : Server Σ) (agentID signature payload : string) : option ApiError :=
  let agentID := TrimSpace agentID in
  if is_empty agentID then Some (unauthorized "agent id required"%stdpp) else
  match agentSecrets srv !! agentID with
  | None => Some (unauthorized "agent secret not registered"%stdpp)
  | Some secret =>
      if is_empty (TrimSpace secret) then Some (unauthorized "agent secret not registered"%stdpp)
      else if is_empty (TrimSpace signature) then
        Some (unauthorized "X-Bus-Signature required"%stdpp)
      else
      match DecodeString (ToLower (strip_sha256 (TrimSpace signature))) with
      | None => Some (unauthorized "invalid signature encoding"%stdpp)
      | Some provided =>
          if bool_decide (hmac_sha256 secret payload = provided) then None
          else Some (unauthorized "invalid signature"%stdpp)
      end
  end.

Definition currentAgentSecret (srv : Server Σ) (agentID : string) : option string :=
  agentSecrets srv !! TrimSpace agentID.

Definition verifyReregistrationProof (srv : Server Σ) (agentID offeredSecret payload signature : string)
    : option ApiError :=
  match currentAgentSecret srv agentID with
  | None => None
  | Some currentSecret =>
      if is_empty (TrimSpace currentSecret) || bool_decide (currentSecret = offeredSecret) then None
      else match verifySignature srv agentID signature payload with
           | Some _ => Some (bus_error CodeRejected
                               "re-registration requires proof of current secret"%stdpp 409)
           | None => None
           end
  end.

(** ** Who is asking *)

Definition validInjectToken (r : Request) : bool := tokenAllowed (injectTokens O) (bearerToken r).

Definition validObserveToken (r : Request) : bool :=
  tokenAllowed (observeTokens O) (bearerToken r)
  || tokenAllowed (observeTokens O) (query r "token"%stdpp).

Record scopedAuth := mkScopedAuth { auth_AgentID : string; Global : bool }.

(** Both check a token and else a signature over [payload]. *)
Definition verify_scoped (token : bool) (required : string) (payload : string) (srv : Server Σ)
    (r : Request) : result ApiError scopedAuth :=
  if token then Ok (mkScopedAuth ε true) else
  let agentID := TrimSpace (header r "X-Agent-ID"%stdpp) in
  let signature := TrimSpace (header r "X-Bus-Signature"%stdpp) in
  if is_empty agentID && is_empty signature then Err (forbiddenError required)
  else match verifySignature srv agentID signature payload with
       | Some e => Err e
       | None => Ok (mkScopedAuth agentID false)
       end.

Definition verifyObserveAuth (srv : Server Σ) (r : Request) : result ApiError scopedAuth :=
  verify_scoped (validObserveToken r) "observe auth required"%stdpp (RawQuery r) srv r.

Definition verifyConversationCreateAuth (srv : Server Σ) (r : Request) (payload : string)
    : result ApiError scopedAuth :=
  verify_scoped (validInjectToken r) "conversation create auth required"%stdpp payload srv r.

(** The actor of an authenticated request; a token acts for no agent. *)
Definition actor (auth : scopedAuth) : string :=
  if negb (Global auth) then auth_AgentID auth else ε.

(** ** Secrets *)

Context `{API Σ}.

Definition setAgentSecret (agentID secret : string) (srv : Server Σ) : Server Σ * option ApiError :=
  let agentID := TrimSpace agentID in
  if is_empty agentID || is_empty (TrimSpace secret) then (srv, None) else
  let '(s, err) := match API_secrets with
                   | Some ss => SetAgentSecret ss agentID secret (store srv)
                   | None => (store srv, None)
                   end in
  match err with
  | Some text => (set_store s srv, Some (PlainE ("persist agent secret: "%stdpp +:+ text)))
  | None => (mkServer s (<[agentID := secret]> (agentSecrets srv)) (agentAllowset srv), None)
  end.

(** The secrets are ranged over in [order]. *)
Definition load_secret (secrets acc : gmap string string) (k : string) : gmap string string :=
  match secrets !! k with
  | Some secret =>
      let agentID := TrimSpace k in
      if negb (is_empty agentID) && negb (is_empty (TrimSpace secret))
      then <[agentID := secret]> acc else acc
  | None => acc
  end.

Definition loadPersistedAgentSecrets (order : gmap string string → list string) (srv : Server Σ)
    : result string (Server Σ) :=
  match API_secrets with
  | None => Ok srv
  | Some ss =>
      match AgentSecrets ss (store srv) with
      | Err err => Err ("load agent secrets: "%stdpp +:+ err)
      | Ok secrets =>
          Ok (mkServer (store srv)
                (foldl (load_secret secrets) (agentSecrets srv) (order secrets)) (agentAllowset srv))
      end
  end.

(** ** Construction *)

End server.

(** [getenv] is the environment, [read_file] opens and reads a file. *)
Definition NewServerFromEnv {Σ} `{API Σ} (Quote : string → string) (getenv : string → string)
    (read_file : string → result string string) (order : gmap string string → list string) (s : Σ)
    : result string (Options * Server Σ) :=
  let allowlistFile := TrimSpace (getenv "ALLOWLIST_FILE"%stdpp) in
  let allowset :=
    if is_empty allowlistFile then Ok (parseAllowlistEnv (getenv "AGENT_ALLOWLIST"%stdpp))
    else match loadAllowlistFile (read_file allowlistFile) with
         | Ok set => Ok set
         | Err err => Err ("load allowlist file "%stdpp +:+ allowlistFile +:+ ": "%stdpp +:+ err)
         end in
  match allowset with
  | Err err => Err err
  | Ok allowset =>
      match parseMaxBodyBytes Quote (getenv "MAX_BODY_BYTES"%stdpp) with
      | Err err => Err err
      | Ok max =>
          let O := mkOptions (parseTokenEnv (getenv "INJECT_TOKENS"%stdpp))
                     (parseTokenEnv (getenv "OBSERVE_TOKENS"%stdpp)) max in
          match loadPersistedAgentSecrets order (mkServer s ∅ allowset) with
          | Err err => Err err
          | Ok srv => Ok (O, srv)
          end
      end
  end.

(** ** Routing: the [http.ServeMux] behind the server

    The server registers its patterns with the multiplexer of Go's [net/http]
    and serves every request through it.  This is the part of the multiplexer
    that is in use: no pattern names a host, a method or a wildcard, and only
    the one that ends in a slash matches more than one path.  Matching is on the
    segments of the escaped path, each unescaped; a path that is not clean is
    redirected before any handler sees it.  Requests are HTTP/1.1. *)
Definition slash : ascii := "/"%char.

(** *** Paths: [path.Clean], which [path/filepath] shares on Unix *)

(** The elements of a path, cleaned: [stack] holds those before, the last first. *)
Fixpoint clean_elements (rooted : bool) (stack elements : list string) : list string :=
  match elements with
  | [] => reverse stack
  | e :: elements =>
      if is_empty e || bool_decide (e = "."%stdpp) then clean_elements rooted stack elements
      else if bool_decide (e = ".."%stdpp) then
        match stack with
        | top :: below =>
            if bool_decide (top = ".."%stdpp) then clean_elements rooted (e :: stack) elements
            else clean_elements rooted below elements
        | [] => clean_elements rooted (if rooted then [] else [e]) elements
        end
      else clean_elements rooted (e :: stack) elements
  end.

Definition Clean (path : string) : string :=
  let rooted := HasPrefix path "/"%stdpp in
  let cleaned := join "/"%stdpp (clean_elements rooted [] (Split path slash)) in
  if rooted then "/"%stdpp +:+ cleaned else if is_empty cleaned then "."%stdpp else cleaned.

(** Cleaned with a trailing slash kept. *)
Definition clean_keeping_slash (path : string) : string :=
  let np := Clean path in
  if HasSuffix path "/"%stdpp && negb (HasSuffix np "/"%stdpp) then np +:+ "/"%stdpp else np.

Definition cleanPath (path : string) : string :=
  clean_keeping_slash (if HasPrefix path "/"%stdpp then path else "/"%stdpp +:+ path).

(** *** Matching *)

(** The segments of a path after its first byte, each unescaped where it can be. *)
Definition segments (path : string) : list string :=
  match bytes path with
  | [] => []
  | _ :: rest => (λ s, default s (PathUnescape s)) <$> Split (of_bytes rest) slash
  end.

(** A pattern that ends in a slash matches every path below it. *)
Definition pattern_matches (pattern path : string) : bool :=
  if HasSuffix pattern "/"%stdpp then
    let prefix := segments (TrimSuffix pattern "/"%stdpp) in
    bool_decide (prefix `prefix_of` segments path) && (length prefix <? length (segments path))%nat
  else bool_decide (segments path = segments pattern).

(** *** Redirection *)

(** [escape(path, encodePath)] of [net/url]. *)
Definition escape_path_byte (c : ascii) : list ascii :=
  if unreserved c || bool_decide (c ∈ ["$"; "&"; "+"; ","; "/"; ":"; ";"; "="; "@"]%char) then [c]
  else ["%"%char; upper_hex (byte c / 16); upper_hex (byte c mod 16)].

Definition escape_path (s : string) : string := of_bytes (bytes s ≫= escape_path_byte).

(** [(&url.URL{Path: path, RawQuery: rawQuery}).String()] of a rooted path. *)
Definition url_String (path rawQuery : string) : string :=
  escape_path path +:+ (if is_empty rawQuery then ε else "?"%stdpp +:+ rawQuery).

Definition hexEscapeNonASCII (s : string) : string :=
  of_bytes (bytes s ≫= λ c,
    if byte c <? 128 then [c] else ["%"%char; hex_digit (byte c / 16); hex_digit (byte c mod 16)]).

Definition quote : ascii := ascii_of_N 34.

Definition html_escape_byte (c : ascii) : list ascii :=
  if bool_decide (c = "&"%char) then bytes "&amp;"%stdpp
  else if bool_decide (c = "<"%char) then bytes "&lt;"%stdpp
  else if bool_decide (c = ">"%char) then bytes "&gt;"%stdpp
  else if bool_decide (c = quote) then bytes "&#34;"%stdpp
  else if bool_decide (c = "'"%char) then bytes "&#39;"%stdpp
  else [c].

Definition htmlEscape (s : string) : string := of_bytes (bytes s ≫= html_escape_byte).

Definition line_feed : string := String "010"%char ε.

(** [http.Redirect] to a rooted path of this server; the body goes to a GET only. *)
Definition Redirect (m : Method) (url : string) (code : Z) (statusText : string) : Response :=
  let '(path, query, found) := Cut url "?"%char in
  let url := clean_keeping_slash path +:+ (if found then "?"%stdpp +:+ query else ε) in
  let html := [("Content-Type", "text/html; charset=utf-8")]%stdpp in
  mkResponse code
    (("Location"%stdpp, hexEscapeNonASCII url)
       :: (if bool_decide (m = GET) || bool_decide (m = HEAD) then html else []))
    (if bool_decide (m = GET) then
       PText ("<a href="%stdpp +:+ String quote ε +:+ htmlEscape url +:+ String quote ε
              +:+ ">"%stdpp +:+ statusText +:+ "</a>."%stdpp +:+ line_feed +:+ line_feed)
     else NoPayload).

(** [http.NotFound] *)
Definition NotFound : Response :=
  mkResponse 404 [("Content-Type", "text/plain; charset=utf-8"); ("X-Content-Type-Options", "nosniff")]%stdpp
    (PText ("404 page not found"%stdpp +:+ line_feed)).

(** The answer to a request target [*]. *)
Definition BadTarget : Response := mkResponse 400 [("Connection", "close")]%stdpp NoPayload.

(** *** The multiplexer *)

(** The pattern a request is served under, or the multiplexer's own answer. *)
Definition findHandler (patterns : list string) (r : Request) : Response + string :=
  if bool_decide (EscapedPath r = "*"%stdpp) then inl BadTarget else
  let connect := bool_decide (method r = CONNECT) in
  let path := if connect then EscapedPath r else cleanPath (EscapedPath r) in
  if negb connect && negb (bool_decide (path = EscapedPath r)) then
    inl (Redirect (method r) (url_String path (RawQuery r)) 301 "Moved Permanently"%stdpp)
  else match List.find (λ p, pattern_matches p path) patterns with
       | Some pattern => inr pattern
       | None => inl NotFound
       end.

(** The multiplexer's own answers, and when it gives them. *)
Lemma findHandler_own patterns r resp :
  findHandler patterns r = inl resp →
  resp = BadTarget ∧ EscapedPath r = "*"%stdpp ∨
  resp = NotFound ∧ (∀ p, p ∈ patterns → pattern_matches p (EscapedPath r) = false) ∧
    (method r = CONNECT ∨ cleanPath (EscapedPath r) = EscapedPath r) ∨
  resp = Redirect (method r) (url_String (cleanPath (EscapedPath r)) (RawQuery r)) 301
           "Moved Permanently"%stdpp ∧ method r ≠ CONNECT ∧ cleanPath (EscapedPath r) ≠ EscapedPath r.
Proof.
  unfold findHandler. case_bool_decide as Hs; [intros [= <-]; by left|]. cbv zeta.
  assert (∀ path, match List.find (λ p, pattern_matches p path) patterns with
    | Some pattern => inr pattern | None => inl NotFound end = inl resp →
    resp = NotFound ∧ ∀ p, p ∈ patterns → pattern_matches p path = false) as Hfind.
  { intros path. destruct (List.find _ _) as [q|] eqn:Hf; [done|]. intros [= <-]. split; [done|].
    intros p Hp. apply (List.find_none _ _ Hf). by apply list_elem_of_In. }
  case_bool_decide as Hc; cbn [negb andb].
  { intros [? ?]%Hfind. right. left. split_and!; auto. }
  case_bool_decide as Hp; cbn [negb].
  - rewrite Hp. intros [? ?]%Hfind. right. left. split_and!; auto.
  - intros [= <-]. right. by right.
Qed.

Lemma findHandler_pattern patterns r p :
  findHandler patterns r = inr p → p ∈ patterns ∧ pattern_matches p (EscapedPath r) = true.
Proof.
  unfold findHandler. case_bool_decide; [done|]. cbv zeta.
  assert (∀ path, match List.find (λ p, pattern_matches p path) patterns with
    | Some pattern => inr pattern | None => inl NotFound end = inr p →
    p ∈ patterns ∧ pattern_matches p path = true) as Hfind.
  { intros path. destruct (List.find _ _) as [q|] eqn:Hf; [|done]. intros [= ->].
    apply List.find_some in Hf as [Hin Hm]. split; [by apply list_elem_of_In|done]. }
  case_bool_decide; cbn [negb andb]; [apply Hfind|].
  case_bool_decide as Hp; cbn [negb]; [|done]. rewrite Hp. apply Hfind.
Qed.

(** A clean path that is registered is served under its pattern. *)
Lemma findHandler_clean patterns r path pattern :
  EscapedPath r = path → bool_decide (path = "*"%stdpp) = false → cleanPath path = path →
  List.find (λ p, pattern_matches p path) patterns = Some pattern →
  findHandler patterns r = inr pattern.
Proof.
  intros Hp Hs Hc Hf. unfold findHandler. rewrite Hp, Hs, Hc. cbv zeta.
  destruct (bool_decide (method r = CONNECT)); cbn [negb andb]; [by rewrite Hf|].
  rewrite bool_decide_eq_true_2 by done. cbn [negb]. by rewrite Hf.
Qed.

(** An escaped letter is still the letter; an escaped slash is not a separator;
    a path below a registered one that does not end in a slash is not its. *)
Example pattern_matches_ex :
  pattern_matches "/v1/acks" "/v1/%61cks" = true ∧ pattern_matches "/v1/acks" "/v1%2Facks" = false ∧
  pattern_matches "/v1/acks" "/v1/acks/" = false ∧
  pattern_matches "/v1/conversations/" "/v1/conversations/c-1/messages" = true ∧
  pattern_matches "/v1/conversations/" "/v1/conversations/" = true ∧
  pattern_matches "/v1/conversations/" "/v1/conversations" = false.
Proof. vm_compute. done. Qed.

Example cleanPath_ex :
  cleanPath "//v1/./inbox/../acks" = "/v1/acks"%stdpp ∧ cleanPath "/v1/conversations//x/"  = "/v1/conversations/x/"%stdpp ∧
  cleanPath ε = "/"%stdpp ∧ cleanPath "/.." = "/"%stdpp ∧ cleanPath "/v1/acks" = "/v1/acks"%stdpp.
Proof. vm_compute. done. Qed.

Example redirect_ex :
  findHandler ["/v1/inbox"]%stdpp (mkRequest POST "/v1//inbox"%stdpp "a=b"%stdpp (λ _, ε) None true) =
  inl (mkResponse 301 [("Location", "/v1/inbox?a=b")]%stdpp NoPayload).
Proof. vm_compute. done. Qed.
