(* ===== verification/Handlers.v ===== *)
(** * The HTTP handlers: [pkg/httpapi/server.go]

    One definition per handler, from the server and a request to the server
    and a response.  [ServeHTTP] routes through the multiplexer ([Http.findHandler]) by the
    patterns [NewServerFromEnv] registers.

    The event stream of [handleObserve] never ends by itself: it runs for a
    list of turns, each of which says what the rest of the program does to the
    store before the handler looks again; the list ends when the client goes
    away.  [MarshalData] is [json.Marshal] of an event's data. *)
From stdpp Require Import gmap strings list.
From Stdlib Require Import ZArith Lia Ascii.
From S2P Require Import Prelude GoBase Json Types Text Configutil Http.

(** [if err != nil { writeBusError(w, err); return }] *)
Notation "'try' x ':=' r 'on' srv 'in' k" :=
  (match r with Err e => (srv, writeBusError e) | Ok x => k end)
  (at level 200, x binder, right associativity).

Definition EventType_name (t : EventType) : string :=
  match t with
  | ObserveMessage => "message" | ObserveAck => "ack" | ObserveProgress => "progress"
  | ObserveStateChange => "state_change" | ObserveAgentRegistered => "agent_registered"
  | ObserveAgentExpired => "agent_expired" | ObserveHumanInjection => "human_injection"
  end%stdpp.

Definition err_or {E A} (a : A) (e : option E) : result E A :=
  match e with Some e => Err e | None => Ok a end.

(** The error of a decoder. *)
Definition decoded {A} (r : result string A) : result ApiError A :=
  match r with Err err => Err (BusE (NewValidationJSONError err)) | Ok a => Ok a end.

(** The error of [readBody] as the handlers report it. *)
Definition body_of (O : Options) (r : Request) : result ApiError string :=
  match readBody O r with Err err => Err (busErrorOrValidation err) | Ok blob => Ok blob end.

Section handlers.
Context {Σ : Type} `{Impl : API Σ} `{D : Decoder} (O : Options) (MarshalData : json → option string).

(** The bare statuses handlers write. *)
Definition method_not_allowed : Response := writeHeader 405.
Definition not_found : Response := writeHeader 404.

(** ** Registration *)

Definition with_trimmed_id (req : RegisterAgentInput.t) : RegisterAgentInput.t :=
  RegisterAgentInput.mk (TrimSpace (RegisterAgentInput.AgentID req))
    (RegisterAgentInput.Secret req) (RegisterAgentInput.AllowedScopes req)
    (RegisterAgentInput.SharedGrants req) (RegisterAgentInput.Capabilities req)
    (RegisterAgentInput.Version req) (RegisterAgentInput.Description req)
    (RegisterAgentInput.AgentClass req) (RegisterAgentInput.MutationClass req)
    (RegisterAgentInput.Build req) (RegisterAgentInput.Meta req) (RegisterAgentInput.Mode req)
    (RegisterAgentInput.CallbackURL req) (RegisterAgentInput.TTLSeconds req).

(** Up to the call of the store: the request, or the refusal. *)
Definition register_check (r : Request) (srv : Server Σ) : result ApiError RegisterAgentInput.t :=
  match body_of O r with
  | Err e => Err e
  | Ok blob =>
      match decoded (decode_register blob) with
      | Err e => Err e
      | Ok req =>
          let req := with_trimmed_id req in
          let id := RegisterAgentInput.AgentID req in
          let secret := RegisterAgentInput.Secret req in
          if negb (isAgentAllowed srv id) then Err (unauthorized "agent_id not allowlisted"%stdpp)
          else if is_empty (TrimSpace secret) then
            Err (bus_error CodeValidation "secret is required"%stdpp 400)
          else match verifyReregistrationProof srv id secret blob (header r "X-Bus-Signature"%stdpp) with
               | Some e => Err e
               | None => Ok req
               end
      end
  end.

(** From the call of the store on. *)
Definition register_apply (req : RegisterAgentInput.t) (srv : Server Σ) : Server Σ * Response :=
  let '(s, res) := API_RegisterAgent req (store srv) in
  let srv := set_store s srv in
  try agent := res on srv in
  let '(srv, err) := setAgentSecret (Agent.AgentID agent) (RegisterAgentInput.Secret req) srv in
  try _ := err_or () err on srv in
  (srv, writeJSON 200 (PRegistered (Agent.AgentID agent) (Agent.ExpiresAt agent))).

Definition handleRegisterAgent (r : Request) (srv : Server Σ) : Server Σ * Response :=
  if negb (bool_decide (method r = POST)) then (srv, method_not_allowed) else
  try req := register_check r srv on srv in
  register_apply req srv.

Definition handleListAgents (r : Request) (srv : Server Σ) : Server Σ * Response :=
  if negb (bool_decide (method r = GET)) then (srv, method_not_allowed) else
  let '(s, agents) := API_ListAgents (TrimSpace (query r "capability"%stdpp)) (store srv) in
  (set_store s srv, writeJSON 200 (PAgents agents)).

(** ** Conversations *)

Definition handleConversationCreate (r : Request) (srv : Server Σ) : Server Σ * Response :=
  try blob := body_of O r on srv in
  try auth := verifyConversationCreateAuth O srv r blob on srv in
  try req := decoded (decode_conversation blob) on srv in
  let input := CreateConversationInput.mk (ConversationRequest.ConversationID req)
    (ConversationRequest.Title req) (ConversationRequest.Participants req)
    (ConversationRequest.Meta req) (actor auth) in
  let '(s, res) := API_CreateConversation input (store srv) in
  let srv := set_store s srv in
  try c := res on srv in
  (srv, writeJSON 200 (PConversationID (Conversation.ConversationID c))).

Definition handleConversationList (r : Request) (srv : Server Σ) : Server Σ * Response :=
  try auth := verifyObserveAuth O srv r on srv in
  let filter := ListConversationsFilter.mk (TrimSpace (query r "participant"%stdpp))
    (TrimSpace (query r "status"%stdpp)) (actor auth) in
  let '(s, conversations) := API_ListConversations filter (store srv) in
  (set_store s srv, writeJSON 200 (PConversations conversations)).

Definition handleConversations (r : Request) (srv : Server Σ) : Server Σ * Response :=
  match method r with
  | POST => handleConversationCreate r srv
  | GET => handleConversationList r srv
  | HEAD | CONNECT | OtherMethod => (srv, method_not_allowed)
  end.

(** The conversation a path names, if any. *)
Definition path_conversation (path : string) : option string :=
  let path := TrimPrefix path "/v1/conversations/"%stdpp in
  if negb (HasSuffix path "/messages"%stdpp) then None
  else
    let id := TrimSuffix (TrimSuffix path "/messages"%stdpp) "/"%stdpp in
    if is_empty id then None else Some id.

Definition handleConversationMessages (r : Request) (srv : Server Σ) : Server Σ * Response :=
  if negb (bool_decide (method r = GET)) then (srv, method_not_allowed) else
  match path_conversation (Path r) with
  | None => (srv, not_found)
  | Some conversationID =>
      try auth := verifyObserveAuth O srv r on srv in
      let cursor := parseInt (query r "cursor"%stdpp) 0 in
      let limit := parseInt (query r "limit"%stdpp) 50 in
      let input := ListConversationMessagesInput.mk conversationID cursor limit (actor auth) in
      let '(s, res) := API_ListConversationMessages input (store srv) in
      let srv := set_store s srv in
      match res with
      | Err e => (srv, writeBusError e)
      | Ok (cid, messages, next) =>
          (srv, writeJSON 200 (PMessages cid messages (FormatInt next)))
      end
  end.

(** ** Messaging *)

Definition handleMessages (r : Request) (srv : Server Σ) : Server Σ * Response :=
  if negb (bool_decide (method r = POST)) then (srv, method_not_allowed) else
  try blob := body_of O r on srv in
  try req := decoded (decode_message blob) on srv in
  try _ := err_or () (verifySignature srv (SendMessageInput.From req)
                        (header r "X-Bus-Signature"%stdpp) blob) on srv in
  let '(s, res) := API_SendMessage req (store srv) in
  let srv := set_store s srv in
  match res with
  | Err e => (srv, writeBusError e)
  | Ok (message, duplicate) => (srv, writeJSON 200 (PSent (Message.MessageID message) duplicate))
  end.

Definition handleInbox (r : Request) (srv : Server Σ) : Server Σ * Response :=
  if negb (bool_decide (method r = GET)) then (srv, method_not_allowed) else
  let agentID := TrimSpace (query r "agent_id"%stdpp) in
  try _ := err_or () (verifySignature srv agentID (header r "X-Bus-Signature"%stdpp) (RawQuery r))
    on srv in
  let cursor := parseInt (query r "cursor"%stdpp) 0 in
  let wait := parseWaitSeconds (query r "wait"%stdpp) in
  let limit := parseInt (query r "limit"%stdpp) 0 in
  let '(s, res) := API_PollInbox (PollInboxInput.mk agentID cursor wait limit) (store srv) in
  let srv := set_store s srv in
  match res with
  | Err e => (srv, writeBusError e)
  | Ok (events, next) => (srv, writeJSON 200 (PInbox events (FormatInt next)))
  end.

Definition handleAcks (r : Request) (srv : Server Σ) : Server Σ * Response :=
  if negb (bool_decide (method r = POST)) then (srv, method_not_allowed) else
  try blob := body_of O r on srv in
  try req := decoded (decode_ack blob) on srv in
  try _ := err_or () (verifySignature srv (AckInput.AgentID req)
                        (header r "X-Bus-Signature"%stdpp) blob) on srv in
  let '(s, err) := API_Ack req (store srv) in
  let srv := set_store s srv in
  try _ := err_or () err on srv in
  (srv, writeJSON 200 POk).

Definition handleEvents (r : Request) (srv : Server Σ) : Server Σ * Response :=
  if negb (bool_decide (method r = POST)) then (srv, method_not_allowed) else
  try blob := body_of O r on srv in
  try req := decoded (decode_event blob) on srv in
  let agent := TrimSpace (header r "X-Agent-ID"%stdpp) in
  try _ := err_or () (verifySignature srv agent (header r "X-Bus-Signature"%stdpp) blob) on srv in
  let input := EventInput.mk agent (EventRequest.MessageID req) (EventRequest.Typ req)
    (EventRequest.Body req) (EventRequest.Meta req) in
  let '(s, err) := API_PostEvent input (store srv) in
  let srv := set_store s srv in
  try _ := err_or () err on srv in
  (srv, writeJSON 200 POk).

Definition handleInject (r : Request) (srv : Server Σ) : Server Σ * Response :=
  if negb (bool_decide (method r = POST)) then (srv, method_not_allowed) else
  if negb (validInjectToken O r) then
    (srv, writeBusError (forbiddenError "inject token required"%stdpp)) else
  try blob := body_of O r on srv in
  try req := decoded (decode_inject blob) on srv in
  let '(s, res) := API_Inject req (store srv) in
  let srv := set_store s srv in
  try message := res on srv in
  (srv, writeJSON 200 (PInjected (Message.MessageID message))).

(** ** The event stream *)

Definition newline : string := String "010"%char ε.

Definition keep_alive : string := ": keep-alive"%stdpp +:+ newline +:+ newline.

(** An event whose data does not marshal is skipped. *)
Definition frame (evt : ObserveEvent.t) : option string :=
  match MarshalData (ObserveEvent.Data evt) with
  | None => None
  | Some blob =>
      Some ("id: "%stdpp +:+ FormatInt (ObserveEvent.ID evt) +:+ newline
            +:+ "event: "%stdpp +:+ EventType_name (ObserveEvent.Typ evt) +:+ newline
            +:+ "data: "%stdpp +:+ blob +:+ newline +:+ newline)
  end.

(** The frames written until the turns run out. *)
Fixpoint observe_loop (turns : list (Σ → Σ)) (filter : ObserveFilter.t) (cursor : Z) (s : Σ)
    : Σ * list string :=
  match turns with
  | [] => (s, [])
  | turn :: turns =>
      let '(s, (events, last)) := API_ObserveSince cursor filter Second (turn s) in
      if (length events =? 0)%nat then
        let '(s, frames) := observe_loop turns filter cursor s in (s, keep_alive :: frames)
      else
        let '(s, frames) := observe_loop turns filter last s in (s, omap frame events ++ frames)
  end.

Definition stream_headers (s : Σ) : list (string * string) :=
  [("Content-Type", "text/event-stream"); ("Cache-Control", "no-cache");
   ("Connection", "keep-alive")]%stdpp
  ++ match API_ObserveEpoch with
     | Some epoch => [("X-Pinakes-Observe-Epoch"%stdpp, epoch s)]
     | None => []
     end.

Definition handleObserve (turns : list (Σ → Σ)) (r : Request) (srv : Server Σ)
    : Server Σ * Response :=
  if negb (bool_decide (method r = GET)) then (srv, method_not_allowed) else
  try auth := verifyObserveAuth O srv r on srv in
  if negb (flushes r) then
    (srv, writeBusError (BusE (NewInternalError "streaming unsupported"%stdpp))) else
  let cursor := parseObserveCursor r in
  let filter := ObserveFilter.mk (TrimSpace (query r "conversation_id"%stdpp))
    (TrimSpace (query r "agent_id"%stdpp)) (actor auth) in
  let headers := stream_headers (store srv) in
  let '(s, frames) := observe_loop turns filter cursor (store srv) in
  (set_store s srv, mkResponse 200 headers (PStream frames)).

(** ** Health *)

Definition handleHealth (r : Request) (srv : Server Σ) : Server Σ * Response :=
  if negb (bool_decide (method r = GET)) then (srv, method_not_allowed) else
  let '(s, out) := API_Health (store srv) in (set_store s srv, writeJSON 200 (PMap out)).

Definition handleTopLevelHealth := handleHealth.

Definition handleMetrics (r : Request) (srv : Server Σ) : Server Σ * Response :=
  if negb (bool_decide (method r = GET)) then (srv, method_not_allowed) else
  let '(s, text) := API_Metrics (store srv) in
  (set_store s srv,
   mkResponse 200 [("Content-Type", "text/plain; version=0.0.4; charset=utf-8")]%stdpp (PText text)).

Definition handleSystemStatus (r : Request) (srv : Server Σ) : Server Σ * Response :=
  if negb (bool_decide (method r = GET)) then (srv, method_not_allowed) else
  let '(s, out) := API_SystemStatus (store srv) in (set_store s srv, writeJSON 200 (PMap out)).

(** ** Routing *)

Definition patterns : list string :=
  ["/v1/agents/register"; "/v1/agents"; "/v1/conversations"; "/v1/conversations/"; "/v1/messages";
   "/v1/inbox"; "/v1/acks"; "/v1/events"; "/v1/observe"; "/v1/inject"; "/health"; "/metrics";
   "/v1/health"; "/v1/system/status"]%stdpp.

(** The handler registered under a pattern. *)
Definition serve_pattern (turns : list (Σ → Σ)) (pattern : string) (r : Request) (srv : Server Σ)
    : Server Σ * Response :=
  let at_ (p : string) := bool_decide (pattern = p) in
  if at_ "/v1/agents/register"%stdpp then handleRegisterAgent r srv
  else if at_ "/v1/agents"%stdpp then handleListAgents r srv
  else if at_ "/v1/conversations"%stdpp then handleConversations r srv
  else if at_ "/v1/conversations/"%stdpp then handleConversationMessages r srv
  else if at_ "/v1/messages"%stdpp then handleMessages r srv
  else if at_ "/v1/inbox"%stdpp then handleInbox r srv
  else if at_ "/v1/acks"%stdpp then handleAcks r srv
  else if at_ "/v1/events"%stdpp then handleEvents r srv
  else if at_ "/v1/observe"%stdpp then handleObserve turns r srv
  else if at_ "/v1/inject"%stdpp then handleInject r srv
  else if at_ "/health"%stdpp then handleTopLevelHealth r srv
  else if at_ "/metrics"%stdpp then handleMetrics r srv
  else if at_ "/v1/health"%stdpp then handleHealth r srv
  else if at_ "/v1/system/status"%stdpp then handleSystemStatus r srv
  else (srv, NotFound).

Definition ServeHTTP (turns : list (Σ → Σ)) (r : Request) (srv : Server Σ) : Server Σ * Response :=
  match findHandler patterns r with
  | inl response => (srv, response)
  | inr pattern => serve_pattern turns pattern r srv
  end.

End handlers.
