(* ===== verification/HttpStore.v ===== *)
(** * The two stores behind the HTTP layer

    [Store] and [PersistentStore] implement [bus.API] ([pkg/bus/api.go]).  An
    operation also depends on the clock, on the order maps are ranged over and
    on what wakes a long poll: [Env] has them for one call, and [clock] gives
    the environment of the [n]-th call of a run. *)
From stdpp Require Import gmap strings list.
From Stdlib Require Import ZArith Lia Ascii.
From S2P Require Import Prelude GoBase Sha256 Utf8 Json Types Scope Config Auth Ring State Push Inbox Observe Structure Sweep Conversations Agents Send Poll Lifecycle Queries Persistent Http.

Record Env := mkEnv {
  e_now : Time;
  e_at_wait : Time;
  e_order : Order;
  e_agents : list string;
  e_conversations : list string;
  e_wakes : list Wake;
  e_faults : Faults }.

Definition e_reading (e : Env) : Reading := mkReading (e_now e) (e_at_wait e).

Definition lift_error {A} (r : result Error.t A) : result ApiError A :=
  match r with Err e => Err (BusE e) | Ok a => Ok a end.

Definition lift_persist {A} (r : result PersistError A) : result ApiError A :=
  match r with
  | Err (BusError e) => Err (BusE e)
  | Err (NotPersisted err) => Err (PlainE err)
  | Ok a => Ok a
  end.

Definition error_of {A} (r : result ApiError A) : option ApiError :=
  match r with Err e => Some e | Ok _ => None end.

(** Calls made so far, and the state. *)
Definition World (S : Type) : Type := nat * S.

Section stores.
Context (E : Static) (epoch : string).

(** ** The in-memory store *)

Section memory.
Context (clock : nat → Store → Env).

Definition tick {A} (f : Env → Store → Store * A) (w : World Store) : World Store * A :=
  let '(s, a) := f (clock w.1 w.2) w.2 in ((S w.1, s), a).

Definition m_RegisterAgent input := tick (λ e s,
  let '(s, r) := RegisterAgent E (e_order e) (e_now e) input s in (s, lift_error r)).
Definition m_ListAgents capability := tick (λ e s,
  ListAgents E (e_order e) (e_agents e) (e_now e) capability s).
Definition m_CreateConversation input := tick (λ e s,
  let '(s, r) := CreateConversation E (e_order e) (e_now e) input s in (s, lift_error r)).
Definition m_ListConversations filter := tick (λ e s,
  ListConversations E (e_order e) (e_conversations e) (e_now e) filter s).
Definition m_SendMessage input := tick (λ e s,
  let '(s, r, _) := SendMessage E (e_order e) (e_now e) input s in (s, lift_error r)).
Definition m_PollInbox input := tick (λ e s,
  let '(s, r) := PollInbox E (e_now e) (e_order e) (e_reading e) (e_wakes e) input s in
  (s, lift_error r)).
Definition m_Ack input := tick (λ e s,
  let '(s, r) := Ack E (e_order e) (e_now e) input s in (s, BusE <$> r)).
Definition m_PostEvent input := tick (λ e s,
  let '(s, r) := PostEvent E (e_order e) (e_now e) input s in (s, BusE <$> r)).
Definition m_Inject input := tick (λ e s,
  let '(s, r, _) := Inject E (e_order e) (e_now e) input s in (s, lift_error r)).
Definition m_ListConversationMessages input := tick (λ e s,
  let '(s, r) := ListConversationMessages E (e_order e) (e_now e) input s in (s, lift_error r)).
Definition m_ObserveSince after filter wait := tick (λ e s,
  ObserveSince E (e_now e) (e_order e) (e_reading e) (e_wakes e) after filter wait s).

Definition memory_API : API (World Store) := {|
  API_RegisterAgent := m_RegisterAgent;
  API_ListAgents := m_ListAgents;
  API_CreateConversation := m_CreateConversation;
  API_ListConversations := m_ListConversations;
  API_SendMessage := m_SendMessage;
  API_PollInbox := m_PollInbox;
  API_Ack := m_Ack;
  API_PostEvent := m_PostEvent;
  API_Inject := m_Inject;
  API_ListConversationMessages := m_ListConversationMessages;
  API_ObserveSince := m_ObserveSince;
  API_Health := tick (λ e, Health E (e_order e) (e_agents e) (e_now e));
  API_Metrics := tick (λ e, Metrics E (e_order e) (e_agents e) (e_now e));
  API_SystemStatus := tick (λ e, SystemStatus E (e_order e) (e_agents e) (e_now e));
  API_secrets := None;
  API_ObserveEpoch := Some (λ _, epoch) |}.

End memory.

(** ** The snapshot store *)

Section snapshot.
Context `{Codec} (path : string) (clock : nat → PersistentStore → Env).

(** The disk and the store. *)
Abbreviation State := (Disk * PersistentStore)%type.

Definition ptick {A} (f : Env → Disk → PersistentStore → Disk * PersistentStore * A)
    (w : World State) : World State * A :=
  let '(n, (d, p)) := w in
  let '(d, p, a) := f (clock n p) d p in ((S n, (d, p)), a).

(** An operation that does not write. *)
Definition pread {A} (f : Env → PersistentStore → PersistentStore * A) : World State → World State * A :=
  ptick (λ e d p, let '(p, a) := f e p in (d, p, a)).

Definition saving {A} (x : Disk * PersistentStore * result PersistError A)
    : Disk * PersistentStore * result ApiError A := (x.1, lift_persist x.2).

Definition snapshot_API : API (World State) := {|
  API_RegisterAgent input := ptick (λ e d p,
    saving (PRegisterAgent E path (e_faults e) (e_order e) (e_now e) input d p));
  API_ListAgents capability := pread (λ e p,
    PListAgents E (e_order e) (e_agents e) (e_now e) capability p);
  API_CreateConversation input := ptick (λ e d p,
    saving (PCreateConversation E path (e_faults e) (e_order e) (e_now e) input d p));
  API_ListConversations filter := pread (λ e p,
    PListConversations E (e_order e) (e_conversations e) (e_now e) filter p);
  API_SendMessage input := ptick (λ e d p,
    saving (PSendMessage E path (e_faults e) (e_order e) (e_now e) input d p));
  API_PollInbox input := ptick (λ e d p,
    let '(d, p, r) := PPollInbox E path (e_faults e) (e_now e) (e_order e) (e_reading e) (e_wakes e)
                        input d p in (d, p, lift_error r));
  API_Ack input := ptick (λ e d p,
    let '(d, p, r) := saving (PAck E path (e_faults e) (e_order e) (e_now e) input d p) in
    (d, p, error_of r));
  API_PostEvent input := ptick (λ e d p,
    let '(d, p, r) := saving (PPostEvent E path (e_faults e) (e_order e) (e_now e) input d p) in
    (d, p, error_of r));
  API_Inject input := ptick (λ e d p,
    saving (PInject E path (e_faults e) (e_order e) (e_now e) input d p));
  API_ListConversationMessages input := pread (λ e p,
    let '(p, r) := PListConversationMessages E (e_order e) (e_now e) input p in (p, lift_error r));
  API_ObserveSince after filter wait := pread (λ e p,
    PObserveSince E (e_now e) (e_order e) (e_reading e) (e_wakes e) after filter wait p);
  API_Health := pread (λ e p, PHealth E (e_order e) (e_agents e) (e_now e) p);
  API_Metrics := pread (λ e p, PMetrics E (e_order e) (e_agents e) (e_now e) p);
  API_SystemStatus := pread (λ e p, PSystemStatus E (e_order e) (e_agents e) (e_now e) p);
  API_secrets := Some (mkSecretStore (λ w, Ok (Persistent.AgentSecrets w.2.2))
    (λ agentID secret w,
      let '(err, d, p) := Persistent.SetAgentSecret path (e_faults (clock w.1 w.2.2)) agentID secret
                            w.2.1 w.2.2 in
      ((S w.1, (d, p)), err)));
  API_ObserveEpoch := Some (λ _, epoch) |}.

End snapshot.

(** ** Both register the identity they are asked to *)

Lemma RegisterAgent_requested o now input s s' a :
  RegisterAgent E o now input s = (s', Ok a) →
  Agent.AgentID a = TrimSpace (RegisterAgentInput.AgentID input).
Proof.
  unfold RegisterAgent. destruct (registration E now input) as [b|] eqn:Hr; [|done].
  assert (Agent.AgentID b = TrimSpace (RegisterAgentInput.AgentID input)) as Hid.
  { revert Hr. unfold registration. by repeat (case_match; try done); intros [= <-]. }
  cbv zeta. destruct (authorizeAgentForName _ _ _); [done|]. intros [= _ <-]. by case_match.
Qed.

#[export] Instance memory_registers clock : RegistersRequested (World Store) (H:=memory_API clock).
Proof.
  intros req s s' a. cbn. unfold m_RegisterAgent, tick.
  destruct (RegisterAgent _ _ _ _ _) as [s1 [b|]] eqn:Hr; [|done]. intros [= _ <-].
  by eapply RegisterAgent_requested.
Qed.

#[export] Instance snapshot_registers `{Codec} path clock :
  RegistersRequested (World (Disk * PersistentStore)) (H:=snapshot_API path clock).
Proof.
  intros req [n [d p]] s' a. cbn. unfold PRegisterAgent, saving, then_persist.
  destruct (RegisterAgent _ _ _ _ _) as [s1 [b|]] eqn:Hr; cbn; [|done].
  destruct (persist _ _ _ _) as [[[err|] d'] p']; cbn; [done|]. intros [= _ <-].
  by eapply RegisterAgent_requested.
Qed.

End stores.
