(* ===== verification/HttpSqlite.v ===== *)
(** * The SQLite store behind the HTTP layer

    [SQLiteStore] implements [bus.API] and the optional interfaces.  [SqlEnv] is
    what one call depends on beside its input and the store: the clock, the
    orders of maps and rows, what other calls do between its critical sections,
    the rounds of a long poll, and which calls of the engine fail. *)
From stdpp Require Import gmap strings list.
From Stdlib Require Import ZArith Lia Ascii.
From S2P Require Import Prelude GoBase Sha256 Utf8 Json Types Scope Config Auth Ring State Push Inbox Observe Structure Sweep Conversations Agents Send Poll Lifecycle Queries Sqlite Delivery SqliteStore Http HttpStore.

Record SqlEnv := mkSqlEnv {
  q_env : Env;
  q_committed : Time;
  q_mid : SQLiteStore → SQLiteStore;
  q_round : Round;
  q_rounds : list ((SQLiteStore → SQLiteStore) * Round);
  q_secrets : list string;
  q_faults : Sqlite.Faults }.

Section sqlite.
Context (E : Static) (epoch : string) (clock : nat → SQLiteStore → SqlEnv).

(** The text of an error of the engine. *)
Context (describe : DBError → string).

Definition lift_sql {A} (r : result SQLError A) : result ApiError A :=
  match r with
  | Err (BusError e) => Err (BusE e)
  | Err (EngineFailure e) => Err (PlainE (describe e))
  | Ok a => Ok a
  end.

Definition qtick {A} (f : SqlEnv → SQLiteStore → SQLiteStore * A) (w : World SQLiteStore)
    : World SQLiteStore * A :=
  let '(q, a) := f (clock w.1 w.2) w.2 in ((S w.1, q), a).

Definition q_read_secrets (w : World SQLiteStore) : result string (gmap string string) :=
  let e := clock w.1 w.2 in
  match (on_db (Sqlite.AgentSecrets (q_secrets e)) (q_faults e) w.2).1 with
  | Ok secrets => Ok secrets
  | Err err => Err (describe err)
  end.

Definition q_write_secret (agentID secret : string) : World SQLiteStore → World SQLiteStore * option string :=
  qtick (λ e q, let '(r, q) := on_db (Sqlite.SetAgentSecret agentID secret) (q_faults e) q in
    (q, match r with Ok _ => None | Err err => Some (describe err) end)).

Definition sqlite_API : API (World SQLiteStore) := {|
  API_RegisterAgent input := qtick (λ e q,
    let '(q, r) := QRegisterAgent E (q_faults e) (e_order (q_env e)) (e_now (q_env e)) (q_mid e) input q in
    (q, lift_sql r));
  API_ListAgents capability := qtick (λ e q,
    QListAgents E (e_order (q_env e)) (e_agents (q_env e)) (e_now (q_env e)) capability q);
  API_CreateConversation input := qtick (λ e q,
    let '(q, r) := QCreateConversation E (q_faults e) (e_order (q_env e)) (e_now (q_env e)) (q_mid e) input q in
    (q, lift_sql r));
  API_ListConversations filter := qtick (λ e q,
    QListConversations E (e_order (q_env e)) (e_conversations (q_env e)) (e_now (q_env e)) filter q);
  API_SendMessage input := qtick (λ e q,
    let '(q, r, _) := QSendMessage E (q_faults e) (e_order (q_env e)) (e_now (q_env e)) input q in
    (q, lift_sql r));
  API_PollInbox input := qtick (λ e q,
    let '(q, r) := QPollInbox E (e_now (q_env e)) (q_round e) (q_rounds e) input q in (q, lift_sql r));
  API_Ack input := qtick (λ e q,
    let '(q, r) := QAck E (q_faults e) (e_order (q_env e)) (e_now (q_env e)) (q_committed e) input q in
    (q, error_of (lift_sql r)));
  API_PostEvent input := qtick (λ e q,
    let '(q, r) := QPostEvent E (q_faults e) (e_order (q_env e)) (e_now (q_env e)) (q_committed e) input q in
    (q, error_of (lift_sql r)));
  API_Inject input := qtick (λ e q,
    let '(q, r, _) := QInject E (q_faults e) (e_order (q_env e)) (e_now (q_env e)) input q in
    (q, lift_sql r));
  API_ListConversationMessages input := qtick (λ e q,
    let '(q, r) := QListConversationMessages E (e_order (q_env e)) (e_now (q_env e)) input q in
    (q, lift_error r));
  API_ObserveSince after filter wait := qtick (λ e q,
    QObserveSince E (e_now (q_env e)) (e_order (q_env e)) (e_reading (q_env e)) (e_wakes (q_env e))
      after filter wait q);
  API_Health := qtick (λ e q, QHealth E (q_faults e) (e_order (q_env e)) (e_agents (q_env e)) (e_now (q_env e)) q);
  API_Metrics := qtick (λ e q, QMetrics E (q_faults e) (e_order (q_env e)) (e_agents (q_env e)) (e_now (q_env e)) q);
  API_SystemStatus := qtick (λ e q,
    QSystemStatus E (q_faults e) (e_order (q_env e)) (e_agents (q_env e)) (e_now (q_env e)) q);
  API_secrets := Some (mkSecretStore q_read_secrets q_write_secret);
  API_ObserveEpoch := Some (λ _, epoch) |}.

(** The wrapper answers with the agent the inner store registered, so that the
    properties of the HTTP layer hold of this store too. *)
#[export] Instance sqlite_registers : RegistersRequested (World SQLiteStore) (H:=sqlite_API).
Proof.
  intros req [n q] s' a. cbn. unfold qtick, QRegisterAgent. cbn.
  destruct (RegisterAgent _ _ _ _ _) as [s1 [b|e]] eqn:Hr; [|done].
  destruct (on_db _ _ _) as [[[]|err] q1]; cbn; [|done]. intros [= _ <-].
  by eapply RegisterAgent_requested.
Qed.

End sqlite.
