(* ===== verification/HttpProps.v ===== *)
(** * Properties of the HTTP layer

    For any store behind it, a request reaches an operation of the store only
    with the credentials the operation calls for, and the secret of an agent
    changes only by a request that proves knowledge of it. *)
From stdpp Require Import gmap strings list.
From Stdlib Require Import ZArith Lia Ascii.
From S2P Require Import Prelude GoBase Sha256 Utf8 Json Types Scope Config Auth Ring State Sweep Poll System Scenario Persistent Text Configutil Http Handlers HttpStore.

(** ** Signatures *)

(** [signature] is the HMAC of [payload] under [secret], in hexadecimal of
    either case, with or without the prefix. *)
Definition signs (secret signature payload : string) : Prop :=
  TrimSpace signature ≠ ε ∧
  DecodeString (strip_sha256 (TrimSpace signature)) = Some (hmac_sha256 secret payload).

Section signatures.
Context {Σ : Type}.
Implicit Types (srv : Server Σ).

(** [agentID] has a secret and the payload is signed with it. *)
Definition signed srv (agentID signature payload : string) : Prop :=
  TrimSpace agentID ≠ ε ∧
  ∃ secret, agentSecrets srv !! TrimSpace agentID = Some secret ∧ TrimSpace secret ≠ ε ∧
    signs secret signature payload.

Lemma verifySignature_None srv id sig payload :
  verifySignature srv id sig payload = None ↔ signed srv id sig payload.
Proof.
  unfold verifySignature, signed, signs, is_empty. cbv zeta. rewrite DecodeString_ToLower.
  case_bool_decide as Hid; [naive_solver|].
  destruct (agentSecrets srv !! TrimSpace id) as [secret|]; [|naive_solver].
  case_bool_decide as Hs; [naive_solver|].
  case_bool_decide as Hg; [naive_solver|].
  destruct (DecodeString _) as [d|]; [|naive_solver].
  case_bool_decide as Hd; [subst; naive_solver|]. split; [done|].
  intros (_ & s & [= <-] & _ & _ & [= ->]). done.
Qed.

Lemma signed_trim srv id sig payload :
  signed srv (TrimSpace id) sig payload ↔ signed srv id sig payload.
Proof. unfold signed. by rewrite TrimSpace_idemp. Qed.

Lemma signed_trim_sig srv id sig payload :
  signed srv id (TrimSpace sig) payload ↔ signed srv id sig payload.
Proof. unfold signed, signs. by rewrite TrimSpace_idemp. Qed.

(** ** Re-registration *)

(** Who may claim [id] with the secret it offers: anyone when it has none yet,
    and otherwise whoever offers the current one or signs with it. *)
Definition may_claim srv (id offered payload signature : string) : Prop :=
  ∀ current, agentSecrets srv !! TrimSpace id = Some current → TrimSpace current ≠ ε →
    current = offered ∨ signs current signature payload.

Lemma verifyReregistrationProof_None srv id offered payload sig :
  TrimSpace id ≠ ε →
  verifyReregistrationProof srv id offered payload sig = None ↔ may_claim srv id offered payload sig.
Proof.
  intros Hid. unfold verifyReregistrationProof, currentAgentSecret, may_claim.
  destruct (agentSecrets srv !! TrimSpace id) as [cur|] eqn:Hcur; [|naive_solver].
  unfold is_empty. case_bool_decide as Hb; cbn [orb]; [naive_solver|].
  case_bool_decide as Ho; [naive_solver|].
  destruct (verifySignature srv id sig payload) eqn:Hv.
  - split; [done|]. intros Hc. destruct (Hc cur eq_refl Hb) as [?|Hs]; [done|].
    assert (verifySignature srv id sig payload = None) as Hn; [|congruence].
    apply verifySignature_None. split; [done|]. by exists cur.
  - split; [|done]. intros _ c [= <-] _. right. apply verifySignature_None in Hv as (_ & s & Hs & _ & ?).
    by assert (s = cur) as -> by congruence.
Qed.

End signatures.

Lemma verify_scoped_Ok {Σ} token required payload (srv : Server Σ) r auth :
  verify_scoped token required payload srv r = Ok auth →
  (actor auth = ε ∧ token = true) ∨ signed srv (actor auth) (header r "X-Bus-Signature"%stdpp) payload.
Proof.
  unfold verify_scoped. destruct token; [intros [= <-]; by left|]. cbv zeta.
  case_bool; [done|]. destruct (verifySignature _ _ _ _) eqn:Hv; [done|]. intros [= <-]. right. cbn.
  apply verifySignature_None in Hv. by apply signed_trim_sig.
Qed.

(** ** What a request may do *)

Inductive Call :=
| CallRegister (req : RegisterAgentInput.t)
| CallListAgents (capability : string)
| CallCreate (input : CreateConversationInput.t)
| CallListConversations (filter : ListConversationsFilter.t)
| CallListMessages (input : ListConversationMessagesInput.t)
| CallSend (input : SendMessageInput.t)
| CallPoll (input : PollInboxInput.t)
| CallAck (input : AckInput.t)
| CallEvent (input : EventInput.t)
| CallInject (input : InjectInput.t)
| CallObserve (after : Z) (filter : ObserveFilter.t)
| CallHealth
| CallMetrics
| CallStatus
| CallSetSecret (agentID secret : string).

Section serving.
Context {Σ : Type} `{Impl : API Σ} `{D : Decoder} (O : Options) (MarshalData : json → option string).
Implicit Types (srv : Server Σ) (s : Σ).

Definition perform (c : Call) (s : Σ) : Σ :=
  match c with
  | CallRegister req => (API_RegisterAgent req s).1
  | CallListAgents capability => (API_ListAgents capability s).1
  | CallCreate input => (API_CreateConversation input s).1
  | CallListConversations filter => (API_ListConversations filter s).1
  | CallListMessages input => (API_ListConversationMessages input s).1
  | CallSend input => (API_SendMessage input s).1
  | CallPoll input => (API_PollInbox input s).1
  | CallAck input => (API_Ack input s).1
  | CallEvent input => (API_PostEvent input s).1
  | CallInject input => (API_Inject input s).1
  | CallObserve after filter => (API_ObserveSince after filter Second s).1
  | CallHealth => (API_Health s).1
  | CallMetrics => (API_Metrics s).1
  | CallStatus => (API_SystemStatus s).1
  | CallSetSecret agentID secret =>
      match API_secrets with Some ss => (SetAgentSecret ss agentID secret s).1 | None => s end
  end.

(** The credentials of a call, by the caller it acts for. *)
Definition reader srv (r : Request) (who : string) : Prop :=
  (who = ε ∧ validObserveToken O r = true) ∨
  signed srv who (header r "X-Bus-Signature"%stdpp) (RawQuery r).

(** The registration a body asks for, allowed and proven. *)
Definition registration_of srv (r : Request) (req : RegisterAgentInput.t) : Prop :=
  ∃ blob req0, body_of O r = Ok blob ∧ decode_register blob = Ok req0 ∧ req = with_trimmed_id req0 ∧
    isAgentAllowed srv (RegisterAgentInput.AgentID req) = true ∧
    TrimSpace (RegisterAgentInput.Secret req) ≠ ε ∧
    (TrimSpace (RegisterAgentInput.AgentID req) ≠ ε →
     may_claim srv (RegisterAgentInput.AgentID req) (RegisterAgentInput.Secret req) blob
       (header r "X-Bus-Signature"%stdpp)).

Definition authorized srv (r : Request) (c : Call) : Prop :=
  match c with
  | CallRegister req => registration_of srv r req
  | CallSetSecret agentID secret =>
      ∃ req s s' a, registration_of srv r req ∧ API_RegisterAgent req s = (s', Ok a) ∧
        agentID = TrimSpace (Agent.AgentID a) ∧ secret = RegisterAgentInput.Secret req
  | CallCreate input =>
      let who := CreateConversationInput.ActorAgentID input in
      (who = ε ∧ validInjectToken O r = true) ∨
      ∃ blob, body_of O r = Ok blob ∧ signed srv who (header r "X-Bus-Signature"%stdpp) blob
  | CallListConversations filter => reader srv r (ListConversationsFilter.ActorAgentID filter)
  | CallListMessages input => reader srv r (ListConversationMessagesInput.ActorAgentID input)
  | CallObserve _ filter => reader srv r (ObserveFilter.ActorAgentID filter)
  | CallSend input =>
      ∃ blob, body_of O r = Ok blob ∧ decode_message blob = Ok input ∧
        signed srv (SendMessageInput.From input) (header r "X-Bus-Signature"%stdpp) blob
  | CallPoll input =>
      signed srv (PollInboxInput.AgentID input) (header r "X-Bus-Signature"%stdpp) (RawQuery r)
  | CallAck input =>
      ∃ blob, body_of O r = Ok blob ∧ decode_ack blob = Ok input ∧
        signed srv (AckInput.AgentID input) (header r "X-Bus-Signature"%stdpp) blob
  | CallEvent input =>
      ∃ blob, body_of O r = Ok blob ∧
        signed srv (EventInput.ActorAgentID input) (header r "X-Bus-Signature"%stdpp) blob
  | CallInject _ => validInjectToken O r = true
  | CallListAgents _ | CallHealth | CallMetrics | CallStatus => True
  end.

(** Authorised calls, between changes the rest of the program makes. *)
Inductive effect (turns : list (Σ → Σ)) srv (r : Request) : Σ → Σ → Prop :=
| effect_none s : effect turns srv r s s
| effect_call c s s' : authorized srv r c → effect turns srv r (perform c s) s' →
    effect turns srv r s s'
| effect_turn turn s s' : turn ∈ turns → effect turns srv r (turn s) s' → effect turns srv r s s'.

Lemma effect_one turns srv r c s s' :
  authorized srv r c → s' = perform c s → effect turns srv r s s'.
Proof. intros Hc ->. eapply effect_call; [exact Hc|]. apply effect_none. Qed.

Lemma err_or_Ok {E A} (a b : A) (e : option E) : err_or a e = Ok b → e = None.
Proof. by destruct e. Qed.

Lemma decoded_Ok {A} (x : result string A) a : decoded x = Ok a → x = Ok a.
Proof. destruct x; [by intros [= ->]|done]. Qed.

Lemma with_trimmed_trimmed req : trimmed (RegisterAgentInput.AgentID (with_trimmed_id req)).
Proof. apply TrimSpace_trimmed. Qed.

Lemma register_check_Ok r srv req :
  register_check (Σ:=Σ) O r srv = Ok req → registration_of srv r req.
Proof.
  unfold register_check. destruct (body_of O r) as [blob|] eqn:Hb; [|done].
  destruct (decoded (decode_register blob)) as [req0|] eqn:Hd; [|done]. apply decoded_Ok in Hd.
  cbv zeta. destruct (isAgentAllowed _ _) eqn:Ha; [|done]. cbn [negb].
  unfold is_empty at 1. case_bool_decide as Hs; [done|].
  destruct (verifyReregistrationProof _ _ _ _ _) eqn:Hp; [done|]. intros [= <-].
  exists blob, req0. split_and!; try done. intros Hid.
  by apply verifyReregistrationProof_None.
Qed.

(** *** Handler by handler *)

Abbreviation effects turns srv r res := (effect turns srv r (store srv) (store (fst res))).

Lemma register_effect turns r srv : effects turns srv r (handleRegisterAgent O r srv).
Proof.
  unfold handleRegisterAgent. case_bool; [apply effect_none|].
  destruct (register_check O r srv) as [req|e] eqn:Hc; [|apply effect_none].
  apply register_check_Ok in Hc. unfold register_apply.
  destruct (API_RegisterAgent req (store srv)) as [s1 [a|e]] eqn:Hr; cbn.
  2: { by apply (effect_one turns srv r (CallRegister req)); [|cbn; rewrite Hr]. }
  apply (effect_call turns srv r (CallRegister req)); [done|]. cbn. rewrite Hr. cbn.
  unfold setAgentSecret. cbv zeta. case_bool; cbn; [apply effect_none|].
  assert (authorized srv r (CallSetSecret (TrimSpace (Agent.AgentID a)) (RegisterAgentInput.Secret req))) as Ha.
  { exists req, (store srv), s1, a. done. }
  destruct API_secrets as [ss|] eqn:Hs; cbn; [|apply effect_none].
  destruct (SetAgentSecret ss _ _ s1) as [s2 [err|]] eqn:Hset; cbn;
    (eapply effect_one; [exact Ha|]; cbn; by rewrite Hs, Hset).
Qed.

Lemma create_effect turns r srv : effects turns srv r (handleConversationCreate O r srv).
Proof.
  unfold handleConversationCreate. destruct (body_of O r) as [blob|] eqn:Hb; [|apply effect_none].
  destruct (verifyConversationCreateAuth _ _ _ _) as [auth|] eqn:Ha; [|apply effect_none].
  destruct (decoded _) as [req|]; [|apply effect_none]. cbv zeta.
  match goal with |- context [API_CreateConversation ?i _] => set (input := i) end.
  assert (authorized srv r (CallCreate input)) as Hc.
  { destruct (verify_scoped_Ok _ _ _ _ _ _ Ha) as [?|?]; [left; done|right; eauto]. }
  destruct (API_CreateConversation input (store srv)) as [s1 [c|e]] eqn:Hr; cbn;
    (eapply effect_one; [exact Hc|]; cbn; by rewrite Hr).
Qed.

Lemma list_effect turns r srv : effects turns srv r (handleConversationList O r srv).
Proof.
  unfold handleConversationList.
  destruct (verifyObserveAuth _ _ _) as [auth|] eqn:Ha; [|apply effect_none]. cbv zeta.
  match goal with |- context [API_ListConversations ?i _] => set (filter := i) end.
  assert (authorized srv r (CallListConversations filter)) as Hc by exact (verify_scoped_Ok _ _ _ _ _ _ Ha).
  destruct (API_ListConversations filter (store srv)) as [s1 l] eqn:Hr. cbn.
  eapply effect_one; [exact Hc|]. cbn. by rewrite Hr.
Qed.

Lemma messages_page_effect turns r srv : effects turns srv r (handleConversationMessages O r srv).
Proof.
  unfold handleConversationMessages. case_bool; [apply effect_none|].
  destruct (path_conversation _) as [id|]; [|apply effect_none].
  destruct (verifyObserveAuth _ _ _) as [auth|] eqn:Ha; [|apply effect_none]. cbv zeta.
  match goal with |- context [API_ListConversationMessages ?i _] => set (input := i) end.
  assert (authorized srv r (CallListMessages input)) as Hc by exact (verify_scoped_Ok _ _ _ _ _ _ Ha).
  destruct (API_ListConversationMessages input (store srv)) as [s1 [[[cid l] n]|e]] eqn:Hr; cbn;
    (eapply effect_one; [exact Hc|]; cbn; by rewrite Hr).
Qed.

Lemma send_effect turns r srv : effects turns srv r (handleMessages O r srv).
Proof.
  unfold handleMessages. case_bool; [apply effect_none|].
  destruct (body_of O r) as [blob|] eqn:Hb; [|apply effect_none].
  destruct (decoded _) as [req|] eqn:Hd; [|apply effect_none]. apply decoded_Ok in Hd.
  destruct (err_or _ _) as [u|] eqn:Hv; [|apply effect_none].
  apply err_or_Ok, verifySignature_None in Hv.
  assert (authorized srv r (CallSend req)) as Hc by by exists blob.
  destruct (API_SendMessage req (store srv)) as [s1 [[m dup]|e]] eqn:Hr; cbn;
    (eapply effect_one; [exact Hc|]; cbn; by rewrite Hr).
Qed.

Lemma inbox_effect turns r srv : effects turns srv r (handleInbox r srv).
Proof.
  unfold handleInbox. case_bool; [apply effect_none|]. cbv zeta.
  destruct (err_or _ _) as [u|] eqn:Hv; [|apply effect_none].
  apply err_or_Ok, verifySignature_None in Hv.
  match goal with |- context [API_PollInbox ?i _] => set (input := i) end.
  assert (authorized srv r (CallPoll input)) as Hc by exact Hv.
  destruct (API_PollInbox input (store srv)) as [s1 [[l n]|e]] eqn:Hr; cbn;
    (eapply effect_one; [exact Hc|]; cbn; by rewrite Hr).
Qed.

Lemma ack_effect turns r srv : effects turns srv r (handleAcks O r srv).
Proof.
  unfold handleAcks. case_bool; [apply effect_none|].
  destruct (body_of O r) as [blob|] eqn:Hb; [|apply effect_none].
  destruct (decoded _) as [req|] eqn:Hd; [|apply effect_none]. apply decoded_Ok in Hd.
  destruct (err_or _ _) as [u|] eqn:Hv; [|apply effect_none].
  apply err_or_Ok, verifySignature_None in Hv.
  assert (authorized srv r (CallAck req)) as Hc by by exists blob.
  destruct (API_Ack req (store srv)) as [s1 [e|]] eqn:Hr; cbn;
    (eapply effect_one; [exact Hc|]; cbn; by rewrite Hr).
Qed.

Lemma event_effect turns r srv : effects turns srv r (handleEvents O r srv).
Proof.
  unfold handleEvents. case_bool; [apply effect_none|].
  destruct (body_of O r) as [blob|] eqn:Hb; [|apply effect_none].
  destruct (decoded _) as [req|]; [|apply effect_none]. cbv zeta.
  destruct (err_or _ _) as [u|] eqn:Hv; [|apply effect_none].
  apply err_or_Ok, verifySignature_None in Hv.
  match goal with |- context [API_PostEvent ?i _] => set (input := i) end.
  assert (authorized srv r (CallEvent input)) as Hc by by exists blob.
  destruct (API_PostEvent input (store srv)) as [s1 [e|]] eqn:Hr; cbn;
    (eapply effect_one; [exact Hc|]; cbn; by rewrite Hr).
Qed.

Lemma inject_effect turns r srv : effects turns srv r (handleInject O r srv).
Proof.
  unfold handleInject. case_bool; [apply effect_none|].
  destruct (validInjectToken O r) eqn:Hv; [|apply effect_none]. cbn [negb].
  destruct (body_of O r) as [blob|]; [|apply effect_none].
  destruct (decoded _) as [req|]; [|apply effect_none].
  assert (authorized srv r (CallInject req)) as Hc by exact Hv.
  destruct (API_Inject req (store srv)) as [s1 [m|e]] eqn:Hr; cbn;
    (eapply effect_one; [exact Hc|]; cbn; by rewrite Hr).
Qed.

Lemma observe_loop_effect all srv r turns filter : ∀ cursor s,
  reader srv r (ObserveFilter.ActorAgentID filter) → (∀ t, t ∈ turns → t ∈ all) →
  effect all srv r s (observe_loop MarshalData turns filter cursor s).1.
Proof.
  induction turns as [|turn turns IH]; intros cursor s Hr Hall; [apply effect_none|]. cbn [observe_loop].
  apply (effect_turn all srv r turn); [apply Hall; left|].
  apply (effect_call all srv r (CallObserve cursor filter)); [done|]. cbn [perform].
  destruct (API_ObserveSince cursor filter Second (turn s)) as [s1 [events last]]. cbn [fst].
  assert (∀ t, t ∈ turns → t ∈ all) as Hall' by (intros; apply Hall; by right).
  case_bool.
  - specialize (IH cursor s1 Hr Hall'). by destruct (observe_loop _ _ _ cursor s1).
  - specialize (IH last s1 Hr Hall'). by destruct (observe_loop _ _ _ last s1).
Qed.

Lemma observe_effect turns r srv : effects turns srv r (handleObserve O MarshalData turns r srv).
Proof.
  unfold handleObserve. case_bool; [apply effect_none|].
  destruct (verifyObserveAuth _ _ _) as [auth|] eqn:Ha; [|apply effect_none].
  case_bool; [apply effect_none|]. cbv zeta.
  match goal with |- context [observe_loop _ _ ?f ?c _] =>
    pose proof (observe_loop_effect turns srv r turns f c (store srv)) as Hl end.
  destruct (observe_loop _ _ _ _ _) as [s1 frames]. apply Hl; [|done].
  exact (verify_scoped_Ok _ _ _ _ _ _ Ha).
Qed.

(** C39: For any store, the handling of a request changes it only by calls the
    request is authorised for: a message, an acknowledgement, a poll or an
    event under the signature of its sender or actor, a reading call under an
    observe token or the reader's signature, an injection under an inject
    token, and a registration that is allowlisted and proves knowledge of the
    identity's current secret. *)
Theorem requests_are_authorized turns r srv :
  effect turns srv r (store srv) (store (ServeHTTP O MarshalData turns r srv).1).
Proof.
  assert (∀ c, authorized srv r c → effect turns srv r (store srv) (perform c (store srv))) as Hone.
  { intros c Hc. by eapply effect_one. }
  unfold ServeHTTP. destruct (findHandler patterns r) as [own|pattern]; [apply effect_none|].
  unfold serve_pattern. cbv zeta.
  case_bool; [apply register_effect|]. case_bool.
  { unfold handleListAgents. case_bool; [apply effect_none|].
    specialize (Hone (CallListAgents (TrimSpace (query r "capability"%stdpp))) I). cbn in Hone.
    by destruct (API_ListAgents _ _). }
  case_bool.
  { unfold handleConversations. destruct (method r); [apply list_effect|apply create_effect|apply effect_none..]. }
  case_bool; [apply messages_page_effect|]. case_bool; [apply send_effect|].
  case_bool; [apply inbox_effect|]. case_bool; [apply ack_effect|]. case_bool; [apply event_effect|].
  case_bool; [apply observe_effect|]. case_bool; [apply inject_effect|].
  specialize (Hone CallHealth I) as Hh. specialize (Hone CallMetrics I) as Hm.
  specialize (Hone CallStatus I) as Hs. cbn in Hh, Hm, Hs.
  unfold handleTopLevelHealth, handleHealth, handleMetrics, handleSystemStatus.
  repeat (case_bool; [case_bool; [apply effect_none|];
    first [by destruct (API_Health _)|by destruct (API_Metrics _)|by destruct (API_SystemStatus _)]|]).
  apply effect_none.
Qed.

(** ** Secrets *)

(** Only a registration writes a secret, and only that of the agent it names. *)
Lemma register_secrets r srv :
  RegistersRequested Σ →
  agentSecrets (handleRegisterAgent O r srv).1 = agentSecrets srv ∨
  ∃ req, registration_of srv r req ∧
    let id := RegisterAgentInput.AgentID req in
    trimmed id ∧ id ≠ ε ∧
    agentSecrets (handleRegisterAgent O r srv).1 =
      <[id := RegisterAgentInput.Secret req]> (agentSecrets srv).
Proof.
  intros Hlaw. unfold handleRegisterAgent. case_bool; [by left|].
  destruct (register_check O r srv) as [req|e] eqn:Hc; [|by left].
  apply register_check_Ok in Hc. unfold register_apply.
  destruct (API_RegisterAgent req (store srv)) as [s1 [a|e]] eqn:Hr; cbn; [|by left].
  apply Hlaw in Hr as ->. unfold setAgentSecret. cbv zeta.
  assert (trimmed (RegisterAgentInput.AgentID req)) as Ht.
  { destruct Hc as (blob & req0 & _ & _ & -> & _). apply with_trimmed_trimmed. }
  unfold trimmed in Ht. rewrite !Ht.
  destruct (is_empty _ || is_empty _) eqn:Eempty; [by left|].
  assert (RegisterAgentInput.AgentID req ≠ ε) as Hid by (unfold is_empty in Eempty; prop_bool; tauto).
  destruct (match API_secrets with Some ss => _ | None => _ end) as [s2 [err|]]; cbn; [by left|].
  right. exists req. done.
Qed.

Lemma other_secrets turns r srv :
  agentSecrets (ServeHTTP O MarshalData turns r srv).1 = agentSecrets srv ∨
  (findHandler patterns r = inr "/v1/agents/register"%stdpp ∧
   (ServeHTTP O MarshalData turns r srv).1 = (handleRegisterAgent O r srv).1).
Proof.
  unfold ServeHTTP. destruct (findHandler patterns r) as [own|pattern]; [by left|].
  unfold serve_pattern. cbv zeta. case_bool_decide as Hp; [subst; by right|left].
  unfold handleListAgents, handleConversations, handleConversationCreate, handleConversationList,
    handleConversationMessages, handleMessages, handleInbox, handleAcks, handleEvents, handleObserve,
    handleInject, handleTopLevelHealth, handleHealth, handleMetrics, handleSystemStatus.
  repeat (case_match; try done).
Qed.

(** A request whose body is signed with [secret]. *)
Definition proves (secret : string) (r : Request) : Prop :=
  ∃ blob, body_of O r = Ok blob ∧ signs secret (header r "X-Bus-Signature"%stdpp) blob.

Definition serve_all (l : list (list (Σ → Σ) * Request)) srv : Server Σ :=
  foldl (λ srv q, (ServeHTTP O MarshalData q.1 q.2 srv).1) srv l.

Lemma secret_kept turns r srv a secret :
  RegistersRequested Σ → agentSecrets srv !! a = Some secret → TrimSpace secret ≠ ε →
  ¬ proves secret r → agentSecrets (ServeHTTP O MarshalData turns r srv).1 !! a = Some secret.
Proof.
  intros Hlaw Ha Hs Hn. destruct (other_secrets turns r srv) as [->|[_ ->]]; [done|].
  destruct (register_secrets r srv Hlaw) as [->|(req & Hreg & Ht & Hid & ->)]; [done|].
  destruct Hreg as (blob & req0 & Hb & _ & _ & _ & _ & Hclaim).
  unfold trimmed in Ht. rewrite Ht in Hclaim. specialize (Hclaim Hid).
  destruct (decide (RegisterAgentInput.AgentID req = a)) as [<-|Hne]; [|by rewrite lookup_insert_ne].
  rewrite lookup_insert_eq. destruct (Hclaim secret) as [->|Hsig]; [by rewrite Ht|done|done|].
  destruct Hn. by exists blob.
Qed.

(** C40: An identity cannot be taken over.  However many requests are served,
    in any order, as long as none of them is signed with the current secret of
    an agent over its own body, the agent keeps that secret, and what the
    agent signs with it is accepted. *)
Theorem secret_not_taken_over l srv a secret :
  RegistersRequested Σ → trimmed a → a ≠ ε →
  agentSecrets srv !! a = Some secret → TrimSpace secret ≠ ε →
  Forall (λ q, ¬ proves secret q.2) l →
  agentSecrets (serve_all l srv) !! a = Some secret ∧
  ∀ signature payload, signs secret signature payload →
    verifySignature (serve_all l srv) a signature payload = None.
Proof.
  intros Hlaw Ht Hid Ha Hs Hl.
  assert (agentSecrets (serve_all l srv) !! a = Some secret) as Hkeep.
  { unfold serve_all. revert srv Ha. induction l as [|q l IH]; intros srv Ha; [done|]. cbn [foldl].
    apply Forall_cons in Hl as [Hq Hl]. apply IH; [done|]. by apply secret_kept. }
  split; [done|]. intros signature payload Hsig. apply verifySignature_None.
  unfold signed. rewrite Ht. split; [done|]. by exists secret.
Qed.

End serving.

(** ** Concrete requests

    The in-memory store of [Scenario] behind the server, at one instant. *)

Definition still (n : nat) (s : Store) : Env :=
  mkEnv (at_s 5) (at_s 5) (order_of s) (elements (dom (agents s)))
    (elements (dom (conversations s))) [] NoFault.

Definition memory : API (World Store) := memory_API E0 "epoch-1"%stdpp still.

Definition claim (id secret : string) : RegisterAgentInput.t :=
  RegisterAgentInput.mk id secret [] [] [] ε ε ε ε None None ε ε 60.

(** Bodies are read as registrations of alice with a secret by another's choice
    and as messages in her name. *)
Definition forging : Decoder := {|
  decode_register blob := Ok (claim alice blob);
  decode_conversation _ := Err "unexpected end of JSON input"%stdpp;
  decode_message _ := Ok request1;
  decode_ack _ := Err "unexpected end of JSON input"%stdpp;
  decode_event _ := Err "unexpected end of JSON input"%stdpp;
  decode_inject _ := Err "unexpected end of JSON input"%stdpp |}.

Definition options : Options := mkOptions ∅ ∅ defaultMaxBodyBytes.
Definition no_marshal (j : json) : option string := None.

Definition post (path sig blob : string) : Request :=
  mkRequest POST path ε
    (λ h, if bool_decide (h = "X-Bus-Signature"%stdpp) then sig else ε)
    (Some (mkBody blob None)) true.

Definition forgeries : list (list (World Store → World Store) * Request) :=
  [([], post "/v1/agents/register" ε "evil"); ([], post "/v1/messages" "sha256=00" "hello")]%stdpp.

Definition serving_alice : Server (World Store) :=
  mkServer (0%nat, registered.2) {[alice := "s3cret"%stdpp]} ∅.

Lemma secret_not_taken_over_witness :
  agentSecrets (serve_all (Impl:=memory) (D:=forging) options no_marshal forgeries serving_alice) !! alice
    = Some "s3cret"%stdpp.
Proof.
  apply (secret_not_taken_over (Impl:=memory) (D:=forging) options no_marshal forgeries serving_alice alice
    "s3cret"%stdpp).
  - apply memory_registers.
  - vm_compute. reflexivity.
  - vm_compute. discriminate.
  - vm_compute. reflexivity.
  - vm_compute. discriminate.
  - repeat (apply Forall_cons; split); [..|apply Forall_nil_2].
    + intros (blob & _ & Hne & _). apply Hne. vm_compute. reflexivity.
    + intros (blob & Hb & _ & Hd).
      assert (blob = "hello"%stdpp) as -> by (vm_compute in Hb; congruence).
      vm_compute in Hd. discriminate Hd.
Defined.

(** Handlers run concurrently: two first registrations of one identity can
    both pass the check before either has stored its secret, and the second
    then replaces the secret of the first without proof of it. *)
Example first_registrations_race :
  let srv := mkServer (0%nat, emptyStore) ∅ ∅ in
  let check blob := register_check (D:=forging) options (post "/v1/agents/register" ε blob)%stdpp srv in
  let apply secret := λ srv : Server (World Store), (register_apply (Impl:=memory) (claim alice secret) srv).1 in
  check "first"%stdpp = Ok (claim alice "first"%stdpp) ∧
  check "second"%stdpp = Ok (claim alice "second"%stdpp) ∧
  agentSecrets (apply "second"%stdpp (apply "first"%stdpp srv)) !! alice = Some "second"%stdpp.
Proof. vm_compute. done. Qed.

(** An allowlist file without entries admits everyone. *)
Example empty_allowlist_opens :
  let srv := mkServer (0%nat, emptyStore) ∅ {[alice]} in
  isAgentAllowed srv bob = false ∧
  isAgentAllowed (reloadAllowlistFile (Ok "# maintenance"%stdpp) srv).1 bob = true.
Proof. vm_compute. done. Qed.
