(* ===== verification/Responses.v ===== *)
(** * The types of errors and responses

    Every error an operation of a store returns is built by [newError], so that
    its HTTP status is that of its code; and every response of the server is of
    one of a few forms.  [TypedErrors] is the interface between the two: what the
    HTTP layer relies on, and what each of the three stores promises. *)
From stdpp Require Import gmap strings list.
From Stdlib Require Import ZArith Lia Ascii.
From S2P Require Import Prelude GoBase Json Types Scope Config Auth Ring State Push Inbox Observe Structure Sweep Conversations Agents Send Poll Lifecycle Persistent Sqlite Delivery SqliteStore Text Configutil Http Handlers HttpStore HttpSqlite.

(** ** Errors *)

Record typed (e : Error.t) : Prop := {
  ty_status : Error.Status e = statusForCode (Error.Code e);
  ty_retry : 0 ≤ Error.RetryAfter e }.

Lemma typed_newError code msg transient retry : typed (newError code msg transient retry).
Proof. split; [done|]. unfold newError. cbn. repeat case_bool; prop_bool; cbn; lia. Qed.

Lemma typed_fail code msg : typed (fail code msg).
Proof. apply typed_newError. Qed.

Create HintDb typed.
#[export] Hint Resolve typed_newError typed_fail : typed.

(** Goes through the branches of an operation; a branch that fails does so with
    an error of its own or of an operation it calls. *)
Ltac typed := intros; simplify_eq; repeat (case_match; simplify_eq; try done); cbn in *; simplify_eq; eauto with typed.

Section operations.
Context (E : Static).

Lemma authorizeAgentForName_typed a r e : authorizeAgentForName E a r = Some e → typed e.
Proof. unfold authorizeAgentForName, err_scope_denied. typed. Qed.
#[local] Hint Resolve authorizeAgentForName_typed : typed.

Lemma authorizeSendTarget_typed a r e : authorizeSendTarget E a r = Some e → typed e.
Proof. unfold authorizeSendTarget. typed. Qed.
#[local] Hint Resolve authorizeSendTarget_typed : typed.

Lemma authorizeActorForNames_typed a names e : authorizeActorForNames E a names = Some e → typed e.
Proof.
  unfold authorizeActorForNames. cbv zeta. case_match; [done|].
  induction names as [|n names IH]; cbn; [done|]. unfold err_scope_denied. typed.
Qed.
#[local] Hint Resolve authorizeActorForNames_typed : typed.

Lemma normalizeScopes_typed scopes e : normalizeScopes scopes = Err e → typed e.
Proof.
  unfold normalizeScopes. generalize (@nil Scope) at 1. generalize (@nil Scope).
  induction scopes as [|x l IH]; intros out seen; cbn; [done|]. typed.
Qed.

Lemma normalizeSharedGrants_typed grants e : normalizeSharedGrants grants = Err e → typed e.
Proof.
  unfold normalizeSharedGrants. generalize (@nil string) at 1. generalize (@nil string).
  induction grants as [|x l IH]; intros out seen; cbn; [done|]. typed.
Qed.
#[local] Hint Resolve normalizeScopes_typed normalizeSharedGrants_typed : typed.

Lemma RegisterAgent_typed o now input s e : (RegisterAgent E o now input s).2 = Err e → typed e.
Proof.
  unfold RegisterAgent. destruct (registration E now input) as [a|e'] eqn:Hr.
  - cbv zeta. destruct (authorizeAgentForName _ _ _) eqn:Ha; cbn; [|done]. intros [= <-]. eauto with typed.
  - cbn. intros [= <-]. revert Hr. unfold registration. typed.
Qed.

Lemma CreateConversation_typed o now input s e : (CreateConversation E o now input s).2 = Err e → typed e.
Proof.
  unfold CreateConversation, ensureConversationLocked. destruct (existsb _ _); cbn; [intros [= <-]; eauto with typed|].
  destruct (is_empty _); cbn; typed.
Qed.

Lemma ListConversationMessages_typed o now input s e :
  (ListConversationMessages E o now input s).2 = Err e → typed e.
Proof. unfold ListConversationMessages. cbv zeta. typed; cbn in *; simplify_eq; eauto with typed. Qed.

Lemma send_request_typed input e : send_request E input = Err e → typed e.
Proof. unfold send_request. cbv zeta. typed. Qed.
Lemma send_target_typed r s e : send_target E r s = Err e → typed e.
Proof. unfold send_target. typed. Qed.
Lemma send_plan_typed now input r target s e : send_plan E now input r target s = Err e → typed e.
Proof.
  unfold send_plan. destruct (choose_conversation _ _) as [n cid].
  destruct (send_conversation _ _ _ _ _) as [c|e'] eqn:Hc; [typed|]. intros [= <-].
  revert Hc. unfold send_conversation. cbv zeta. typed.
Qed.
#[local] Hint Resolve send_request_typed send_target_typed send_plan_typed : typed.

Lemma sendMessage_typed commit o now input s e :
  (∀ a e, run_commit commit a = Err e → typed e) → (sendMessage E commit o now input s).1.2 = Err e → typed e.
Proof.
  intros Hc. unfold sendMessage. destruct (send_request E input) as [r|e'] eqn:H1; [|cbn; intros [= <-]; eauto with typed].
  cbv zeta. destruct (send_target E r _) as [t|e'] eqn:H2; [|cbn; intros [= <-]; eauto with typed].
  destruct (send_duplicate _ _ _ _); [done|].
  destruct (send_plan _ _ _ _ _ _) as [a|e'] eqn:H3; [|cbn; intros [= <-]; eauto with typed].
  destruct (run_commit commit a) as [receipt|e'] eqn:H4; [|cbn; intros [= <-]; eauto with typed].
  destruct (schedule_push _ _ _ _) as [[? ?] ?]. by destruct (finishAcceptance _ _ _).
Qed.

Lemma inject_typed commit o now input s e :
  (∀ a e, run_commit commit a = Err e → typed e) → (inject E commit o now input s).1.2 = Err e → typed e.
Proof.
  intros Hc. unfold inject. destruct (inject_request E input) as [[[i b] t]|e'] eqn:H1.
  2: { cbn. intros [= <-]. revert H1. unfold inject_request. cbv zeta. typed. }
  cbv zeta. destruct (inject_plan _ _ _ _ _ _ _) as [a|e'] eqn:H3.
  2: { cbn. intros [= <-]. revert H3. unfold inject_plan. destruct (choose_conversation _ _) as [n cid].
       destruct (inject_target _ _ _ _) as [?|e''] eqn:Ht; [done|]. intros [= <-].
       revert Ht. unfold inject_target. typed. }
  destruct (run_commit commit a) as [receipt|e'] eqn:H4; [|cbn; intros [= <-]; eauto with typed].
  destruct (schedule_push _ _ _ _) as [[? ?] ?]. by destruct (finishAcceptance _ _ _).
Qed.

Lemma ack_typed commit o now input s e :
  (∀ m e, run_commit_message commit m = Some e → typed e) → (ack E commit o now input s).2 = Some e → typed e.
Proof.
  intros Hc. unfold ack. destruct (ack_request input) as [[[a m] st]|e'] eqn:H1.
  - cbv zeta. typed; cbn in *; simplify_eq; eauto with typed.
  - cbn. intros [= <-]. revert H1. unfold ack_request. cbv zeta. typed.
Qed.

Lemma postEvent_typed commit o now input s e :
  (∀ m e, run_commit_message commit m = Some e → typed e) → (postEvent E commit o now input s).2 = Some e → typed e.
Proof.
  intros Hc. unfold postEvent. destruct (event_request input) as [[[[a m] k] b]|e'] eqn:H1.
  - cbv zeta. destruct (messages _ !! m) as [msg|]; [|cbn; intros [= <-]; eauto with typed].
    destruct (bool_decide _); [cbn; intros [= <-]; eauto with typed|].
    destruct (bool_decide _); [cbn; intros [= <-]; eauto with typed|].
    destruct (isTerminal _); [apply Hc|].
    destruct (event_message _ _ _ _) as [next|e'] eqn:H2.
    + destruct (run_commit_message _ _) eqn:H3; cbn; [intros [= <-]; eauto with typed|done].
    + cbn. intros [= <-]. revert H2. unfold event_message. cbv zeta. typed.
  - cbn. intros [= <-]. revert H1. unfold event_request. cbv zeta. typed.
Qed.

Lemma poll_request_typed input e : poll_request E input = Err e → typed e.
Proof. unfold poll_request. cbv zeta. typed. Qed.
#[local] Hint Resolve poll_request_typed : typed.

(** A section that only fails with typed errors, now or when its timer fires. *)
Definition typed_outcome {A} (out : Outcome (result Error.t A)) : Prop :=
  match out with
  | Returned (Err e) => typed e
  | Waits _ _ (Err e) => typed e
  | _ => True
  end.

Lemma wait_loop_typed {A} (section : Order → Reading → Store → Store * Outcome (result Error.t A)) wakes :
  (∀ o r s, typed_outcome (section o r s).2) → ∀ o r s e, (wait_loop section o r wakes s).2 = Err e → typed e.
Proof.
  intros Hs. induction wakes as [|w wakes IH]; intros o r s e; cbn [wait_loop]; specialize (Hs o r s);
    destruct (section o r s) as [s1 [[a|e1]|ch d [a|e1]]]; cbn in *; try done; try (by intros [= <-]); apply IH.
Qed.

Lemma PollInbox_typed started o r wakes input s e : (PollInbox E started o r wakes input s).2 = Err e → typed e.
Proof.
  unfold PollInbox, pollInbox. destruct (poll_request E input) as [a|e1] eqn:Hr; [|cbn; intros [= <-]; eauto with typed].
  cbv zeta. apply wait_loop_typed. intros o' r' s'. unfold poll_section. cbv zeta.
  destruct (agents _ !! a) as [ag|]; [|cbn; auto with typed]. destruct (negb _); [cbn; auto with typed|].
  destruct (authorizeAgentForName _ _ _) eqn:Ha; [cbn; eauto with typed|].
  destruct (read_inbox _ _ _ _ _) as [s1 [[c [[out next]|]]|e1]] eqn:Hread; cbn; [done| |].
  - destruct (_ =? 0); [done|]. destruct (_ <=? 0); [done|]. by destruct (inboxNotifyChanLocked _ _).
  - revert Hread. unfold read_inbox. cbv zeta. cbn [run_advance]. typed.
Qed.

Lemma pollDurableInbox_typed started r wakes input q e :
  (pollDurableInbox E started r wakes input q).2 = Err (Delivery.BusError e) → typed e.
Proof.
  unfold pollDurableInbox. destruct (poll_request E input) as [a|e1] eqn:Hr; [|cbn; intros [= <-]; eauto with typed].
  cbv zeta. generalize (Add started (clamp_wait E (PollInboxInput.Wait input))). intros deadline.
  revert r q. induction wakes as [|[env w] wakes IH]; intros r q; cbn [durable_loop]; unfold durable_round;
    destruct (poll_gate _ _ _ _ _) as [s [ch|e1]] eqn:Hg;
    try (cbn; intros [= <-]; revert Hg; unfold poll_gate; cbv zeta; typed);
    destruct (readDurableInbox _ _ _ _ _ _ _ _ _) as [q1 [[events cursor]|e1]]; try done;
    (destruct (_ || _); [done|]); (destruct (_ <=? 0); [done|]); [done|apply IH].
Qed.
End operations.

(** ** What a store promises the server *)

Class TypedErrors (Σ : Type) `{API Σ} : Prop := {
  te_register req s e : (API_RegisterAgent req s).2 = Err (BusE e) → typed e;
  te_create input s e : (API_CreateConversation input s).2 = Err (BusE e) → typed e;
  te_send input s e : (API_SendMessage input s).2 = Err (BusE e) → typed e;
  te_poll input s e : (API_PollInbox input s).2 = Err (BusE e) → typed e;
  te_ack input s e : (API_Ack input s).2 = Some (BusE e) → typed e;
  te_event input s e : (API_PostEvent input s).2 = Some (BusE e) → typed e;
  te_inject input s e : (API_Inject input s).2 = Err (BusE e) → typed e;
  te_messages input s e : (API_ListConversationMessages input s).2 = Err (BusE e) → typed e }.

Section stores.
Context (E : Static) (epoch : string).

Lemma lift_error_typed {A} (r : result Error.t A) e : lift_error r = Err (BusE e) → r = Err e.
Proof. destruct r; cbn; [done|]. by intros [= ->]. Qed.

Lemma lift_option_typed (r : option Error.t) e : BusE <$> r = Some (BusE e) → r = Some e.
Proof. destruct r; cbn; [|done]. by intros [= ->]. Qed.

(** The call [f] made in the goal fails with a typed error by [lem]. *)
Ltac by_call f lem :=
  let Hf := fresh "Hf" in
  destruct f as [? ?] eqn:Hf; cbn;
  intros Hl; first [apply lift_error_typed in Hl | apply lift_option_typed in Hl]; subst;
  eapply lem; rewrite Hf; reflexivity.

#[export] Instance memory_typed clock : TypedErrors (World Store) (H := memory_API E epoch clock).
Proof.
  constructor; intros input [n s] e; cbn -[RegisterAgent CreateConversation SendMessage PollInbox Ack PostEvent Inject
    ListConversationMessages]; unfold m_RegisterAgent, m_CreateConversation, m_SendMessage, m_PollInbox,
    m_Ack, m_PostEvent, m_Inject, m_ListConversationMessages, tick; cbn [fst snd].
  - by_call (RegisterAgent E (e_order (clock n s)) (e_now (clock n s)) input s) RegisterAgent_typed.
  - by_call (CreateConversation E (e_order (clock n s)) (e_now (clock n s)) input s) CreateConversation_typed.
  - unfold SendMessage. destruct (sendMessage _ _ _ _ _ _) as [[s1 r] d] eqn:Hf. cbn. intros Hl%lift_error_typed. subst.
    eapply (sendMessage_typed E None); [done|]. by rewrite Hf.
  - by_call (PollInbox E (e_now (clock n s)) (e_order (clock n s)) (e_reading (clock n s)) (e_wakes (clock n s)) input s)
      PollInbox_typed.
  - unfold Ack. destruct (ack _ _ _ _ _ _) as [s1 r] eqn:Hf. cbn. intros Hl%lift_option_typed. subst.
    eapply (ack_typed E None); [done|]. by rewrite Hf.
  - unfold PostEvent. destruct (postEvent _ _ _ _ _ _) as [s1 r] eqn:Hf. cbn. intros Hl%lift_option_typed. subst.
    eapply (postEvent_typed E None); [done|]. by rewrite Hf.
  - unfold Inject. destruct (inject _ _ _ _ _ _) as [[s1 r] d] eqn:Hf. cbn. intros Hl%lift_error_typed. subst.
    eapply (inject_typed E None); [done|]. by rewrite Hf.
  - by_call (ListConversationMessages E (e_order (clock n s)) (e_now (clock n s)) input s) ListConversationMessages_typed.
Qed.

(** *** The snapshot store: the error of [persist] is a plain one. *)

Lemma then_persist_typed `{Codec} {A} path f d p (x : Store * result Error.t A) e :
  (saving (then_persist path f d p x)).2 = Err (BusE e) → x.2 = Err e.
Proof.
  unfold then_persist, saving. destruct x as [s [a|e1]]; cbn.
  - by destruct (persist _ _ _ _) as [[[err|] d1] p1].
  - by intros [= ->].
Qed.

Lemma error_of_typed {A} (r : result ApiError A) e : error_of r = Some (BusE e) → r = Err (BusE e).
Proof. destruct r; cbn; [done|]. by intros [= ->]. Qed.

Lemma error_only_typed (x : Store * option Error.t) e : (error_only x).2 = Err e → x.2 = Some e.
Proof. destruct x as [s [e1|]]; cbn; [|done]. by intros [= ->]. Qed.

#[export] Instance snapshot_typed `{Codec} path clock :
  TypedErrors (World (Disk * PersistentStore)) (H := snapshot_API E epoch path clock).
Proof.
  constructor; intros input [n [d p]] e; cbn -[PRegisterAgent PCreateConversation PSendMessage PPollInbox PAck PPostEvent
    PInject PListConversationMessages saving].
  - unfold PRegisterAgent. destruct (saving _) as [[d1 p1] r] eqn:Hf. cbn. intros ->.
    eapply RegisterAgent_typed, then_persist_typed. by rewrite Hf.
  - unfold PCreateConversation. destruct (saving _) as [[d1 p1] r] eqn:Hf. cbn. intros ->.
    eapply CreateConversation_typed, then_persist_typed. by rewrite Hf.
  - unfold PSendMessage, SendMessage. destruct (saving _) as [[d1 p1] r] eqn:Hf. cbn. intros ->.
    eapply (sendMessage_typed E None); [done|]. eapply then_persist_typed. by rewrite Hf.
  - unfold PPollInbox. destruct (PollInbox E _ _ _ _ _ _) as [s1 [[events cursor]|e1]] eqn:Hf.
    + destruct (_ || _); [destruct (persist _ _ _ _) as [[? ?] ?]|]; done.
    + cbn. intros [= <-]. eapply PollInbox_typed. by rewrite Hf.
  - unfold PAck, Ack. destruct (saving _) as [[d1 p1] r] eqn:Hf. cbn. intros ->%error_of_typed.
    eapply (ack_typed E None); [done|]. eapply error_only_typed, then_persist_typed. by rewrite Hf.
  - unfold PPostEvent, PostEvent. destruct (saving _) as [[d1 p1] r] eqn:Hf. cbn. intros ->%error_of_typed.
    eapply (postEvent_typed E None); [done|]. eapply error_only_typed, then_persist_typed. by rewrite Hf.
  - unfold PInject, Inject. destruct (saving _) as [[d1 p1] r] eqn:Hf. cbn. intros ->.
    eapply (inject_typed E None); [done|]. eapply then_persist_typed. by rewrite Hf.
  - unfold PListConversationMessages, pass. destruct (ListConversationMessages _ _ _ _ _) as [s1 r] eqn:Hf. cbn.
    intros Hl%lift_error_typed. subst. eapply ListConversationMessages_typed. by rewrite Hf.
Qed.

(** *** The SQLite store: the refusal that stands for an engine error is put back
    as a plain one. *)

Lemma barrier_typed verdict a e : run_commit (barrier verdict) a = Err e → typed e.
Proof. unfold barrier, refusal. cbn. destruct verdict as [[r|e1]|]; [done|..]; intros [= <-]; apply typed_newError. Qed.

Lemma message_barrier_typed verdict m e : run_commit_message (message_barrier verdict) m = Some e → typed e.
Proof. unfold message_barrier, refusal. cbn. destruct verdict as [[r|e1]|]; [done|..]; intros [= <-]; apply typed_newError. Qed.

Lemma lift_sql_typed {A} describe (r : result SQLError A) e :
  lift_sql describe r = Err (BusE e) → r = Err (Delivery.BusError e).
Proof. destruct r as [a|[e1|e1]]; cbn; [done| |done]. by intros [= ->]. Qed.

Lemma lift_typed {A B} (verdict : option (result DBError B)) (r : result Error.t A) e :
  lift verdict r = Err (Delivery.BusError e) → r = Err e.
Proof. unfold lift. destruct verdict as [[b|e1]|], r; try done; by intros [= ->]. Qed.

Lemma only_error_typed r e : only_error r = Err e → r = Some e.
Proof. destruct r; cbn; [|done]. by intros [= ->]. Qed.

#[export] Instance sqlite_typed clock describe :
  TypedErrors (World SQLiteStore) (H := sqlite_API E epoch clock describe).
Proof.
  constructor; intros input [n q] e; cbn -[QRegisterAgent QCreateConversation QSendMessage QPollInbox QAck QPostEvent
    QInject QListConversationMessages]; unfold qtick; cbn [fst snd].
  - unfold QRegisterAgent. destruct (RegisterAgent _ _ _ _ _) as [s1 [b|e1]] eqn:Hf; cbn.
    + by destruct (on_db _ _ _) as [[[]|err] q1].
    + intros [= <-]. eapply RegisterAgent_typed. by rewrite Hf.
  - unfold QCreateConversation. destruct (CreateConversation _ _ _ _ _) as [s1 [b|e1]] eqn:Hf; cbn.
    + by destruct (on_db _ _ _) as [[[]|err] q1].
    + intros [= <-]. eapply CreateConversation_typed. by rewrite Hf.
  - unfold QSendMessage. destruct (answer _ _ _ _) as [verdict t].
    destruct (sendMessage _ _ _ _ _ _) as [[s1 r] d] eqn:Hf. cbn. intros Hl%lift_sql_typed%lift_typed. subst.
    eapply sendMessage_typed; [apply barrier_typed|]. by rewrite Hf.
  - destruct (QPollInbox _ _ _ _ _ _) as [q1 r] eqn:Hf. cbn. intros Hl%lift_sql_typed. subst.
    eapply pollDurableInbox_typed. unfold QPollInbox in Hf. by rewrite Hf.
  - unfold QAck. destruct (answer _ _ _ _) as [verdict t].
    destruct (ack _ _ _ _ _ _) as [s1 r] eqn:Hf. cbn. intros Hl%error_of_typed%lift_sql_typed%lift_typed%only_error_typed. subst.
    eapply ack_typed; [apply message_barrier_typed|]. by rewrite Hf.
  - unfold QPostEvent. destruct (answer _ _ _ _) as [verdict t].
    destruct (postEvent _ _ _ _ _ _) as [s1 r] eqn:Hf. cbn. intros Hl%error_of_typed%lift_sql_typed%lift_typed%only_error_typed. subst.
    eapply postEvent_typed; [apply message_barrier_typed|]. by rewrite Hf.
  - unfold QInject. destruct (answer _ _ _ _) as [verdict t].
    destruct (inject _ _ _ _ _ _) as [[s1 r] d] eqn:Hf. cbn. intros Hl%lift_sql_typed%lift_typed. subst.
    eapply inject_typed; [apply barrier_typed|]. by rewrite Hf.
  - unfold QListConversationMessages, through. destruct (ListConversationMessages _ _ _ _ _) as [s1 r] eqn:Hf. cbn.
    intros Hl%lift_error_typed. subst. eapply ListConversationMessages_typed. by rewrite Hf.
Qed.
End stores.

(** ** Responses *)

Section responses.
Context {Σ : Type} `{Impl : API Σ} `{!TypedErrors Σ} `{D : Decoder} (O : Options) (MarshalData : json → option string).
Implicit Types (srv : Server Σ).

(** The request is served under pattern [p]. *)
Definition routed (r : Request) (p : string) : Prop := findHandler patterns r = inr p.

(** What a route answers when it succeeds. *)
Definition answers (r : Request) (p : Payload) : Prop :=
  match p with
  | PRegistered _ _ => routed r "/v1/agents/register"%stdpp ∧ method r = POST
  | PAgents _ => routed r "/v1/agents"%stdpp ∧ method r = GET
  | PConversationID _ => routed r "/v1/conversations"%stdpp ∧ method r = POST
  | PConversations _ => routed r "/v1/conversations"%stdpp ∧ method r = GET
  | PMessages _ _ _ => routed r "/v1/conversations/"%stdpp ∧ method r = GET
  | PSent _ _ => routed r "/v1/messages"%stdpp ∧ method r = POST
  | PInbox _ _ => routed r "/v1/inbox"%stdpp ∧ method r = GET
  | POk => (routed r "/v1/acks"%stdpp ∨ routed r "/v1/events"%stdpp) ∧ method r = POST
  | PInjected _ => routed r "/v1/inject"%stdpp ∧ method r = POST
  | PMap _ => (routed r "/health"%stdpp ∨ routed r "/v1/health"%stdpp ∨ routed r "/v1/system/status"%stdpp) ∧
      method r = GET
  | PText _ => routed r "/metrics"%stdpp ∧ method r = GET
  | PStream _ => routed r "/v1/observe"%stdpp ∧ method r = GET
  | NoPayload | PError _ _ _ _ => False
  end.

(** The methods a pattern takes. *)
Definition takes (p : string) : list Method :=
  if decide (p ∈ ["/v1/agents/register"; "/v1/messages"; "/v1/acks"; "/v1/events"; "/v1/inject"]%stdpp)
  then [POST]
  else if decide (p = "/v1/conversations"%stdpp) then [GET; POST] else [GET].

(** The request shows no credential at all where one is asked for: no valid
    token, and on the routes that also take a signature neither an agent nor a
    signature. *)
Definition no_credential (r : Request) : Prop :=
  validInjectToken O r = false ∧ routed r "/v1/inject"%stdpp ∨
  (validObserveToken O r = false ∨
   validInjectToken O r = false ∧ routed r "/v1/conversations"%stdpp ∧ method r = POST) ∧
  TrimSpace (header r "X-Agent-ID"%stdpp) = ε ∧ TrimSpace (header r "X-Bus-Signature"%stdpp) = ε.

(** The forms of a response. *)
Inductive response_type (r : Request) : Response → Prop :=
(** An answer, with the payload of its route. *)
| answer_type h p :
    answers r p → (match p with PText _ | PStream _ => True | _ => h = json_headers end) →
    response_type r (mkResponse 200 h p)
(** The answers of the multiplexer: the request target [*], a path it must
    first clean, and a clean path no pattern matches. *)
| target_type : EscapedPath r = "*"%stdpp → response_type r BadTarget
| redirect_type :
    method r ≠ CONNECT → cleanPath (EscapedPath r) ≠ EscapedPath r →
    response_type r (Redirect (method r) (url_String (cleanPath (EscapedPath r)) (RawQuery r)) 301
                       "Moved Permanently"%stdpp)
| unknown_type :
    (∀ p, p ∈ patterns → pattern_matches p (EscapedPath r) = false) →
    method r = CONNECT ∨ cleanPath (EscapedPath r) = EscapedPath r →
    response_type r NotFound
(** A path that names no conversation, and a method its pattern does not take. *)
| no_conversation_type :
    routed r "/v1/conversations/"%stdpp → path_conversation (Path r) = None →
    response_type r (writeHeader 404)
| method_type p : routed r p → method r ∉ takes p → response_type r (writeHeader 405)
(** An error: its status is that of its code, except that a request without any
    credential is unauthorized with 403; the header and the body agree on when
    to retry. *)
| error_type st code msg transient retry :
    (st = statusForCode code ∨ st = 403 ∧ code = CodeUnauthorized ∧ no_credential r) →
    (∀ n, retry = Some n → 1 ≤ n) →
    response_type r (mkResponse st
      (match retry with Some n => [("Retry-After"%stdpp, FormatInt n)] | None => [] end ++ json_headers)
      (PError code msg transient retry)).

(** An error of the API the server may answer [r] with. *)
Definition typed_api (r : Request) (e : ApiError) : Prop :=
  match e with
  | BusE e => typed e ∨
      (Error.Status e = 403 ∧ Error.Code e = CodeUnauthorized ∧ no_credential r) ∧ Error.RetryAfter e = 0
  | PlainE _ => True
  end.

Lemma writeBusError_type r e : typed_api r e → response_type r (writeBusError e).
Proof.
  destruct e as [e|text]; cbn; intros He.
  - destruct (0 <? Error.RetryAfter e) eqn:Hr.
    + apply (error_type r _ _ _ _ (Some (Error.RetryAfter e))).
      * destruct He as [[? _]|[? _]]; auto.
      * intros n [= <-]. prop_bool. lia.
    + apply (error_type r _ _ _ _ None); [|done]. destruct He as [[? _]|[? _]]; auto.
  - by apply (error_type r 500 CodeInternal text true None); [left|].
Qed.

Lemma unauthorized_typed r msg : typed_api r (unauthorized msg).
Proof. left. by split. Qed.
Lemma forbidden_typed r msg : no_credential r → typed_api r (forbiddenError msg).
Proof. right. done. Qed.
Hint Resolve unauthorized_typed : typed.

Lemma body_of_typed r e : body_of O r = Err e → typed_api r e.
Proof.
  unfold body_of, readBody. destruct (body r) as [b|]; [|done].
  destruct (_ && _); [intros [= <-]; left; by split|].
  destruct (read_error b); [|done]. intros [= <-]. left. apply typed_newError.
Qed.

Lemma decoded_typed {A} r (x : result string A) e : decoded x = Err e → typed_api r e.
Proof. destruct x; cbn; [done|]. intros [= <-]. left. apply typed_newError. Qed.

Lemma verifySignature_typed r srv id sig payload e : verifySignature srv id sig payload = Some e → typed_api r e.
Proof. unfold verifySignature. cbv zeta. repeat (case_match; try done); intros [= <-]; auto with typed. Qed.

Lemma verify_scoped_typed token required payload srv r e :
  (token = false → TrimSpace (header r "X-Agent-ID"%stdpp) = ε →
   TrimSpace (header r "X-Bus-Signature"%stdpp) = ε → no_credential r) →
  verify_scoped token required payload srv r = Err e → typed_api r e.
Proof.
  intros Hn. unfold verify_scoped. cbv zeta. destruct token; [done|].
  destruct (is_empty (TrimSpace (header r "X-Agent-ID"%stdpp)) && _) eqn:He.
  - intros [= <-]. apply forbidden_typed. apply andb_true_iff in He as [H1 H2].
    apply bool_decide_eq_true in H1, H2. by apply Hn.
  - destruct (verifySignature _ _ _ _) eqn:Hv; [|done]. intros [= <-]. by eapply verifySignature_typed.
Qed.

Lemma verifyObserveAuth_typed srv r e : verifyObserveAuth O srv r = Err e → typed_api r e.
Proof. apply verify_scoped_typed. intros Ht H1 H2. right. split_and!; [by left|done..]. Qed.

Lemma verifyConversationCreateAuth_typed srv r payload e :
  routed r "/v1/conversations"%stdpp → method r = POST →
  verifyConversationCreateAuth O srv r payload = Err e → typed_api r e.
Proof.
  intros Hp Hm. apply verify_scoped_typed. intros Ht H1 H2. right. split_and!; [by right|done..].
Qed.

Lemma register_check_typed r srv e : register_check O r srv = Err e → typed_api r e.
Proof.
  unfold register_check. destruct (body_of O r) as [blob|e1] eqn:Hb; [|intros [= <-]; by eapply body_of_typed].
  destruct (decoded _) as [req|e1] eqn:Hd; [|intros [= <-]; by eapply decoded_typed]. cbv zeta.
  destruct (negb _); [intros [= <-]; auto with typed|].
  destruct (is_empty _); [intros [= <-]; left; by split|].
  destruct (verifyReregistrationProof _ _ _ _ _) as [e1|] eqn:Hv; [|done]. intros [= <-].
  revert Hv. unfold verifyReregistrationProof. repeat (case_match; try done). intros [= <-]. left. by split.
Qed.

Lemma typed_of_bus r (e : ApiError) : (∀ be, e = BusE be → typed be) → typed_api r e.
Proof. destruct e as [be|text]; [|done]. intros H. left. by apply H. Qed.

(** A handler of a route of one method refuses the others. *)
Lemma refused_method r p m :
  routed r p → takes p = [m] → bool_decide (method r = m) = false → response_type r method_not_allowed.
Proof.
  intros Hp Ht Hm%bool_decide_eq_false. apply (method_type r p Hp).
  by rewrite Ht, list_elem_of_singleton.
Qed.

Ltac not_allowed := eapply refused_method; [eassumption|reflexivity|assumption].
Ltac answered := apply answer_type; [cbn; auto|reflexivity].
(** Leaves the answer of a step that can fail; the error is typed by [lem]. *)
Ltac or_error f lem :=
  let a := fresh "a" in let e := fresh "e" in let Hf := fresh "Hf" in
  destruct f as [a|e] eqn:Hf; [|apply writeBusError_type; eapply lem; exact Hf].

Lemma err_or_Err {A} (a : A) (x : option ApiError) e : err_or a x = Err e → x = Some e.
Proof. destruct x; cbn; [by intros [= ->]|done]. Qed.

Lemma handleRegisterAgent_type r srv :
  routed r "/v1/agents/register"%stdpp → response_type r (handleRegisterAgent O r srv).2.
Proof.
  intros Hp. unfold handleRegisterAgent. destruct (bool_decide (method r = POST)) eqn:Hm; cbn [negb]; [|not_allowed].
  apply bool_decide_eq_true in Hm. destruct (register_check O r srv) as [req|e] eqn:Hc.
  2: { apply writeBusError_type. by eapply register_check_typed. }
  unfold register_apply. pose proof (λ e, te_register req (store srv) e) as Ht.
  destruct (API_RegisterAgent req (store srv)) as [s [agent|e]]; cbn in Ht.
  - destruct (setAgentSecret _ _ _) as [srv1 [e|]] eqn:Hs; cbn; [|answered].
    apply writeBusError_type. revert Hs. unfold setAgentSecret. cbv zeta.
    destruct (_ || _); [done|]. destruct (match API_secrets with Some _ => _ | None => _ end) as [s2 [t|]]; [|done].
    by intros [= _ <-].
  - apply writeBusError_type, typed_of_bus. intros be ->. by apply Ht.
Qed.

Lemma handleConversations_type r srv :
  routed r "/v1/conversations"%stdpp → response_type r (handleConversations O r srv).2.
Proof.
  intros Hp. unfold handleConversations. destruct (method r) eqn:Hm;
    [| |apply (method_type r _ Hp); rewrite Hm; unfold takes; cbn; set_solver..].
  - unfold handleConversationList. destruct (verifyObserveAuth O srv r) as [auth|e] eqn:Ha.
    + cbv zeta. destruct (API_ListConversations _ _). answered.
    + apply writeBusError_type. by eapply verifyObserveAuth_typed.
  - unfold handleConversationCreate. destruct (body_of O r) as [blob|e] eqn:Hb; [|apply writeBusError_type; by eapply body_of_typed].
    destruct (verifyConversationCreateAuth _ _ _ _) as [auth|e] eqn:Ha; [|apply writeBusError_type; by eapply verifyConversationCreateAuth_typed].
    destruct (decoded _) as [req|e] eqn:Hd; [|apply writeBusError_type; by eapply decoded_typed]. cbv zeta.
    match goal with |- context [API_CreateConversation ?i _] => pose proof (λ e, te_create i (store srv) e) as Ht end.
    destruct (API_CreateConversation _ _) as [st [c|e]]; cbn in Ht; [answered|].
    apply writeBusError_type, typed_of_bus. intros be ->. by apply Ht.
Qed.

Lemma handleConversationMessages_type r srv :
  routed r "/v1/conversations/"%stdpp → response_type r (handleConversationMessages O r srv).2.
Proof.
  intros Hp. unfold handleConversationMessages. destruct (bool_decide (method r = GET)) eqn:Hm; cbn [negb]; [|not_allowed].
  apply bool_decide_eq_true in Hm. destruct (path_conversation _) eqn:Hc; [|by apply no_conversation_type].
  destruct (verifyObserveAuth O srv r) as [auth|e] eqn:Ha; [|apply writeBusError_type; by eapply verifyObserveAuth_typed]. cbv zeta.
  match goal with |- context [API_ListConversationMessages ?i _] => pose proof (λ e, te_messages i (store srv) e) as Ht end.
  destruct (API_ListConversationMessages _ _) as [st [[[cid ms] next]|e]]; cbn in Ht; [answered|].
  apply writeBusError_type, typed_of_bus. intros be ->. by apply Ht.
Qed.

(** The four routes that take a signed body. *)
Lemma handleMessages_type r srv : routed r "/v1/messages"%stdpp → response_type r (handleMessages O r srv).2.
Proof.
  intros Hp. unfold handleMessages. destruct (bool_decide (method r = POST)) eqn:Hm; cbn [negb]; [|not_allowed].
  apply bool_decide_eq_true in Hm. destruct (body_of O r) as [blob|e] eqn:Hb; [|apply writeBusError_type; by eapply body_of_typed].
  destruct (decoded _) as [req|e] eqn:Hd; [|apply writeBusError_type; by eapply decoded_typed].
  destruct (verifySignature _ _ _ _) as [e|] eqn:Hv; cbn [err_or]; [apply writeBusError_type; by eapply verifySignature_typed|].
  pose proof (λ e, te_send req (store srv) e) as Ht.
  destruct (API_SendMessage _ _) as [st [[m dup]|e]]; cbn in Ht; [answered|].
  apply writeBusError_type, typed_of_bus. intros be ->. by apply Ht.
Qed.

Lemma handleAcks_type r srv : routed r "/v1/acks"%stdpp → response_type r (handleAcks O r srv).2.
Proof.
  intros Hp. unfold handleAcks. destruct (bool_decide (method r = POST)) eqn:Hm; cbn [negb]; [|not_allowed].
  apply bool_decide_eq_true in Hm. destruct (body_of O r) as [blob|e] eqn:Hb; [|apply writeBusError_type; by eapply body_of_typed].
  destruct (decoded _) as [req|e] eqn:Hd; [|apply writeBusError_type; by eapply decoded_typed].
  destruct (verifySignature _ _ _ _) as [e|] eqn:Hv; cbn [err_or]; [apply writeBusError_type; by eapply verifySignature_typed|].
  pose proof (λ e, te_ack req (store srv) e) as Ht.
  destruct (API_Ack _ _) as [st [e|]]; cbn in Ht |- *; [|answered].
  apply writeBusError_type, typed_of_bus. intros be ->. by apply Ht.
Qed.

Lemma handleEvents_type r srv : routed r "/v1/events"%stdpp → response_type r (handleEvents O r srv).2.
Proof.
  intros Hp. unfold handleEvents. destruct (bool_decide (method r = POST)) eqn:Hm; cbn [negb]; [|not_allowed].
  apply bool_decide_eq_true in Hm. destruct (body_of O r) as [blob|e] eqn:Hb; [|apply writeBusError_type; by eapply body_of_typed].
  destruct (decoded _) as [req|e] eqn:Hd; [|apply writeBusError_type; by eapply decoded_typed]. cbv zeta.
  destruct (verifySignature _ _ _ _) as [e|] eqn:Hv; cbn [err_or]; [apply writeBusError_type; by eapply verifySignature_typed|].
  match goal with |- context [API_PostEvent ?i _] => pose proof (λ e, te_event i (store srv) e) as Ht end.
  destruct (API_PostEvent _ _) as [st [e|]]; cbn in Ht |- *; [|answered].
  apply writeBusError_type, typed_of_bus. intros be ->. by apply Ht.
Qed.

Lemma handleInject_type r srv : routed r "/v1/inject"%stdpp → response_type r (handleInject O r srv).2.
Proof.
  intros Hp. unfold handleInject. destruct (bool_decide (method r = POST)) eqn:Hm; cbn [negb]; [|not_allowed].
  apply bool_decide_eq_true in Hm. destruct (validInjectToken O r) eqn:Ht0; cbn [negb]; [|apply writeBusError_type, forbidden_typed; by left].
  destruct (body_of O r) as [blob|e] eqn:Hb; [|apply writeBusError_type; by eapply body_of_typed].
  destruct (decoded _) as [req|e] eqn:Hd; [|apply writeBusError_type; by eapply decoded_typed].
  pose proof (λ e, te_inject req (store srv) e) as Ht.
  destruct (API_Inject _ _) as [st [m|e]]; cbn in Ht; [answered|].
  apply writeBusError_type, typed_of_bus. intros be ->. by apply Ht.
Qed.

Lemma handleInbox_type r srv : routed r "/v1/inbox"%stdpp → response_type r (handleInbox r srv).2.
Proof.
  intros Hp. unfold handleInbox. destruct (bool_decide (method r = GET)) eqn:Hm; cbn [negb]; [|not_allowed].
  apply bool_decide_eq_true in Hm. cbv zeta.
  destruct (verifySignature _ _ _ _) as [e|] eqn:Hv; cbn [err_or]; [apply writeBusError_type; by eapply verifySignature_typed|].
  match goal with |- context [API_PollInbox ?i _] => pose proof (λ e, te_poll i (store srv) e) as Ht end.
  destruct (API_PollInbox _ _) as [st [[events next]|e]]; cbn in Ht; [answered|].
  apply writeBusError_type, typed_of_bus. intros be ->. by apply Ht.
Qed.

Lemma handleObserve_type turns r srv :
  routed r "/v1/observe"%stdpp → response_type r (handleObserve O MarshalData turns r srv).2.
Proof.
  intros Hp. unfold handleObserve. destruct (bool_decide (method r = GET)) eqn:Hm; cbn [negb]; [|not_allowed].
  apply bool_decide_eq_true in Hm. destruct (verifyObserveAuth O srv r) as [auth|e] eqn:Ha; [|apply writeBusError_type; by eapply verifyObserveAuth_typed].
  destruct (negb _); [apply writeBusError_type; left; apply typed_newError|]. cbv zeta.
  destruct (observe_loop _ _ _ _ _) as [st frames]. by apply answer_type.
Qed.

Lemma read_route_type {A} (m : Σ → Σ * A) h (p : A → Payload) r srv pattern :
  routed r pattern → takes pattern = [GET] →
  (method r = GET → ∀ a, answers r (p a) ∧ match p a with PText _ | PStream _ => True | _ => h = json_headers end) →
  response_type r (if negb (bool_decide (method r = GET)) then (srv, method_not_allowed) else
    let '(s, a) := m (store srv) in (set_store s srv, mkResponse 200 h (p a))).2.
Proof.
  intros Hr Ht Hp. destruct (bool_decide (method r = GET)) eqn:Hm; cbn [negb]; [|by eapply refused_method].
  apply bool_decide_eq_true in Hm. destruct (m (store srv)) as [st a]. by apply answer_type; apply Hp.
Qed.

Lemma handleListAgents_type r srv : routed r "/v1/agents"%stdpp → response_type r (handleListAgents r srv).2.
Proof. intros Hp. unfold handleListAgents, writeJSON. by apply (read_route_type _ _ PAgents _ _ _ Hp). Qed.

Lemma handleHealth_type r srv p :
  p ∈ ["/health"; "/v1/health"]%stdpp → routed r p → response_type r (handleHealth r srv).2.
Proof.
  intros Hin Hp. unfold handleHealth, writeJSON. apply (read_route_type _ _ PMap _ _ _ Hp).
  - by repeat (apply elem_of_cons in Hin as [->|Hin]; [done|]); apply not_elem_of_nil in Hin.
  - intros Hm a. split; [|done]. split; [|done].
    apply elem_of_cons in Hin as [->|Hin]; [by left|]. apply list_elem_of_singleton in Hin as ->. right. by left.
Qed.

Lemma handleMetrics_type r srv : routed r "/metrics"%stdpp → response_type r (handleMetrics r srv).2.
Proof. intros Hp. unfold handleMetrics. by apply (read_route_type _ _ PText _ _ _ Hp). Qed.

Lemma handleSystemStatus_type r srv :
  routed r "/v1/system/status"%stdpp → response_type r (handleSystemStatus r srv).2.
Proof.
  intros Hp. unfold handleSystemStatus, writeJSON. apply (read_route_type _ _ PMap _ _ _ Hp); [done|].
  intros Hm a. split; [|done]. split; [|done]. by do 2 right.
Qed.

Create HintDb routes.
Hint Resolve handleRegisterAgent_type handleListAgents_type handleConversations_type
  handleConversationMessages_type handleMessages_type handleInbox_type handleAcks_type handleEvents_type
  handleObserve_type handleInject_type handleHealth_type handleMetrics_type handleSystemStatus_type : routes.

(** A concrete pattern is served by its handler. *)
Ltac served Hf :=
  unfold serve_pattern, handleTopLevelHealth; cbv zeta;
  repeat (rewrite bool_decide_eq_false_2 by done); rewrite bool_decide_eq_true_2 by done; cbv match;
  first [solve [eauto with routes]|eapply handleHealth_type; [|exact Hf]; set_solver].

(** What the interface gives the server: its responses are of those forms
    whichever store is behind it. *)
Lemma ServeHTTP_type turns r srv : response_type r (ServeHTTP O MarshalData turns r srv).2.
Proof.
  unfold ServeHTTP. destruct (findHandler patterns r) as [own|pattern] eqn:Hf; cbn [snd].
  { apply findHandler_own in Hf as [[-> ?]|[(-> & ? & ?)|(-> & ? & ?)]];
      [by apply target_type|by apply unknown_type|by apply redirect_type]. }
  fold (routed r pattern) in Hf. pose proof (findHandler_pattern _ _ _ Hf) as [Hin _].
  unfold patterns in Hin.
  repeat (apply elem_of_cons in Hin as [->|Hin]; [served Hf|]). by apply not_elem_of_nil in Hin.
Qed.
End responses.

(** C18: Whatever the request and the state of the server, and whichever of the
    three stores is behind it, the response has one of these forms: an answer
    with status 200 whose payload is of the kind of the route and method of the
    request, and which is JSON unless it is the metrics text or the stream; the
    multiplexer's own answer, 400 to the target [*], a 301 to the clean form of
    a path that is not clean, and the text of a 404 for a clean path that no
    pattern matches; a bare 404 for a path below the conversations that names
    none, and a bare 405 for a method the matched pattern does not take; or an
    error body, whose status is that of its code except that a request with no
    credential at all, where one is asked for, is unauthorized with 403 instead
    of 401, and in which [retry_after] is at least one second and is repeated by
    the header. *)
Theorem responses_are_typed `{Codec} `{Decoder} (E : Static) (O : Options) MarshalData epoch path describe
    clock_m clock_p clock_q :
  (∀ turns r (srv : Server (World Store)),
    response_type O r (ServeHTTP (Impl := memory_API E epoch clock_m) O MarshalData turns r srv).2) ∧
  (∀ turns r (srv : Server (World (Disk * PersistentStore))),
    response_type O r (ServeHTTP (Impl := snapshot_API E epoch path clock_p) O MarshalData turns r srv).2) ∧
  (∀ turns r (srv : Server (World SQLiteStore)),
    response_type O r (ServeHTTP (Impl := sqlite_API E epoch clock_q describe) O MarshalData turns r srv).2).
Proof.
  split_and!; intros turns r srv; apply ServeHTTP_type.
Qed.
