(* ===== verification/Client.v ===== *)
(** * The Go client: [pkg/busclient/client.go]

    Each method builds one request, hands it to [http.Client.Do] and reads the
    reply.  [http_do] is that call, on whatever lies behind the network; its
    error covers invalid URLs, contexts and time-outs.  [encode_*] are
    [json.Marshal] of the request structs and [decode_*] the reply fields
    [json.Unmarshal] yields. *)
From stdpp Require Import gmap strings list.
From Stdlib Require Import ZArith Lia Ascii.
From S2P Require Import Prelude GoBase Sha256 Utf8 Json Types Text.

(** ** Data *)

Module ClientAttachment.
Record t := mk { URL : string; Name : string; ContentType : string; Size : Z }.
End ClientAttachment.

Module ClientEvent.
Record t := mk {
  MessageID : string;
  Typ : string;
  From : string;
  ConversationID : string;
  Body : string;
  Meta : json;
  Attachments : list ClientAttachment.t;
  CreatedAt : Time }.
End ClientEvent.

Module RegisterAgentRequest.
Record t := mk {
  AgentID : string;
  Secret : string;
  AllowedScopes : list string;
  SharedGrants : list string;
  Capabilities : list string;
  Version : string;
  Description : string;
  AgentClass : string;
  MutationClass : string;
  Build : option BuildInfo.t;
  Meta : option AgentMeta.t;
  Mode : string;
  CallbackURL : string;
  TTL : Z }.

Definition with_defaults (mode : string) (ttl : Z) (r : t) : t :=
  mk (AgentID r) (Secret r) (AllowedScopes r) (SharedGrants r) (Capabilities r) (Version r)
    (Description r) (AgentClass r) (MutationClass r) (Build r) (Meta r) mode (CallbackURL r) ttl.
End RegisterAgentRequest.

Module AgentInfo.
Record t := mk {
  AgentID : string;
  AllowedScopes : list string;
  SharedGrants : list string;
  Capabilities : list string;
  Version : string;
  Description : string;
  AgentClass : string;
  MutationClass : string;
  Build : option BuildInfo.t;
  Meta : option AgentMeta.t;
  Status : string }.
End AgentInfo.

Module CreateConversationRequest.
Record t := mk { ConversationID : string; Title : string; Participants : list string; Meta : json }.
End CreateConversationRequest.

(** The maps [SendMessage], [Ack] and [Event] marshal, by their entries. *)
Module SendPayload.
Record t := mk {
  To : string; From : string; ConversationID : string; RequestID : string; Typ : string;
  Body : string; Attachments : list ClientAttachment.t; Meta : json }.
End SendPayload.

Module EventPayload.
Record t := mk { MessageID : string; Typ : string; Body : string; Meta : json }.
End EventPayload.

Class ClientJSON := {
  encode_register : RegisterAgentRequest.t → string;
  encode_send : SendPayload.t → string;
  encode_conversation : CreateConversationRequest.t → string;
  encode_ack : string → string → string → string → string;
  encode_event : EventPayload.t → string;
  decode_message_id : string → result string string;
  decode_conversation_id : string → result string string;
  decode_inbox : string → result string (list ClientEvent.t * string);
  decode_agents : string → result string (list AgentInfo.t) }.

(** ** One exchange *)

Record ClientRequest := mkClientRequest {
  c_method : string;
  c_url : string;
  c_payload : option string;
  c_headers : list (string * string) }.

Record Reply := mkReply { code : Z; blob : string; read_err : option string }.

Definition Sign (secret payload : string) : string := EncodeToString (hmac_sha256 secret payload).

(** [strings.TrimRight(baseURL, "/")] *)
Fixpoint drop_slashes (l : list ascii) : list ascii :=
  match l with "/"%char :: l => drop_slashes l | _ => l end.

Definition TrimRight_slash (s : string) : string :=
  of_bytes (rev (drop_slashes (rev (bytes s)))).

Record Client := mkClient { baseURL : string; http_timeout : Duration }.

Definition defaultHTTPTimeout : Duration := 15 * Second.

Definition NewClientWithTimeout (baseURL : string) (timeout : Duration) : Client :=
  mkClient (TrimRight_slash baseURL) (if timeout <=? 0 then defaultHTTPTimeout else timeout).

Definition NewClient (baseURL : string) : Client := NewClientWithTimeout baseURL defaultHTTPTimeout.

Section client.
Context {W : Type} `{ClientJSON} (c : Client).
Context (http_do : ClientRequest → W → W * result string Reply).

(** The body of a reply with a status below 400. *)
Definition DoJSON (method path : string) (payload : option string)
    (headers : list (string * string)) (w : W) : W * result string string :=
  let headers := match payload with
                 | Some _ => ("Content-Type", "application/json")%stdpp :: headers
                 | None => headers
                 end in
  let '(w, res) := http_do (mkClientRequest method (baseURL c +:+ path) payload headers) w in
  (w,
   match res with
   | Err err => Err err
   | Ok reply =>
       match read_err reply with
       | Some err =>
           Err ("read "%stdpp +:+ method +:+ " "%stdpp +:+ path +:+ " response: "%stdpp +:+ err)
       | None =>
           if 400 <=? code reply then
             Err (method +:+ " "%stdpp +:+ path +:+ " failed status="%stdpp
                  +:+ FormatInt (code reply) +:+ " body="%stdpp +:+ blob reply)
           else Ok (blob reply)
       end
   end).

(** An operation without a reply. *)
Definition only_error {A} (r : W * result string A) : W * option string :=
  (r.1, match r.2 with Err e => Some e | Ok _ => None end).

(** A reply that must name an identifier. *)
Definition named_reply (decode : string → result string string) (field : string)
    (r : W * result string string) : W * result string string :=
  (r.1,
   match r.2 with
   | Err e => Err e
   | Ok out =>
       match decode out with
       | Err e => Err e
       | Ok id =>
           if is_empty (TrimSpace id) then Err ("missing "%stdpp +:+ field +:+ " in response"%stdpp)
           else Ok id
       end
   end).

Definition signature_header (secret payload : string) : string * string :=
  ("X-Bus-Signature"%stdpp, Sign secret payload).

(** ** The methods *)

Definition RegisterAgentWithPassport (req : RegisterAgentRequest.t) (w : W) : W * option string :=
  let mode := if is_empty (TrimSpace (RegisterAgentRequest.Mode req)) then "pull"%stdpp
              else RegisterAgentRequest.Mode req in
  let ttl := if RegisterAgentRequest.TTL req <=? 0 then 120 else RegisterAgentRequest.TTL req in
  let body := encode_register (RegisterAgentRequest.with_defaults mode ttl req) in
  only_error (DoJSON "POST" "/v1/agents/register" (Some body) [] w)%stdpp.

Definition RegisterAgentWithDescription (agentID secret : string) (capabilities : list string)
    (description : string) (w : W) : W * option string :=
  RegisterAgentWithPassport
    (RegisterAgentRequest.mk agentID secret [] [] capabilities ε (TrimSpace description) ε ε None None
       "pull"%stdpp ε 120) w.

Definition RegisterAgent (agentID secret : string) (capabilities : list string) (w : W) :=
  RegisterAgentWithDescription agentID secret capabilities ε w.

Definition SendMessage (from secret to conversationID requestID messageType bodyText : string)
    (attachments : list ClientAttachment.t) (meta : json) (w : W) : W * result string string :=
  let blob := encode_send
    (SendPayload.mk to from conversationID requestID messageType bodyText attachments meta) in
  named_reply decode_message_id "message_id"%stdpp
    (DoJSON "POST" "/v1/messages" (Some blob) [signature_header secret blob] w)%stdpp.

Definition CreateConversation (agentID secret : string) (req : CreateConversationRequest.t) (w : W)
    : W * result string string :=
  let blob := encode_conversation req in
  named_reply decode_conversation_id "conversation_id"%stdpp
    (DoJSON "POST" "/v1/conversations" (Some blob)
       [("X-Agent-ID", agentID); signature_header secret blob] w)%stdpp.

(** [Encode] writes the keys in order. *)
Definition poll_query (agentID : string) (cursor waitSec limit : Z) : string :=
  Encode ([("agent_id"%stdpp, agentID); ("cursor"%stdpp, FormatInt cursor)]
          ++ (if 0 <? limit then [("limit"%stdpp, FormatInt limit)] else [])
          ++ [("wait"%stdpp, FormatInt waitSec)]).

(** The result on an error repeats the cursor. *)
Definition PollInboxLimited (agentID secret : string) (cursor waitSec limit : Z) (w : W)
    : W * result string (list ClientEvent.t) * Z :=
  let rawQuery := poll_query agentID cursor waitSec limit in
  let '(w, out) := DoJSON "GET" ("/v1/inbox?" +:+ rawQuery) None
                     [signature_header secret rawQuery] w in
  match out with
  | Err e => (w, Err e, cursor)
  | Ok out =>
      match decode_inbox out with
      | Err e => (w, Err e, cursor)
      | Ok (events, text) =>
          (w, Ok events, match Atoi (TrimSpace text) with Ok next => next | Err _ => cursor end)
      end
  end%stdpp.

Definition PollInbox (agentID secret : string) (cursor waitSec : Z) (w : W) :=
  PollInboxLimited agentID secret cursor waitSec 0 w.

Definition Ack (agentID secret messageID status reason : string) (w : W) : W * option string :=
  let blob := encode_ack agentID messageID status reason in
  only_error (DoJSON "POST" "/v1/acks" (Some blob) [signature_header secret blob] w)%stdpp.

Definition Event (agentID secret messageID eventType body : string) (meta : json) (w : W)
    : W * option string :=
  let blob := encode_event (EventPayload.mk messageID eventType body meta) in
  only_error (DoJSON "POST" "/v1/events" (Some blob)
                [("X-Agent-ID", agentID); signature_header secret blob] w)%stdpp.

Definition ListAgents (capability : string) (w : W) : W * result string (list AgentInfo.t) :=
  let path := if is_empty capability then "/v1/agents"%stdpp
              else "/v1/agents?capability="%stdpp +:+ QueryEscape capability in
  let '(w, out) := DoJSON "GET"%stdpp path None [] w in
  (w, match out with Err e => Err e | Ok out => decode_agents out end).

End client.
