(* ===== verification/ClientProps.v ===== *)
(** * The client against the server

    The client of [pkg/busclient] talking to the server of [pkg/httpapi]: a
    remote call has the effect and the result of the call on the store. *)
From stdpp Require Import gmap strings list.
From Stdlib Require Import ZArith Lia Ascii.
From S2P Require Import Prelude GoBase Sha256 Utf8 Json Types Scope Config Auth Ring State Inbox Sweep Poll System Scenario Text Configutil Http Handlers HttpStore HttpProps Client.

(** ** Signatures *)

Lemma hex_graphic c : is_Some (hex_value c) → graphic c = true.
Proof. destruct c as [[] [] [] [] [] [] [] []]; vm_compute; try done; by intros []. Qed.

(** What the client computes, the server accepts. *)
Lemma Sign_signs secret payload : signs secret (Sign secret payload) payload.
Proof.
  unfold signs, Sign. set (mac := hmac_sha256 secret payload).
  assert (∀ c, c ∈ bytes (EncodeToString mac) → is_Some (hex_value c)) as Hhex.
  { intros c. unfold EncodeToString. rewrite bytes_of_bytes. apply hex_encoded. }
  rewrite TrimSpace_graphic by (apply Forall_forall; intros c Hc; by apply hex_graphic, Hhex).
  assert (DecodeString (EncodeToString mac) = Some mac) as Hd by apply DecodeString_EncodeToString.
  split.
  - intros He. rewrite He in Hd. injection Hd as Hm. pose proof (hmac_sha256_length secret payload) as Hl.
    fold mac in Hl. by rewrite <-Hm in Hl.
  - unfold strip_sha256, HasPrefix. rewrite bool_decide_eq_false_2; [done|].
    intros [k Hk]. unfold ToLower in Hk. rewrite bytes_of_bytes in Hk.
    destruct (bytes (EncodeToString mac)) as [|c l] eqn:Eb; [done|]. cbn in Hk. injection Hk as Hs _.
    destruct (Hhex c) as [v Hv]; [left|]. rewrite <-hex_value_lower, Hs in Hv. by vm_compute in Hv.
Qed.

(** ** The server on the other side *)

Definition method_of (m : string) : Method :=
  if bool_decide (m = "GET"%stdpp) then GET
  else if bool_decide (m = "POST"%stdpp) then POST
  else if bool_decide (m = "HEAD"%stdpp) then HEAD
  else if bool_decide (m = "CONNECT"%stdpp) then CONNECT else OtherMethod.

Definition header_of (hs : list (string * string)) (name : string) : string :=
  match List.find (λ '(k, _), bool_decide (k = name)) hs with Some (_, v) => v | None => ε end.

(** The request as the server sees it. *)
Definition arrives (base : string) (q : ClientRequest) : Request :=
  let '(path, rawQuery, _) := Cut (TrimPrefix (c_url q) base) "?"%char in
  mkRequest (method_of (c_method q)) path rawQuery (header_of (c_headers q))
    (Some (mkBody (default ε (c_payload q)) None)) true.

Section remote.
Context {Σ : Type} `{Impl : API Σ} `{D : Decoder} `{CJ : ClientJSON}.
Context (O : Options) (MarshalData : json → option string) (render : Payload → string) (c : Client).
Implicit Types (srv : Server Σ).

Definition http_do (q : ClientRequest) srv : Server Σ * result string Reply :=
  let '(srv, resp) := ServeHTTP O MarshalData [] (arrives (baseURL c) q) srv in
  (srv, Ok (mkReply (status resp) (render (payload resp)) None)).

(** What [DoJSON] makes of the server's response. *)
Lemma DoJSON_remote method path payload_ headers srv :
  let q := mkClientRequest method (baseURL c +:+ path) payload_
    (match payload_ with Some _ => [("Content-Type", "application/json")]%stdpp | None => [] end ++ headers) in
  let out := ServeHTTP O MarshalData [] (arrives (baseURL c) q) srv in
  ∃ refused, DoJSON c http_do method path payload_ headers srv =
    (out.1, if 400 <=? status out.2 then Err refused else Ok (render (payload out.2))).
Proof.
  cbv zeta. unfold DoJSON, http_do.
  destruct payload_; cbn [app]; destruct (ServeHTTP _ _ _ _ _) as [srv' resp]; cbn;
    case_bool; eauto; by exists ε.
Qed.

Lemma arrives_path method base path payload_ headers :
  Contains path "?"%char = false →
  arrives base (mkClientRequest method (base +:+ path) payload_ headers) =
  mkRequest (method_of method) path ε (header_of headers) (Some (mkBody (default ε payload_) None)) true.
Proof. intros Hp. unfold arrives. cbn [c_url]. by rewrite TrimPrefix_app, Cut_not_Contains. Qed.

(** An agent with a secret. *)
Definition has_secret srv (agentID secret : string) : Prop :=
  TrimSpace agentID ≠ ε ∧ TrimSpace secret ≠ ε ∧ agentSecrets srv !! TrimSpace agentID = Some secret.

Lemma verify_signed srv agentID secret payload :
  has_secret srv agentID secret → verifySignature srv agentID (Sign secret payload) payload = None.
Proof.
  intros (Hid & Hs & Ha). apply verifySignature_None. split; [done|]. exists secret.
  split_and!; [done|done|]. apply Sign_signs.
Qed.

(** *** Polling *)

Lemma FormatInt_nonblank n : int64_range n → is_empty (TrimSpace (FormatInt n)) = false.
Proof.
  intros Hn. rewrite TrimSpace_FormatInt. unfold is_empty. apply bool_decide_eq_false. intros He.
  pose proof (ParseInt_FormatInt n Hn) as Hp. by rewrite He in Hp.
Qed.

Lemma parseInt_FormatInt n def : int64_range n → parseInt (FormatInt n) def = n.
Proof. intros Hn. unfold parseInt, Atoi. by rewrite FormatInt_nonblank, ParseInt_FormatInt. Qed.

Lemma parseWait_FormatInt n : int64_range n → parseWaitSeconds (FormatInt n) = seconds (Z.max 0 n).
Proof.
  intros Hn. unfold parseWaitSeconds, Atoi. rewrite FormatInt_nonblank, ParseInt_FormatInt by done. f_equal.
  case_bool; prop_bool; lia.
Qed.

Lemma poll_query_get agentID cursor waitSec limit :
  let raw := poll_query agentID cursor waitSec limit in
  query_get raw "agent_id"%stdpp = agentID ∧ query_get raw "cursor"%stdpp = FormatInt cursor ∧
  query_get raw "wait"%stdpp = FormatInt waitSec ∧
  query_get raw "limit"%stdpp = if 0 <? limit then FormatInt limit else ε.
Proof.
  cbv zeta. unfold poll_query. rewrite !query_get_Encode by done. by destruct (0 <? limit).
Qed.

Lemma serve_inbox r srv :
  EscapedPath r = "/v1/inbox"%stdpp → ServeHTTP O MarshalData [] r srv = handleInbox r srv.
Proof.
  intros Hp. unfold ServeHTTP.
  rewrite (findHandler_clean patterns r _ "/v1/inbox"%stdpp Hp); [done|by vm_compute..].
Qed.

Lemma arrives_query method base path query_ payload_ headers :
  Contains path "?"%char = false →
  arrives base (mkClientRequest method (base +:+ path +:+ "?"%stdpp +:+ query_) payload_ headers) =
  mkRequest (method_of method) path query_ (header_of headers) (Some (mkBody (default ε payload_) None)) true.
Proof.
  intros Hp. unfold arrives. cbn [c_url]. rewrite TrimPrefix_app.
  unfold Cut. rewrite !bytes_app. change (bytes "?"%stdpp) with ["?"%char]. cbn [app].
  rewrite cut_bytes_app by (unfold Contains in Hp; by prop_bool). by rewrite !of_bytes_bytes.
Qed.

(** The poll the client's arguments stand for. *)
Definition remote_poll_input (agentID : string) (cursor waitSec limit : Z) : PollInboxInput.t :=
  PollInboxInput.mk (TrimSpace agentID) cursor (seconds (Z.max 0 waitSec)) (Z.max 0 limit).

Lemma handleInbox_poll agentID secret cursor waitSec limit srv :
  has_secret srv agentID secret → int64_range cursor → int64_range waitSec → int64_range limit →
  let rawQuery := poll_query agentID cursor waitSec limit in
  let '(s, res) := API_PollInbox (remote_poll_input agentID cursor waitSec limit) (store srv) in
  handleInbox (mkRequest GET "/v1/inbox"%stdpp rawQuery (header_of [signature_header secret rawQuery])
                 (Some (mkBody ε None)) true) srv =
  (set_store s srv,
   match res with
   | Err e => writeBusError e
   | Ok (events, next) => writeJSON 200 (PInbox events (FormatInt next))
   end).
Proof.
  intros Hsec Hc Hw Hl. cbv zeta. set (rawQuery := poll_query agentID cursor waitSec limit).
  destruct (poll_query_get agentID cursor waitSec limit) as (Q1 & Q2 & Q3 & Q4).
  fold rawQuery in Q1, Q2, Q3, Q4. clearbody rawQuery.
  assert (verifySignature srv (TrimSpace agentID) (Sign secret rawQuery) rawQuery = None) as Hv.
  { apply verifySignature_None, signed_trim, verifySignature_None. by apply verify_signed. }
  unfold handleInbox, query. cbn [method RawQuery header]. rewrite Q1, Q2, Q3, Q4.
  change (header_of [signature_header secret rawQuery] "X-Bus-Signature"%stdpp) with (Sign secret rawQuery).
  rewrite (bool_decide_eq_true_2 (GET = GET)) by done. cbn [negb].
  rewrite Hv. cbn [err_or]. rewrite parseInt_FormatInt, parseWait_FormatInt by done.
  assert (parseInt (if 0 <? limit then FormatInt limit else ε) 0 = Z.max 0 limit) as ->.
  { destruct (0 <? limit) eqn:E; prop_bool; [rewrite parseInt_FormatInt by done|]; [lia|].
    change (parseInt ε 0) with 0. lia. }
  unfold remote_poll_input. by destruct (API_PollInbox _ _) as [s [[events next]|e]].
Qed.

(** The part of an event the client keeps. *)
Definition client_attachment (a : Attachment.t) : ClientAttachment.t :=
  ClientAttachment.mk (Attachment.URL a) (Attachment.Name a) (Attachment.ContentType a) (Attachment.Size a).

Definition client_event (e : InboxEvent.t) : ClientEvent.t :=
  ClientEvent.mk (InboxEvent.MessageID e) (MessageType_string (InboxEvent.Typ e)) (InboxEvent.From e)
    (InboxEvent.ConversationID e) (InboxEvent.Body e) (InboxEvent.Meta e)
    (client_attachment <$> InboxEvent.Attachments e) (InboxEvent.CreatedAt e).

(** C13: A poll through the client and the server is the poll of the store:
    the signature is accepted, the store gets the agent, cursor, wait and
    limit the caller gave, and the caller gets its events and its cursor.  A
    refusal leaves the caller its own cursor. *)
Theorem remote_poll agentID secret cursor waitSec limit srv s res :
  has_secret srv agentID secret → int64_range cursor → int64_range waitSec → int64_range limit →
  API_PollInbox (remote_poll_input agentID cursor waitSec limit) (store srv) = (s, res) →
  match res with
  | Ok (events, next) =>
      int64_range next →
      decode_inbox (render (PInbox events (FormatInt next))) = Ok (client_event <$> events, FormatInt next) →
      PollInboxLimited c http_do agentID secret cursor waitSec limit srv =
        (set_store s srv, Ok (client_event <$> events), next)
  | Err e =>
      400 ≤ status (writeBusError e) →
      ∃ text, PollInboxLimited c http_do agentID secret cursor waitSec limit srv =
        (set_store s srv, Err text, cursor)
  end.
Proof.
  intros Hsec Hc Hw Hl Hapi. unfold PollInboxLimited. cbv zeta.
  set (rawQuery := poll_query agentID cursor waitSec limit).
  destruct (DoJSON_remote "GET"%stdpp ("/v1/inbox?"%stdpp +:+ rawQuery) None
    [signature_header secret rawQuery] srv) as [refused ->].
  cbn [app]. change ("/v1/inbox?"%stdpp +:+ rawQuery) with ("/v1/inbox"%stdpp +:+ "?"%stdpp +:+ rawQuery).
  rewrite arrives_query by reflexivity. rewrite serve_inbox by done.
  pose proof (handleInbox_poll agentID secret cursor waitSec limit srv Hsec Hc Hw Hl) as Hh.
  cbv zeta in Hh. fold rawQuery in Hh. rewrite Hapi in Hh.
  change (method_of "GET"%stdpp) with GET. cbn [default]. rewrite Hh. cbn [fst snd].
  destruct res as [[events next]|e].
  - intros Hn Hdec. cbn [status writeJSON payload]. change (400 <=? 200) with false. cbn iota.
    rewrite Hdec, TrimSpace_FormatInt. unfold Atoi. by rewrite ParseInt_FormatInt.
  - intros Hst. rewrite (proj2 (Z.leb_le _ _) Hst). by exists refused.
Qed.

(** *** Sending *)

Lemma serve_messages r srv :
  EscapedPath r = "/v1/messages"%stdpp → ServeHTTP O MarshalData [] r srv = handleMessages O r srv.
Proof.
  intros Hp. unfold ServeHTTP.
  rewrite (findHandler_clean patterns r _ "/v1/messages"%stdpp Hp); [done|by vm_compute..].
Qed.

Lemma body_arrived method path hs blob :
  blob ≠ ε → (0 < maxBodyBytes O → len blob ≤ maxBodyBytes O) →
  body_of O (mkRequest method path ε hs (Some (mkBody blob None)) true) = Ok blob.
Proof.
  intros Hne Hl. unfold body_of, readBody. cbn [body content read_error].
  assert ((0 <? maxBodyBytes O) && (maxBodyBytes O <? len blob) = false) as ->.
  { destruct (Z.ltb_spec 0 (maxBodyBytes O)); [|done]. apply Z.ltb_ge. auto. }
  unfold is_empty. by rewrite bool_decide_eq_false_2.
Qed.

(** A message sent through the client and the server is sent to the
    store: when the server reads the body the client wrote as the same
    message and it is within the size limit, the store gets it and the caller
    gets the identifier of the stored message, for a duplicate that of the
    first. *)
Theorem remote_send from secret to cid requestID typ text attachments meta srv input s m dup :
  let blob := encode_send (SendPayload.mk to from cid requestID typ text attachments meta) in
  has_secret srv from secret →
  blob ≠ ε → (0 < maxBodyBytes O → len blob ≤ maxBodyBytes O) →
  decode_message blob = Ok input → SendMessageInput.From input = from →
  API_SendMessage input (store srv) = (s, Ok (m, dup)) →
  decode_message_id (render (PSent (Message.MessageID m) dup)) = Ok (Message.MessageID m) →
  TrimSpace (Message.MessageID m) ≠ ε →
  SendMessage c http_do from secret to cid requestID typ text attachments meta srv =
    (set_store s srv, Ok (Message.MessageID m)).
Proof.
  cbv zeta. intros Hsec Hne Hlen Hdec Hfrom Hapi Hid Hnb. unfold SendMessage. cbv zeta.
  set (blob := encode_send _) in *.
  destruct (DoJSON_remote "POST"%stdpp "/v1/messages"%stdpp (Some blob) [signature_header secret blob] srv)
    as [refused ->].
  rewrite arrives_path by reflexivity. rewrite serve_messages by done.
  change (default ε (Some blob)) with blob.
  unfold handleMessages. change (method_of "POST"%stdpp) with POST. cbn [method header].
  rewrite (bool_decide_eq_true_2 (POST = POST)) by done. cbn [negb].
  rewrite body_arrived by done.
  cbv beta iota. rewrite Hdec. cbn [decoded]. rewrite Hfrom.
  change (header_of _ "X-Bus-Signature"%stdpp) with (Sign secret blob).
  rewrite verify_signed by done. cbn [err_or]. rewrite Hapi.
  unfold named_reply. cbn [fst snd status writeJSON payload]. change (400 <=? 200) with false. cbn iota.
  rewrite Hid. unfold is_empty. by rewrite bool_decide_eq_false_2.
Qed.

End remote.

(** ** Concrete calls *)

Definition wire_json : ClientJSON := {|
  encode_register _ := ε;
  encode_send _ := "{...}"%stdpp;
  encode_conversation _ := ε;
  encode_ack _ _ _ _ := ε;
  encode_event _ := ε;
  decode_message_id out := Ok out;
  decode_conversation_id out := Ok out;
  decode_inbox out := Ok ([], out);
  decode_agents _ := Ok [] |}.

Definition wire_text (p : Payload) : string :=
  match p with PSent id _ => id | PInbox _ cursor => cursor | _ => ε end.

Definition local : Client := NewClient "http://localhost:8080/"%stdpp.
Definition alice_server : Server (World Store) :=
  mkServer (0%nat, registered.2) {[alice := "s3cret"%stdpp]} ∅.

Definition polled : World Store * result ApiError (list InboxEvent.t * Z) :=
  API_PollInbox (API:=memory) (remote_poll_input alice 0 0 0) (store alice_server).

Lemma remote_poll_witness :
  PollInboxLimited (H:=wire_json) local
    (http_do (Impl:=memory) (D:=forging) options no_marshal wire_text local)
    alice "s3cret"%stdpp 0 0 0 alice_server = (set_store polled.1 alice_server, Ok [], 0).
Proof.
  assert (API_PollInbox (API:=memory) (remote_poll_input alice 0 0 0) (store alice_server) =
    (polled.1, Ok ([], 0))) as Hp by (vm_compute; reflexivity).
  apply (remote_poll (Impl:=memory) (D:=forging) (CJ:=wire_json) options no_marshal wire_text local
    alice "s3cret"%stdpp 0 0 0 alice_server polled.1 (Ok ([], 0))).
  - split; [vm_compute; discriminate|split; [vm_compute; discriminate|vm_compute; reflexivity]].
  - split; vm_compute; discriminate.
  - split; vm_compute; discriminate.
  - split; vm_compute; discriminate.
  - exact Hp.
  - split; vm_compute; discriminate.
  - reflexivity.
Defined.

Definition sent : World Store * result ApiError (Message.t * bool) :=
  API_SendMessage (API:=memory) request1 (store alice_server).

Lemma remote_send_witness :
  SendMessage (H:=wire_json) local
    (http_do (Impl:=memory) (D:=forging) options no_marshal wire_text local)
    alice "s3cret"%stdpp bob ε "r-1"%stdpp ε "ping"%stdpp [] JNull alice_server =
  (set_store sent.1 alice_server, Ok "m-000001"%stdpp).
Proof.
  destruct sent as [s1 [[m dup]|e]] eqn:Hs; [|exfalso; revert Hs; vm_compute; discriminate].
  assert (Message.MessageID m = "m-000001"%stdpp) as Hid.
  { assert (match sent.2 with Ok (x, _) => Message.MessageID x | Err _ => ε end = "m-000001"%stdpp) as H
      by (vm_compute; reflexivity). rewrite Hs in H. exact H. }
  rewrite <-Hid.
  apply (remote_send (Impl:=memory) (D:=forging) (CJ:=wire_json) options no_marshal wire_text local
    alice "s3cret"%stdpp bob ε "r-1"%stdpp ε "ping"%stdpp [] JNull alice_server request1 s1 m dup).
  - split; [vm_compute; discriminate|split; [vm_compute; discriminate|vm_compute; reflexivity]].
  - vm_compute. discriminate.
  - intros _. vm_compute. discriminate.
  - reflexivity.
  - reflexivity.
  - exact Hs.
  - reflexivity.
  - rewrite Hid. vm_compute. discriminate.
Defined.
