(* ===== verification/Watch.v ===== *)
(** * The allowlist watcher: [WatchAllowlistFile] of [pkg/httpapi/server.go]

    The watcher follows the directory of the file and reloads the list on the
    events that name it.  The notification library is not the repository's: an
    event is a name and the operations it reports, and what the file holds when
    it is read comes with the signal.  [Dir] and [Base] are those of Go's
    [path/filepath] on Unix, as is [Http.Clean]. *)
From stdpp Require Import gmap strings list.
From Stdlib Require Import ZArith Lia Ascii.
From S2P Require Import Prelude GoBase Json Text Http Handlers Client.

(** ** Paths *)

Definition last_element (path : string) : string := default ε (last (Split path slash)).

Definition Dir (path : string) : string :=
  Clean (of_bytes (take (length (bytes path) - length (bytes (last_element path))) (bytes path))).

Definition Base (path : string) : string :=
  if is_empty path then "."%stdpp else
  let stripped := TrimRight_slash path in
  if is_empty stripped then "/"%stdpp else last_element stripped.

(** ** The watcher *)

Inductive Op := Create | Write | Remove | Rename | Chmod.
#[export] Instance Op_eq_dec : EqDecision Op.
Proof. solve_decision. Defined.

Record Event := mkEvent { Name : string; Ops : list Op }.

(** What a pass of the select receives; an event with what the file holds when
    the reload reads it. *)
Inductive Signal :=
| ContextDone
| ErrorsClosed
| WatchError (err : string)
| EventsClosed
| Changed (event : Event) (file : result string string).

Record Watching := mkWatching { cleanPath : string; parentDir : string; targetName : string }.

(** The paths it goes by, or why it did not start. *)
Definition WatchAllowlistFile (newWatcher : option string) (add : string → option string) (path : string)
    : result string Watching :=
  let cleanPath := Clean path in
  let w := mkWatching cleanPath (Dir cleanPath) (Base cleanPath) in
  match newWatcher with
  | Some err => Err err
  | None => match add (parentDir w) with Some err => Err err | None => Ok w end
  end.

Definition reloads (w : Watching) (event : Event) : bool :=
  bool_decide (Base (Name event) = targetName w)
  && existsb (λ op, bool_decide (op ∈ [Write; Create; Rename; Chmod])) (Ops event).

(** One pass of the loop, and whether it goes on.  An error of the reload is
    logged. *)
Definition watch_pass {Σ} (w : Watching) (signal : Signal) (srv : Server Σ) : Server Σ * bool :=
  match signal with
  | ContextDone | ErrorsClosed | EventsClosed => (srv, false)
  | WatchError _ => (srv, true)
  | Changed event file => (if reloads w event then (reloadAllowlistFile file srv).1 else srv, true)
  end.

(** What happens to a server with a watcher: requests and signals, in any order.
    A watcher that has ended reads no more signals. *)
Inductive Happening (Σ : Type) :=
| Serve (turns : list (Σ → Σ)) (r : Request)
| Notice (signal : Signal).
Arguments Serve {Σ}.
Arguments Notice {Σ}.

Definition happens {Σ} `{API Σ} `{Decoder} (O : Options) (MarshalData : json → option string) (w : Watching)
    (x : Happening Σ) (state : Server Σ * bool) : Server Σ * bool :=
  let '(srv, watching) := state in
  match x with
  | Serve turns r => ((ServeHTTP O MarshalData turns r srv).1, watching)
  | Notice signal => if watching then watch_pass w signal srv else (srv, false)
  end.

Definition happen_all {Σ} `{API Σ} `{Decoder} (O : Options) (MarshalData : json → option string) (w : Watching)
    (l : list (Happening Σ)) (srv : Server Σ) : Server Σ * bool :=
  foldl (λ state x, happens O MarshalData w x state) (srv, true) l.
