(* ===== verification/WatchProps.v ===== *)
(** * Properties of the allowlist watcher *)
From stdpp Require Import gmap strings list.
From Stdlib Require Import ZArith Lia Ascii.
From S2P Require Import Prelude GoBase Json Types Scope Config State Scenario Text Http Handlers HttpStore HttpProps Client Watch.

(** ** Paths *)

Example cleaned_paths :
  map Clean ["/etc//bus/./../bus/allow.txt"; "allow.txt"; "./a/../../allow.txt"; "/../allow.txt"; ""; "/"]%stdpp
  = ["/etc/bus/allow.txt"; "allow.txt"; "../allow.txt"; "/allow.txt"; "."; "/"]%stdpp ∧
  map Dir ["/etc/bus/allow.txt"; "allow.txt"; "/allow.txt"; "../allow.txt"]%stdpp = ["/etc/bus"; "."; "/"; ".."]%stdpp ∧
  map Base ["/etc/bus/allow.txt"; "allow.txt"; "/etc/bus/"; "/"; ""]%stdpp = ["allow.txt"; "allow.txt"; "bus"; "/"; "."]%stdpp.
Proof. vm_compute. done. Qed.

Lemma split_bytes_at sep l r : ∃ p, p ≠ [] ∧ split_bytes sep (l ++ sep :: r) = p ++ split_bytes sep r.
Proof.
  induction l as [|c l (p & Hp & IH)]; cbn.
  - exists [[]]. by rewrite bool_decide_eq_true_2.
  - rewrite IH. case_bool_decide; [by exists ([] :: p)|].
    destruct p as [|w p]; [done|]. by exists ((c :: w) :: p).
Qed.

Lemma drop_slashes_ne c l : c ≠ slash → drop_slashes (c :: l) = c :: l.
Proof. intros Hc. cbn. destruct c as [[] [] [] [] [] [] [] []]; done. Qed.

(** The name under which an event in a directory reports a file of it. *)
Lemma Base_entry dir name : name ≠ ε → slash ∉ bytes name → Base (dir +:+ "/"%stdpp +:+ name) = name.
Proof.
  intros Hne Hs. assert (bytes name ≠ []) as Hb.
  { intros Hb. apply Hne. by rewrite <-(of_bytes_bytes name), Hb. }
  assert (TrimRight_slash (dir +:+ "/"%stdpp +:+ name) = dir +:+ "/"%stdpp +:+ name) as Htrim.
  { unfold TrimRight_slash. rewrite !bytes_app, !rev_app_distr.
    destruct (rev (bytes name)) as [|c l] eqn:Er; [by apply (f_equal (@rev _)) in Er; rewrite rev_involutive in Er|].
    assert (c ≠ slash) as Hc.
    { intros ->. apply Hs, list_elem_of_In, in_rev. rewrite Er. by left. }
    cbn [app]. rewrite drop_slashes_ne by done.
    change (c :: (l ++ rev (bytes "/"%stdpp)) ++ rev (bytes dir)) with (((c :: l) ++ rev (bytes "/"%stdpp)) ++ rev (bytes dir)).
    rewrite <-Er, <-!rev_app_distr, rev_involutive, <-!bytes_app. apply of_bytes_bytes. }
  unfold Base. rewrite Htrim.
  assert (is_empty (dir +:+ "/"%stdpp +:+ name) = false) as ->.
  { apply bool_decide_eq_false. intros He%(f_equal bytes). rewrite !bytes_app in He.
    by apply app_eq_nil in He as [_ ?]. }
  unfold last_element, Split. rewrite !bytes_app. change (bytes "/"%stdpp) with [slash]. cbn [app].
  destruct (split_bytes_at slash (bytes dir) (bytes name)) as (p & _ & ->).
  rewrite split_bytes_free, map_app by done. cbn [map]. rewrite last_snoc. cbn. by rewrite of_bytes_bytes.
Qed.

(** ** The list in use *)

Section watch.
Context {Σ : Type} `{API Σ} `{Decoder} (O : Options) (MarshalData : json → option string) (w : Watching).
Implicit Types (srv : Server Σ) (l : list (Happening Σ)).

(** Requests do not change it. *)
Lemma serve_allowset turns r srv : agentAllowset (ServeHTTP O MarshalData turns r srv).1 = agentAllowset srv.
Proof.
  unfold ServeHTTP. destruct (findHandler patterns r) as [own|pattern]; [done|].
  unfold serve_pattern. cbv zeta.
  unfold handleRegisterAgent, handleListAgents, handleConversations, handleConversationCreate, handleConversationList,
    handleConversationMessages, handleMessages, handleInbox, handleAcks, handleEvents, handleObserve,
    handleInject, handleTopLevelHealth, handleHealth, handleMetrics, handleSystemStatus.
  repeat (case_match; try done). unfold register_apply. destruct (API_RegisterAgent _ _) as [s1 [agent|?]]; [|done].
  unfold setAgentSecret. cbv zeta. destruct (_ || _); [done|].
  by destruct (match API_secrets with Some ss => _ | None => _ end) as [s2 [err|]].
Qed.

(** The signals before the one that ends the watch. *)
Definition ends (x : Happening Σ) : bool :=
  match x with Notice (ContextDone | ErrorsClosed | EventsClosed) => true | _ => false end.

Fixpoint watched l : list (Happening Σ) :=
  match l with [] => [] | x :: l => if ends x then [] else x :: watched l end.

(** The list an event gives, when the file can be read. *)
Definition loaded (x : Happening Σ) : option (gset string) :=
  match x with
  | Notice (Changed event file) =>
      if reloads w event then match loadAllowlistFile file with Ok next => Some next | Err _ => None end else None
  | _ => None
  end.

Lemma happen_all_ended l srv :
  let r := foldl (λ state x, happens O MarshalData w x state) (srv, false) l in
  agentAllowset r.1 = agentAllowset srv ∧ r.2 = false.
Proof.
  cbv zeta. revert srv. induction l as [|[turns r|signal] l IH]; intros srv; cbn [foldl happens]; [done|..].
  - destruct (IH (ServeHTTP O MarshalData turns r srv).1) as [-> ?]. by rewrite serve_allowset.
  - apply IH.
Qed.

(** Whatever is served in between, the list in use is the one the last event of
    the watch on a readable file gave; a file that cannot be read, or is gone,
    leaves it as it is. *)
Lemma allowset_is_last_loaded l srv :
  agentAllowset (happen_all O MarshalData w l srv).1
  = default (agentAllowset srv) (last (omap loaded (watched l))).
Proof.
  unfold happen_all. revert srv. induction l as [|x l IH]; intros srv; cbn [foldl watched]; [done|].
  destruct (ends x) eqn:He.
  { destruct x as [|[]]; try done; cbn [happens watch_pass]; apply happen_all_ended. }
  destruct x as [turns r|signal]; cbn [happens].
  { rewrite IH, serve_allowset. done. }
  destruct signal as [| | | |event file]; try done; cbn [watch_pass]; rewrite IH; [done|].
  cbn [omap list_omap loaded]. destruct (reloads w event); [|done].
  unfold reloadAllowlistFile. destruct (loadAllowlistFile file) as [next|]; [|done]. cbn.
  rewrite last_cons. by destruct (last _).
Qed.

(** The list decides who registers.  After any requests and signals, a
    registration that names an identity outside the list the watch loaded last,
    when that list has entries, is answered 401 and changes neither the store nor
    the server. *)
Theorem allowlist_enforced l srv turns r blob req :
  let srv' := (happen_all O MarshalData w l srv).1 in
  let current := default (agentAllowset srv) (last (omap loaded (watched l))) in
  findHandler patterns r = inr "/v1/agents/register"%stdpp → method r = POST →
  body_of O r = Ok blob → decode_register blob = Ok req →
  current ≠ ∅ → TrimSpace (RegisterAgentInput.AgentID req) ∉ current →
  ServeHTTP O MarshalData turns r srv' = (srv', writeBusError (unauthorized "agent_id not allowlisted"%stdpp)) ∧
  status (writeBusError (unauthorized "agent_id not allowlisted"%stdpp)) = 401.
Proof.
  intros srv' current Hp Hm Hb Hd Hne Hin. split; [|done].
  unfold ServeHTTP, serve_pattern. rewrite Hp. cbv zeta. rewrite (bool_decide_eq_true_2 _ eq_refl).
  unfold handleRegisterAgent.
  rewrite Hm, (bool_decide_eq_true_2 _ eq_refl). cbn [negb]. unfold register_check. rewrite Hb, Hd. cbn [decoded].
  cbv zeta. assert (isAgentAllowed srv' (RegisterAgentInput.AgentID (with_trimmed_id req)) = false) as ->; [|done].
  unfold isAgentAllowed. unfold srv'. rewrite allowset_is_last_loaded. fold current.
  by rewrite !bool_decide_eq_false_2.
Qed.
End watch.

(** An event that names the file in its directory is followed. *)
Lemma watch_follows w ops op :
  targetName w ≠ ε → slash ∉ bytes (targetName w) →
  op ∈ ops → op ≠ Remove → reloads w (mkEvent (parentDir w +:+ "/"%stdpp +:+ targetName w) ops) = true.
Proof.
  intros Hne Hs Hop Hr. unfold reloads. cbn [Name Ops]. rewrite Base_entry, (bool_decide_eq_true_2 _ eq_refl) by done.
  apply existsb_exists. exists op. split; [by apply list_elem_of_In|]. by destruct op.
Qed.

(** *** A list that is replaced, removed and truncated *)

Definition allow_watch : Watching := mkWatching "/etc/bus/allow.txt"%stdpp "/etc/bus"%stdpp "allow.txt"%stdpp.
Definition event (op : Op) (file : result string string) : Happening (World Store) :=
  Notice (Changed (mkEvent "/etc/bus/allow.txt"%stdpp [op]) file).
Definition replaced_list : list (Happening (World Store)) :=
  [event Create (Ok "bob"%stdpp); Serve [] (post "/v1/agents/register" ε "evil")%stdpp;
   event Remove (Err "no such file"%stdpp); event Rename (Err "no such file"%stdpp)].
Definition listed_alice : Server (World Store) := mkServer (0%nat, emptyStore) ∅ {[alice]}.

Lemma allowlist_enforced_witness :
  WatchAllowlistFile None (λ _, None) "/etc//bus/allow.txt"%stdpp = Ok allow_watch ∧
  let srv := (happen_all (H := memory) (H0 := forging) options no_marshal allow_watch replaced_list listed_alice).1 in
  agentAllowset srv = {["bob"%stdpp]} ∧
  (ServeHTTP (Impl := memory) (D := forging) options no_marshal [] (post "/v1/agents/register" ε "hello")%stdpp srv).1 = srv.
Proof.
  split; [vm_compute; reflexivity|]. cbv zeta. split; [vm_compute; reflexivity|].
  refine (f_equal fst (proj1 (allowlist_enforced (H := memory) (H0 := forging) options no_marshal allow_watch replaced_list
    listed_alice [] (post "/v1/agents/register" ε "hello")%stdpp "hello"%stdpp (claim alice "hello"%stdpp) _ _ _ _ _ _))).
  - reflexivity.
  - reflexivity.
  - vm_compute. reflexivity.
  - reflexivity.
  - vm_compute. discriminate.
  - vm_compute. set_solver.
Defined.

(** A write that truncates the list before it fills it opens the bus to
    everyone in between. *)
Example truncated_list_opens :
  isAgentAllowed (happen_all (H := memory) (H0 := forging) options no_marshal allow_watch
    [event Write (Ok ε)] listed_alice).1 "stranger"%stdpp = true.
Proof. vm_compute. reflexivity. Qed.
