(* ===== verification/Flags.v ===== *)
(** * Command lines: what the commands use of Go's [flag]

    A flag set is the map of its flags to their kinds.  The values parsed are
    kept as text, those of boolean flags as the value they parse to. *)
From stdpp Require Import gmap strings list.
From Stdlib Require Import ZArith Lia Ascii.
From S2P Require Import Prelude GoBase Utf8.

Inductive FlagKind := StringFlag | BoolFlag.

Inductive FlagError := BadSyntax (arg : string) | ErrHelp | NotDefined (name : string)
                     | BadValue (name value : string) | NeedsArgument (name : string).

(** [strconv.ParseBool] *)
Definition ParseBool (s : string) : option bool :=
  if bool_decide (s ∈ ["1"; "t"; "T"; "TRUE"; "true"; "True"]%stdpp) then Some true
  else if bool_decide (s ∈ ["0"; "f"; "F"; "FALSE"; "false"; "False"]%stdpp) then Some false
  else None.

Definition Bool_string (b : bool) : string := (if b then "true" else "false")%stdpp.

(** The name an argument gives: [None] for an argument that is no flag, and
    [Some ε] for the two dashes that end the flags. *)
Definition flag_text (arg : string) : option string :=
  match bytes arg with
  | "-"%char :: "-"%char :: l => Some (of_bytes l)
  | "-"%char :: c :: l => Some (of_bytes (c :: l))
  | _ => None
  end.

(** The name, and the value after the first equality sign that is not its first
    byte. *)
Definition split_flag (text : string) : string * option string :=
  match bytes text with
  | [] => (ε, None)
  | c :: l =>
      let '(before, after, ok) := Cut (of_bytes l) "="%char in
      (of_bytes (c :: bytes before), if ok then Some after else None)
  end.

Definition bad_name (text : string) : bool :=
  match bytes text with "-"%char :: _ | "="%char :: _ => true | _ => false end.

(** [FlagSet.Parse]: the values given and the arguments after the flags. *)
Fixpoint parse_flags (formal : gmap string FlagKind) (values : gmap string string) (args : list string)
    : result FlagError (gmap string string * list string) :=
  match args with
  | [] => Ok (values, [])
  | arg :: args =>
      match flag_text arg with
      | None => Ok (values, arg :: args)
      | Some text =>
          if bool_decide (arg = "--"%stdpp) then Ok (values, args)
          else if bad_name text then Err (BadSyntax arg)
          else
          let '(name, value) := split_flag text in
          match formal !! name, value with
          | None, _ =>
              Err (if bool_decide (name ∈ ["help"; "h"]%stdpp) then ErrHelp else NotDefined name)
          | Some BoolFlag, Some v =>
              match ParseBool v with
              | None => Err (BadValue name v)
              | Some b => parse_flags formal (<[name := Bool_string b]> values) args
              end
          | Some BoolFlag, None => parse_flags formal (<[name := Bool_string true]> values) args
          | Some StringFlag, Some v => parse_flags formal (<[name := v]> values) args
          | Some StringFlag, None =>
              match args with
              | [] => Err (NeedsArgument name)
              | v :: args => parse_flags formal (<[name := v]> values) args
              end
          end
      end
  end.

Definition flag_set (strings bools : list string) : gmap string FlagKind :=
  list_to_map (((λ k, (k, StringFlag)) <$> strings) ++ ((λ k, (k, BoolFlag)) <$> bools)).

(** All flags default to the empty text or to false. *)
Definition string_flag (values : gmap string string) (name : string) : string := default ε (values !! name).
Definition bool_flag (values : gmap string string) (name : string) : bool :=
  bool_decide (values !! name = Some (Bool_string true)).

Example parse_example :
  parse_flags (flag_set ["db"] ["apply"])%stdpp ∅ ["--db"; "x.db"; "-apply=F"; "-db=y=z"; "--"; "-q"]%stdpp
  = Ok (<["db" := "y=z"]> (<["apply" := "false"]> ∅), ["-q"])%stdpp ∧
  parse_flags (flag_set ["db"] ["apply"])%stdpp ∅ ["-apply"; "go"; "-db"]%stdpp
  = Ok ({["apply" := "true"]}, ["go"; "-db"])%stdpp ∧
  parse_flags (flag_set ["db"] ["apply"])%stdpp ∅ ["--db"]%stdpp = Err (NeedsArgument "db"%stdpp).
Proof. split_and!; vm_compute; reflexivity. Qed.
