(* ===== verification/Commands.v ===== *)
(** * The bus process: [cmd/pinakes/main.go]

    From the environment to the configuration, from there to the store and the
    server, and the way down.  [Startup] is what a start depends on beside the
    files: the environment, the clock, the orders maps are ranged over, and which
    calls of the file system and the engine fail.  [log.Fatalf] ends the process
    with status 1; its message is the constructor of [Fatal]. *)
From stdpp Require Import gmap strings list.
From Stdlib Require Import ZArith Lia Ascii.
From S2P Require Import Prelude GoBase Json Types Scope Config State Push Text Persistent Sqlite Delivery SqliteStore Migrate Configutil Flags Http Handlers HttpStore HttpSqlite Watch.

(** ** Configuration *)

Section environment.
Context (Quote : string → string) (getenv : string → string).

Definition envSeconds (name : string) : Duration :=
  let raw := TrimSpace (getenv name) in
  if is_empty raw then 0 else
  match Atoi raw with
  | Err _ => 0
  | Ok v => if v <? 0 then -1 else seconds v
  end.

Definition envInt (name : string) : Z :=
  let raw := TrimSpace (getenv name) in
  if is_empty raw then 0 else
  match Atoi raw with
  | Err _ => 0
  | Ok v => if v <? 0 then -1 else v
  end.

Definition parse_mode (raw : string) : option NamespaceMode :=
  if is_empty raw || bool_decide (raw = "compat"%stdpp) then Some NamespaceModeCompat
  else if bool_decide (raw = "strict"%stdpp) then Some NamespaceModeStrict
  else None.

Definition parse_legacy_scope (raw : string) : option Scope :=
  if is_empty raw || bool_decide (raw = Scope_string ScopeUCLA) then Some ScopeUCLA
  else if bool_decide (raw = Scope_string ScopePersonal) then Some ScopePersonal
  else None.

Definition parseNamespaceConfig (modeRaw legacyScopeRaw : string) : result string (NamespaceMode * Scope) :=
  match parse_mode (TrimSpace modeRaw) with
  | None => Err ("BUS_NAMESPACE_MODE must be compat or strict, got "%stdpp +:+ Quote modeRaw)
  | Some mode =>
      match parse_legacy_scope (TrimSpace legacyScopeRaw) with
      | None => Err ("BUS_LEGACY_SCOPE must be personal or ucla, got "%stdpp +:+ Quote legacyScopeRaw)
      | Some legacyScope => Ok (mode, legacyScope)
      end
  end.

Inductive Fatal :=
| BadNamespaceConfiguration (err : string)
| BadControlPlaneConfiguration (err : string)
| MigrationFailed (e : MigrateError)
| SqliteFailed (e : OpenError)
| MemoryFailed (e : ConfigError)
| PersistentFailed (e : StartError)
| ServerFailed (err : string)
| WatchFailed (path err : string).

(** The literal in [main]; fields it does not name are zero. *)
Definition bus_config (mode : NamespaceMode) (legacyScope : Scope) (hashes : gmap string string) : Config.t := {|
  Config.GracePeriod := 30 * Second;
  Config.ProgressMinInterval := 2 * Second;
  Config.IdempotencyWindow := 24 * Hour;
  Config.InboxWaitMax := 60 * Second;
  Config.AckTimeout := 10 * Second;
  Config.DefaultMessageTTL := 600 * Second;
  Config.DefaultRegistrationTTL := 60 * Second;
  Config.PushMaxAttempts := 3;
  Config.PushBaseBackoff := 500 * Millisecond;
  Config.PushQueueSize := 0;
  Config.PushWorkers := 0;
  Config.PushShutdownTimeout := 15 * Second;
  Config.MaxInboxEventsPerAgent := 10000;
  Config.MaxObserveEvents := 50000;
  Config.MaxInboxBytesPerAgent := envInt "MAX_INBOX_BYTES_PER_AGENT"%stdpp;
  Config.MaxObserveBytes := envInt "MAX_OBSERVE_BYTES"%stdpp;
  Config.MessageRetention := envSeconds "MESSAGE_RETENTION_SECONDS"%stdpp;
  Config.MessageMaxAge := envSeconds "MESSAGE_MAX_AGE_SECONDS"%stdpp;
  Config.ConversationRetention := envSeconds "CONVERSATION_RETENTION_SECONDS"%stdpp;
  Config.AgentRetention := envSeconds "AGENT_RETENTION_SECONDS"%stdpp;
  Config.SweepMinInterval := 0;
  Config.Mode := Some mode;
  Config.LegacyScope := Some legacyScope;
  Config.SharedGrantAgents := SplitCSV (getenv "SHARED_GRANT_AGENTS"%stdpp);
  Config.ControlPlaneAgents := SplitCSV (getenv "CONTROL_PLANE_AGENTS"%stdpp);
  Config.ControlPlaneAgentSecretHashes := hashes |}.

Definition configuration : result Fatal Config.t :=
  match parseNamespaceConfig (getenv "BUS_NAMESPACE_MODE"%stdpp) (getenv "BUS_LEGACY_SCOPE"%stdpp) with
  | Err err => Err (BadNamespaceConfiguration err)
  | Ok (mode, legacyScope) =>
      match ParseSHA256Map Quote (getenv "CONTROL_PLANE_AGENT_SECRET_HASHES"%stdpp) with
      | Err err => Err (BadControlPlaneConfiguration err)
      | Ok hashes => Ok (bus_config mode legacyScope hashes)
      end
  end.

Definition listen_address : string :=
  let port := getenv "PORT"%stdpp in
  if is_empty port then ":8080"%stdpp else ":"%stdpp +:+ port.

(** ** The backend *)

Inductive Backend := BackendSQLite (dbPath : string) | BackendMemory | BackendPersistent.

(** [dbFlag] is the value of [--db]. *)
Definition select_backend (dbFlag : string) : Backend :=
  let dbPath := if is_empty dbFlag then getenv "DB_PATH"%stdpp else dbFlag in
  let backend := TrimSpace (getenv "STORE_BACKEND"%stdpp) in
  let backend := if negb (is_empty dbPath) || is_empty backend then "sqlite"%stdpp else backend in
  if bool_decide (backend = "sqlite"%stdpp) then
    BackendSQLite (if is_empty dbPath then "./data/bus.db"%stdpp else dbPath)
  else if bool_decide (backend = "memory"%stdpp) then BackendMemory
  else BackendPersistent.

Definition state_path : string :=
  let statePath := getenv "STATE_FILE"%stdpp in
  if is_empty statePath then "./data/state.json"%stdpp else statePath.

End environment.

(** ** Starting *)

Record Startup := mkStartup {
  su_getenv : string → string;
  su_read_file : string → result string string;
  su_new_watcher : option string;
  su_watch : string → option string;
  su_hash_order : list string;
  su_secret_order : gmap string string → list string;
  su_import_order : PersistentState.t → ImportOrder;
  su_applied_at : Time;
  su_receipt_order : list (string * string * string);
  su_clock : StartClock;
  su_migrate_faults : MigrateFaults;
  su_open_faults : Sqlite.Faults;
  su_restore_order : PersistentState.t → list string;
  su_load_faults : LoadFaults;
  su_epoch : string;
  su_sqlite_env : nat → SQLiteStore → SqlEnv;
  su_memory_env : nat → Store → Env;
  su_snapshot_env : nat → PersistentStore → Env }.

(** The server over the store that was chosen. *)
Inductive Booted :=
| BootedSQLite (E : Static) (options : Options) (srv : Server (World SQLiteStore))
| BootedMemory (E : Static) (options : Options) (srv : Server (World Store))
| BootedPersistent (E : Static) (options : Options) (srv : Server (World (Disk * PersistentStore))).

Section process.
Context `{C : Codec} (Quote : string → string) (describe : DBError → string).

(** What follows the choice of the store. *)
Definition serve_store {Σ} (api : API Σ) (u : Startup) (s : Σ) : result Fatal (Options * Server Σ) :=
  match NewServerFromEnv (H := api) Quote (su_getenv u) (su_read_file u) (su_secret_order u) s with
  | Err err => Err (ServerFailed err)
  | Ok (options, srv) =>
      let allowlistFile := TrimSpace (su_getenv u "ALLOWLIST_FILE"%stdpp) in
      if is_empty allowlistFile then Ok (options, srv) else
      match WatchAllowlistFile (su_new_watcher u) (su_watch u) allowlistFile with
      | Err err => Err (WatchFailed allowlistFile err)
      | Ok _ => Ok (options, srv)
      end
  end.

(** [fs] is what the paths of the state file and of the database hold. *)
Definition boot_sqlite (u : Startup) (c : Config.t) (statePath dbPath : string) (fs : Files)
    : result Fatal Booted * Files :=
  let paths := negb (is_empty statePath) && negb (is_empty dbPath) in
  match MigrateJSONStateToSQLite paths c (su_import_order u) (su_applied_at u) (su_migrate_faults u) fs with
  | (Err e, fs) => (Err (MigrationFailed e), fs)
  | (Ok _, fs) =>
      let '(opened, t) := NewSQLiteStore (su_hash_order u) (su_getenv u "HUMAN_ALLOWLIST"%stdpp) c (su_clock u)
                            (su_receipt_order u) (su_open_faults u) (default emptyTables (f_db fs)) in
      let fs := match opened with
                | Err (SqliteStore.InvalidConfiguration _) => fs
                | _ => mkFiles (f_state fs) (f_migrated fs) (Some t) (f_tmp fs)
                end in
      (match opened with
       | Err e => Err (SqliteFailed e)
       | Ok (E, q) =>
           match serve_store (sqlite_API E (su_epoch u) (su_sqlite_env u) describe) u (O, q) with
           | Err e => Err e
           | Ok (options, srv) => Ok (BootedSQLite E options srv)
           end
       end, fs)
  end.

Definition boot_memory (u : Startup) (c : Config.t) : result Fatal Booted :=
  match NewStore (su_hash_order u) (su_getenv u "HUMAN_ALLOWLIST"%stdpp) c with
  | Err e => Err (MemoryFailed e)
  | Ok (E, s) =>
      match serve_store (memory_API E (su_epoch u) (su_memory_env u)) u (O, s) with
      | Err e => Err e
      | Ok (options, srv) => Ok (BootedMemory E options srv)
      end
  end.

Definition boot_persistent (u : Startup) (c : Config.t) (statePath : string) (d : Disk) : result Fatal Booted :=
  match NewPersistentStore statePath (su_hash_order u) (su_getenv u "HUMAN_ALLOWLIST"%stdpp) c
          (su_restore_order u) (su_load_faults u) d with
  | Err e => Err (PersistentFailed e)
  | Ok (E, p) =>
      match serve_store (snapshot_API E (su_epoch u) statePath (su_snapshot_env u)) u (O, (d, p)) with
      | Err e => Err e
      | Ok (options, srv) => Ok (BootedPersistent E options srv)
      end
  end.

(** [main] up to [runHTTPServer].  [fs] is what the state file's path and the
    chosen database's path hold; [d] is the disk of the snapshot store. *)
Definition boot (u : Startup) (dbFlag : string) (fs : Files) (d : Disk) : result Fatal Booted * Files :=
  match configuration Quote (su_getenv u) with
  | Err e => (Err e, fs)
  | Ok c =>
      match select_backend (su_getenv u) dbFlag with
      | BackendSQLite dbPath => boot_sqlite u c (state_path (su_getenv u)) dbPath fs
      | BackendMemory => (boot_memory u c, fs)
      | BackendPersistent => (boot_persistent u c (state_path (su_getenv u)) d, fs)
      end
  end.

(** ** Serving and stopping *)

Context `{D : Decoder} (MarshalData : json → option string).

Definition serve {Σ} (api : API Σ) (O : Options) (requests : list (list (Σ → Σ) * Request)) (srv : Server Σ)
    : Server Σ := foldl (λ srv r, (ServeHTTP (Impl := api) O MarshalData r.1 r.2 srv).1) srv requests.

(** Why [runHTTPServer] leaves its select. *)
Inductive Stop := ShutdownRequested | ListenFailed (err : string).

Definition exit_status (why : Stop) : Z := match why with ShutdownRequested => 0 | ListenFailed _ => 1 end.

(** The end of [runHTTPServer] once the HTTP server is shut down or its ten
    seconds are over.  Only the SQLite store is an [io.Closer]; an error of
    [Close] is logged. *)
Definition close_store (f : Sqlite.Faults) (now : Time) (timed_out : bool) (b : Booted) : Booted :=
  match b with
  | BootedSQLite E options srv =>
      let '(n, q) := store srv in
      BootedSQLite E options (set_store (n, (Close f now timed_out q).1) srv)
  | b => b
  end.

Definition runHTTPServer (why : Stop) (f : Sqlite.Faults) (now : Time) (timed_out : bool) (b : Booted)
    : Booted * Z := (close_store f now timed_out b, exit_status why).

End process.
