(* ===== verification/CommandsProps.v ===== *)
(** * Properties of the bus process

    The upgrade from the state file to the database, through any number of
    starts that fail, are killed or succeed, and what the configuration makes of
    the environment. *)
From stdpp Require Import gmap strings list.
From Stdlib Require Import ZArith Lia Ascii.
From S2P Require Import Prelude GoBase Json Types Scope Config Auth Ring State Inbox Structure Sweep Send System Scenario SendProps Text Persistent Rfc3339 Sqlite Delivery SqliteStore Ledger SqliteSystem SqliteProps Migrate MigrateSpec MigrateProps Configutil Flags Http Handlers HttpStore HttpSqlite HttpProps Commands.

(** ** Imports that report success

    No call failed, so that the tables are those of a run without faults. *)

Definition told {A} (m : Db A) : Prop := ∀ f w a w', m f w = (Ok a, w') → runs m w.2 a w'.2.

Lemma told_ret {A} (a : A) : told (mret a).
Proof. intros f w b w'. rewrite ret_run. intros [= <- <-]. apply runs_ret. Qed.

Lemma told_call {A} (stmt : Tables → result DBError (A * Tables)) : told (call stmt).
Proof. intros f w a w' H%call_ok. by apply runs_call. Qed.

Lemma told_exec u : told (exec u).
Proof. apply told_call. Qed.

Lemma told_bind {A B} (m : Db A) (g : A → Db B) : told m → (∀ a, told (g a)) → told (m ≫= g).
Proof. intros Hm Hg f w b w' (a & w1 & H1%Hm & H2%Hg)%bind_ok. by eapply runs_bind. Qed.

Lemma told_transaction {A} (m : Db A) : told m → told (transaction m).
Proof.
  intros Hm f w a w' (k & w2 & H%Hm & ->)%transaction_ok. by apply runs_transaction.
Qed.

Lemma told_for_each {A} (body : A → Db ()) l : (∀ a, told (body a)) → told (for_each body l).
Proof.
  intros Hb. induction l as [|a l IH]; cbn [for_each]; [apply told_ret|]. by apply told_bind.
Qed.

Lemma told_for_keys {A} (m : gmap string A) body order : (∀ k v, told (body k v)) → told (for_keys m body order).
Proof. intros Hb. apply told_for_each. intros k. destruct (m !! k); [apply Hb|apply told_ret]. Qed.

Create HintDb told.
#[export] Hint Resolve told_ret told_call told_exec told_for_each told_for_keys : told.

Lemma importStateToSQLite_told c o appliedAt st : told (importStateToSQLite c o appliedAt st).
Proof.
  unfold importStateToSQLite. do 3 (apply told_bind; [apply told_exec|intros _]).
  apply told_transaction. unfold import_tx.
  repeat (apply told_bind; [|intros _]); try apply told_for_keys; try apply told_exec; try apply told_call; intros k v.
  - apply told_exec.
  - apply told_exec.
  - apply told_exec.
  - apply told_exec.
  - apply told_for_each. intros p. apply told_exec.
  - unfold import_inbox. apply told_bind; [apply told_call|intros _]. apply told_for_each.
    intros p. unfold import_delivery. case_match; [apply told_call|apply told_ret].
  - unfold import_base. case_match; [apply told_ret|apply told_call].
  - unfold import_receipt. repeat case_match; first [apply told_ret|apply told_call].
Qed.

Lemma import_Ok c o appliedAt st f t :
  run_db (importStateToSQLite c o appliedAt st) f emptyTables = (Ok (), t) →
  importable c st → order_for o st → imported_tables c st t.
Proof.
  unfold run_db. destruct (importStateToSQLite c o appliedAt st f (O, emptyTables)) as [r [k tw]] eqn:H.
  intros [= -> ->] Hst Ho. apply importStateToSQLite_told in H. cbn [snd] in H.
  destruct (import_runs c o st Hst Ho appliedAt) as (t' & Hr & Ht').
  destruct (H O) as (n & H1). destruct (Hr O) as (n' & H2). rewrite H1 in H2. by injection H2 as _ <-.
Qed.

(** ** Starts *)

Section upgrade.
Context `{C : Codec} (Quote : string → string) (describe : DBError → string).

(** What a start over the database does to the files: the import, or nothing, and
    then the opening of the database, unless it was given up before. *)
Lemma boot_sqlite_files u c statePath dbPath fs r fs' :
  statePath ≠ ε → dbPath ≠ ε → boot_sqlite Quote describe u c statePath dbPath fs = (r, fs') →
  ∃ m fs1, MigrateJSONStateToSQLite true c (su_import_order u) (su_applied_at u) (su_migrate_faults u) fs = (m, fs1) ∧
    (fs' = fs1 ∨
     (∃ b, m = Ok b) ∧ ∃ E s0 t, t = (run_db (start_db E (su_clock u) (su_receipt_order u) s0) (su_open_faults u)
                              (default emptyTables (f_db fs1))).2 ∧
       fs' = mkFiles (f_state fs1) (f_migrated fs1) (Some t) (f_tmp fs1)).
Proof.
  intros Hs Hd. unfold boot_sqlite, is_empty. rewrite !bool_decide_eq_false_2 by done. cbn [negb andb].
  destruct (MigrateJSONStateToSQLite _ _ _ _ _ fs) as [[b|e] fs1]; [|intros [= _ <-]; eauto 8].
  unfold NewSQLiteStore. destruct (NewStore _ _ c) as [[E s0]|e]; [|intros [= _ <-]; eauto 8].
  destruct (run_db _ _ _) as [o t] eqn:Er. intros H. exists (Ok b), fs1. split; [done|]. right. split; [by exists b|].
  exists E, s0, t. rewrite Er. split; [done|]. destruct o as [s|e]; by injection H as _ <-.
Qed.

Context (env : string → string) (dbFlag : string).
Context (blob : string) (st : PersistentState.t).

(** What happens to the files from one instant to a later one: starts of the
    process, which may fail anywhere or be killed at any point, and runs of a bus
    over the database file. *)
Inductive history : list Label → Time * Files → Time * Files → Prop :=
| history_nil p : history [] p p
| history_start ls u d t now r fs fs' p :
    su_getenv u = env → order_for (su_import_order u st) st → fm_removed (su_migrate_faults u) = true →
    t ≤ c_prune (su_clock u) ≤ now → boot Quote describe u dbFlag fs d = (r, fs') →
    history ls (now, fs') p → history ls (t, fs) p
| history_serve E ls ls' t q now q' fs p :
    f_db fs = Some (db q) → sql_run E ls (t, q) (now, q') →
    history ls' (now, mkFiles (f_state fs) (f_migrated fs) (Some (db q')) (f_tmp fs)) p →
    history (ls ++ ls') (t, fs) p.

Lemma history_time ls p p' : history ls p p' → p.1 ≤ p'.1.
Proof.
  induction 1 as [|???????? Hu Ho Hf Ht Hb Hh IH|????????? Hdb Hr Hh IH]; cbn [fst snd] in *; [lia|lia|].
  apply sql_run_time in Hr. cbn in *. lia.
Qed.

(** ** The delivery of one message *)

Section delivery.
Context (c : Config.t) (k : string * Z) (id : string) (x : Time).

(** The delivery is in the ledger and still to be made. *)
Definition in_ledger (t : Tables) : Prop :=
  ledger_ok t ∧ ∃ d, t_deliveries t !! k = Some d ∧ DeliveryRow.message_id d = id ∧
    DeliveryRow.expires_at d = timeToString x ∧ in_transport d = true.

Lemma in_ledger_run E ls t q now q' :
  sql_run E ls (t, q) (now, q') → 0 ≤ t → time_ok x → now + Second ≤ x →
  Forall (unacknowledged id k.1 k.2) ls → in_ledger (db q) → in_ledger (db q').
Proof.
  intros Hr Ht Hx Hlate Hack (Hok & d & Hd & Hid & Hexp & Htr).
  split; [by apply (sql_run_ok _ _ _ _ Hr)|].
  destruct (sql_run_delivery E ls _ _ Hr k d x) as (d' & Hd' & [Hid' Hexp'] & Htr'); try done.
  - eapply Forall_impl; [exact Hack|]. intros [|i|a cur] Hl; cbn in *; [by intros []|congruence|].
    intros [<- ?]. specialize (Hl eq_refl). lia.
  - exists d'. split_and!; [done|congruence|congruence|done].
Qed.

Lemma in_ledger_start E u s0 t now tb :
  0 ≤ t → t ≤ c_prune (su_clock u) ≤ now → time_ok x → now + Second ≤ x → in_ledger tb →
  in_ledger (run_db (start_db E (su_clock u) (su_receipt_order u) s0) (su_open_faults u) tb).2.
Proof.
  intros H0 Ht Hx Hlate Hin.
  pose proof (sq_start E t now (su_open_faults u) (su_clock u) (su_receipt_order u) s0 s0 ∅ (mkSQL s0 tb ∅) Ht) as Hs.
  refine (in_ledger_run E [Internal] t _ now _ (run_cons _ _ _ _ _ _ Hs (run_nil _ _)) H0 Hx Hlate _ Hin).
  by repeat constructor.
Qed.

Lemma in_ledger_offered t now :
  in_ledger t → 0 ≤ now → time_ok x → now + Second ≤ x →
  ∃ i, i ∈ offers k.1 k.2 (timeToString now) t ∧ Sequenced.seq i = k.2 ∧
       Message.MessageID (Sequenced.message i) = id.
Proof.
  intros (Hok & d & Hd & Hid & Hexp & Htr) H0 Hx Hlate. destruct k as [a n]. cbn [fst snd] in *.
  destruct (lk_ref _ Hok _ _ Hd) as [row Hrow].
  exists (Sequenced.mk n (scanSQLiteMessage (DeliveryRow.message_id d) row)). split; [|by split].
  eapply due_offered; [done|done|done| |lia]. rewrite Hexp. by apply before_deadline.
Qed.

(** Nothing is lost: the state file is still the only one, or the database holds
    the delivery and the state file is kept. *)
Definition safe (fs : Files) : Prop :=
  match f_db fs with
  | None => f_state fs = Some blob
  | Some t => in_ledger t ∧ (f_state fs = Some blob ∨ f_migrated fs = Some blob)
  end.

Context (Hst : importable c st) (Hblob : Unmarshal blob = Ok st).
Context (Hrow : ∃ d, imported_row c st k.1 k.2 = Some d ∧ DeliveryRow.message_id d = id ∧
                     DeliveryRow.expires_at d = timeToString x ∧ in_transport d = true).

Lemma imported_in_ledger t : imported_tables c st t → in_ledger t.
Proof.
  intros Ht. split; [by eapply imported_ledger_ok|]. destruct Hrow as (d & Hd & ?). exists d.
  by rewrite (im_deliveries _ _ _ Ht).
Qed.

Lemma migrate_safe u fs m fs1 :
  order_for (su_import_order u st) st → fm_removed (su_migrate_faults u) = true → safe fs →
  MigrateJSONStateToSQLite true c (su_import_order u) (su_applied_at u) (su_migrate_faults u) fs = (m, fs1) →
  safe fs1 ∧ ((∃ b, m = Ok b) → is_Some (f_db fs1)).
Proof.
  intros Ho Hrm Hsafe Hm.
  pose proof (migrate_files c (su_import_order u) (su_applied_at u) (su_migrate_faults u) fs) as H.
  rewrite Hm in H. destruct H as [(H1 & H2 & H3 & H4)|(H1 & b & s & t0 & t & H2 & H3 & H4 & H5 & H6 & H7)].
  - split; [unfold safe in *; by rewrite H1, H2, H3|]. intros [b ->]. destruct b; [done|].
    apply migrate_skips in Hm as [-> [?|Hs]]; [done|]. unfold safe in Hsafe.
    destruct (f_db fs); [by eexists|congruence].
  - split; [|intros _; by rewrite H6]. unfold safe in Hsafe. rewrite H1 in Hsafe.
    assert (b = blob) as -> by congruence. assert (s = st) as -> by congruence.
    destruct H4 as [->|[? _]]; [|congruence]. apply import_Ok in H5; [|done|done].
    unfold safe. rewrite H6. split; [by apply imported_in_ledger|].
    destruct H7 as [(_ & _ & ->)|(_ & -> & _)]; auto.
Qed.

Lemma boot_safe u d t now fs r fs' dbPath :
  configuration Quote (su_getenv u) = Ok c → select_backend (su_getenv u) dbFlag = BackendSQLite dbPath →
  order_for (su_import_order u st) st → fm_removed (su_migrate_faults u) = true →
  0 ≤ t → t ≤ c_prune (su_clock u) ≤ now → time_ok x → now + Second ≤ x →
  boot Quote describe u dbFlag fs d = (r, fs') → safe fs → safe fs'.
Proof.
  intros Hc Hb Ho Hrm H0 Ht Hx Hlate Hboot Hsafe. unfold boot in Hboot. rewrite Hc, Hb in Hboot.
  apply boot_sqlite_files in Hboot as (m & fs1 & Hm & Hfs).
  - destruct (migrate_safe u fs m fs1 Ho Hrm Hsafe Hm) as [Hs1 Hdb1].
    destruct Hfs as [->|(Hok & E & s0 & tb & -> & ->)]; [done|].
    destruct (Hdb1 Hok) as [t1 Ht1]. unfold safe in *. cbn. rewrite Ht1 in *. cbn [default from_option].
    split; [|apply Hs1]. eapply in_ledger_start; [exact H0|done..|apply Hs1].
  - unfold state_path, is_empty. by case_bool_decide.
  - revert Hb. unfold select_backend, is_empty. cbv zeta. repeat case_bool_decide; naive_solver.
Qed.

Lemma history_safe ls p p' dbPath :
  history ls p p' → configuration Quote env = Ok c → select_backend env dbFlag = BackendSQLite dbPath →
  0 ≤ p.1 → time_ok x → p'.1 + Second ≤ x → Forall (unacknowledged id k.1 k.2) ls → safe p.2 → safe p'.2.
Proof.
  intros Hh Hc Hb. induction Hh as [|ls u d t now r fs fs' p Hu Ho Hf Ht Hboot Hh IH
    |E ls ls' t q now q' fs p Hdb Hr Hh IH]; intros H0 Hx Hlate Hack Hsafe; cbn [fst snd] in *; [done|..].
  - apply history_time in Hh as Hmono. cbn in Hmono. apply IH; [lia|done|done|done|]. rewrite <-Hu in *.
    eapply boot_safe; [done..| | | |exact Hboot|done]; [exact Ht|done|lia].
  - apply history_time in Hh as Hmono. apply sql_run_time in Hr as Htime. cbn in Hmono, Htime.
    apply Forall_app in Hack as [Hack Hack']. apply IH; [lia|done|done|done|].
    unfold safe in *. cbn. rewrite Hdb in Hsafe. split; [|apply Hsafe].
    eapply in_ledger_run; [done..|lia|done|apply Hsafe].
Qed.
End delivery.
End upgrade.

(** C24: An upgrade loses nothing: from the state file, through any history of starts
    that fail at any call, are killed or succeed, and of buses that ran on the
    database in between, an event of the file that is still to be delivered is
    either waiting in the file, which nothing has replaced, or is offered to its
    agent by the database, while its deadline is a second away and nobody
    acknowledged it; and the file is kept, under its name or as the backup. *)
Theorem upgrade_loses_nothing `{C : Codec} Quote describe env dbFlag blob st c dbPath a n e pm ls t fs now fs' :
  let seq := snapshot_base st a + Z.of_nat n in
  let deadline := import_expiry c (toMessage pm) in
  configuration Quote env = Ok c → select_backend env dbFlag = BackendSQLite dbPath →
  Unmarshal blob = Ok st → importable c st → f_state fs = Some blob → f_db fs = None →
  inbox_events st a !! n = Some e → PersistentState.Messages st !! InboxEvent.MessageID e = Some pm →
  history Quote describe env dbFlag st ls (t, fs) (now, fs') →
  0 ≤ t → time_ok deadline → now + Second ≤ deadline →
  Forall (unacknowledged (InboxEvent.MessageID e) a seq) ls →
  match f_db fs' with
  | None => f_state fs' = Some blob
  | Some tables =>
      (f_state fs' = Some blob ∨ f_migrated fs' = Some blob) ∧
      ∃ i, i ∈ offers a seq (timeToString now) tables ∧ Sequenced.seq i = seq ∧
           Message.MessageID (Sequenced.message i) = InboxEvent.MessageID e
  end.
Proof.
  intros seq deadline Hc Hb Hun Hst Hs Hdb He Hpm Hh H0 Hx Hlate Hack.
  destruct (imported_row_at c st a n e He) as (pm' & Hpm' & Hrow). fold seq in Hrow. simplify_eq.
  pose proof (history_time _ _ _ _ _ _ _ _ Hh) as Htime. cbn in Htime.
  assert (safe blob (a, seq) (InboxEvent.MessageID e) deadline fs') as Hsafe.
  { assert (∃ d, imported_row c st (a, seq).1 (a, seq).2 = Some d ∧ DeliveryRow.message_id d = InboxEvent.MessageID e ∧
      DeliveryRow.expires_at d = timeToString deadline ∧ in_transport d = true) as Hd by by eexists.
    pose proof (history_safe Quote describe env dbFlag blob st c (a, seq) _ deadline Hst Hun Hd _ _ _ _ Hh Hc Hb) as Hs'.
    apply Hs'; try done. unfold safe. cbn. by rewrite Hdb. }
  unfold safe in Hsafe. destruct (f_db fs') as [tb|]; [|done]. destruct Hsafe as [Hin Hkept].
  split; [done|]. by apply (in_ledger_offered (a, seq) _ deadline); [|lia|..].
Qed.

(** *** The snapshot of [MigrateProps], on the second attempt *)

Definition no_env (name : string) : string := ε.

Definition idle_round : Round := mkRound (mkOrder [] []) (at_s 5) (at_s 5) (at_s 5) (at_s 5) (at_s 5) no_faults id.

Definition start_at (now : Time) (f : MigrateFaults) : Startup :=
  mkStartup no_env (λ _, Err "no such file"%stdpp) None (λ _, None) [] (λ m, elements (dom m)) import_order now []
    (mkStartClock now now now) f no_faults (λ _, []) LoadOk "epoch-1"%stdpp
    (λ _ q, mkSqlEnv (still 0 (inner q)) now id idle_round [] [] no_faults) still (λ n p, still n (Persistent.inner p)).

(** The disk is full when the import writes its fifth statement. *)
Definition full_import : MigrateFaults :=
  mkMigrateFaults None None true None
    (λ n, if bool_decide (n = 5%nat) then Some (CallFails "database or disk is full"%stdpp) else None)
    None None.

Definition first_start : result Fatal Booted * Files :=
  boot (C:=snapshot_codec) id (λ _, ε) (start_at (at_s 5) full_import) ε
    (mkFiles (Some "snapshot"%stdpp) None None None) ∅.
Definition second_start : result Fatal Booted * Files :=
  boot (C:=snapshot_codec) id (λ _, ε) (start_at (at_s 6) no_migrate_faults) ε first_start.2 ∅.

Lemma upgrade_loses_nothing_witness :
  (∃ e, first_start.1 = Err (MigrationFailed e)) ∧ f_state first_start.2 = Some "snapshot"%stdpp ∧
  ∃ t i, f_db second_start.2 = Some t ∧ i ∈ offers bob 0 (timeToString (at_s 6)) t ∧
         Message.MessageID (Sequenced.message i) = message_id 2.
Proof.
  split; [eexists; vm_compute; reflexivity|]. split; [vm_compute; reflexivity|].
  assert (∃ e pm, inbox_events snapshot bob !! 0%nat = Some e ∧ InboxEvent.MessageID e = message_id 2 ∧
    PersistentState.Messages snapshot !! message_id 2 = Some pm ∧
    time_ok (import_expiry (bus_config no_env NamespaceModeCompat ScopeUCLA ∅) (toMessage pm)) ∧
    at_s 6 + Second ≤ import_expiry (bus_config no_env NamespaceModeCompat ScopeUCLA ∅) (toMessage pm))
    as (e & pm & He & Hid & Hpm & Hok & Hlate).
  { do 2 eexists. split; [vm_compute; reflexivity|]. split; [vm_compute; reflexivity|].
    split; [vm_compute; reflexivity|]. vm_compute. split; [split|]; congruence. }
  destruct (f_db second_start.2) as [t|] eqn:Edb; [|exfalso; revert Edb; vm_compute; done].
  pose proof (@upgrade_loses_nothing snapshot_codec id (λ _, ε) no_env ε "snapshot"%stdpp snapshot
    (bus_config no_env NamespaceModeCompat ScopeUCLA ∅) "./data/bus.db"%stdpp bob 0 e pm [] (at_s 5)
    (mkFiles (Some "snapshot"%stdpp) None None None) (at_s 6) second_start.2) as H.
  cbv zeta in H. rewrite Hid, Edb in H. destruct H as (_ & i & Hi & _ & Hm).
  - vm_compute. reflexivity.
  - vm_compute. reflexivity.
  - reflexivity.
  - apply snapshot_importable.
  - reflexivity.
  - reflexivity.
  - exact He.
  - exact Hpm.
  - assert (∀ u, su_import_order u = import_order → order_for (su_import_order u snapshot) snapshot) as Ho.
    { intros u ->. constructor; apply enumerates_elements. }
    refine (history_start _ _ _ _ _ [] (start_at (at_s 5) full_import) ∅ _ (at_s 5) _ _ _ _ eq_refl (Ho (start_at (at_s 5) full_import) eq_refl) eq_refl
      _ (surjective_pairing _) _); [vm_compute; split; congruence|].
    refine (history_start _ _ _ _ _ [] (start_at (at_s 6) no_migrate_faults) ∅ _ (at_s 6) _ _ _ _ eq_refl (Ho (start_at (at_s 6) no_migrate_faults) eq_refl) eq_refl
      _ (surjective_pairing _) (history_nil _ _ _ _ _ _)). vm_compute; split; congruence.
  - vm_compute. congruence.
  - exact Hok.
  - exact Hlate.
  - apply Forall_nil_2.
  - exists t, i. split; [reflexivity|]. split; [exact Hi|exact Hm].
Defined.

(** ** Knobs in seconds

    A value that is unset or does not parse leaves the default, a negative one
    disables the knob, and any other is that many seconds as long as they fit
    the 64 bits of a duration. *)

Lemma envSeconds_exact getenv name v :
  Atoi (TrimSpace (getenv name)) = Ok v → 0 ≤ v → v * Second ≤ max_int64 →
  is_empty (TrimSpace (getenv name)) = false → envSeconds getenv name = v * Second.
Proof.
  intros Hv H0 Hmax Hne. unfold envSeconds. rewrite Hne, Hv, (proj2 (Z.ltb_ge v 0) H0).
  apply wrap64_id. unfold int64_range, min_int64, Second in *. lia.
Qed.

Lemma envSeconds_disabled getenv name v :
  Atoi (TrimSpace (getenv name)) = Ok v → v < 0 → is_empty (TrimSpace (getenv name)) = false →
  envSeconds getenv name = -1.
Proof. intros Hv Hlt Hne. unfold envSeconds. by rewrite Hne, Hv, (proj2 (Z.ltb_lt v 0) Hlt). Qed.

(** Beyond that it wraps around: a retention of 584 years is one of 0.3 s, and
    one of half that disables the knob, a negative duration doing so. *)
Example retention_wraps :
  envSeconds (λ _, "18446744074"%stdpp) "MESSAGE_RETENTION_SECONDS"%stdpp = 290448384 ∧
  envSeconds (λ _, "9223372037"%stdpp) "MESSAGE_RETENTION_SECONDS"%stdpp < 0.
Proof. split; vm_compute; reflexivity. Qed.
