(* ===== verification/Compact.v ===== *)
(** * Compaction: [pkg/bus/compact.go] and [cmd/pinakes-db-compact]

    What happens below SQL is the engine's: [Pager] is what the code asks of it
    about a database file, and [PagerLaws] what SQLite documents.  Each call of
    the engine may fail; the faults are numbered as in [Sqlite]. *)
From stdpp Require Import gmap strings list.
From Stdlib Require Import ZArith Lia Ascii.
From S2P Require Import Prelude GoBase Sqlite Flags.

Class Pager (F : Type) := {
  page_size : F → Z;
  page_count : F → Z;
  freelist_count : F → Z;
  auto_vacuum : F → Z;
  rows : F → Tables;
  request_auto_vacuum : Z → F → F;
  vacuum : F → F }.

(** [PRAGMA auto_vacuum] on a file that has tables waits for [VACUUM], which
    rebuilds the file without free pages in the mode asked for. *)
Class PagerLaws (F : Type) `{Pager F} := {
  request_rows m f : rows (request_auto_vacuum m f) = rows f;
  vacuum_rows f : rows (vacuum f) = rows f;
  vacuum_free f : freelist_count (vacuum f) = 0;
  vacuum_mode m f : auto_vacuum (vacuum (request_auto_vacuum m f)) = m;
  page_size_pos f : 512 ≤ page_size f ≤ 65536 }.

Module CompactReport.
Record t := mk {
  DBPath : string;
  PageSize : Z;
  PageCountBefore : Z;
  FreePagesBefore : Z;
  PageCountAfter : Z;
  FreePagesAfter : Z;
  AutoVacuumMode : string }.
End CompactReport.

Definition BytesBefore (r : CompactReport.t) : Z :=
  wrap64 (CompactReport.PageSize r * CompactReport.PageCountBefore r).
Definition BytesAfter (r : CompactReport.t) : Z :=
  wrap64 (CompactReport.PageSize r * CompactReport.PageCountAfter r).

(** What the file system and the driver say of a path: whether it is a link and
    whether a regular file. *)
Record Site := mkSite {
  s_lstat : result string (bool * bool);
  s_abs : result string string;
  s_open : option string }.

(** A failing call: its text and the result code of the engine, if it is one. *)
Definition CallFault : Type := string * option Z.

Definition isSQLiteBusy (e : CallFault) : bool :=
  match e.2 with Some code => Z.land code 0xff =? 5 | None => false end.

Definition mode_name (mode : Z) : string :=
  (if mode =? 0 then "none" else if mode =? 1 then "full" else if mode =? 2 then "incremental"
   else "unknown(" +:+ FormatInt mode +:+ ")")%stdpp.

Section compact.
Context {F : Type} `{Pager F} (faults : nat → option CallFault).

(** The [n]-th call, in words; what follows it has the file as the call left it. *)
Definition engine (n : nat) (what : string) (r : CompactReport.t) (f : F)
    (k : CompactReport.t * option string * F) : CompactReport.t * option string * F :=
  match faults n with
  | Some e => (r, Some (what +:+ ": "%stdpp +:+ e.1), f)
  | None => k
  end.

Definition CompactSQLiteDB (site : Site) (dbPath : string) (f : F)
    : CompactReport.t * option string * F :=
  let r := CompactReport.mk dbPath 0 0 0 0 0 ε in
  match s_lstat site with
  | Err e => (r, Some ("stat database: "%stdpp +:+ e), f)
  | Ok (symlink, regular) =>
      if symlink : bool then (r, Some "database path must not be a symlink"%stdpp, f)
      else if negb regular then (r, Some "database path must be a regular file"%stdpp, f)
      else
      match s_abs site, s_open site with
      | Err e, _ => (r, Some ("resolve database path: "%stdpp +:+ e), f)
      | Ok _, Some e => (r, Some ("open database: "%stdpp +:+ e), f)
      | Ok _, None =>
          match faults 0%nat with
          | Some e =>
              (r, Some ((if isSQLiteBusy e
                         then "database is locked by another process — stop the bus before compacting: "
                         else "acquire write lock: ")%stdpp +:+ e.1), f)
          | None =>
              engine 1%nat "release write-lock probe"%stdpp r f (
              engine 2%nat "read page_size"%stdpp r f (
              let r := CompactReport.mk dbPath (page_size f) 0 0 0 0 ε in
              engine 3%nat "read page_count"%stdpp r f (
              let r := CompactReport.mk dbPath (page_size f) (page_count f) 0 0 0 ε in
              engine 4%nat "read freelist_count"%stdpp r f (
              let r := CompactReport.mk dbPath (page_size f) (page_count f) (freelist_count f) 0 0 ε in
              engine 5%nat "set auto_vacuum"%stdpp r f (
              let f' := request_auto_vacuum 2 f in
              engine 6%nat "vacuum"%stdpp r f' (
              let f' := vacuum f' in
              engine 7%nat "read page_count after vacuum"%stdpp r f' (
              let r := CompactReport.mk dbPath (page_size f) (page_count f) (freelist_count f) (page_count f') 0 ε in
              engine 8%nat "read freelist_count after vacuum"%stdpp r f' (
              let r := CompactReport.mk dbPath (page_size f) (page_count f) (freelist_count f)
                         (page_count f') (freelist_count f') ε in
              engine 9%nat "read auto_vacuum"%stdpp r f' (
              (CompactReport.mk dbPath (page_size f) (page_count f) (freelist_count f)
                 (page_count f') (freelist_count f') (mode_name (auto_vacuum f')), None, f'))))))))))
          end
      end
  end.

Definition compact_flags : gmap string FlagKind := flag_set ["db"%stdpp] ["acknowledge-stopped"%stdpp].

(** [run] of the command: the exit status, and the report printed. *)
Definition compact_run (site : Site) (args : list string) (f : F) : Z * option CompactReport.t * F :=
  match parse_flags compact_flags ∅ args with
  | Err _ => (2, None, f)
  | Ok (values, rest) =>
      let dbPath := string_flag values "db"%stdpp in
      if negb (length rest =? 0)%nat then (2, None, f)
      else if is_empty dbPath then (2, None, f)
      else if negb (bool_flag values "acknowledge-stopped"%stdpp) then (2, None, f)
      else
      match CompactSQLiteDB site dbPath f with
      | (_, Some _, f) => (1, None, f)
      | (r, None, f) => (0, Some r, f)
      end
  end.

(** ** What a run does to the file *)

Context `{!PagerLaws F}.

(** No row is lost, whatever fails; before the write lock is taken and released
    nothing is touched at all. *)
Lemma compact_keeps_rows site dbPath f r e f' :
  CompactSQLiteDB site dbPath f = (r, e, f') →
  rows f' = rows f ∧ ((is_Some (faults 0%nat) ∨ is_Some (faults 1%nat)) → f' = f ∧ is_Some e).
Proof.
  unfold CompactSQLiteDB, engine. cbv zeta.
  destruct (s_lstat site) as [[[] []]|]; try (by intros [= _ <- <-]; eauto).
  destruct (s_abs site); [|by intros [= _ <- <-]; eauto]. destruct (s_open site); [by intros [= _ <- <-]; eauto|].
  destruct (faults 0%nat) eqn:E0; [by intros [= _ <- <-]; eauto|].
  destruct (faults 1%nat) eqn:E1; [by intros [= _ <- <-]; eauto|].
  intros Hr. split; [|by intros [[]|[]]].
  revert Hr. repeat (case_match; [intros [= _ _ <-]; by rewrite ?vacuum_rows, ?request_rows|]).
  intros [= _ _ <-]. by rewrite vacuum_rows, request_rows.
Qed.

(** What success means. *)
Lemma compact_reports site dbPath f r f' :
  CompactSQLiteDB site dbPath f = (r, None, f') →
  f' = vacuum (request_auto_vacuum 2 f) ∧
  r = CompactReport.mk dbPath (page_size f) (page_count f) (freelist_count f) (page_count f') 0 "incremental"%stdpp.
Proof.
  unfold CompactSQLiteDB, engine. cbv zeta.
  destruct (s_lstat site) as [[[] []]|]; try done.
  destruct (s_abs site); [|done]. destruct (s_open site); [done|]. destruct (faults 0%nat); [done|].
  repeat (case_match; [done|]). intros [= <- <-]. split; [done|]. by rewrite vacuum_free, vacuum_mode.
Qed.
End compact.

(** A compaction the operator is told succeeded leaves every row, no free page
    and a file that gives pages back by itself; the sizes it reports are those of
    the file while a file has fewer than 2^47 pages.  A run that is told anything
    else, or that finds the database in use, loses no row either. *)
Theorem compact_run_safe {F} `{PagerLaws F} faults site args f status report f' :
  compact_run faults site args f = (status, report, f') → 0 ≤ page_count f < 2 ^ 47 →
  rows f' = rows f ∧
  (is_Some (faults 0%nat) → f' = f ∧ status ≠ 0) ∧
  (status = 0 ↔ is_Some report) ∧ (status = 2 → f' = f) ∧
  ∀ r, report = Some r →
    freelist_count f' = 0 ∧ auto_vacuum f' = 2 ∧
    CompactReport.AutoVacuumMode r = "incremental"%stdpp ∧ BytesBefore r = page_size f * page_count f ∧
    ∃ values, parse_flags compact_flags ∅ args = Ok (values, []) ∧
      bool_flag values "acknowledge-stopped"%stdpp = true.
Proof.
  unfold compact_run. intros Hr Hp. destruct (parse_flags compact_flags ∅ args) as [[values rest]|e].
  2: { injection Hr as <- <- <-. naive_solver. }
  destruct (negb (length rest =? 0)%nat) eqn:El; [injection Hr as <- <- <-; naive_solver|].
  destruct (is_empty _); [injection Hr as <- <- <-; naive_solver|].
  destruct (negb (bool_flag _ _)) eqn:Ea; [injection Hr as <- <- <-; naive_solver|].
  destruct (CompactSQLiteDB _ _ _ _) as [[r [e|]] f1] eqn:Ec; injection Hr as <- <- <-.
  - destruct (compact_keeps_rows _ _ _ _ _ _ _ Ec) as [? Hf].
    split_and!; [done|intros Hs; by split; [apply Hf; left|]|naive_solver|done|done].
  - destruct (compact_keeps_rows _ _ _ _ _ _ _ Ec) as [? Hf]. destruct (compact_reports _ _ _ _ _ _ Ec) as [-> ->].
    split_and!; [done|intros Hs; by destruct (Hf (or_introl Hs)) as [_ [? ?]]|split; eauto|done|].
    intros ? [= <-]. rewrite vacuum_free, vacuum_mode. apply negb_false_iff in Ea. split_and!; try done.
    2: { exists values. split; [|done]. apply negb_false_iff, Nat.eqb_eq in El. by destruct rest. }
    unfold BytesBefore. cbn. apply wrap64_id. unfold int64_range, min_int64, max_int64.
    pose proof (page_size_pos f). nia.
Qed.

(** *** A file of 100 pages, 98 of them free *)

Record toy_file := mkToy { toy_pages : Z; toy_free : Z; toy_mode : Z; toy_asked : option Z }.

#[export] Instance toy_pager : Pager toy_file := {|
  page_size _ := 4096; page_count := toy_pages; freelist_count := toy_free; auto_vacuum := toy_mode;
  rows _ := emptyTables;
  request_auto_vacuum m f := mkToy (toy_pages f) (toy_free f) (toy_mode f) (Some m);
  vacuum f := mkToy (toy_pages f - toy_free f) 0 (default (toy_mode f) (toy_asked f)) None |}.

#[export] Instance toy_pager_laws : PagerLaws toy_file.
Proof. by split. Qed.

Definition bloated : toy_file := mkToy 100 98 0 None.
Definition plain_site : Site := mkSite (Ok (false, true)) (Ok "/srv/bus.db"%stdpp) None.

Lemma compact_run_safe_witness :
  ∃ r f', compact_run (λ _, None) plain_site ["--db"; "bus.db"; "--acknowledge-stopped"]%stdpp bloated = (0, Some r, f') ∧
    freelist_count f' = 0 ∧ page_count f' = 2 ∧ BytesBefore r = 409600.
Proof.
  do 2 eexists. split; [vm_compute; reflexivity|].
  match goal with |- freelist_count ?f' = 0 ∧ _ ∧ BytesBefore ?r = _ =>
    destruct (compact_run_safe (λ _, None) plain_site ["--db"; "bus.db"; "--acknowledge-stopped"]%stdpp bloated 0
      (Some r) f') as (_ & _ & _ & _ & H)
  end.
  - vm_compute. reflexivity.
  - vm_compute. split; congruence.
  - destruct (H _ eq_refl) as (Hfree & _ & _ & Hbytes & _). split; [exact Hfree|]. split; [reflexivity|exact Hbytes].
Defined.
