(* ===== verification/Tools.v ===== *)
(** * The migration commands: [cmd/pinakes-migrate], [cmd/pinakes-migrate-compare],
    [cmd/pinakes-manifest-invert] and [cmd/pinakes-manifest-allowlist]

    Each [run] of a command takes the arguments and yields the exit status and
    what it leaves: the report printed, the file written, the tables.  The CSV
    and JSON codecs are the standard library's: [open_manifest] is opening a
    manifest and what its reads yield, with the error of closing it, and
    [write_*] the error of encoding to the standard output, after which nothing
    counts as printed. *)
From stdpp Require Import gmap strings list sorting.
From Stdlib Require Import ZArith Lia Ascii.
From S2P Require Import Prelude GoBase Sqlite Delivery Configutil Manifest Nsmigrate Compare Flags Http Handlers.

Section tools.
Context (Quote FileURL : string → string).
Context (pair_range : gmap string pair → list string).
Context (open_manifest : string → result string (CsvInput * option string)).

Inductive ManifestFailure :=
| OpenFails (err : string) | ParseRefused (refusal : Refusal) | CloseFails (err : string).

(** Opening, parsing and closing; an error of the parser comes first. *)
Definition read_manifest (path : string) : result ManifestFailure (list ManifestRow) :=
  match open_manifest path with
  | Err err => Err (OpenFails err)
  | Ok (input, closeErr) =>
      match ParseManifest Quote pair_range input, closeErr with
      | Err refusal, _ => Err (ParseRefused refusal)
      | Ok _, Some err => Err (CloseFails err)
      | Ok rows, None => Ok rows
      end
  end.

(** ** pinakes-migrate *)

Section migrate.
Context (Error : DBError → string) (Code : DBError → option Z) (range : gset string → list string).
Context (env : Nsmigrate.Env.t) (getenv : string → string) (write_report : Report.t → option string).

Definition migrate_flags : gmap string FlagKind :=
  flag_set ["db"; "manifest"; "authority"]%stdpp ["apply"; "acknowledge-copy"]%stdpp.

Definition writeReport (report : Report.t) : option Report.t :=
  match write_report report with Some _ => None | None => Some report end.

Definition migrate_run (args : list string) : Db (Z * option Report.t) :=
  match parse_flags migrate_flags ∅ args with
  | Err _ => mret (2, None)
  | Ok (values, rest) =>
      let apply := bool_flag values "apply"%stdpp in
      let manifestPath := string_flag values "manifest"%stdpp in
      if negb (length rest =? 0)%nat then mret (2, None) else
      match ParseAuthority Quote (string_flag values "authority"%stdpp) with
      | Err _ => mret (2, None)
      | Ok authority =>
          if is_empty manifestPath then mret (2, None) else
          match read_manifest manifestPath with
          | Err (ParseRefused refusal) =>
              mret (1, writeReport (RefusedReport (Authority_string authority) apply [refusal]))
          | Err _ => mret (1, None)
          | Ok rows =>
              outcome ← Nsmigrate.Run Quote FileURL Error Code range env rows
                (Nsmigrate.Options.mk (string_flag values "db"%stdpp) (Authority_string authority) apply
                   (bool_flag values "acknowledge-copy"%stdpp) (SplitCSV (getenv "CONTROL_PLANE_AGENTS"%stdpp)));
              mret match writeReport outcome.1 with
                   | None => (1, None)
                   | Some report => (match outcome.2 with Some _ => 1 | None => 0 end, Some report)
                   end
          end
      end
  end.
End migrate.

(** ** pinakes-migrate-compare *)

Definition compare_flags : gmap string FlagKind := flag_set ["expected"; "actual"]%stdpp [].

(** [compare] is [CompareLogicalDatabases]. *)
Definition compare_run (compare : string → string → result string ComparisonReport.t)
    (write_report : ComparisonReport.t → option string) (args : list string) : Z * option ComparisonReport.t :=
  match parse_flags compare_flags ∅ args with
  | Err _ => (2, None)
  | Ok (values, rest) =>
      let expected := string_flag values "expected"%stdpp in
      let actual := string_flag values "actual"%stdpp in
      if negb (length rest =? 0)%nat || is_empty expected || is_empty actual then (2, None) else
      match compare expected actual with
      | Err _ => (1, None)
      | Ok report =>
          match write_report report with
          | Some _ => (1, None)
          | None => (if ComparisonReport.Equal report then 0 else 1, Some report)
          end
      end
  end.

(** ** pinakes-manifest-invert *)

(** A disk holds the records of the manifests written; [O_EXCL] refuses a path
    that exists.  A file that was not written and closed without error is
    removed; [iv_leftover] is what stays when that fails too. *)
Record InvertFaults := mkInvertFaults {
  iv_create : option string;
  iv_write : option string;
  iv_close : option string;
  iv_leftover : option (list (list string)) }.

Definition invert_flags : gmap string FlagKind := flag_set ["manifest"; "output"]%stdpp [].

Definition invert_run (reread : list (list string) → CsvInput) (f : InvertFaults) (args : list string)
    (disk : gmap string (list (list string))) : Z * gmap string (list (list string)) :=
  match parse_flags invert_flags ∅ args with
  | Err _ => (2, disk)
  | Ok (values, rest) =>
      let inputPath := string_flag values "manifest"%stdpp in
      let outputPath := string_flag values "output"%stdpp in
      if negb (length rest =? 0)%nat || is_empty inputPath || is_empty outputPath then (2, disk) else
      match read_manifest inputPath with
      | Err _ => (1, disk)
      | Ok manifest =>
          match InvertManifest Quote pair_range reread manifest with
          | Err _ => (1, disk)
          | Ok inverse =>
              match iv_create f, disk !! outputPath with
              | Some _, _ | None, Some _ => (1, disk)
              | None, None =>
                  match iv_write f, iv_close f with
                  | None, None => (0, <[outputPath := WriteManifest inverse]> disk)
                  | _, _ => (1, match iv_leftover f with
                               | None => disk
                               | Some records => <[outputPath := records]> disk
                               end)
                  end
              end
          end
      end
  end.

(** ** pinakes-manifest-allowlist *)

Definition allowlist_flags : gmap string FlagKind := flag_set ["manifest"%stdpp] [].

Definition allowed_identity (row : ManifestRow) : option string :=
  if bool_decide (row_disposition row = DispositionRetire) then None else Some (TargetID row).

Definition identities_of (rows : list ManifestRow) : gset string := list_to_set (omap allowed_identity rows).

Definition ordered_identities (rows : list ManifestRow) : list string :=
  merge_sort String.le (elements (identities_of rows)).

Definition allowlist_header : list string :=
  ["# Proposed post-migration Pinakes agent allowlist";
   "# Generated from the reviewed issue #15 namespace manifest.";
   "# Retired identities are intentionally absent."]%stdpp.

Definition print_lines (lines : list string) : string :=
  foldr (λ l acc, l +:+ newline +:+ acc) ε lines.

Definition allowlist_text (rows : list ManifestRow) : string :=
  print_lines (allowlist_header ++ ordered_identities rows).

Definition allowlist_run (flush : option string) (args : list string) : Z * option string :=
  match parse_flags allowlist_flags ∅ args with
  | Err _ => (2, None)
  | Ok (values, rest) =>
      let manifestPath := string_flag values "manifest"%stdpp in
      if negb (length rest =? 0)%nat || is_empty manifestPath then (2, None) else
      match read_manifest manifestPath with
      | Err _ => (1, None)
      | Ok manifest =>
          match flush with Some _ => (1, None) | None => (0, Some (allowlist_text manifest)) end
      end
  end.

End tools.
