(* ===== verification/ToolsProps.v ===== *)
(** * Properties of the migration commands

    What the exit status of [pinakes-migrate] says of the database, what the
    allowlist generated from a manifest admits, and that an inverse manifest
    never replaces a file. *)
From stdpp Require Import gmap strings list sorting.
From Stdlib Require Import ZArith Lia Ascii.
From S2P Require Import Prelude GoBase Utf8 Text Sqlite Delivery Migrate MigrateSpec Configutil Manifest ManifestProps Nsmigrate NsmigrateSpec NsmigrateProps Compare Flags Http Handlers Tools.

(** ** Text without control characters is one line *)

Lemma rune_bytes l n :
  rune_length l = Some n → (∃ c, take n l = [c]) ∨ Forall (λ c, 0x80 ≤ byte c) (take n l).
Proof.
  unfold rune_length, cont_byte, in_range. intros H. destruct l as [|c l]; [done|].
  destruct ((0 <=? byte c) && (byte c <=? 127)) eqn:Ec; [left; exists c; by injection H as <-|right].
  assert (0x80 ≤ byte c) as Hc.
  { pose proof (byte_range c). apply andb_false_iff in Ec. rewrite !Z.leb_gt in Ec. lia. }
  repeat (case_match; try done); simplify_eq; cbn; prop_bool; repeat constructor; try lia.
Qed.

(** A byte of the ASCII range is a rune of its own. *)
Lemma runes_ascii fuel l rs c :
  runes fuel l = Some rs → c ∈ l → byte c < 0x80 → [c] ∈ rs.
Proof.
  revert l rs. induction fuel as [|fuel IH]; intros [|d l] rs; cbn [runes]; try done; [by rewrite elem_of_nil..|].
  destruct (rune_length (d :: l)) as [n|] eqn:En; [|done].
  destruct (runes fuel (drop n (d :: l))) as [rs'|] eqn:Er; [|done]. intros [= <-] Hin Hc.
  rewrite <-(take_drop n (d :: l)) in Hin. apply elem_of_app in Hin as [Hin|Hin].
  - apply rune_bytes in En as [[x Hx]|Hall].
    + rewrite Hx in *. apply list_elem_of_singleton in Hin as ->. by left.
    + rewrite Forall_forall in Hall. specialize (Hall _ Hin). cbn in Hall. lia.
  - right. by eapply IH.
Qed.

Lemma one_line s : ValidString s = true → has_control s = false → "010"%char ∉ bytes s.
Proof.
  unfold ValidString, has_control. destruct (runes _ _) as [rs|] eqn:Er; [|done]. intros _ Hc Hin.
  apply runes_ascii with (c := "010"%char) in Er; [|done|by vm_compute].
  assert (existsb IsControl rs = true); [|congruence]. apply existsb_exists.
  exists ["010"%char]. split; [by apply list_elem_of_In|by vm_compute].
Qed.

(** ** Reading back a list of lines *)

Lemma print_lines_split lines :
  Forall (λ l, "010"%char ∉ bytes l) lines → Split (print_lines lines) "010"%char = lines ++ [ε].
Proof.
  induction 1 as [|l lines Hl _ IH]; [done|]. unfold Split in *. cbn [print_lines foldr].
  rewrite !bytes_app. change (bytes newline) with ["010"%char]. cbn [app].
  rewrite split_bytes_app by done. cbn [map]. rewrite of_bytes_bytes. cbn [app]. f_equal. exact IH.
Qed.

Lemma scan_print_lines lines :
  Forall (λ l, "010"%char ∉ bytes l) lines → scan_lines (print_lines lines) = lines.
Proof.
  intros Hl. unfold scan_lines. change (ascii_of_N 10) with "010"%char. rewrite print_lines_split by done.
  rewrite last_snoc. change (is_empty ε) with true. cbn iota.
  rewrite length_app. cbn [length]. by rewrite Nat.add_sub, take_app_length.
Qed.

(** ** The allowlist of a manifest *)

Lemma elem_of_identities rows id :
  id ∈ identities_of rows ↔ ∃ row, row ∈ rows ∧ row_disposition row ≠ DispositionRetire ∧ TargetID row = id.
Proof.
  unfold identities_of, allowed_identity. rewrite elem_of_list_to_set, list_elem_of_omap.
  split; intros (row & Hin & Hr); exists row; (split; [done|]).
  - case_bool_decide; [done|]. by injection Hr as <-.
  - destruct Hr as [? <-]. by rewrite bool_decide_eq_false_2.
Qed.

(** An identity the server reads back from a line of its own. *)
Definition listable (id : string) : Prop := HasPrefix id "#"%stdpp = false ∧ len id < max_line.

Lemma identities_read rows :
  manifest_ok rows → (∀ id, id ∈ identities_of rows → listable id) →
  loadAllowlistFile (Ok (allowlist_text rows)) = Ok (identities_of rows).
Proof.
  intros Hm Hlist.
  assert (∀ id, id ∈ ordered_identities rows ↔ id ∈ identities_of rows) as Hord.
  { intros id. unfold ordered_identities. by rewrite merge_sort_Permutation, elem_of_elements. }
  assert (∀ id, id ∈ identities_of rows → ("010"%char ∉ bytes id) ∧ allowlist_line id = Some id ∧ len id < max_line) as Hid.
  { intros id Hin. destruct (Hlist id Hin) as [Hhash Hlen]. apply elem_of_identities in Hin as (row & Hrow & _ & <-).
    destruct (proj1 (Forall_forall _ _) (mk_rows _ Hm) row Hrow) as [Hf [_ Hc] _].
    apply Forall_cons in Hf as [_ [(Hv & Ht & Hne) _]%Forall_cons]. split_and!; [by apply one_line| |done].
    unfold allowlist_line, is_empty. rewrite Ht, bool_decide_eq_false_2 by done. cbn [orb]. by rewrite Hhash. }
  unfold loadAllowlistFile, allowlist_text. rewrite scan_print_lines.
  - assert (existsb (λ l, max_line <=? len l) (allowlist_header ++ ordered_identities rows) = false) as ->.
    { apply not_true_iff_false. rewrite existsb_exists. intros (l & Hl & Hlen). apply list_elem_of_In, elem_of_app in Hl as [Hl|Hl].
      - revert l Hl Hlen. refine (proj1 (Forall_forall _ _) _). repeat constructor; vm_compute; congruence.
      - apply Hord, Hid in Hl as (_ & _ & Hl). prop_bool. lia. }
    f_equal. rewrite omap_app.
    assert (omap allowlist_line allowlist_header = []) as -> by (vm_compute; reflexivity). cbn [app].
    apply set_eq. intros id. rewrite elem_of_list_to_set, list_elem_of_omap. split.
    + intros (id' & Hin%Hord & He). destruct (Hid _ Hin) as (_ & Hl & _). congruence.
    + intros Hin. exists id. split; [by apply Hord|by apply Hid].
  - apply Forall_app. split; [repeat constructor; vm_compute; set_solver|].
    apply Forall_forall. intros id Hin%Hord. by apply Hid.
Qed.

(** The allowlist generated from a manifest is a file the server reads, and
    admits exactly the identities the manifest leaves in use; as long as there is
    one, and none looks like a comment. *)
Theorem allowlist_admits {Σ} rows (srv : Server Σ) :
  manifest_ok rows → (∀ id, id ∈ identities_of rows → listable id) → identities_of rows ≠ ∅ →
  let '(srv', err) := reloadAllowlistFile (Ok (allowlist_text rows)) srv in
  err = None ∧ store srv' = store srv ∧
  ∀ id, isAgentAllowed srv' id = true ↔
    ∃ row, row ∈ rows ∧ row_disposition row ≠ DispositionRetire ∧ TargetID row = id.
Proof.
  intros Hm Hlist Hne. unfold reloadAllowlistFile. rewrite identities_read by done. cbn [fst swapAgentAllowset].
  split_and!; [done|done|]. intros id. unfold isAgentAllowed. cbn [agentAllowset].
  rewrite (bool_decide_eq_false_2 (identities_of rows = ∅)) by done. cbn [orb].
  by rewrite bool_decide_eq_true, elem_of_identities.
Qed.

#[export] Instance listable_dec id : Decision (listable id).
Proof. unfold listable. apply _. Defined.

Lemma allowlist_admits_witness :
  manifest_ok fleet ∧
  let srv := (reloadAllowlistFile (Ok (allowlist_text fleet)) (mkServer () ∅ ∅)).1 in
  isAgentAllowed srv "personal.planner"%stdpp = true ∧ isAgentAllowed srv "planner"%stdpp = false.
Proof.
  split; [exact fleet_ok|]. pose proof (allowlist_admits fleet (mkServer () ∅ ∅) fleet_ok) as H.
  destruct (reloadAllowlistFile _ _) as [srv err] eqn:Esrv. destruct H as (_ & _ & H).
  - refine (proj1 (bool_decide_eq_true (set_Forall listable (identities_of fleet))) _). vm_compute. reflexivity.
  - intros He. apply (f_equal size) in He. vm_compute in He. discriminate He.
  - cbv zeta. cbn [fst]. split.
    + apply H. eexists. split; [left|]. split; [discriminate|reflexivity].
    + apply not_true_iff_false. intros Ha. apply H in Ha as (row & Hin & _ & Ht).
      assert (Forall (λ row, TargetID row ≠ "planner"%stdpp) fleet) as Hall.
      { refine (proj1 (bool_decide_eq_true _) _). vm_compute. reflexivity. }
      rewrite Forall_forall in Hall. by apply (Hall row Hin).
Defined.

(** A manifest that retires every identity yields a list that admits everyone,
    and the undo of a plan may name an identity that reads as a comment. *)
Definition retired : list ManifestRow :=
  [plan_row AuthorityUCLA "ucla.old" "old" DispositionRetire false 2]%stdpp.
Definition hashed : list ManifestRow :=
  [plan_row AuthorityJK "personal.#1" "#1" DispositionMigrate false 2;
   plan_row AuthorityJK "hub" "hub" DispositionUnchanged true 3]%stdpp.

Example allowlist_opens :
  manifest_ok retired ∧
  isAgentAllowed (reloadAllowlistFile (Ok (allowlist_text retired)) (mkServer () ∅ {["hub"%stdpp]})).1 "anyone"%stdpp = true.
Proof. split; [apply written_ok|]; vm_compute; reflexivity. Qed.

Example allowlist_loses_comment :
  manifest_ok hashed ∧ "#1"%stdpp ∈ identities_of hashed ∧
  isAgentAllowed (reloadAllowlistFile (Ok (allowlist_text hashed)) (mkServer () ∅ ∅)).1 "#1"%stdpp = false.
Proof.
  split; [apply written_ok; vm_compute; reflexivity|]. split; [|vm_compute; reflexivity].
  apply elem_of_identities. eexists. split; [left|]. split; [discriminate|reflexivity].
Qed.

(** ** What an exit status says *)

Section exits.
Context (Quote FileURL : string → string) (pair_range : gmap string pair → list string).
Context (Hrange : ∀ m, enumerates (pair_range m) m).
Context (open_manifest : string → result string (CsvInput * option string)).

Lemma read_manifest_Ok path rows :
  read_manifest Quote pair_range open_manifest path = Ok rows →
  open_manifest path = Ok (Ok <$> WriteManifest rows, None) ∧ manifest_ok rows.
Proof using Hrange.
  unfold read_manifest. destruct (open_manifest path) as [[input [e|]]|]; [| |done].
  - by destruct (ParseManifest _ _ _).
  - destruct (ParseManifest Quote pair_range input) eqn:Hp; [|done]. intros [= ->].
    by apply (ParseManifest_sound Quote pair_range Hrange) in Hp as [-> ?].
Qed.

Section migrate.
Context (Error : DBError → string) (Code : DBError → option Z) (range : gset string → list string).
Context (env : Nsmigrate.Env.t) (getenv : string → string) (write_report : Report.t → option string).

Lemma run_db_ret {A} (a : A) f t : run_db (mret a) f t = (Ok a, t).
Proof. done. Qed.

Lemma run_db_bind {A B} (m : Db A) (g : A → B) f t :
  run_db (m ≫= λ a, mret (g a)) f t =
  match run_db m f t with (Ok a, t') => (Ok (g a), t') | (Err e, t') => (Err e, t') end.
Proof. unfold run_db. rewrite bind_run. by destruct (m f (0%nat, t)) as [[a|e] [k t']]. Qed.

(** The exit status of the migration, whatever fails.  0: the report was printed
    and says what happened, a rename by a manifest within the contract under
    [--apply] and [--acknowledge-copy], or nothing.  2: the arguments were not
    understood, and the database was not opened.  1: nothing happened, unless the
    report could not be written: only then may a plan have been applied. *)
Theorem migrate_exit args f t :
  match run_db (migrate_run Quote FileURL pair_range open_manifest Error Code range env getenv write_report args) f t with
  | (Ok (0, Some r), t') =>
      (Report.Status r = "no-op"%stdpp ∨ Report.Status r = "ready"%stdpp) ∧ t' = t ∨
      Report.Status r = "applied"%stdpp ∧ ∃ values path rows a, parse_flags migrate_flags ∅ args = Ok (values, []) ∧
        bool_flag values "apply"%stdpp = true ∧ bool_flag values "acknowledge-copy"%stdpp = true ∧
        string_flag values "manifest"%stdpp = path ∧ open_manifest path = Ok (Ok <$> WriteManifest rows, None) ∧
        manifest_ok rows ∧ string_flag values "authority"%stdpp = Authority_string a ∧ plan_ok a rows t ∧
        t' = rename (target_of a rows) t
  | (Ok (1, Some r), t') => Report.Status r = "refused"%stdpp ∧ t' = t
  | (Ok (1, None), t') => t' = t ∨ ∃ r, is_Some (write_report r) ∧ Report.Status r = "applied"%stdpp
  | (Ok (2, None), t') => t' = t
  | _ => False
  end.
Proof using Hrange.
  unfold migrate_run. destruct (parse_flags migrate_flags ∅ args) as [[values rest]|e] eqn:Hargs; [|done].
  destruct rest as [|? ?]; [|done]. cbn [length Nat.eqb negb].
  destruct (ParseAuthority _ _) as [authority|e] eqn:Ha; [|done]. apply ParseAuthority_Ok in Ha.
  destruct (is_empty _); [done|]. destruct (read_manifest _ _ _ _) as [rows|[e|refusal|e]] eqn:Hman; [|by left| |by left].
  2: { unfold writeReport. destruct (write_report _); cbn; auto. }
  apply read_manifest_Ok in Hman as [Hopen Hman]. rewrite run_db_bind.
  match goal with |- context [Nsmigrate.Run _ _ _ _ _ _ _ ?o] => set (options := o) end.
  pose proof (run_refused Quote FileURL Error Code range env rows options f t) as Href.
  pose proof (run_applied Quote FileURL Error Code range env rows options f t) as Happ.
  destruct (run_db (Nsmigrate.Run _ _ _ _ _ _ _ _) f t) as [[[r [e|]]|e] t'] eqn:Hrun; [| |done]; cbn [fst snd].
  - destruct Href as (Hst & _ & ->). unfold writeReport. destruct (write_report r); auto.
  - destruct (Happ r t' Hman eq_refl) as [(a & Hauth & Hok & Hst & Hap & Hack & Ht')|[Hst ->]].
    + unfold writeReport. destruct (write_report r) eqn:Hw; [right; exists r; rewrite Hw; eauto|].
      right. split; [done|]. exists values, (string_flag values "manifest"%stdpp), rows, a. split_and!; try done.
      by rewrite Ha, <-Hauth.
    + unfold writeReport. destruct (write_report r); auto.
Qed.
End migrate.

(** ** Inverting *)

(** The undo plan goes to a new file or nowhere: no file that is there is
    replaced, whatever fails, and what the command reports written reads back as
    the plan with every rename swapped. *)
Theorem invert_writes_new_file reread f args disk :
  (∀ records, Forall (λ record, (2 <= length record)%nat ∧ Forall crlf_free record) records →
     reread records = Ok <$> records) →
  let '(status, disk') := invert_run Quote pair_range open_manifest reread f args disk in
  disk ⊆ disk' ∧
  (status = 0 → ∃ values path rows undo, parse_flags invert_flags ∅ args = Ok (values, []) ∧
     path = string_flag values "output"%stdpp ∧ disk !! path = None ∧
     open_manifest (string_flag values "manifest"%stdpp) = Ok (Ok <$> WriteManifest rows, None) ∧ manifest_ok rows ∧
     disk' = <[path := WriteManifest undo]> disk ∧ manifest_ok undo ∧
     (Forall (Forall crlf_free ∘ record_of) rows → undo = invert_row <$> rows)) ∧
  (status ≠ 0 → iv_leftover f = None → disk' = disk).
Proof using Hrange.
  clear FileURL. intros Hread. unfold invert_run. destruct (parse_flags invert_flags ∅ args) as [[values rest]|e] eqn:Hargs; [|naive_solver].
  destruct rest as [|? ?]; [|cbn; naive_solver]. cbn [length Nat.eqb negb orb].
  destruct (is_empty _ || is_empty _); [naive_solver|].
  destruct (read_manifest _ _ _ _) as [rows|e] eqn:Hman; [|naive_solver].
  apply read_manifest_Ok in Hman as [Hopen Hman].
  destruct (InvertManifest _ _ _ _) as [undo|e] eqn:Hinv; [|naive_solver].
  destruct (iv_create f); [naive_solver|].
  destruct (disk !! string_flag values "output"%stdpp) eqn:Hfree; [naive_solver|].
  destruct (iv_write f), (iv_close f);
    [split_and!; [by destruct (iv_leftover f); [apply insert_subseteq|]|done|by intros _ ->]..|].
  split_and!; [by apply insert_subseteq| |done]. intros _.
  exists values, (string_flag values "output"%stdpp), rows, undo. split_and!; try done.
  - by apply (ParseManifest_sound Quote pair_range Hrange) in Hinv as [_ ?].
  - intros Hc. rewrite (InvertManifest_written Quote pair_range Hrange reread Hread rows) in Hinv; [|done|done].
    by injection Hinv as <-.
Qed.
End exits.

Definition migrate_fleet : Db (Z * option Report.t) :=
  migrate_run id id in_map_order (λ _, Ok (Ok <$> WriteManifest fleet, None)) (λ _, ε) (λ _, None) elements
    plain_files (λ _, "hub"%stdpp) (λ _, None)
    ["--db"; "copy.db"; "--manifest=m.csv"; "--authority"; "jk"; "--acknowledge-copy"; "--apply"]%stdpp.

Lemma migrate_exit_witness :
  ∃ r t', run_db migrate_fleet no_faults before = (Ok (0, Some r), t') ∧ Report.Status r = "applied"%stdpp ∧
    ∃ rows a, t' = rename (target_of a rows) before.
Proof.
  pose proof (migrate_exit id id in_map_order ltac:(intros m; apply enumerates_elements)
    (λ _, Ok (Ok <$> WriteManifest fleet, None)) (λ _, ε) (λ _, None) elements
    plain_files (λ _, "hub"%stdpp) (λ _, None)
    ["--db"; "copy.db"; "--manifest=m.csv"; "--authority"; "jk"; "--acknowledge-copy"; "--apply"]%stdpp no_faults before) as H.
  assert (match (run_db migrate_fleet no_faults before).1 with
          | Ok (z, Some r) => z = 0 ∧ Report.Status r = "applied"%stdpp
          | _ => False
          end) as Hst by (vm_compute; split; reflexivity).
  change (migrate_run id id in_map_order _ _ _ _ _ _ _ _) with migrate_fleet in H.
  revert H Hst. generalize (run_db migrate_fleet no_faults before). intros [[[status [r|]]|e] t'] H Hst; [|destruct Hst..].
  destruct Hst as [Hz Hst]. cbn [fst] in *. subst status.
  exists r, t'. split; [reflexivity|]. split; [exact Hst|]. destruct H as [[[Hn|Hn] _]|(_ & ? & ? & rows & a & H)].
  - rewrite Hst in Hn. discriminate Hn.
  - rewrite Hst in Hn. discriminate Hn.
  - exists rows, a. apply H.
Defined.

Lemma invert_writes_new_file_witness :
  let args := ["--manifest"; "m.csv"; "--output"; "undo.csv"]%stdpp in
  let open_manifest := λ _ : string, Ok (Ok <$> WriteManifest fleet, None) : result string (CsvInput * option string) in
  invert_run id in_map_order open_manifest (fmap Ok) (mkInvertFaults None None None None) args ∅
  = (0, {["undo.csv"%stdpp := WriteManifest (invert_row <$> fleet)]}) ∧
  ∀ f disk, disk ⊆ (invert_run id in_map_order open_manifest (fmap Ok) f args disk).2.
Proof.
  cbv zeta. split; [vm_compute; reflexivity|]. intros f disk.
  pose proof (invert_writes_new_file id in_map_order ltac:(intros m; apply enumerates_elements)
    (λ _, Ok (Ok <$> WriteManifest fleet, None)) (fmap Ok) f ["--manifest"; "m.csv"; "--output"; "undo.csv"]%stdpp disk
    ltac:(intros; reflexivity)) as H.
  destruct (invert_run _ _ _ _ _ _ _) as [status disk']. apply H.
Defined.
