(* ===== verification/Synthetic.v ===== *)
(** * Fabricated databases: [internal/nsmigrate/synthetic.go],
    [cmd/pinakes-migrate-fixture]

    The rehearsal database is filled through the interface of the store, as the
    HTTP layer uses it; [GenerateSyntheticDB] runs it on the SQLite store at a
    fixed instant.  [cause k] is the error of the context when it is looked at for
    the [k]-th time. *)
From stdpp Require Import gmap strings list sorting.
From Stdlib Require Import ZArith Lia Ascii.
From S2P Require Import Prelude GoBase Sha256 Json Types Scope Config State Persistent Sqlite Delivery SqliteStore Configutil Manifest Nsmigrate Flags Http HttpStore HttpSqlite Tools.

Module SyntheticReport.
Record t := mk { Authority : string; Identities : Z; Conversations : Z; Messages : Z }.
End SyntheticReport.

Definition syntheticRegistrationSecret (agentID : string) : string :=
  "fabricated-registration-secret:"%stdpp +:+ agentID.

Definition legacyScope (a : Authority) : Scope :=
  match a with AuthorityJK => ScopePersonal | AuthorityUCLA => ScopeUCLA end.

(** [%03d] of a number that is not negative. *)
Definition Sprintf_03d (n : Z) : string := of_bytes (zero_pad 3 (decimal n)).

(** ** The plan of the database *)

Definition scope_of (a : Authority) (identity : string) : string :=
  match explicitScope identity with
  | Some scope => scope
  | None => match a with AuthorityJK => "personal"%stdpp | AuthorityUCLA => Authority_string a end
  end.

Definition add_member (a : Authority) (groups : gmap string (list string)) (identity : string)
    : gmap string (list string) :=
  <[scope_of a identity := default [] (groups !! scope_of a identity) ++ [identity]]> groups.

Definition groups_of (a : Authority) (selected : list mapping) : gmap string (list string) :=
  merge_sort String.le <$> foldl (add_member a) ∅ ((λ m, SourceID (row m)) <$> selected).

Definition shared_agents (a : Authority) (selected : list mapping) : list string :=
  filter (λ id, scope_of a id = "shared"%stdpp) ((λ m, SourceID (row m)) <$> selected).

Definition sorted_identities (selected : list mapping) : list string :=
  merge_sort String.le ((λ m, SourceID (row m)) <$> selected).

Definition groupNames (groups : gmap string (list string)) : list string :=
  merge_sort String.le (elements (dom groups)).

(** The pairs of sender and target, in the order of the loops. *)
Definition ring (members : list string) : list (string * string) :=
  imap (λ i sender, (sender, default ε (members !! ((i + 1) mod length members)%nat))) members.

Definition letters (groups : gmap string (list string)) : list (string * (string * string)) :=
  groupNames groups ≫= λ scope, (λ p, (scope, p)) <$> ring (default [] (groups !! scope)).

(** ** Filling the store *)

Section fill.
Context {Σ : Type} `{API Σ} (Quote : string → string) (cause : nat → option string).

Definition error_text (e : ApiError) : string :=
  match e with BusE e => Error_text e | PlainE text => text end.

Definition registration_input (identity : string) : RegisterAgentInput.t :=
  RegisterAgentInput.mk identity (syntheticRegistrationSecret identity) [] [] ["synthetic-rehearsal"%stdpp] ε
    "fabricated namespace migration fixture"%stdpp "worker"%stdpp ε None
    (Some (AgentMeta.mk "synthetic-only"%stdpp "github.com/joelkehle/pinakes"%stdpp ε []))
    "pull"%stdpp ε 3600.

Definition write_secret (identity secret : string) (s : Σ) : Σ * option string :=
  match API_secrets with Some ss => SetAgentSecret ss identity secret s | None => (s, None) end.

(** From the identity at position [index] on. *)
Fixpoint register_all (index : Z) (k : nat) (identities : list string) (s : Σ) : Σ * option string :=
  match identities with
  | [] => (s, None)
  | identity :: identities =>
      match cause k with
      | Some err => (s, Some err)
      | None =>
          match API_RegisterAgent (registration_input identity) s with
          | (s, Err e) =>
              (s, Some ("register synthetic identity "%stdpp +:+ Quote identity +:+ ": "%stdpp +:+ error_text e))
          | (s, Ok _) =>
              match write_secret identity ("synthetic-secret-"%stdpp +:+ Sprintf_03d (index + 1)) s with
              | (s, Some err) =>
                  (s, Some ("set synthetic secret for "%stdpp +:+ Quote identity +:+ ": "%stdpp +:+ err))
              | (s, None) => register_all (index + 1) (S k) identities s
              end
          end
      end
  end.

Definition synthetic_conversation (scope : string) (sequence : Z) : string :=
  "synthetic-"%stdpp +:+ scope +:+ "-"%stdpp +:+ Sprintf_03d sequence.

Definition conversation_input (scope sender target : string) (sequence : Z) : CreateConversationInput.t :=
  CreateConversationInput.mk (synthetic_conversation scope sequence) "fabricated migration rehearsal"%stdpp
    (if bool_decide (target = sender) then [sender] else [sender; target])
    (JObj [("synthetic"%stdpp, JBool true); ("protected_identity_text"%stdpp, JString sender)]) ε.

Definition message_input (scope sender target : string) (sequence : Z) : SendMessageInput.t :=
  SendMessageInput.mk target sender (synthetic_conversation scope sequence)
    ("synthetic-request-"%stdpp +:+ Sprintf_03d sequence) "inform"%stdpp
    ("fabricated content; identity text must not be rewritten: "%stdpp +:+ sender)
    (JObj [("synthetic"%stdpp, JBool true); ("protected_identity_text"%stdpp, JString target)]) [] 0 ε.

(** One pass of the inner loop: a conversation, a message, and the two polls that
    read and acknowledge it. *)
Definition exchange (scope sender target : string) (sequence : Z) (s : Σ) : Σ * option string :=
  match API_CreateConversation (conversation_input scope sender target sequence) s with
  | (s, Err e) =>
      (s, Some ("create synthetic conversation "%stdpp +:+ Quote (synthetic_conversation scope sequence)
                +:+ ": "%stdpp +:+ error_text e))
  | (s, Ok _) =>
      match API_SendMessage (message_input scope sender target sequence) s with
      | (s, Err e) =>
          (s, Some ("send synthetic message "%stdpp +:+ FormatInt sequence +:+ ": "%stdpp +:+ error_text e))
      | (s, Ok (message, _)) =>
          match API_PollInbox (PollInboxInput.mk target 0 0 0) s with
          | (s, Err e) =>
              (s, Some ("poll synthetic inbox "%stdpp +:+ Quote target +:+ ": "%stdpp +:+ error_text e))
          | (s, Ok (events, cursor)) =>
              if negb (bool_decide (InboxEvent.MessageID <$> last events = Some (Message.MessageID message))) then
                (s, Some ("synthetic delivery "%stdpp +:+ Quote (Message.MessageID message)
                          +:+ " was not observable"%stdpp))
              else
              match API_PollInbox (PollInboxInput.mk target cursor 0 0) s with
              | (s, Err e) =>
                  (s, Some ("advance synthetic cursor "%stdpp +:+ Quote target +:+ ": "%stdpp +:+ error_text e))
              | (s, Ok _) => (s, None)
              end
          end
      end
  end.

(** [done] exchanges were made; the count at the end with the error, if any. *)
Fixpoint exchange_all (done : Z) (k : nat) (l : list (string * (string * string))) (s : Σ)
    : Σ * Z * option string :=
  match l with
  | [] => (s, done, None)
  | (scope, (sender, target)) :: l =>
      match cause k with
      | Some err => (s, done, Some err)
      | None =>
          match exchange scope sender target (done + 1) s with
          | (s, Some err) => (s, done, Some err)
          | (s, None) => exchange_all (done + 1) (S k) l s
          end
      end
  end.

Definition fill (a : Authority) (selected : list mapping) (s : Σ) : Σ * SyntheticReport.t * option string :=
  let identities := sorted_identities selected in
  match register_all 0 0 identities s with
  | (s, Some err) => (s, SyntheticReport.mk (Authority_string a) 0 0 0, Some err)
  | (s, None) =>
      let '(s, n, err) := exchange_all 0 (length identities) (letters (groups_of a selected)) s in
      (s, SyntheticReport.mk (Authority_string a) (Z.of_nat (length identities)) n n, err)
  end.

End fill.

(** ** The database file *)

(** [2026-08-08T12:00:00Z] *)
Definition synthetic_now : Time := (unix_epoch + 1786190400) * Second.

Definition synthetic_config (a : Authority) (selected : list mapping) (controlPlane : list string) : Config.t :=
  Config.mk 0 0 0 0 0 0 0 0 0 0 0 0 0 0 0 0 (-1) (-1) (-1) (-1) 0
    (Some NamespaceModeCompat) (Some (legacyScope a)) (shared_agents a selected) controlPlane
    (list_to_map (reverse ((λ id, (id, Sum256 (syntheticRegistrationSecret id))) <$> controlPlane))).

Record SyntheticEnv := mkSyntheticEnv {
  sy_lstat : result string bool;
  sy_mkdir : option string;
  sy_cause : nat → option string;
  sy_human : string;
  sy_hash_order : list string;
  sy_receipts : list (string * string * string);
  sy_open : Sqlite.Faults;
  sy_env : nat → SQLiteStore → SqlEnv;
  sy_close : Sqlite.Faults;
  sy_timed_out : bool;
  sy_removed : bool }.

Section generate.
Context (Quote : string → string) (describe : DBError → string) (describe_open : OpenError → string).
Context (range : gset string → list string).

(** [(e *RefusalError) Error()] *)
Definition NsError_text (e : NsError) : string :=
  match e with
  | RefusalError (r :: _) => "migration refused: "%stdpp +:+ r_detail r
  | RefusalError [] => "migration refused"%stdpp
  | PlainError text => text
  end.

(** [errors.Join] *)
Definition close_text (e : option string * option DBError) : option string :=
  match e with
  | (None, None) => None
  | (Some a, None) => Some a
  | (None, Some b) => Some (describe b)
  | (Some a, Some b) => Some (a +:+ String "010"%char (describe b))
  end.

(** The report or the error, and what the path holds afterwards. *)
Definition GenerateSyntheticDB (y : SyntheticEnv) (manifest : list ManifestRow) (authority dbPath : string)
    (controlPlane : list string) (file : option Tables)
    : result string SyntheticReport.t * option Tables :=
  match ParseAuthority Quote authority with
  | Err err => (Err err, file)
  | Ok a =>
      if is_empty dbPath then (Err "--db is required"%stdpp, file) else
      match sy_lstat y with
      | Err err => (Err ("stat synthetic database destination: "%stdpp +:+ err), file)
      | Ok true => (Err "synthetic database destination already exists"%stdpp, file)
      | Ok false =>
          match sy_mkdir y with
          | Some err => (Err ("create synthetic database directory: "%stdpp +:+ err), file)
          | None =>
              let selected := (selectMappings manifest a (newReport (Options.mk ε ε false false []))).1 in
              if (length selected =? 0)%nat then
                (Err ("manifest has no rows for authority "%stdpp +:+ authority), file)
              else
              match validateControlPlaneAgreement Quote range selected controlPlane with
              | Some e => (Err (NsError_text e), file)
              | None =>
                  match NewSQLiteStore (sy_hash_order y) (sy_human y) (synthetic_config a selected controlPlane)
                          (mkStartClock synthetic_now synthetic_now synthetic_now) (sy_receipts y) (sy_open y)
                          (default emptyTables file) with
                  | (Err e, t) =>
                      (Err ("create synthetic sqlite store: "%stdpp +:+ describe_open e),
                       match e with SqliteStore.InvalidConfiguration _ => file | OpenFailure _ => Some t end)
                  | (Ok (E, q), _) =>
                      let '((n, q), report, err) :=
                        fill (H := sqlite_API E ε (sy_env y) describe) Quote (sy_cause y) a selected (O, q) in
                      let '(q, closeErr) := Close (sy_close y) synthetic_now (sy_timed_out y) q in
                      match err, close_text closeErr with
                      | Some err, _ => (Err err, if sy_removed y then None else Some (db q))
                      | None, Some err => (Err ("close synthetic sqlite store: "%stdpp +:+ err), Some (db q))
                      | None, None => (Ok report, Some (db q))
                      end
                  end
              end
          end
      end
  end.

Context (pair_range : gmap string pair → list string).
Context (open_manifest : string → result string (CsvInput * option string)).

Definition fixture_flags : gmap string FlagKind := flag_set ["db"; "manifest"; "authority"]%stdpp [].

(** [run] of [cmd/pinakes-migrate-fixture]. *)
Definition fixture_run (y : SyntheticEnv) (getenv : string → string)
    (write_report : SyntheticReport.t → option string) (args : list string) (file : option Tables)
    : Z * option SyntheticReport.t * option Tables :=
  match parse_flags fixture_flags ∅ args with
  | Err _ => (2, None, file)
  | Ok (values, rest) =>
      let dbPath := string_flag values "db"%stdpp in
      let manifestPath := string_flag values "manifest"%stdpp in
      if negb (length rest =? 0)%nat || is_empty dbPath || is_empty manifestPath then (2, None, file) else
      match ParseAuthority Quote (string_flag values "authority"%stdpp) with
      | Err _ => (2, None, file)
      | Ok a =>
          match read_manifest Quote pair_range open_manifest manifestPath with
          | Err _ => (1, None, file)
          | Ok manifest =>
              match GenerateSyntheticDB y manifest (Authority_string a) dbPath
                      (SplitCSV (getenv "CONTROL_PLANE_AGENTS"%stdpp)) file with
              | (Err _, file) => (1, None, file)
              | (Ok report, file) =>
                  match write_report report with
                  | Some _ => (1, None, file)
                  | None => (0, Some report, file)
                  end
              end
          end
      end
  end.
End generate.
