(* ===== verification/SyntheticProps.v ===== *)
(** * Properties of the fabricated databases

    The generator never replaces a file and leaves none behind that is half
    filled; what it reports is what it made: every identity of the manifest is
    registered and sends one message, to a member of its own scope. *)
From stdpp Require Import gmap strings list sorting.
From Stdlib Require Import ZArith Lia Ascii.
From S2P Require Import Prelude GoBase Sha256 Json Types Scope Config State Sweep Scenario Persistent Sqlite Delivery SqliteStore Configutil Manifest ManifestProps Nsmigrate NsmigrateSpec NsmigrateProps Flags Http HttpStore HttpSqlite Tools Synthetic.

(** ** The plan *)

Lemma merge_sort_perm (l : list string) : merge_sort String.le l ≡ₚ l.
Proof. apply merge_sort_Permutation. Qed.

(** The members of all groups are the identities. *)
Lemma bind_perm {A B} (f : A → list B) (l k : list A) : l ≡ₚ k → l ≫= f ≡ₚ k ≫= f.
Proof. intros H. by rewrite H. Qed.

Definition members (groups : gmap string (list string)) : list string := map_to_list groups ≫= snd.

Lemma members_insert groups k x :
  members (<[k := default [] (groups !! k) ++ [x]]> groups) ≡ₚ x :: members groups.
Proof.
  unfold members. rewrite <-(insert_delete_eq groups k).
  rewrite (bind_perm _ _ _ (map_to_list_insert (delete k groups) k _ (lookup_delete_eq _ _))). cbn.
  destruct (groups !! k) as [l|] eqn:Hk; cbn.
  - rewrite <-(bind_perm snd _ _ (map_to_list_delete groups k l Hk)). cbn.
    by rewrite <-app_assoc, Permutation_middle.
  - by rewrite delete_id.
Qed.

Lemma members_fold a l : ∀ groups, members (foldl (add_member a) groups l) ≡ₚ l ++ members groups.
Proof.
  induction l as [|x l IH]; intros groups; [done|]. cbn [foldl]. rewrite IH. unfold add_member.
  rewrite members_insert. symmetry. apply Permutation_middle.
Qed.

Lemma members_sorted groups : members (merge_sort String.le <$> groups) ≡ₚ members groups.
Proof.
  unfold members. rewrite map_to_list_fmap. induction (map_to_list groups) as [|[k l] ls IH]; [done|]. cbn.
  by rewrite merge_sort_perm, IH.
Qed.

Lemma ring_senders l : (ring l).*1 = l.
Proof.
  unfold ring. apply list_eq. intros i. rewrite list_lookup_fmap, list_lookup_imap. by destruct (l !! i).
Qed.

Lemma ring_targets l p : p ∈ ring l → p.2 ∈ l.
Proof.
  unfold ring. intros (i & x & -> & Hx)%elem_of_lookup_imap. cbn.
  assert (i < length l)%nat as Hi by by eapply lookup_lt_Some.
  destruct (lookup_lt_is_Some_2 l ((i + 1) mod length l)%nat) as [y Hy]; [apply Nat.mod_upper_bound; lia|].
  rewrite Hy. cbn. by eapply list_elem_of_lookup_2.
Qed.

Lemma dom_perm (groups : gmap string (list string)) : elements (dom groups) ≡ₚ (map_to_list groups).*1.
Proof.
  apply NoDup_Permutation; [apply NoDup_elements|apply NoDup_fst_map_to_list|]. intros k.
  rewrite elem_of_elements, elem_of_dom, list_elem_of_fmap. split.
  - intros [l Hl]. exists (k, l). by rewrite elem_of_map_to_list.
  - intros ([k' l] & -> & Hl%elem_of_map_to_list). by exists l.
Qed.

(** Every identity of the manifest sends once. *)
Lemma letters_senders a selected :
  (letters (groups_of a selected)).*2.*1 ≡ₚ (λ m, SourceID (row m)) <$> selected.
Proof.
  set (ids := (λ m, SourceID (row m)) <$> selected). unfold letters, groupNames.
  transitivity (members (groups_of a selected)).
  - set (g := groups_of a selected).
    transitivity (elements (dom g) ≫= λ k, default [] (g !! k)).
    + rewrite <-(bind_perm _ _ _ (merge_sort_perm (elements (dom g)))).
      induction (merge_sort String.le (elements (dom g))) as [|k ks IH]; [done|]. cbn.
      rewrite !fmap_app, IH, <-!list_fmap_compose. apply Permutation_app_tail.
      change (fst ∘ (snd ∘ λ p, (k, p))) with (@fst string string). by rewrite ring_senders.
    + unfold members. rewrite (bind_perm _ _ _ (dom_perm g)).
      assert (Forall (λ p, g !! p.1 = Some p.2) (map_to_list g)) as Hall.
      { apply Forall_forall. by intros [k l] Hkl%elem_of_map_to_list. }
      induction Hall as [|p ps Hp _ IH]; [done|]. cbn. by rewrite Hp, IH.
  - unfold groups_of. rewrite members_sorted, members_fold. unfold members. rewrite map_to_list_empty. cbn. by rewrite app_nil_r.
Qed.

(** Every letter stays in the scope it is filed under. *)
Lemma letters_targets groups scope sender target :
  (scope, (sender, target)) ∈ letters groups → target ∈ default [] (groups !! scope).
Proof.
  unfold letters. intros (k & Hin & _)%list_elem_of_bind. apply list_elem_of_fmap in Hin as (p & [= -> <-] & Hp).
  by apply ring_targets in Hp.
Qed.

(** ** The report *)

Section report.
Context {Σ : Type} `{API Σ} (Quote : string → string) (cause : nat → option string).

Lemma exchange_all_count l : ∀ n k s s' n', exchange_all Quote cause n k l s = (s', n', None) → n' = n + Z.of_nat (length l).
Proof.
  induction l as [|[scope [sender target]] l IH]; intros n k s s' n'; cbn [exchange_all length].
  - intros [= _ <-]. lia.
  - destruct (cause k); [done|]. destruct (exchange _ _ _ _ _ s) as [s1 [e|]]; [done|]. intros Hr. apply IH in Hr. lia.
Qed.

Lemma fill_report a selected s s' r :
  fill Quote cause a selected s = (s', r, None) →
  r = SyntheticReport.mk (Authority_string a) (Z.of_nat (length selected)) (Z.of_nat (length selected))
        (Z.of_nat (length selected)).
Proof.
  unfold fill. destruct (register_all _ _ _ _ _ s) as [s1 [e|]]; [done|].
  destruct (exchange_all _ _ _ _ _ s1) as [[s2 n] err] eqn:He. intros [= -> <- ->].
  apply exchange_all_count in He.
  assert (length (sorted_identities selected) = length selected) as ->.
  { unfold sorted_identities. by rewrite merge_sort_perm, length_fmap. }
  assert (length (letters (groups_of a selected)) = length selected) as Hl.
  { pose proof (Permutation_length (letters_senders a selected)) as Hp. by rewrite !length_fmap in Hp. }
  rewrite Hl in He. by subst n.
Qed.
End report.

(** ** The file *)

Section generate.
Context (Quote : string → string) (describe : DBError → string) (describe_open : OpenError → string).
Context (range : gset string → list string).

(** A file that is there is left alone, a run that fails while it fills the
    database leaves none, and the report of one that does not fail is right. *)
Theorem generate_is_clean y manifest authority dbPath controlPlane file :
  sy_lstat y = Ok (bool_decide (is_Some file)) → sy_removed y = true →
  let '(r, file') := GenerateSyntheticDB Quote describe describe_open range y manifest authority dbPath controlPlane file in
  match r with
  | Err e => file' = file ∨ file = None ∧ ∃ x, e = "create synthetic sqlite store: "%stdpp +:+ x ∨
                                              e = "close synthetic sqlite store: "%stdpp +:+ x
  | Ok report =>
      file = None ∧ is_Some file' ∧ ∃ a, authority = Authority_string a ∧
        let n := Z.of_nat (length (selection manifest a)) in report = SyntheticReport.mk authority n n n ∧ 0 < n
  end.
Proof.
  intros Hl Hrm. unfold GenerateSyntheticDB. rewrite Hl, Hrm.
  destruct (ParseAuthority Quote authority) as [a|e] eqn:Ha; [|by left]. apply ParseAuthority_Ok in Ha.
  destruct (is_empty dbPath); [by left|]. destruct file as [t0|]; cbn [bool_decide].
  { rewrite bool_decide_eq_true_2 by by eexists. by left. }
  rewrite bool_decide_eq_false_2 by by intros [].
  destruct (sy_mkdir y); [by left|]. rewrite (proj1 (selectMappings_run manifest a _)). cbn [fst].
  destruct (length _ =? 0)%nat eqn:Hn; [by left|]. destruct (validateControlPlaneAgreement _ _ _ _); [by left|].
  destruct (NewSQLiteStore _ _ _ _ _ _ _) as [[[E q]|e] t]; [|right; split; [done|eexists; by left]].
  destruct (fill Quote _ _ _ _) as [[[n q1] report] err] eqn:Hf.
  destruct (Close _ _ _ q1) as [q2 closeErr]. destruct err as [err|]; [by left|].
  destruct (close_text _ closeErr) as [err|]; [right; split; [done|eexists; by right]|].
  split_and!; [done|by eexists|]. exists a. split; [done|]. cbv zeta.
  apply fill_report in Hf as ->. rewrite length_fmap in *. subst authority. split; [done|].
  apply Nat.eqb_neq in Hn. lia.
Qed.
End generate.

(** *** The fleet of [NsmigrateProps] *)

Definition calm (n : nat) (q : SQLiteStore) : SqlEnv :=
  let o := order_of (inner q) in
  mkSqlEnv (mkEnv synthetic_now synthetic_now o (elements (dom (agents (inner q))))
              (elements (dom (State.conversations (inner q)))) [] NoFault)
    synthetic_now id
    (mkRound o synthetic_now synthetic_now synthetic_now synthetic_now synthetic_now no_faults id) []
    (elements (dom (t_agents (db q)))) no_faults.

Definition clean_site : SyntheticEnv :=
  mkSyntheticEnv (Ok false) None (λ _, None) ε ["hub"%stdpp] [] no_faults calm no_faults false true.

Lemma generate_is_clean_witness :
  ∃ t, GenerateSyntheticDB id (λ _, ε) (λ _, ε) elements clean_site fleet "jk"%stdpp "new.db"%stdpp ["hub"%stdpp] None
       = (Ok (SyntheticReport.mk "jk"%stdpp 4 4 4), Some t).
Proof.
  pose proof (generate_is_clean id (λ _, ε) (λ _, ε) elements clean_site fleet "jk"%stdpp "new.db"%stdpp ["hub"%stdpp] None
    eq_refl eq_refl) as H.
  set (x := GenerateSyntheticDB _ _ _ _ _ _ _ _ _ _) in *.
  assert (match x.1 with Ok _ => True | Err _ => False end) as Hok by (vm_compute; exact I).
  revert H Hok. generalize x. intros [[r|e] file'] H Hok; [|destruct Hok].
  destruct H as (_ & [t ->] & a & Ha & -> & _). exists t. f_equal. f_equal. destruct a; [reflexivity|discriminate Ha].
Defined.
