(* ===== verification/Rehearsal.v ===== *)
(** * The strict-mode rehearsal: [cmd/pinakes-empty-strict-rehearsal]

    The command starts the handler over a new SQLite store and drives it by
    requests.  [rehearse] is the part after the handler has started, over any
    store; [registration_body] is [json.Marshal] of the registration map. *)
From stdpp Require Import gmap strings list.
From Stdlib Require Import ZArith Lia Ascii.
From S2P Require Import Prelude GoBase Sha256 Json Types Text Config State Persistent Sqlite Delivery SqliteStore Configutil Flags Http Handlers HttpStore HttpSqlite Synthetic SyntheticProps.

Module rehearsalReport.
Record t := mk {
  Status : string;
  NamespaceMode : string;
  EmptyBeforeRegistration : bool;
  RegisteredAgents : list string;
  UnlistedUnprefixedRejected : bool;
  DistinctSyntheticSecrets : bool;
  ControlPlaneAllScopes : bool;
  WrongCredentialRejected : bool;
  MissingCredentialRejected : bool }.
End rehearsalReport.

Definition syntheticControlPlaneSecret (agentID : string) : string :=
  "fabricated-empty-store-control-plane-secret:"%stdpp +:+ agentID.

Definition rehearsal_secret (controlPlane : list string) (index : Z) (agentID : string) : string :=
  if bool_decide (agentID ∈ controlPlane) then syntheticControlPlaneSecret agentID
  else "synthetic-registration-secret-"%stdpp +:+ Sprintf_03d (index + 1).

Definition unlisted_input : RegisterAgentInput.t :=
  RegisterAgentInput.mk "synthetic-unlisted"%stdpp ε [] [] [] ε ε ε ε None None "pull"%stdpp ε 0.

(** [r.Header.Get] of the request [register] makes. *)
Definition register_headers (name : string) : string :=
  if bool_decide (name = "Content-Type"%stdpp) then "application/json"%stdpp else ε.

Section rehearsal.
Context {Σ : Type} `{API Σ} `{Decoder} (options : Options) (MarshalData : json → option string).
Context (registration_body : string → string → string).

Definition register_request (agentID secret : string) : Request :=
  mkRequest POST "/v1/agents/register"%stdpp ε register_headers
    (Some (mkBody (registration_body agentID secret) None)) true.

(** The status of the response. *)
Definition register (agentID secret : string) (srv : Server Σ) : Server Σ * Z :=
  let '(srv, response) := ServeHTTP options MarshalData [] (register_request agentID secret) srv in
  (srv, status response).

Definition list_agents (srv : Server Σ) : Server Σ * list Agent.t :=
  let '(s, agents) := API_ListAgents ε (store srv) in (set_store s srv, agents).

(** The probes of the control plane: whether every wrong and every missing
    credential was rejected. *)
Fixpoint probe (controlPlane : list string) (wrong missing : bool) (srv : Server Σ) : Server Σ * (bool * bool) :=
  match controlPlane with
  | [] => (srv, (wrong, missing))
  | agentID :: controlPlane =>
      let '(srv, status) := register agentID "fabricated-wrong-control-plane-secret"%stdpp srv in
      let wrong := wrong && (status =? 401) in
      let '(srv, status) := register agentID ε srv in
      let missing := missing && (status =? 400) in
      probe controlPlane wrong missing srv
  end.

(** The registrations, from position [index] on; [None] when one is refused. *)
Fixpoint register_fleet (controlPlane : list string) (index : Z) (seen : gset string) (registered agents : list string)
    (srv : Server Σ) : Server Σ * option (list string) :=
  match agents with
  | [] => (srv, Some registered)
  | agentID :: agents =>
      if bool_decide (agentID ∈ seen) then register_fleet controlPlane (index + 1) seen registered agents srv
      else
        let '(srv, status) := register agentID (rehearsal_secret controlPlane index agentID) srv in
        if negb (status =? 200) then (srv, None)
        else register_fleet controlPlane (index + 1) ({[agentID]} ∪ seen) (registered ++ [agentID]) agents srv
  end.

Definition holds_all_scopes (controlPlane : list string) (agents : list Agent.t) : bool :=
  existsb (λ a, bool_decide (Agent.AgentID a ∈ controlPlane)
                && bool_decide (join ","%stdpp (Agent.AllowedScopes a) = "personal,ucla,shared"%stdpp)) agents.

(** From the empty store on: the report, or nothing when the command gives up
    before it has one. *)
Definition rehearse (controlPlane agents : list string) (emptyBefore : bool) (srv : Server Σ)
    : option rehearsalReport.t * Server Σ :=
  let '(srv, (wrong, missing)) := probe controlPlane true true srv in
  let '(srv, present) := list_agents srv in
  if negb (length present =? 0)%nat then (None, srv) else
  let '(srv, registered) := register_fleet controlPlane 0 ∅ [] agents srv in
  match registered with
  | None => (None, srv)
  | Some registered =>
      let '(s, unlisted) := API_RegisterAgent unlisted_input (store srv) in
      let srv := set_store s srv in
      let secrets := match API_secrets with
                     | Some ss => AgentSecrets ss (store srv)
                     | None => Ok ∅
                     end in
      match secrets with
      | Err _ => (None, srv)
      | Ok secrets =>
          let uniqueSecrets : gset string := list_to_set ((λ id, default ε (secrets !! id)) <$> registered) in
          let distinct := bool_decide (size uniqueSecrets = length registered) in
          let '(srv, present) := list_agents srv in
          let allScopes := holds_all_scopes controlPlane present in
          let refused := match unlisted with Err _ => true | Ok _ => false end in
          let passed := emptyBefore && refused && distinct && allScopes && wrong && missing in
          (Some (rehearsalReport.mk (if passed then "passed" else "refused")%stdpp "strict"%stdpp emptyBefore
                   registered refused distinct allScopes wrong missing), srv)
      end
  end.
End rehearsal.

(** ** The command *)

Definition rehearsal_config (controlPlane : list string) : Config.t :=
  Config.mk 0 0 0 0 0 0 0 0 0 0 0 0 0 0 0 0 0 0 0 0 0 (Some Types.NamespaceModeStrict) None [] controlPlane
    (list_to_map (reverse ((λ id, (id, Sum256 (syntheticControlPlaneSecret id))) <$> controlPlane))).

Record RehearsalEnv := mkRehearsalEnv {
  re_lstat : result string bool;
  re_getenv : string → string;
  re_setenv : option string;
  re_read_file : string → result string string;
  re_hash_order : list string;
  re_clock : StartClock;
  re_receipts : list (string * string * string);
  re_open : Sqlite.Faults;
  re_env : nat → SQLiteStore → SqlEnv;
  re_secret_order : gmap string string → list string;
  re_write : rehearsalReport.t → option string }.

Definition rehearsal_flags : gmap string FlagKind := flag_set ["db"; "allowlist"; "agents"]%stdpp [].

Section run.
Context `{Decoder} (MarshalData : json → option string) (registration_body : string → string → string).
Context (Quote : string → string) (describe : DBError → string).

(** The exit status and the report printed, on the file at the path. *)
Definition rehearsal_run (e : RehearsalEnv) (args : list string) (file : option Tables)
    : Z * option rehearsalReport.t :=
  match parse_flags rehearsal_flags ∅ args with
  | Err _ => (2, None)
  | Ok (values, rest) =>
      let dbPath := string_flag values "db"%stdpp in
      let allowlistPath := string_flag values "allowlist"%stdpp in
      let agentsRaw := string_flag values "agents"%stdpp in
      if negb (length rest =? 0)%nat || is_empty dbPath || is_empty allowlistPath || is_empty agentsRaw then (2, None)
      else
      match re_lstat e with
      | Ok true | Err _ => (1, None)
      | Ok false =>
          let controlPlane := SplitCSV (re_getenv e "CONTROL_PLANE_AGENTS"%stdpp) in
          if (length controlPlane =? 0)%nat then (1, None) else
          let agents := SplitCSV agentsRaw ++ controlPlane in
          match NewSQLiteStore (re_hash_order e) (re_getenv e "HUMAN_ALLOWLIST"%stdpp) (rehearsal_config controlPlane)
                  (re_clock e) (re_receipts e) (re_open e) (default emptyTables file) with
          | (Err _, _) => (1, None)
          | (Ok (E, q), _) =>
              let api := sqlite_API E ε (re_env e) describe in
              let '(w, present) := API_ListAgents (API := api) ε (O, q) in
              match re_setenv e with
              | Some _ => (1, None)
              | None =>
                  let getenv k := if bool_decide (k = "ALLOWLIST_FILE"%stdpp) then allowlistPath else re_getenv e k in
                  match NewServerFromEnv (H := api) Quote getenv (re_read_file e) (re_secret_order e) w with
                  | Err _ => (1, None)
                  | Ok (options, srv) =>
                      match (rehearse (H := api) options MarshalData registration_body controlPlane agents
                               (length present =? 0)%nat srv).1 with
                      | None => (1, None)
                      | Some report =>
                          if bool_decide (rehearsalReport.Status report = "passed"%stdpp) then
                            match re_write e report with Some _ => (1, None) | None => (0, Some report) end
                          else (1, None)
                      end
                  end
              end
          end
      end
  end.
End run.

(** ** What a rehearsal that passes says *)

Section passed.
Context {Σ : Type} `{API Σ} `{Decoder} (options : Options) (MarshalData : json → option string).
Context (registration_body : string → string → string).

(** Everyone named is registered, once, in the order of their first mention. *)
Lemma register_fleet_registered controlPlane agents : ∀ index seen registered srv srv' l,
  (∀ a, a ∈ registered ↔ a ∈ seen) → NoDup registered →
  register_fleet options MarshalData registration_body controlPlane index seen registered agents srv = (srv', Some l) →
  NoDup l ∧ ∀ a, a ∈ l ↔ a ∈ registered ∨ a ∈ agents.
Proof.
  induction agents as [|x agents IH]; intros index seen registered srv srv' l Hs Hnd; cbn [register_fleet].
  { intros [= _ <-]. split; [done|]. intros a. rewrite elem_of_nil. tauto. }
  case_bool_decide as Hx.
  - intros Hr. apply IH in Hr as [? Hl]; [|done|done]. split; [done|]. intros a. rewrite Hl, elem_of_cons.
    apply Hs in Hx. naive_solver.
  - destruct (register _ _ _ _ _ srv) as [srv1 status]. destruct (negb _); [done|]. intros Hr.
    apply IH in Hr as [? Hl].
    + split; [done|]. intros a. rewrite Hl, elem_of_app, list_elem_of_singleton, elem_of_cons. tauto.
    + intros a. rewrite elem_of_app, elem_of_union, Hs, list_elem_of_singleton, elem_of_singleton. tauto.
    + apply NoDup_app. split; [done|]. split; [|apply NoDup_singleton]. intros a Ha ->%list_elem_of_singleton. by apply Hx, Hs.
Qed.

Lemma probe_passed controlPlane : ∀ wrong missing srv srv',
  probe options MarshalData registration_body controlPlane wrong missing srv = (srv', (true, true)) →
  wrong = true ∧ missing = true ∧ ∀ a, a ∈ controlPlane → ∃ s1 s2,
    (register options MarshalData registration_body a "fabricated-wrong-control-plane-secret"%stdpp s1).2 = 401 ∧
    (register options MarshalData registration_body a ε s2).2 = 400.
Proof.
  induction controlPlane as [|x l IH]; intros wrong missing srv srv'; cbn [probe].
  { intros [= _ -> ->]. split_and!; [done|done|]. intros a Ha. by apply elem_of_nil in Ha. }
  destruct (register _ _ _ _ _ srv) as [srv1 st1] eqn:E1. destruct (register _ _ _ _ _ srv1) as [srv2 st2] eqn:E2.
  intros Hp. apply IH in Hp as (Hw & Hm & Hall). apply andb_true_iff in Hw as [-> Hw], Hm as [-> Hm].
  apply Z.eqb_eq in Hw, Hm. split_and!; [done|done|]. intros a [->|Ha]%elem_of_cons; [|by apply Hall].
  exists srv, srv1. by rewrite E1, E2.
Qed.

(** A report that says passed: the store was empty and stayed empty under the
    probes, each of which was rejected the way it must be; everyone named was
    registered once, with a secret of their own; an unlisted name was refused. *)
Lemma rehearse_passed controlPlane agents emptyBefore srv r srv' :
  rehearse options MarshalData registration_body controlPlane agents emptyBefore srv = (Some r, srv') →
  rehearsalReport.Status r = "passed"%stdpp →
  emptyBefore = true ∧ rehearsalReport.UnlistedUnprefixedRejected r = true ∧
  NoDup (rehearsalReport.RegisteredAgents r) ∧ (∀ a, a ∈ rehearsalReport.RegisteredAgents r ↔ a ∈ agents) ∧
  ∀ a, a ∈ controlPlane → ∃ s1 s2,
    (register options MarshalData registration_body a "fabricated-wrong-control-plane-secret"%stdpp s1).2 = 401 ∧
    (register options MarshalData registration_body a ε s2).2 = 400.
Proof.
  unfold rehearse. destruct (probe _ _ _ _ _ _ srv) as [srv1 [wrong missing]] eqn:Hp.
  destruct (list_agents srv1) as [srv2 present]. destruct (negb _); [done|].
  destruct (register_fleet _ _ _ _ _ _ _ _ srv2) as [srv3 [l|]] eqn:Hf; [|done].
  destruct (API_RegisterAgent _ _) as [s unlisted].
  set (secrets := match API_secrets with Some ss => _ | None => _ end). destruct secrets as [secrets'|]; [|done].
  destruct (list_agents _) as [srv4 present']. cbv zeta. intros [= <- _]. cbn.
  destruct (emptyBefore && _ && _ && _ && wrong && missing) eqn:Hb; [intros _|done].
  rewrite !andb_true_iff in Hb. destruct Hb as [[[[[-> Hu] _] _] ->] ->].
  apply register_fleet_registered in Hf as [Hnd Hl]; [|set_solver|apply NoDup_nil_2].
  apply probe_passed in Hp as (_ & _ & Hprobe).
  split_and!; [done|done|done|intros a; rewrite Hl, elem_of_nil; tauto|done].
Qed.
End passed.

(** *** One ordinary agent and one of the control plane *)

(** Bodies with the identity and the secret on two lines. *)
Definition two_lines (agentID secret : string) : string := agentID +:+ newline +:+ secret.
Definition two_line_decoder : Decoder := {|
  decode_register blob :=
    let '(agentID, secret, _) := Cut blob "010"%char in
    Ok (RegisterAgentInput.mk agentID secret [] [] [] ε ε ε ε None None "pull"%stdpp ε 60);
  decode_conversation _ := Err ε; decode_message _ := Err ε; decode_ack _ := Err ε;
  decode_event _ := Err ε; decode_inject _ := Err ε |}.

Definition rehearsal_env (allowlist : string) : RehearsalEnv :=
  mkRehearsalEnv (Ok false) (λ k, if bool_decide (k = "CONTROL_PLANE_AGENTS"%stdpp) then "hub"%stdpp else ε) None
    (λ _, Ok allowlist) ["hub"%stdpp] (mkStartClock synthetic_now synthetic_now synthetic_now) [] no_faults calm
    (λ m, elements (dom m)) (λ _, None).

Definition rehearsal_args : list string :=
  ["--db"; "new.db"; "--allowlist"; "allow.txt"; "--agents"; "ucla.planner"]%stdpp.

(** It passes when the allowlist names both, and not when it leaves one out. *)
Example rehearsal_passes :
  rehearsal_run (H := two_line_decoder) (λ _, None) two_lines id (λ _, ε)
    (rehearsal_env ("hub"%stdpp +:+ newline +:+ "ucla.planner"%stdpp)) rehearsal_args None
  = (0, Some (rehearsalReport.mk "passed" "strict" true ["ucla.planner"; "hub"] true true true true true))%stdpp ∧
  rehearsal_run (H := two_line_decoder) (λ _, None) two_lines id (λ _, ε)
    (rehearsal_env "hub"%stdpp) rehearsal_args None = (1, None).
Proof. split; vm_compute; reflexivity. Qed.
